(* ===== verification/_CoqProject ===== *)
-Q . S2P
Prelude.v
Mmu.v
Memory.v
Kalloc.v
Paging.v
Replacement.v
PageTable.v
Swap.v
Demand.v
AddressSpace.v
Spinlock.v
Proc.v
ProcInv.v
Sleeplock.v
Bio.v
Log.v
Fs.v
FileData.v
Grep.v
Pipe.v
File.v
Syscall.v
Sysfile.v
FileInv.v
Sh.v
Console.v
SwapFile.v
SwapData.v
Sysproc.v
Umalloc.v
Ulib.v
Ide.v
Kbd.v
Trap.v
Exec.v
ShRun.v
Mkfs.v
Boot.v
Mp.v
Apic.v
Uprogs.v
