(* ===== verification/Prelude.v ===== *)
(** * xv6 with demand paging: a verification development

    The sources under src/ are a teaching kernel for the x86 with a file system
    on a write-ahead log, extended with demand paging: a process keeps at most
    sixteen pages in memory and the others in a swap file of its own, and one of
    four replacement policies chosen at build time says which page leaves.  This
    library models the kernel from the page allocator and the disk driver up to
    traps, system calls and exec, the boot loader below it, the user library, the
    shell and the user programs above it, and the tool that makes the disk image,
    and proves the properties that make each part correct.

    ** Parts of the program and where they are modelled

    - Prelude: outcomes of C code, machine integers, arrays and their tactics.
    - Mmu (mmu.h, memlayout.h): address arithmetic.
    - Memory (string.c, x86.h): byte-addressed memory and the string routines.
    - Kalloc (kalloc.c): the list of free pages threaded through the pages.
    - Paging (vm.c, proc.h): the metadata of the pages of a process, its page
      queue and the free map of its swap file.
    - Replacement (vm.c): aging, and the choice of a victim under NFUA, LAPA,
      SCFIFO and AQ.
    - PageTable (vm.c): two-level page tables in memory, [walkpgdir],
      [mappages], [copyout] and the flag setters.
    - Swap (vm.c): [pageIn], [pageOut], [safe_page_in], [allocuvm],
      [deallocuvm], [copyuvm], [freevm] and [setupkvm].  The swap file is the
      class [SwapOps] with the laws [SwapLaws] of a bounded file, which SwapData
      proves of the calls of fs.c.
    - Demand, AddressSpace: page faults against the interface of swap files, and
      the lifetime of address spaces.
    - Spinlock (spinlock.c): locks and interrupt masking, split at each access
      to the lock so that processors interleave.
    - Proc, ProcInv (proc.c): the process table, its operations over the class
      [KernelOps] of what they use of the rest of the kernel, and the critical
      sections of [ptable.lock] as steps of a transition system.
    - Sleeplock (sleeplock.c): locks that sleep, under contention.
    - Bio (buf.h, memide.c, bio.c): the disk and the buffer cache.
    - Log (log.c): transactions, commit and recovery.
    - Fs (fs.c, fs.h): bitmap, inodes, file contents, directories, paths.
    - FileData: cache and log seen as an array of blocks, inside a transaction
      and for readers outside any, and files as arrays of bytes over it.
    - Grep (grep.c): the pattern matcher and the loop over the input.
    - Pipe (pipe.c): the ring buffer, with the sleeps and wakeups of its users.
    - File (file.c, pipe.c): open files over inodes, pipes and the allocator.
    - Syscall (syscall.c): arguments in user memory and the dispatch.
    - Sysfile (sysfile.c): the file system calls on descriptors and paths.
    - FileInv: reference counts, pipe ends and pipe pages under these calls.
    - Sh (sh.c): tokens, the recursive-descent parser and NUL termination.
    - Console (console.c): the input ring, the echo and the screen.
    - SwapFile (fs.c): the swap file of a process over the file table.
    - SwapData: these swap files satisfy the laws the pager relies on, through
      the file table, the block map, the log and the cache; page faults with the
      swap file on disk.
    - Sysproc (sysproc.c): the process system calls.
    - Umalloc (umalloc.c): the circular list of free blocks of a program, with
      splitting, coalescing and the growth of the heap.
    - Ulib (ulib.c, printf.c, console.c): the strings of user programs, and the
      two printers with their conversions.
    - Ide (ide.c): the queue of requests, the registers of the controller and
      the interrupt.
    - Kbd (kbd.c, kbd.h, uart.c): scan codes, modifier keys and the serial port.
    - Trap (trap.c, traps.h): the gates and the dispatch of traps.
    - Exec (exec.c, sysfile.c): loading a program, its stack and [sys_exec].
    - ShRun (sh.c): [runcmd] as a tree of system calls on descriptor tables, and
      the main loop.
    - Mkfs (mkfs.c): the sectors of the image file, its inodes and its bitmap.
    - Boot (bootmain.c): sectors to memory, and the segments of the kernel.
    - Mp (mp.c): the search of the BIOS memory and the walk over the table.
    - Apic (lapic.c, ioapic.c, picirq.c): interrupt controllers and the clock.
    - Uprogs (cat.c, wc.c, echo.c, ls.c, rm.c, mkdir.c, ln.c, kill.c): the programs
      over an interface of system calls.

    Upper parts use lower ones as the code does: page faults call the policies,
    the page tables and the allocator; file contents call the cache and the log;
    system calls call files, pipes and paths; the keyboard feeds the console; the
    shell runs what its parser gives.

    ** State and operations

    The globals of a part are a record ([kstate], [p_meta], [kern], [bio], [log],
    [fs], [fkern], [sys], [con], [heap], [ide]) and a C function is a Definition or Fixpoint of
    the same name that takes the state and gives its [outcome]: [Ret] with the
    new state, [Panic] with the message, [Undef] at an access the code does not
    guard, [Sleeps] where only another process can end the wait.  Loops are
    separate fixpoints.  Integers are Z with their wrap-around written out; C
    arrays are lists with checked indices; null pointers are [None] or 0 as in
    the code.

    Single-threaded theorems are on one call; interleaving is modelled by step
    relations for spin locks, sleep locks, the process table, the log
    reservations, pipes and the disk queue.  A step is the code between two
    points where the lock that guards the data is released; what the code does
    before it takes the lock, as the tests of [log_write], is a step of its own.

    ** What the theorems show

    - Memory: allocated pages are exclusive; page tables map exactly what they
      are asked to; under each policy a page fault on a paged-out page of a
      process whose records agree brings it back from the disk and changes no
      page of the process; freeing an address space leaks nothing; the policies
      choose the page their rule says, or what they do instead.
    - Processes: invariant of the process table, no lost wakeup between exit and
      wait, mutual exclusion of both kinds of locks, the child of a fork and
      the table when a fork fails.
    - Storage: commit is atomic under a crash at any disk write, recovery can be
      interrupted and restarted, cached reads are the disk's contents, files are
      byte arrays under writes that find room in the log and on the disk and
      under reads of files without holes; requests of concurrent processes take
      effect on the disk one at a time and in the order they were queued; the image
      mkfs makes is one the file system model reads, with the bytes of its files.
    - Start-up: the boot loader puts every segment of the kernel in memory; the
      processors of the configuration table are found; interrupts are routed to
      the processor a driver asks for.
    - Traps and exec: a fault in user mode that nothing serves ends that process
      and changes nothing else, a trap from user mode panics only if a handler
      it calls does, and a killed process does not return to user mode.  When
      exec succeeds the process starts at the entry of the file with its
      arguments on a new stack; when it fails the process is as it was, except
      that with paging the metadata, the swap file and the counts it had are
      gone once the header has been accepted.
    - Files and pipes: the file table stays well formed under every file system
      call; a pipe is a bounded queue and loses no wakeup of unkilled writers;
      argument checks accept exactly what lies inside the process.
    - Console and user programs: the console is a line discipline that leaves no
      reader asleep with bytes to read, and a line typed on a United States
      keyboard is the line a program reads; blocks of malloc are
      disjoint and malloc and free return; both printers print what the format
      says; the shell parses what its grammar writes, stops on every line and
      connects the programs of a line as the line says; grep matches what a
      pattern means and, of input that comes in whole lines, prints the matching
      ones; cat copies and wc counts
      files in whatever pieces reads deliver them.
    - Theorems about defects of the code, which the manifest lists as findings,
      are stated as what the code does.

    ** Fuel

    Loops that are not structural carry a number of turns that is enough, and
    the theorems show it: a turn per page of a range, per block of a transfer,
    per directory entry, per byte of a path or a line, four nested parser calls
    per byte of a command line, one turn per byte of a console line and one to
    leave, one per free block of the heap, per queued request, per poll of the
    status register until the controller is ready, per digit of a number, per
    sector of a segment, per entry of a table, per byte of a file read or
    written.  Theorems that a call returns are proved with this fuel, so
    [NoFuel] does not occur in them.

    ** Parameters

    The linker's [end], the device switch of the inode layer, what a
    system call handler table holds, the pieces in which grep reads its input, and the
    initial junk of buffers are arguments of the definitions that use them.  The
    disk controller is the class [Controller] with the laws [ControllerLaws] of
    an ATA disk that answers.  [KernelOps], [TrapOps] and [ExecOps] state what
    processes, traps and exec use of the rest of the kernel, whose state the
    models keep in several records; [KernelLaws] and [ExecLaws] say what fork and
    exec rely on there.  Which calls of the kernel fail is an argument of [runcmd].  The local
    APIC, the I/O APIC, the clock ports and the system calls of user programs are
    classes with laws; the files of the host are an argument of mkfs.

    ** Not modelled

    main.c calls the initialisers in order and starts the other processors.  The
    boot sector's assembly, the trap entry, the context switch and the stubs are
    assembly; their effect is in the steps of the scheduler.  init.c and zombie.c
    only fork, wait and execute.  The test programs are drivers of tests, and
    the printing of panic and procdump is left out. *)
From stdpp Require Import base list strings.
From Stdlib Require Import ZArith Lia.

Declare Scope kernel_scope.
Delimit Scope kernel_scope with kernel.
#[global] Open Scope Z_scope.

(** ** Outcomes of kernel code

    A C function that runs to its end gives [Ret]; a call of [panic()] freezes
    the machine and gives [Panic] with its message; an access the C code does
    not guard (a null pointer, an array index out of range) gives [Undef]; a
    call of [sleep()] that only another process could end gives [Sleeps]; a loop
    cut by the fuel of the model gives [NoFuel]. *)
Inductive outcome (A : Type) : Type :=
| Ret (a : A)
| Panic (msg : string)
| Undef (what : string)
| Sleeps (chan : string)
| NoFuel.
Arguments Ret {A} a.
Arguments Panic {A} msg.
Arguments Undef {A} what.
Arguments Sleeps {A} chan.
Arguments NoFuel {A}.

Definition obind {A B} (m : outcome A) (k : A → outcome B) : outcome B :=
  match m with
  | Ret a => k a
  | Panic s => Panic s
  | Undef s => Undef s
  | Sleeps s => Sleeps s
  | NoFuel => NoFuel
  end.

Notation "'let!' x := m 'in' k" := (obind m (λ x, k))
  (at level 10, x pattern, m at level 200, k at level 200,
   format "'[v' 'let!'  x  :=  m  'in'  '/' k ']'") : kernel_scope.
#[global] Open Scope kernel_scope.

Lemma obind_Ret_inv {A B} (m : outcome A) (k : A → outcome B) b :
  obind m k = Ret b → ∃ a, m = Ret a ∧ k a = Ret b.
Proof. destruct m; simpl; intros; simplify_eq; eauto. Qed.

Lemma obind_assoc {A B C} (m : outcome A) (k : A → outcome B) (h : B → outcome C) :
  obind (obind m k) h = obind m (λ a, obind (k a) h).
Proof. by destruct m. Qed.

(** [outcome_inv] peels the successful binds of a hypothesis. *)
Ltac outcome_inv :=
  repeat match goal with
  | H : obind _ _ = Ret _ |- _ =>
      apply obind_Ret_inv in H; destruct H as (? & ? & H)
  | H : Ret _ = Ret _ |- _ => injection H as H; subst
  | H : (_, _) = (_, _) |- _ => injection H as ? H; subst
  | H : Panic _ = Ret _ |- _ => discriminate H
  | H : Undef _ = Ret _ |- _ => discriminate H
  | H : Sleeps _ = Ret _ |- _ => discriminate H
  | H : NoFuel = Ret _ |- _ => discriminate H
  end.

(** Reads of C arrays: an index out of range is not a value. *)
Definition aget {A} (l : list A) (i : Z) (what : string) : outcome A :=
  if decide (0 ≤ i)
  then match l !! Z.to_nat i with Some x => Ret x | None => Undef what end
  else Undef what.

Definition aset {A} (l : list A) (i : Z) (x : A) (what : string) : outcome (list A) :=
  if decide (0 ≤ i < Z.of_nat (length l)) then Ret (<[Z.to_nat i := x]> l) else Undef what.

Lemma aget_Ret {A} (l : list A) i w x :
  aget l i w = Ret x ↔ 0 ≤ i ∧ l !! Z.to_nat i = Some x.
Proof. unfold aget. case_decide as Hi; [destruct (l !! _) eqn:E|]; split; intros; destruct_and?; simplify_eq; eauto; done. Qed.

Lemma aset_Ret {A} (l : list A) i x w :
  0 ≤ i < Z.of_nat (length l) → aset l i x w = Ret (<[Z.to_nat i := x]> l).
Proof. intros. unfold aset. by rewrite decide_True. Qed.

(** Functions updated at one point. *)
Definition upd {A} (f : Z → A) (n : Z) (v : A) : Z → A := λ k, if decide (k = n) then v else f k.

Lemma upd_eq {A} (f : Z → A) n v : upd f n v n = v.
Proof. unfold upd. by rewrite decide_True. Qed.
Lemma upd_ne {A} (f : Z → A) n v k : k ≠ n → upd f n v k = f k.
Proof. intros. unfold upd. by rewrite decide_False. Qed.

(** ** Machine integers *)

(** Unsigned 32-bit arithmetic ([uint]): values are in [0, 2^32). *)
Definition u32 (x : Z) : Z := x mod 2 ^ 32.
(** The value of an unsigned 32-bit word read as a C [int]. *)
Definition s32 (x : Z) : Z := if Z.ltb (u32 x) (2 ^ 31) then u32 x else u32 x - 2 ^ 32.
(** An unsigned byte ([uchar]). *)
Definition u8 (x : Z) : Z := x mod 2 ^ 8.

Definition is_u32 (x : Z) : Prop := 0 ≤ x < 2 ^ 32.
#[global] Instance is_u32_dec x : Decision (is_u32 x).
Proof. unfold is_u32. apply _. Defined.

Lemma u32_range x : is_u32 (u32 x).
Proof. unfold is_u32, u32. apply Z.mod_pos_bound. lia. Qed.
Lemma u32_small x : is_u32 x → u32 x = x.
Proof. unfold is_u32, u32. apply Z.mod_small. Qed.

Lemma u8_range x : 0 ≤ u8 x < 256.
Proof. unfold u8. apply Z.mod_pos_bound. lia. Qed.
Lemma u8_idem x : u8 (u8 x) = u8 x.
Proof. unfold u8. by rewrite Z.mod_mod. Qed.

Create HintDb kern.
#[export] Hint Resolve u32_range : kern.
