(* ===== verification/Mmu.v ===== *)
(** * Address arithmetic of the x86 memory-management unit

    The macros of mmu.h and memlayout.h: the split of a 32-bit address in a
    page-directory index, a page-table index and an offset, rounding to pages,
    the flag bits of an entry and the kernel's direct map ([V2P]/[P2V]). *)
From stdpp Require Import base list.
From Stdlib Require Import ZArith Lia.
From S2P Require Import Prelude.

Definition PGSIZE : Z := 4096.
Definition NPDENTRIES : Z := 1024.
Definition NPTENTRIES : Z := 1024.
Definition PGSHIFT : Z := 12.
Definition PTXSHIFT : Z := 12.
Definition PDXSHIFT : Z := 22.

Definition MAX_PSYC_PAGES : Z := 16.
Definition MAX_TOTAL_PAGES : Z := 32.
Definition PGFILE_FULL_ERR : Z := PGSIZE * MAX_TOTAL_PAGES * 10.

Definition PTE_P : Z := 0x001.
Definition PTE_W : Z := 0x002.
Definition PTE_U : Z := 0x004.
Definition PTE_A : Z := 0x020.
Definition PTE_PG : Z := 0x200.
Definition MSB : Z := 0x80000000.

Definition EXTMEM : Z := 0x100000.
Definition PHYSTOP : Z := 0xE000000.
Definition DEVSPACE : Z := 0xFE000000.
Definition KERNBASE : Z := 0x80000000.
Definition KERNLINK : Z := KERNBASE + EXTMEM.

Definition PDX (va : Z) : Z := Z.land (Z.shiftr va PDXSHIFT) 0x3FF.
Definition PTX (va : Z) : Z := Z.land (Z.shiftr va PTXSHIFT) 0x3FF.
Definition PGADDR (d t o : Z) : Z :=
  u32 (Z.lor (Z.lor (Z.shiftl d PDXSHIFT) (Z.shiftl t PTXSHIFT)) o).
Definition PGROUNDUP (sz : Z) : Z := Z.land (u32 (sz + PGSIZE - 1)) (u32 (Z.lnot (PGSIZE - 1))).
Definition PGROUNDDOWN (a : Z) : Z := Z.land a (u32 (Z.lnot (PGSIZE - 1))).
Definition PTE_ADDR (pte : Z) : Z := Z.land pte (u32 (Z.lnot 0xFFF)).
Definition PTE_FLAGS (pte : Z) : Z := Z.land pte 0xFFF.
Definition V2P (a : Z) : Z := u32 (a - KERNBASE).
Definition P2V (a : Z) : Z := u32 (a + KERNBASE).

(** The test [(w & flag) != 0] of the C code, and the updates of one flag. *)
Definition flagged (w flag : Z) : bool := negb (Z.eqb (Z.land w flag) 0).
Definition set_flag (w flag : Z) : Z := Z.lor w flag.
Definition clear_flag (w flag : Z) : Z := Z.land w (u32 (Z.lnot flag)).

(** ** Bit masks as division *)

Lemma land_pow2_sub1 (a n : Z) : 0 ≤ n → Z.land a (2 ^ n - 1) = a mod 2 ^ n.
Proof.
  intros. replace (2 ^ n - 1) with (Z.ones n) by (rewrite Z.ones_equiv; lia).
  by apply Z.land_ones.
Qed.

(** A 32-bit word with its low [k] bits cleared. *)
Lemma land_low_mask a k : is_u32 a → 0 ≤ k → Z.land a (Z.ldiff (Z.ones 32) (Z.ones k)) = a - a mod 2 ^ k.
Proof.
  intros Ha Hk. assert (Z.land a (Z.ldiff (Z.ones 32) (Z.ones k)) = Z.ldiff a (Z.ones k)) as ->.
  { apply Z.bits_inj'. intros n Hn.
    rewrite Z.land_spec, !Z.ldiff_spec.
    destruct (decide (n < 32)).
    - rewrite (Z.ones_spec_low 32 n) by lia. done.
    - assert (Z.testbit a n = false) as ->; [|done].
      rewrite <- (Z.mod_small a (2 ^ 32)) by (unfold is_u32 in Ha; lia).
      apply Z.mod_pow2_bits_high. lia. }
  rewrite Z.ldiff_ones_r, Z.shiftl_mul_pow2, Z.shiftr_div_pow2 by lia.
  pose proof (Z.div_mod a (2 ^ k)). lia.
Qed.

Lemma land_page_mask a : is_u32 a → Z.land a (u32 (Z.lnot 4095)) = a - a mod 4096.
Proof. intros Ha. change (u32 (Z.lnot 4095)) with (Z.ldiff (Z.ones 32) (Z.ones 12)). by apply land_low_mask. Qed.

Lemma PGROUNDDOWN_eq a : is_u32 a → PGROUNDDOWN a = a - a mod 4096.
Proof. apply land_page_mask. Qed.
Lemma PTE_ADDR_eq a : is_u32 a → PTE_ADDR a = a - a mod 4096.
Proof. apply land_page_mask. Qed.
Lemma PTE_FLAGS_eq a : PTE_FLAGS a = a mod 4096.
Proof. apply (land_pow2_sub1 a 12). lia. Qed.
Lemma PDX_eq va : is_u32 va → PDX va = va / 2 ^ 22.
Proof.
  intros. unfold PDX, PDXSHIFT. rewrite (land_pow2_sub1 _ 10) by lia.
  rewrite Z.shiftr_div_pow2 by lia. apply Z.mod_small.
  unfold is_u32 in *. split; [apply Z.div_pos; lia|apply Z.div_lt_upper_bound; lia].
Qed.
Lemma PTX_eq va : PTX va = (va / 2 ^ 12) mod 2 ^ 10.
Proof.
  unfold PTX, PTXSHIFT. rewrite (land_pow2_sub1 _ 10) by lia.
  by rewrite Z.shiftr_div_pow2 by lia.
Qed.

Lemma PDX_range va : is_u32 va → 0 ≤ PDX va < NPDENTRIES.
Proof.
  intros Hva. rewrite PDX_eq by done. unfold is_u32, NPDENTRIES in *.
  split; [apply Z.div_pos|apply Z.div_lt_upper_bound]; lia.
Qed.
Lemma PTX_range va : 0 ≤ PTX va < NPTENTRIES.
Proof. rewrite PTX_eq. unfold NPTENTRIES. pose proof (Z.mod_pos_bound (va / 2 ^ 12) (2 ^ 10)). lia. Qed.

#[export] Hint Resolve PDX_range PTX_range : kern.

(** ** Flags of an entry *)

Lemma u32_testbit_high e n : is_u32 e → 32 ≤ n → Z.testbit e n = false.
Proof.
  intros He Hn. rewrite <- (Z.mod_small e (2 ^ 32)) by (unfold is_u32 in He; lia).
  apply Z.mod_pow2_bits_high. lia.
Qed.

Lemma is_u32_bits e : 0 ≤ e → (∀ n, 32 ≤ n → Z.testbit e n = false) → is_u32 e.
Proof.
  intros H0 Hb. unfold is_u32. split; [done|].
  assert (e = e mod 2 ^ 32) as ->; [|apply Z.mod_pos_bound; lia].
  apply Z.bits_inj'. intros n Hn. destruct (decide (n < 32)).
  - by rewrite Z.mod_pow2_bits_low.
  - rewrite Z.mod_pow2_bits_high by lia. apply Hb. lia.
Qed.

Lemma land_u32 a b : is_u32 a → is_u32 (Z.land a b).
Proof.
  intros Ha. apply is_u32_bits.
  - apply Z.land_nonneg. left. unfold is_u32 in Ha. lia.
  - intros n Hn. by rewrite Z.land_spec, (u32_testbit_high a) by done.
Qed.
Lemma lor_u32 a b : is_u32 a → is_u32 b → is_u32 (Z.lor a b).
Proof.
  intros Ha Hb. apply is_u32_bits.
  - apply Z.lor_nonneg. unfold is_u32 in *. lia.
  - intros n Hn. by rewrite Z.lor_spec, (u32_testbit_high a), (u32_testbit_high b) by done.
Qed.

Lemma clear_flag_u32 e f : is_u32 e → is_u32 (clear_flag e f).
Proof. apply land_u32. Qed.
Lemma set_flag_u32 e f : is_u32 e → is_u32 f → is_u32 (set_flag e f).
Proof. apply lor_u32. Qed.

Lemma clear_flag_ldiff e f : is_u32 e → clear_flag e f = Z.ldiff e f.
Proof.
  intros He. unfold clear_flag, u32. rewrite <- Z.land_ones by lia.
  apply Z.bits_inj'. intros n Hn. rewrite !Z.land_spec, Z.ldiff_spec, Z.lnot_spec by done.
  destruct (decide (n < 32)).
  - rewrite Z.ones_spec_low by lia. by rewrite andb_true_r.
  - by rewrite (u32_testbit_high e n) by (done || lia).
Qed.

Lemma flagged_clear_same e f : is_u32 e → flagged (clear_flag e f) f = false.
Proof. intros He. unfold flagged. by rewrite clear_flag_ldiff, Z.land_ldiff. Qed.

Lemma land_clear_disjoint e f g : is_u32 e → Z.land f g = 0 → Z.land (clear_flag e f) g = Z.land e g.
Proof.
  intros He Hfg. rewrite clear_flag_ldiff by done. apply Z.bits_inj'. intros n Hn.
  rewrite !Z.land_spec, Z.ldiff_spec.
  assert (Z.testbit f n && Z.testbit g n = false) as Hz by (by rewrite <- Z.land_spec, Hfg, Z.bits_0).
  destruct (Z.testbit e n), (Z.testbit f n), (Z.testbit g n); done.
Qed.

Lemma land_set_disjoint e f g : Z.land f g = 0 → Z.land (set_flag e f) g = Z.land e g.
Proof. intros Hfg. unfold set_flag. by rewrite Z.land_lor_distr_l, Hfg, Z.lor_0_r. Qed.

Lemma flagged_clear_other e f g :
  is_u32 e → Z.land f g = 0 → flagged (clear_flag e f) g = flagged e g.
Proof. intros. unfold flagged. by rewrite land_clear_disjoint. Qed.
Lemma flagged_set_other e f g : Z.land f g = 0 → flagged (set_flag e f) g = flagged e g.
Proof. intros. unfold flagged. by rewrite land_set_disjoint. Qed.
Lemma flagged_set_same e f : f ≠ 0 → flagged (set_flag e f) f = true.
Proof.
  intros Hf. unfold flagged, set_flag. rewrite Z.land_comm, Z.lor_comm, Z.land_lor_distr_r.
  rewrite Z.land_diag. apply negb_true_iff, Z.eqb_neq. intros [? _]%Z.lor_eq_0_iff. done.
Qed.

#[export] Hint Resolve land_u32 lor_u32 clear_flag_u32 set_flag_u32 : kern.

(** ** Rounding *)

Lemma PGROUNDUP_eq a : 0 ≤ a → a + 4095 < 2 ^ 32 → PGROUNDUP a = 4096 * ((a + 4095) / 4096).
Proof.
  intros H0 H1. unfold PGROUNDUP, PGSIZE. replace (a + 4096 - 1) with (a + 4095) by lia.
  change (4096 - 1) with 4095. rewrite (u32_small (a + 4095)) by (unfold is_u32; lia).
  rewrite land_page_mask by (unfold is_u32; lia). pose proof (Z.div_mod (a + 4095) 4096). lia.
Qed.

(** [PGROUNDUP] gives the least multiple of the page size that is not below
    its argument, for every size up to the last page; above that the 32-bit
    addition wraps and the result is 0. *)
Theorem PGROUNDUP_least a :
  is_u32 a →
  (a ≤ 2 ^ 32 - PGSIZE →
     PGROUNDUP a mod PGSIZE = 0 ∧ a ≤ PGROUNDUP a < a + PGSIZE) ∧
  (2 ^ 32 - PGSIZE < a → PGROUNDUP a = 0).
Proof.
  unfold is_u32, PGSIZE. intros Ha. split; intros Hb.
  - rewrite PGROUNDUP_eq by lia. rewrite Z.mul_comm, Z.mod_mul by done.
    Z.to_euclidean_division_equations. lia.
  - unfold PGROUNDUP, PGSIZE. replace (a + 4096 - 1) with (a - (2 ^ 32 - 4095) + 1 * 2 ^ 32) by lia.
    unfold u32 at 1. rewrite Z.mod_add, Z.mod_small by lia. change (4096 - 1) with 4095.
    rewrite land_page_mask by (unfold is_u32; lia). rewrite Z.mod_small; lia.
Qed.

Lemma PGROUNDUP_least_witness :
  (4097 ≤ 2 ^ 32 - PGSIZE → PGROUNDUP 4097 mod PGSIZE = 0 ∧ 4097 ≤ PGROUNDUP 4097 < 4097 + PGSIZE) ∧
  (2 ^ 32 - PGSIZE < 4097 → PGROUNDUP 4097 = 0).
Proof. apply PGROUNDUP_least. unfold is_u32; lia. Defined.

Lemma shiftl_lor_add a b n : 0 ≤ n → 0 ≤ b < 2 ^ n → Z.lor (Z.shiftl a n) b = a * 2 ^ n + b.
Proof.
  intros Hn Hb. rewrite <- Z.shiftl_mul_pow2 by done. symmetry.
  assert (Z.land (Z.shiftl a n) b = 0) as Hd.
  { apply Z.bits_inj'. intros i Hi. rewrite Z.land_spec, Z.bits_0.
    destruct (decide (i < n)); [by rewrite Z.shiftl_spec_low by lia|].
    rewrite <- (Z.mod_small b (2 ^ n)), (Z.mod_pow2_bits_high b) by lia. apply andb_false_r. }
  by rewrite Z.add_nocarry_lxor, Z.lxor_lor.
Qed.

Lemma PDX_page va : is_u32 va → PDX va = va / PGSIZE / 1024.
Proof. intros. rewrite PDX_eq by done. unfold PGSIZE. by rewrite Z.div_div by lia. Qed.
Lemma PTX_page va : PTX va = (va / PGSIZE) mod 1024.
Proof. apply PTX_eq. Qed.

(** The three fields of an address determine it: rebuilding an address from
    its directory index, table index and offset gives the address back, and two
    addresses on one page are exactly those with the same two indices. *)
Theorem PGADDR_split va va' :
  is_u32 va → is_u32 va' →
  PGADDR (PDX va) (PTX va) (va mod PGSIZE) = va ∧
  ((PDX va = PDX va' ∧ PTX va = PTX va') ↔ va / PGSIZE = va' / PGSIZE).
Proof.
  intros Hva Hva'. rewrite !PDX_page, !PTX_page by done.
  pose proof (Z.div_mod (va / PGSIZE) 1024 ltac:(done)) as Hq.
  pose proof (Z.mod_pos_bound (va / PGSIZE) 1024 ltac:(lia)) as Hr.
  split.
  - unfold PGADDR, PDXSHIFT, PTXSHIFT. rewrite (Z.shiftl_mul_pow2 _ 12) by lia.
    rewrite shiftl_lor_add by lia.
    replace (va / PGSIZE / 1024 * 2 ^ 22 + (va / PGSIZE) mod 1024 * 2 ^ 12)
      with (Z.shiftl (va / PGSIZE) 12) by (rewrite Z.shiftl_mul_pow2 by lia; lia).
    rewrite shiftl_lor_add by (lia || (unfold PGSIZE; apply Z.mod_pos_bound; lia)).
    replace (va / PGSIZE * 2 ^ 12 + va mod PGSIZE) with va; [by apply u32_small|].
    unfold PGSIZE. pose proof (Z.div_mod va 4096). lia.
  - pose proof (Z.div_mod (va' / PGSIZE) 1024 ltac:(done)) as Hq'.
    split; [intros [H1 H2]; lia|by intros ->].
Qed.

Lemma PGADDR_split_witness :
  PGADDR (PDX 0x80403abc) (PTX 0x80403abc) (0x80403abc mod PGSIZE) = 0x80403abc ∧
  ((PDX 0x80403abc = PDX 0x80403000 ∧ PTX 0x80403abc = PTX 0x80403000) ↔
     0x80403abc / PGSIZE = 0x80403000 / PGSIZE).
Proof. apply PGADDR_split; unfold is_u32; lia. Defined.

(** An entry built from a page-aligned address and flags splits back into them. *)
Lemma lor_page_flags v f : v mod PGSIZE = 0 → 0 ≤ f < PGSIZE → Z.lor v f = v + f.
Proof.
  intros Hv Hf. pose proof (Z.div_mod v PGSIZE) as Hd. unfold PGSIZE in *.
  replace v with (Z.shiftl (v / 4096) 12) at 1 by (rewrite Z.shiftl_mul_pow2; lia).
  rewrite shiftl_lor_add by lia. lia.
Qed.

Lemma PTE_ADDR_lor v f : is_u32 v → v mod PGSIZE = 0 → 0 ≤ f < PGSIZE → PTE_ADDR (Z.lor v f) = v.
Proof.
  intros Hu Hv Hf. assert (Hs : is_u32 (v + f)).
  { pose proof (Z.div_mod v PGSIZE). unfold is_u32, PGSIZE in *. lia. }
  rewrite lor_page_flags, PTE_ADDR_eq by done. unfold PGSIZE in *.
  rewrite Z.add_mod, Hv, Z.add_0_l, Z.mod_mod, Z.mod_small by lia. lia.
Qed.

Lemma PTE_FLAGS_lor v f : v mod PGSIZE = 0 → 0 ≤ f < PGSIZE → PTE_FLAGS (Z.lor v f) = f.
Proof.
  intros Hv Hf. rewrite lor_page_flags, PTE_FLAGS_eq by done. unfold PGSIZE in *.
  rewrite Z.add_mod, Hv, Z.add_0_l, Z.mod_mod, Z.mod_small by lia. done.
Qed.

Lemma lor_flags_range f g : 0 ≤ f < PGSIZE → 0 ≤ g < PGSIZE → 0 ≤ Z.lor f g < PGSIZE.
Proof.
  intros [Hf Hf'] [Hg Hg']. split; [by apply Z.lor_nonneg|]. unfold PGSIZE in *.
  change 4096 with (2 ^ 12) in *. destruct (decide (Z.lor f g = 0)) as [->|Hne]; [lia|].
  assert (0 ≤ Z.lor f g) by (by apply Z.lor_nonneg). apply Z.log2_lt_pow2; [lia|].
  rewrite Z.log2_lor by done. apply Z.max_lub_lt.
  - destruct (decide (f = 0)) as [->|]; [done|]. apply Z.log2_lt_pow2; lia.
  - destruct (decide (g = 0)) as [->|]; [done|]. apply Z.log2_lt_pow2; lia.
Qed.

Lemma is_u32_lor_page v f : is_u32 v → v mod PGSIZE = 0 → 0 ≤ f < PGSIZE → is_u32 (Z.lor v f).
Proof.
  intros Hu Hv Hf. apply lor_u32; [done|]. unfold is_u32, PGSIZE in *. lia.
Qed.
