(* ===== verification/Memory.v ===== *)
(** * Byte-addressed memory and string.c

    The kernel's view of memory: one byte per 32-bit address.  [memset],
    [memmove], [memcmp] and the string routines of string.c are the loops of
    the source over this memory. *)
From stdpp Require Import base list strings.
From Stdlib Require Import ZArith Lia.
From S2P Require Import Prelude.

(** A cell holds 8 bits: reads go through [u8]. *)
Definition mem : Type := Z → Z.
Definition load8 (m : mem) (a : Z) : Z := u8 (m a).
Definition store8 (m : mem) (a v : Z) : mem := λ x, if Z.eqb x a then u8 v else m x.

(** Little-endian 32-bit words. *)
Definition load32 (m : mem) (a : Z) : Z :=
  load8 m a + 2 ^ 8 * load8 m (a + 1) + 2 ^ 16 * load8 m (a + 2) + 2 ^ 24 * load8 m (a + 3).
Definition store32 (m : mem) (a v : Z) : mem :=
  store8 (store8 (store8 (store8 m a v) (a + 1) (v / 2 ^ 8)) (a + 2) (v / 2 ^ 16)) (a + 3) (v / 2 ^ 24).

(** ** string.c *)

(** [rep stosb] and [rep stosl] of x86.h. *)
Fixpoint stosb (m : mem) (addr data : Z) (cnt : nat) : mem :=
  match cnt with
  | O => m
  | S k => stosb (store8 m addr data) (addr + 1) data k
  end.

Fixpoint stosl (m : mem) (addr data : Z) (cnt : nat) : mem :=
  match cnt with
  | O => m
  | S k => stosl (store32 m addr data) (addr + 4) data k
  end.

Definition memset (m : mem) (dst c n : Z) : mem :=
  if Z.eqb (Z.rem (s32 dst) 4) 0 && Z.eqb (n mod 4) 0 then
    let c := Z.land c 0xFF in
    let w := Z.lor (Z.lor (Z.lor (Z.shiftl c 24) (Z.shiftl c 16)) (Z.shiftl c 8)) c in
    stosl m dst w (Z.to_nat (n / 4))
  else stosb m dst c (Z.to_nat n).

Fixpoint memcmp_loop (m : mem) (s1 s2 : Z) (n : nat) : Z :=
  match n with
  | O => 0
  | S k => if negb (Z.eqb (load8 m s1) (load8 m s2)) then load8 m s1 - load8 m s2
           else memcmp_loop m (s1 + 1) (s2 + 1) k
  end.
Definition memcmp (m : mem) (v1 v2 n : Z) : Z := memcmp_loop m v1 v2 (Z.to_nat n).

Fixpoint move_back (m : mem) (d s : Z) (n : nat) : mem :=
  match n with
  | O => m
  | S k => move_back (store8 m (d - 1) (load8 m (s - 1))) (d - 1) (s - 1) k
  end.

Fixpoint move_fwd (m : mem) (d s : Z) (n : nat) : mem :=
  match n with
  | O => m
  | S k => move_fwd (store8 m d (load8 m s)) (d + 1) (s + 1) k
  end.

Definition memmove (m : mem) (dst src n : Z) : mem :=
  if Z.ltb src dst && Z.gtb (u32 (src + n)) dst
  then move_back m (dst + n) (src + n) (Z.to_nat n)
  else move_fwd m dst src (Z.to_nat n).

Fixpoint strncmp_loop (m : mem) (p q : Z) (n : nat) : Z :=
  match n with
  | O => 0
  | S k => if negb (Z.eqb (load8 m p) 0) && Z.eqb (load8 m p) (load8 m q)
           then strncmp_loop m (p + 1) (q + 1) k
           else load8 m p - load8 m q
  end.
Definition strncmp (m : mem) (p q n : Z) : Z := strncmp_loop m p q (Z.to_nat n).

(** The first loop of [strncpy]; it gives the memory, the end of the copy and
    the count that is left for the padding loop. *)
Fixpoint copy_loop (m : mem) (s t : Z) (n : nat) : mem * Z * nat :=
  match n with
  | O => (m, s, O)
  | S k => let m' := store8 m s (load8 m t) in
           if Z.eqb (load8 m t) 0 then (m', s + 1, k) else copy_loop m' (s + 1) (t + 1) k
  end.

Definition strncpy (m : mem) (s t n : Z) : mem :=
  let '(m1, s1, k) := copy_loop m s t (Z.to_nat n) in stosb m1 s1 0 k.

(** [while(--n > 0 && ( *s++ = *t++) != 0)] and [*s = 0]. *)
Definition safestrcpy (m : mem) (s t n : Z) : mem :=
  if Z.leb n 0 then m
  else
    let '(m1, s1, _) := copy_loop m s t (Z.to_nat (n - 1)) in store8 m1 s1 0.

Fixpoint strlen_loop (fuel : nat) (m : mem) (s n : Z) : outcome Z :=
  match fuel with
  | O => NoFuel
  | S k => if Z.eqb (load8 m (s + n)) 0 then Ret n else strlen_loop k m s (n + 1)
  end.
Definition strlen (fuel : nat) (m : mem) (s : Z) : outcome Z := strlen_loop fuel m s 0.

(** ** Loads and stores *)

Lemma load8_range m a : 0 ≤ load8 m a < 256.
Proof. apply u8_range. Qed.

Lemma load8_store8 m a v x : load8 (store8 m a v) x = if Z.eqb x a then u8 v else load8 m x.
Proof. unfold load8, store8. destruct (Z.eqb x a); [apply u8_idem|done]. Qed.
Lemma load8_store8_eq m a v : load8 (store8 m a v) a = u8 v.
Proof. by rewrite load8_store8, Z.eqb_refl. Qed.
Lemma load8_store8_ne m a v x : x ≠ a → load8 (store8 m a v) x = load8 m x.
Proof. intros. rewrite load8_store8. by destruct (Z.eqb_spec x a). Qed.

Lemma load32_range m a : is_u32 (load32 m a).
Proof.
  unfold is_u32, load32. pose proof (load8_range m a). pose proof (load8_range m (a + 1)).
  pose proof (load8_range m (a + 2)). pose proof (load8_range m (a + 3)). lia.
Qed.

Lemma load32_ext m1 m2 a :
  (∀ x, a ≤ x < a + 4 → load8 m1 x = load8 m2 x) → load32 m1 a = load32 m2 a.
Proof. intros H. unfold load32. by rewrite !H by lia. Qed.

Lemma load8_store32 m a v x :
  load8 (store32 m a v) x =
    if decide (a ≤ x < a + 4) then u8 (v / 2 ^ (8 * (x - a))) else load8 m x.
Proof.
  unfold store32. rewrite !load8_store8.
  destruct (Z.eqb_spec x (a + 3)) as [->|].
  { rewrite decide_True by lia. by replace (8 * (a + 3 - a)) with 24 by lia. }
  destruct (Z.eqb_spec x (a + 2)) as [->|].
  { rewrite decide_True by lia. by replace (8 * (a + 2 - a)) with 16 by lia. }
  destruct (Z.eqb_spec x (a + 1)) as [->|].
  { rewrite decide_True by lia. by replace (8 * (a + 1 - a)) with 8 by lia. }
  destruct (Z.eqb_spec x a) as [->|].
  { rewrite decide_True by lia. rewrite Z.sub_diag. simpl. by rewrite Z.div_1_r. }
  by rewrite decide_False by lia.
Qed.

Lemma load32_store32_eq m a v : is_u32 v → load32 (store32 m a v) a = v.
Proof.
  intros Hv. unfold load32. rewrite !load8_store32, !decide_True by lia.
  replace (a - a) with 0 by lia. replace (a + 1 - a) with 1 by lia.
  replace (a + 2 - a) with 2 by lia. replace (a + 3 - a) with 3 by lia.
  change (2 ^ (8 * 0)) with 1. change (2 ^ (8 * 1)) with 256.
  change (2 ^ (8 * 2)) with 65536. change (2 ^ (8 * 3)) with 16777216.
  unfold u8, is_u32 in *. Z.to_euclidean_division_equations. lia.
Qed.

Lemma load32_store32_ne m a v a' :
  a' + 4 ≤ a ∨ a + 4 ≤ a' → load32 (store32 m a v) a' = load32 m a'.
Proof. intros. apply load32_ext. intros x Hx. rewrite load8_store32, decide_False; [done|lia]. Qed.

#[export] Hint Resolve load32_range load8_range u8_range : kern.

(** ** Block operations *)

Lemma stosb_spec m a c n x :
  load8 (stosb m a c n) x = if decide (a ≤ x < a + Z.of_nat n) then u8 c else load8 m x.
Proof.
  revert m a. induction n as [|n IH]; intros m a; simpl stosb.
  { by rewrite decide_False by lia. }
  rewrite IH. destruct (decide (a = x)) as [->|Hne].
  - rewrite decide_False, decide_True by lia. apply load8_store8_eq.
  - rewrite load8_store8_ne by congruence.
    destruct (decide (a + 1 ≤ x < a + 1 + Z.of_nat n)).
    + by rewrite decide_True by lia.
    + by rewrite decide_False by lia.
Qed.

Lemma stosl_spec m a w c n x :
  (∀ i, 0 ≤ i < 4 → u8 (w / 2 ^ (8 * i)) = c) →
  load8 (stosl m a w n) x = if decide (a ≤ x < a + 4 * Z.of_nat n) then c else load8 m x.
Proof.
  intros Hw. revert m a. induction n as [|n IH]; intros m a; simpl stosl.
  { by rewrite decide_False by lia. }
  rewrite IH, load8_store32.
  destruct (decide (a + 4 ≤ x < a + 4 + 4 * Z.of_nat n)).
  - by rewrite decide_True by lia.
  - destruct (decide (a ≤ x < a + 4)).
    + rewrite Hw by lia. by rewrite decide_True by lia.
    + by rewrite decide_False by lia.
Qed.

Lemma fill_word c i :
  0 ≤ i < 4 →
  let b := Z.land c 0xFF in
  u8 (Z.lor (Z.lor (Z.lor (Z.shiftl b 24) (Z.shiftl b 16)) (Z.shiftl b 8)) b / 2 ^ (8 * i)) = u8 c.
Proof.
  intros Hi. cbn zeta. unfold u8.
  assert (Hb : ∀ n, 0 ≤ n → Z.testbit (Z.land c 255) n = (n <? 8) && Z.testbit c n).
  { intros n Hn. change 255 with (Z.ones 8). rewrite Z.land_spec. destruct (Z.ltb_spec n 8).
    - by rewrite Z.ones_spec_low, andb_true_r by lia.
    - by rewrite Z.ones_spec_high, andb_false_r by lia. }
  rewrite <- Z.shiftr_div_pow2 by lia. apply Z.bits_inj'. intros n Hn.
  destruct (decide (n < 8)) as [Hlt|Hge]; [|by rewrite !Z.mod_pow2_bits_high by lia].
  rewrite !Z.mod_pow2_bits_low by lia. rewrite Z.shiftr_spec by lia.
  rewrite !Z.lor_spec.
  assert (Hs : ∀ k, 0 ≤ k → Z.testbit (Z.shiftl (Z.land c 255) k) (n + 8 * i) =
    (k <=? n + 8 * i) && ((n + 8 * i - k <? 8) && Z.testbit c (n + 8 * i - k))).
  { intros k Hk. destruct (Z.leb_spec k (n + 8 * i)) as [Hle|Hgt].
    - rewrite Z.shiftl_spec by lia. rewrite Hb by lia. done.
    - by rewrite Z.shiftl_spec_low by lia. }
  rewrite (Hs 24), (Hs 16), (Hs 8), Hb by lia.
  assert (i = 0 ∨ i = 1 ∨ i = 2 ∨ i = 3) as [-> | [-> | [-> | ->]]] by lia;
    repeat match goal with
    | |- context [?a <=? ?b] => destruct (Z.leb_spec a b); try lia
    | |- context [?a <? ?b] => destruct (Z.ltb_spec a b); try lia
    end; simpl; rewrite ?orb_false_r; f_equal; lia.
Qed.

Lemma memset_spec m d c n x :
  0 ≤ n → load8 (memset m d c n) x = if decide (d ≤ x < d + n) then u8 c else load8 m x.
Proof.
  intros Hn. unfold memset. destruct (_ && _) eqn:E.
  - apply andb_true_iff in E as [_ E%Z.eqb_eq].
    rewrite (stosl_spec _ _ _ (u8 c)) by (intros; by apply fill_word).
    rewrite Z2Nat.id by (apply Z.div_pos; lia).
    by replace (4 * (n / 4)) with n by (pose proof (Z.div_mod n 4); lia).
  - rewrite stosb_spec. by rewrite Z2Nat.id.
Qed.

Lemma move_fwd_spec m d s n x :
  ¬ (s < d < s + Z.of_nat n) →
  load8 (move_fwd m d s n) x =
    if decide (d ≤ x < d + Z.of_nat n) then load8 m (s + (x - d)) else load8 m x.
Proof.
  revert m d s. induction n as [|n IH]; intros m d s Hov; cbn [move_fwd].
  { by rewrite decide_False by lia. }
  rewrite IH by lia. destruct (decide (d = x)) as [->|Hne].
  - rewrite decide_False, decide_True, load8_store8_eq by lia.
    unfold load8. rewrite u8_idem. do 2 f_equal. lia.
  - destruct (decide (d + 1 ≤ x < d + 1 + Z.of_nat n)).
    + rewrite decide_True by lia. rewrite load8_store8_ne by lia. f_equal. lia.
    + rewrite decide_False by lia. by rewrite load8_store8_ne by congruence.
Qed.

Lemma move_back_spec m d s n x :
  ¬ (d < s < d + Z.of_nat n) →
  load8 (move_back m (d + Z.of_nat n) (s + Z.of_nat n) n) x =
    if decide (d ≤ x < d + Z.of_nat n) then load8 m (s + (x - d)) else load8 m x.
Proof.
  revert m. induction n as [|n IH]; intros m Hov; cbn [move_back].
  { by rewrite decide_False by lia. }
  replace (d + Z.of_nat (S n) - 1) with (d + Z.of_nat n) by lia.
  replace (s + Z.of_nat (S n) - 1) with (s + Z.of_nat n) by lia.
  rewrite IH by lia. destruct (decide (d + Z.of_nat n = x)) as [<-|Hne].
  - rewrite decide_False, decide_True, load8_store8_eq by lia.
    unfold load8. rewrite u8_idem. do 2 f_equal. lia.
  - destruct (decide (d ≤ x < d + Z.of_nat n)).
    + rewrite decide_True by lia. rewrite load8_store8_ne by lia. done.
    + rewrite decide_False by lia. by rewrite load8_store8_ne by congruence.
Qed.

Lemma memmove_ok m d s n x :
  0 ≤ n → 0 ≤ s → s + n < 2 ^ 32 →
  load8 (memmove m d s n) x = if decide (d ≤ x < d + n) then load8 m (s + (x - d)) else load8 m x.
Proof.
  intros Hn Hs Hw. unfold memmove. rewrite (u32_small (s + n)) by (unfold is_u32; lia).
  destruct (Z.ltb_spec s d), (Z.gtb_spec (s + n) d); simpl;
    try (rewrite move_fwd_spec by lia; by rewrite Z2Nat.id).
  pose proof (move_back_spec m d s (Z.to_nat n) x) as Hb. rewrite Z2Nat.id in Hb by lia.
  apply Hb. lia.
Qed.

(** [memmove] copies [n] bytes as if through a temporary, whatever the
    overlap of the two blocks: afterwards the destination holds what the source
    held before, and no other byte changed. *)
Theorem memmove_spec m d s n x :
  0 ≤ n → 0 ≤ s → s + n < 2 ^ 32 →
  load8 (memmove m d s n) x = if decide (d ≤ x < d + n) then load8 m (s + (x - d)) else load8 m x.
Proof. apply memmove_ok. Qed.

(** Bytes 100..104 hold 1..5; they are moved two bytes up, onto themselves. *)
Definition ramp : mem := λ a, if decide (100 ≤ a < 105) then a - 99 else 0.

Lemma memmove_spec_witness :
  load8 (memmove ramp 102 100 5) 104 = 3 ∧
  load8 (memmove ramp 102 100 5) 104 =
    if decide (102 ≤ 104 < 102 + 5) then load8 ramp (100 + (104 - 102)) else load8 ramp 104.
Proof. split; [reflexivity|]. apply memmove_spec; lia. Defined.
