(* ===== verification/Kalloc.v ===== *)
(** * Physical page allocator (kalloc.c)

    Free pages form a list threaded through the pages themselves: the first
    word of a free page is the address of the next one. *)
From stdpp Require Import base list strings.
From Stdlib Require Import ZArith Lia.
From S2P Require Import Prelude Mmu Memory.

(** ** State: the memory and the allocator's globals ([kmem], [initial_pages]) *)
Record kstate := mkKstate {
  memory : mem; freelist : Z; use_lock : Z; initial_pages : Z }.

Definition set_memory (s : kstate) (m : mem) : kstate :=
  mkKstate m (freelist s) (use_lock s) (initial_pages s).
Definition set_freelist (s : kstate) (p : Z) : kstate :=
  mkKstate (memory s) p (use_lock s) (initial_pages s).

Section kalloc.
  (** [end], the first address after the kernel image, is set by the linker. *)
  Context (kend : Z).

(** The pages [kfree] accepts. *)
Definition bad_page (v : Z) : bool :=
  negb (Z.eqb (v mod PGSIZE) 0) || Z.ltb v kend || Z.leb PHYSTOP (V2P v).

Definition kfree (s : kstate) (v : Z) : outcome kstate :=
  if bad_page v then Panic "kfree"
  else
    let m1 := memset (memory s) v 1 PGSIZE in
    let m2 := store32 m1 v (freelist s) in
    Ret (set_freelist (set_memory s m2) v).

(** [kalloc] gives the address of a page, 0 when there is none. *)
Definition kalloc (s : kstate) : Z * kstate :=
  let r := freelist s in
  if Z.eqb r 0 then (r, s) else (r, set_freelist s (load32 (memory s) r)).

Fixpoint num_free_loop (fuel : nat) (m : mem) (r counter : Z) : outcome Z :=
  match fuel with
  | O => NoFuel
  | S k => if Z.eqb r 0 then Ret counter else num_free_loop k m (load32 m r) (counter + 1)
  end.
Definition num_free (fuel : nat) (s : kstate) : outcome Z :=
  num_free_loop fuel (memory s) (freelist s) 0.

(** [for(; p + PGSIZE <= vend; p += PGSIZE) kfree(p)]. *)
Fixpoint freerange_loop (fuel : nat) (s : kstate) (p vend : Z) : outcome kstate :=
  match fuel with
  | O => NoFuel
  | S k =>
      if Z.leb (u32 (p + PGSIZE)) vend then
        let! s' := kfree s p in freerange_loop k s' (u32 (p + PGSIZE)) vend
      else Ret s
  end.
(** One step per page of the range and one for the exit. *)
Definition freerange_fuel (vstart vend : Z) : nat := Z.to_nat (Z.max 0 (vend - vstart) / PGSIZE + 1).
Definition freerange (s : kstate) (vstart vend : Z) : outcome kstate :=
  freerange_loop (freerange_fuel vstart vend) s (PGROUNDUP vstart) vend.

Definition kinit1 (s : kstate) (vstart vend : Z) : outcome kstate :=
  freerange (mkKstate (memory s) (freelist s) 0 (initial_pages s)) vstart vend.

Definition kinit2 (s : kstate) (vstart vend : Z) : outcome kstate :=
  let! s' := freerange s vstart vend in
  Ret (mkKstate (memory s') (freelist s') 1
         (u32 (PGROUNDDOWN vend - PGROUNDUP vstart) / PGSIZE)).

(** ** The free list *)

Definition valid_page (v : Z) : Prop := v mod PGSIZE = 0 ∧ kend ≤ v ∧ v < KERNBASE + PHYSTOP.

(** [chain m p l]: from [p] the links of [m] go through the pages [l] to 0. *)
Fixpoint chain (m : mem) (p : Z) (l : list Z) : Prop :=
  match l with
  | [] => p = 0
  | a :: l' => p = a ∧ chain m (load32 m a) l'
  end.

Record free_rep (s : kstate) (l : list Z) : Prop := mk_free_rep {
  fr_chain : chain (memory s) (freelist s) l;
  fr_valid : Forall valid_page l;
  fr_nodup : NoDup l }.

(** The bytes of the page at [a]. *)
Definition in_page (a x : Z) : Prop := a ≤ x < a + PGSIZE.

(** Pages are aligned, so two pages share a byte only if they are the same. *)
Lemma in_page_inj a b x :
  a mod PGSIZE = 0 → b mod PGSIZE = 0 → in_page a x → in_page b x → a = b.
Proof.
  unfold in_page, PGSIZE. intros Ha Hb Hxa Hxb.
  pose proof (Z.div_mod a 4096). pose proof (Z.div_mod b 4096). lia.
Qed.

Context (kend_kernel : KERNBASE + EXTMEM ≤ kend).

Lemma valid_page_range v : valid_page v → KERNBASE + EXTMEM ≤ v ∧ v + PGSIZE ≤ KERNBASE + PHYSTOP.
Proof.
  intros (Hm & Hlo & Hhi). split; [lia|]. unfold PGSIZE, KERNBASE, PHYSTOP in *.
  pose proof (Z.div_mod v 4096). lia.
Qed.

Lemma valid_page_u32 v : valid_page v → is_u32 v.
Proof.
  intros Hv%valid_page_range. unfold is_u32, PGSIZE, KERNBASE, PHYSTOP, EXTMEM in *. lia.
Qed.

Lemma valid_page_nonzero v : valid_page v → v ≠ 0.
Proof. intros Hv%valid_page_range. unfold KERNBASE, EXTMEM in *. lia. Qed.

Lemma V2P_valid v : valid_page v → V2P v = v - KERNBASE.
Proof.
  intros Hv%valid_page_range. unfold V2P. apply u32_small.
  unfold is_u32, PGSIZE, KERNBASE, PHYSTOP, EXTMEM in *. lia.
Qed.

Lemma P2V_V2P v : valid_page v → P2V (V2P v) = v.
Proof.
  intros Hv. rewrite V2P_valid by done. unfold P2V.
  replace (v - KERNBASE + KERNBASE) with v by lia. by apply u32_small, valid_page_u32.
Qed.

Lemma bad_page_false v : is_u32 v → bad_page v = false ↔ valid_page v.
Proof.
  intros Hu. unfold bad_page, valid_page. rewrite !orb_false_iff, negb_false_iff.
  rewrite Z.eqb_eq, Z.ltb_ge, Z.leb_gt. unfold V2P, is_u32 in *.
  split; intros H; destruct_and!; split_and!; try done.
  - unfold u32, KERNBASE, PHYSTOP, EXTMEM in *. rewrite Z.mod_small in * by lia. lia.
  - unfold u32, KERNBASE, PHYSTOP, EXTMEM in *. rewrite Z.mod_small by lia. lia.
Qed.

Lemma chain_ext m m' p l :
  (∀ a, a ∈ l → load32 m' a = load32 m a) → chain m p l → chain m' p l.
Proof.
  revert p. induction l as [|a l IH]; intros p Hext; simpl; [done|].
  intros [-> Hc]. split; [done|]. rewrite Hext by left. apply IH; [|done].
  intros b Hb. apply Hext. by right.
Qed.

(** A write into the page [v] does not touch the first word of another page. *)
Lemma load32_other_page m m' v a :
  (∀ x, ¬ in_page v x → load8 m' x = load8 m x) →
  v mod PGSIZE = 0 → a mod PGSIZE = 0 → a ≠ v → ∀ o, 0 ≤ o ≤ PGSIZE - 4 →
  load32 m' (a + o) = load32 m (a + o).
Proof.
  intros Hsame Hv Ha Hne o Ho. apply load32_ext. intros x Hx. apply Hsame. intros Hin.
  apply Hne. apply (in_page_inj a v x); [done|done| |done]. unfold in_page. lia.
Qed.

Lemma kfree_memory s v x :
  ¬ in_page v x → load8 (store32 (memset (memory s) v 1 PGSIZE) v (freelist s)) x = load8 (memory s) x.
Proof.
  unfold in_page, PGSIZE. intros Hx.
  rewrite load8_store32, decide_False by lia. by rewrite memset_spec, decide_False by lia.
Qed.

Lemma free_rep_freelist s l : free_rep s l → is_u32 (freelist s).
Proof.
  intros [Hc Hv _]. destruct l as [|a l]; simpl in Hc.
  - rewrite Hc. unfold is_u32. lia.
  - destruct Hc as [-> _]. apply Forall_cons in Hv as [Hv _]. by apply valid_page_u32.
Qed.

Lemma kfree_spec s l v :
  free_rep s l → valid_page v → v ∉ l →
  ∃ s', kfree s v = Ret s' ∧ free_rep s' (v :: l) ∧
    (∀ x, ¬ in_page v x → load8 (memory s') x = load8 (memory s) x).
Proof.
  intros Hf Hv Hni. unfold kfree.
  rewrite (proj2 (bad_page_false v (valid_page_u32 v Hv))) by done.
  eexists. split; [done|]. split; [|intros x; apply kfree_memory].
  pose proof (free_rep_freelist s l Hf) as Hu. destruct Hf as [Hc Hval Hnd].
  split; simpl; [|by constructor|by constructor].
  split; [done|]. rewrite load32_store32_eq by done. eapply chain_ext; [|done].
  intros a Ha. rewrite <- (Z.add_0_r a).
  apply (load32_other_page _ _ v); [apply kfree_memory|apply Hv| |by intros ->|unfold PGSIZE; lia].
  rewrite Forall_forall in Hval. by apply Hval.
Qed.

Lemma kalloc_spec s l :
  free_rep s l →
  match l with
  | [] => kalloc s = (0, s)
  | a :: l' => ∃ s', kalloc s = (a, s') ∧ memory s' = memory s ∧ free_rep s' l' ∧
                     valid_page a ∧ a ∉ l'
  end.
Proof.
  intros [Hc Hv Hnd]. unfold kalloc. destruct l as [|a l]; simpl in Hc.
  - by rewrite Hc.
  - destruct Hc as [-> Hc]. apply Forall_cons in Hv as [Ha Hv]. apply NoDup_cons in Hnd as [Hni Hnd].
    destruct (Z.eqb_spec a 0) as [->|_]; [by apply valid_page_nonzero in Ha|].
    eexists. split; [done|]. split; [done|]. by split.
Qed.

Lemma num_free_loop_spec fuel m p l c :
  chain m p l → Forall valid_page l → (length l < fuel)%nat →
  num_free_loop fuel m p c = Ret (c + Z.of_nat (length l)).
Proof.
  revert p l c. induction fuel as [|fuel IH]; intros p l c Hc Hv Hf; [lia|]. simpl.
  destruct l as [|a l]; simpl in *.
  - subst. simpl. f_equal. lia.
  - destruct Hc as [-> Hc]. apply Forall_cons in Hv as [Ha Hv].
    destruct (Z.eqb_spec a 0) as [->|_]; [by apply valid_page_nonzero in Ha|].
    rewrite (IH _ l) by (done || lia). f_equal. lia.
Qed.

(** The [n] pages from [p] on, last one first: the order in which [freerange]
    leaves them on the list. *)
Fixpoint pages_from (p : Z) (n : nat) : list Z :=
  match n with
  | O => []
  | S k => pages_from (p + PGSIZE) k ++ [p]
  end.

Lemma elem_of_pages_from p n a :
  a ∈ pages_from p n → ∃ k, 0 ≤ k < Z.of_nat n ∧ a = p + PGSIZE * k.
Proof.
  revert p. induction n as [|n IH]; intros p; simpl; [by intros ?%elem_of_nil|].
  intros [(k & ? & ->)%IH| ->%list_elem_of_singleton]%elem_of_app.
  - exists (k + 1). split; [lia|]. unfold PGSIZE. lia.
  - exists 0. split; [lia|]. unfold PGSIZE. lia.
Qed.

Lemma length_pages_from p n : length (pages_from p n) = n.
Proof. revert p. induction n as [|n IH]; intros p; simpl; [done|]. rewrite length_app, IH. simpl. lia. Qed.

Lemma freerange_loop_spec n : ∀ fuel s l p vend,
  free_rep s l → (∀ a, a ∈ l → a < p ∨ vend ≤ a) →
  p mod PGSIZE = 0 → kend ≤ p → vend ≤ KERNBASE + PHYSTOP →
  p + PGSIZE * Z.of_nat n ≤ vend < p + PGSIZE * Z.of_nat n + PGSIZE → (n < fuel)%nat →
  ∃ s', freerange_loop fuel s p vend = Ret s' ∧ free_rep s' (pages_from p n ++ l) ∧
    use_lock s' = use_lock s ∧ initial_pages s' = initial_pages s.
Proof.
  induction n as [|n IH]; intros fuel s l p vend Hf Hl Hp Hlo Hhi Hn Hfuel;
    (destruct fuel as [|fuel]; [lia|]); simpl; unfold PGSIZE, KERNBASE, PHYSTOP, EXTMEM in *.
  - rewrite u32_small by (unfold is_u32; lia). rewrite (proj2 (Z.leb_gt _ _)) by lia. eauto.
  - assert (Hu : is_u32 (p + 4096)) by (unfold is_u32; lia).
    rewrite u32_small by done. rewrite (proj2 (Z.leb_le _ _)) by lia.
    assert (Hv : valid_page p) by (unfold valid_page, PGSIZE, KERNBASE, PHYSTOP; lia).
    assert (Hni : p ∉ l) by (intros Hin; specialize (Hl p Hin); lia).
    destruct (kfree_spec s l p Hf Hv Hni) as (s1 & E & Hf1 & _).
    assert (Hk : use_lock s1 = use_lock s ∧ initial_pages s1 = initial_pages s).
    { unfold kfree in E. destruct (bad_page p); [done|]. injection E as <-. done. }
    rewrite E. cbn [obind].
    destruct (IH fuel s1 (p :: l) (p + 4096) vend) as (s2 & E2 & Hf2 & Hu2 & Hi2); try done; try lia.
    { intros a [->|Ha%Hl]%elem_of_cons; lia. }
    { rewrite Z.add_mod, Hp by lia. done. }
    exists s2. split; [done|]. rewrite <- app_assoc. simpl. destruct Hk. split; [done|]. split; congruence.
Qed.

Lemma freerange_spec s l vstart vend :
  free_rep s l → 0 ≤ vstart ≤ vend → kend ≤ PGROUNDUP vstart ≤ vend → vend ≤ KERNBASE + PHYSTOP →
  (∀ a, a ∈ l → a < PGROUNDUP vstart ∨ vend ≤ a) →
  ∃ s', freerange s vstart vend = Ret s' ∧
    free_rep s' (pages_from (PGROUNDUP vstart) (Z.to_nat ((vend - PGROUNDUP vstart) / PGSIZE)) ++ l) ∧
    use_lock s' = use_lock s ∧ initial_pages s' = initial_pages s.
Proof.
  intros Hf H0 Hlo Hhi Hl. unfold freerange.
  assert (Hlt : vstart + 4095 < 2 ^ 32) by (unfold KERNBASE, PHYSTOP in *; lia).
  rewrite PGROUNDUP_eq in * by lia.
  pose proof (Z.div_mod (vstart + 4095) 4096). pose proof (Z.mod_pos_bound (vstart + 4095) 4096).
  set (p := 4096 * ((vstart + 4095) / 4096)) in *.
  pose proof (Z.div_mod (vend - p) PGSIZE). pose proof (Z.mod_pos_bound (vend - p) PGSIZE).
  unfold PGSIZE in *.
  apply freerange_loop_spec; try done; try lia.
  - unfold p, PGSIZE. rewrite Z.mul_comm. by apply Z.mod_mul.
  - rewrite Z2Nat.id by (apply Z.div_pos; lia). unfold PGSIZE. lia.
  - unfold freerange_fuel, PGSIZE. rewrite Z2Nat.inj_add by (try apply Z.div_pos; lia).
    apply (Nat.le_lt_trans _ (Z.to_nat (Z.max 0 (vend - vstart) / 4096))); [|lia].
    apply Z2Nat.inj_le; [apply Z.div_pos; lia..|]. apply Z.div_le_mono; lia.
Qed.

(** Every page the allocator hands out and takes back keeps the list
    well-formed, and a page given back is the next one handed out. *)
Lemma kfree_kalloc s l v s' :
  free_rep s l → valid_page v → v ∉ l → kfree s v = Ret s' →
  fst (kalloc s') = v ∧ freelist (snd (kalloc s')) = freelist s.
Proof.
  intros Hf Hv Hni E. pose proof (free_rep_freelist s l Hf) as Hu.
  unfold kfree in E. destruct (bad_page v); [done|]. injection E as <-.
  unfold kalloc. simpl. destruct (Z.eqb_spec v 0) as [->|_]; [by apply valid_page_nonzero in Hv|].
  simpl. by rewrite load32_store32_eq.
Qed.
End kalloc.

(** ** Sequences of allocations and releases

    The abstract allocator holds the free pages as a list and the pages handed
    out as another; a client may release only a page it holds. *)
Inductive kop := KAlloc | KFree (v : Z).

(** The result of an operation is the address it returns; [kfree] returns nothing,
    written 0. *)
Definition krun_op (kend : Z) (s : kstate) (o : kop) : outcome (Z * kstate) :=
  match o with
  | KAlloc => Ret (kalloc s)
  | KFree v => let! s' := kfree kend s v in Ret (0, s')
  end.
Fixpoint krun (kend : Z) (s : kstate) (ops : list kop) : outcome (list Z * kstate) :=
  match ops with
  | [] => Ret ([], s)
  | o :: ops' =>
      let! (r, s1) := krun_op kend s o in
      let! (rs, s2) := krun kend s1 ops' in
      Ret (r :: rs, s2)
  end.

(** The same results from the lists of held and free pages: an allocation returns a
    free page and null only when there is none. *)
Definition spec_op (st : list Z * list Z) (o : kop) : option (Z * (list Z * list Z)) :=
  let '(held, free) := st in
  match o with
  | KAlloc => match free with [] => Some (0, (held, [])) | a :: free' => Some (a, (a :: held, free')) end
  | KFree v => if decide (v ∈ held) then Some (0, (filter (λ x, x ≠ v) held, v :: free)) else None
  end.
Fixpoint spec_run (st : list Z * list Z) (ops : list kop) : option (list Z * (list Z * list Z)) :=
  match ops with
  | [] => Some ([], st)
  | o :: ops' =>
      match spec_op st o with
      | Some (r, st1) => match spec_run st1 ops' with Some (rs, st2) => Some (r :: rs, st2) | None => None end
      | None => None
      end
  end.

Definition freed (ops : list kop) (v : Z) : Prop := KFree v ∈ ops.

Lemma filter_ne_perm v (l : list Z) : NoDup l → v ∈ l → v :: filter (λ x, x ≠ v) l ≡ₚ l.
Proof.
  intros Hnd Hv. induction Hnd as [|a l Ha Hnd IH]; [by apply elem_of_nil in Hv|].
  destruct (decide (a = v)) as [->|Hne].
  - rewrite filter_cons_False by tauto. apply Permutation_skip.
    clear IH Hv. induction l as [|b l IH]; [done|].
    apply not_elem_of_cons in Ha as [Hb Ha]. apply NoDup_cons in Hnd as [? ?].
    rewrite filter_cons_True by congruence. by rewrite IH.
  - rewrite filter_cons_True by done. rewrite Permutation_swap. apply Permutation_skip, IH.
    apply elem_of_cons in Hv as [->|]; done.
Qed.

(** One operation of the code against one of the specification. *)
Lemma krun_op_spec kend s held free o r held' free' :
  KERNBASE + EXTMEM ≤ kend → free_rep kend s free → NoDup (held ++ free) →
  Forall (valid_page kend) held → spec_op (held, free) o = Some (r, (held', free')) →
  ∃ s', krun_op kend s o = Ret (r, s') ∧ free_rep kend s' free' ∧ Forall (valid_page kend) held' ∧
    held' ++ free' ≡ₚ held ++ free ∧ (o = KAlloc → r ∉ held) ∧
    (∀ a x, a ∈ held → o ≠ KFree a → in_page a x → load8 (memory s') x = load8 (memory s) x).
Proof.
  intros Hk Hf Hnd Hv Hop. destruct o as [|v]; simpl in *.
  - pose proof (kalloc_spec kend Hk s free Hf) as Hka. destruct free as [|a free]; simplify_eq.
    + rewrite Hka. exists s. split_and!; try done. intros _ H0. rewrite Forall_forall in Hv.
      by apply (valid_page_nonzero kend Hk 0 (Hv 0 H0)).
    + destruct Hka as (s' & -> & Hm & Hf' & Ha & Hni). exists s'. simpl. rewrite Hm.
      split_and!; try done; [by constructor|by rewrite Permutation_middle|].
      intros _ Hin. apply NoDup_app in Hnd as (_ & Hdis & _). apply (Hdis r Hin). by left.
  - case_decide as Hin; [|done]. simplify_eq.
    assert (Hval : valid_page kend v) by (rewrite Forall_forall in Hv; auto).
    apply NoDup_app in Hnd as (Hndh & Hdis & Hndf).
    destruct (kfree_spec kend Hk s free v Hf Hval (Hdis v Hin)) as (s' & -> & Hf' & Hm).
    exists s'. split_and!; try done.
    + rewrite Forall_forall in *. intros a [_ Ha]%list_elem_of_filter. by apply Hv.
    + rewrite <- Permutation_middle. rewrite app_comm_cons. by rewrite filter_ne_perm.
    + intros a x Ha Hne Hx. apply Hm. intros Hx'. apply Hne. f_equal.
      rewrite Forall_forall in Hv. symmetry.
      apply (in_page_inj a v x); [apply Hv, Ha|apply Hval|done|done].
Qed.

Lemma held_after_op held free o r held' free' a :
  spec_op (held, free) o = Some (r, (held', free')) → a ∈ held → o ≠ KFree a → a ∈ held'.
Proof.
  destruct o as [|v]; simpl; intros E Ha Hne.
  - destruct free; simplify_eq; [done|by right].
  - case_decide; simplify_eq. apply list_elem_of_filter. split; [by intros ->|done].
Qed.

(** C9: any sequence of allocations and releases in which clients release only
    pages they hold runs without a panic and returns the addresses of the list
    specification, in which an allocation returns a page that is free, and so held by
    nobody, or null when there is none: the free list stays a chain of distinct valid
    pages, every page is either free or held by one client, no page is lost, and the
    bytes of a page that is held and not released are never touched. *)
Theorem kalloc_kfree_exclusive kend ops : ∀ s held free rs held' free',
  KERNBASE + EXTMEM ≤ kend → free_rep kend s free → NoDup (held ++ free) →
  Forall (valid_page kend) held → spec_run (held, free) ops = Some (rs, (held', free')) →
  ∃ s', krun kend s ops = Ret (rs, s') ∧ free_rep kend s' free' ∧ NoDup (held' ++ free') ∧
    held' ++ free' ≡ₚ held ++ free ∧
    (∀ a x, a ∈ held → ¬ freed ops a → in_page a x → load8 (memory s') x = load8 (memory s) x).
Proof.
  induction ops as [|o ops IH]; intros s held free rs held' free' Hk Hf Hnd Hv Hrun; cbn [spec_run] in Hrun.
  { simplify_eq. exists s. done. }
  destruct (spec_op (held, free) o) as [[r [h1 f1]]|] eqn:Hop; [|done].
  destruct (spec_run (h1, f1) ops) as [[rs1 [h2 f2]]|] eqn:Hrest; [|done]. simplify_eq.
  destruct (krun_op_spec kend s held free o r h1 f1) as (s1 & E1 & Hf1 & Hv1 & Hp1 & _ & Hm1); try done.
  destruct (IH s1 h1 f1 rs1 held' free') as (s2 & E2 & Hf2 & Hnd2 & Hp2 & Hm2); try done.
  { by rewrite Hp1. }
  exists s2. cbn [krun]. rewrite E1. cbn [obind]. rewrite E2. split; [done|]. split; [done|]. split; [done|]. split; [by rewrite Hp2|].
  intros a x Ha Hfr Hx. unfold freed in Hfr.
  apply not_elem_of_cons in Hfr as [Hne Hfr]. rewrite <- Hm1 with (a := a) by (done || congruence).
  apply (Hm2 a); [|done|done]. eapply held_after_op; [done..|congruence].
Qed.

(** Two pages, one free and one in use, at the bottom of a kernel of 1 MB. *)
Definition two_pages : kstate := mkKstate (λ _, 0) (KERNBASE + EXTMEM) 1 2.
Lemma two_pages_rep : free_rep (KERNBASE + EXTMEM) two_pages [KERNBASE + EXTMEM].
Proof.
  split; [by vm_compute| |by apply NoDup_singleton]. constructor; [|done].
  unfold valid_page. by vm_compute.
Qed.

Lemma kalloc_kfree_exclusive_witness :
  let p := KERNBASE + EXTMEM in let q := p + PGSIZE in
  ∃ s', krun p two_pages [KAlloc; KFree q; KAlloc; KAlloc; KFree p] = Ret ([p; 0; q; 0; 0], s') ∧
    free_rep p s' [p] ∧ NoDup [q; p] ∧ [q; p] ≡ₚ [q; p] ∧
    (∀ a x, a ∈ [q] → ¬ freed [KAlloc; KFree q; KAlloc; KAlloc; KFree p] a → in_page a x →
       load8 (memory s') x = load8 (memory two_pages) x).
Proof.
  cbv zeta. apply (kalloc_kfree_exclusive _ _ _ [KERNBASE + EXTMEM + PGSIZE] [KERNBASE + EXTMEM]
    [KERNBASE + EXTMEM; 0; KERNBASE + EXTMEM + PGSIZE; 0; 0] [KERNBASE + EXTMEM + PGSIZE] [KERNBASE + EXTMEM]);
    [done|apply two_pages_rep| | |by vm_compute].
  - by apply (bool_decide_unpack _); vm_compute.
  - constructor; [|done]. unfold valid_page. by vm_compute.
Defined.

(** booting the allocator ([kinit1] on the pages of the first 4 MB after the
    kernel, then [kinit2] on the rest of physical memory) succeeds, puts every
    whole page above the kernel on the free list exactly once, so [num_free]
    counts them all, and turns locking on.  [initial_pages] counts only the
    pages of the second phase. *)
Theorem kinit_num_free kend m u i :
  KERNBASE + EXTMEM ≤ kend ≤ P2V 0x400000 →
  ∃ s1 s2, kinit1 kend (mkKstate m 0 u i) kend (P2V 0x400000) = Ret s1 ∧
    kinit2 kend s1 (P2V 0x400000) (P2V PHYSTOP) = Ret s2 ∧ use_lock s2 = 1 ∧
    initial_pages s2 = (PHYSTOP - 0x400000) / PGSIZE ∧
    let n := (P2V PHYSTOP - PGROUNDUP kend) / PGSIZE in
    initial_pages s2 + (P2V 0x400000 - PGROUNDUP kend) / PGSIZE = n ∧
    ∀ fuel, n < Z.of_nat fuel → num_free fuel s2 = Ret n.
Proof.
  change (P2V 0x400000) with 2151677952. change (P2V PHYSTOP) with 2382364672.
  change (KERNBASE + EXTMEM) with 2148532224. intros Hk.
  assert (Hup : PGROUNDUP kend = 4096 * ((kend + 4095) / 4096)) by (apply PGROUNDUP_eq; lia).
  pose proof (Z.div_mod (kend + 4095) 4096 ltac:(lia)) as Hdm.
  pose proof (Z.mod_pos_bound (kend + 4095) 4096 ltac:(lia)).
  assert (Hle : (kend + 4095) / 4096 ≤ 2151677952 / 4096).
  { change (2151677952 / 4096) with ((2151677952 + 4095) / 4096). apply Z.div_le_mono; lia. }
  change (2151677952 / 4096) with 525312 in Hle.
  set (k := (kend + 4095) / 4096) in *.
  assert (Hk' : KERNBASE + EXTMEM ≤ kend) by (change (KERNBASE + EXTMEM) with 2148532224; lia).
  destruct (freerange_spec kend Hk' (mkKstate m 0 0 i) [] kend 2151677952) as (s1 & E1 & F1 & U1 & I1).
  { split; [done|constructor|constructor]. }
  { lia. } { lia. } { done. } { by intros a ?%elem_of_nil. }
  rewrite app_nil_r, Hup in F1.
  destruct (freerange_spec kend Hk' s1 _ 2151677952 2382364672 F1) as (s2 & E2 & F2 & U2 & I2).
  { lia. } { change (PGROUNDUP 2151677952) with 2151677952. lia. } { done. }
  { change (PGROUNDUP 2151677952) with 2151677952.
    intros a (j & Hj & ->)%elem_of_pages_from. left.
    rewrite Z2Nat.id in Hj by (apply Z.div_pos; unfold PGSIZE; lia).
    pose proof (Z.div_mod (2151677952 - 4096 * k) 4096).
    pose proof (Z.mod_pos_bound (2151677952 - 4096 * k) 4096). unfold PGSIZE in *. lia. }
  exists s1. eexists. unfold kinit1, kinit2. split; [exact E1|]. rewrite E2. cbn [obind].
  split; [done|]. split; [done|]. split; [by vm_compute|]. rewrite Hup. unfold PGSIZE. cbn [initial_pages].
  change (u32 (PGROUNDDOWN 2382364672 - PGROUNDUP 2151677952) / 4096) with 56320.
  assert (D1 : (2382364672 - 4096 * k) / 4096 = 581632 - k).
  { symmetry. apply Z.div_unique_exact; lia. }
  assert (D2 : (2151677952 - 4096 * k) / 4096 = 525312 - k) by (symmetry; apply Z.div_unique_exact; lia).
  rewrite D1, D2. split; [lia|]. intros fuel Hfuel. unfold num_free. cbn [memory freelist].
  destruct F2 as [Hc Hv _].
  pose proof (num_free_loop_spec kend Hk' fuel _ _ _ 0 Hc Hv) as Hn.
  rewrite length_app, !length_pages_from in Hn. unfold PGSIZE in Hn. rewrite D2 in Hn.
  assert (D3 : (2382364672 - PGROUNDUP 2151677952) / 4096 = 56320) by (by vm_compute).
  rewrite D3 in Hn. rewrite Hn by lia. f_equal. lia.
Qed.

Lemma kinit_num_free_witness :
  let kend := KERNBASE + EXTMEM + 0x5123 in
  ∃ s1 s2, kinit1 kend (mkKstate (λ _, 0) 0 0 0) kend (P2V 0x400000) = Ret s1 ∧
    kinit2 kend s1 (P2V 0x400000) (P2V PHYSTOP) = Ret s2 ∧ use_lock s2 = 1 ∧
    initial_pages s2 = (PHYSTOP - 0x400000) / PGSIZE ∧
    let n := (P2V PHYSTOP - PGROUNDUP kend) / PGSIZE in
    initial_pages s2 + (P2V 0x400000 - PGROUNDUP kend) / PGSIZE = n ∧
    ∀ fuel, n < Z.of_nat fuel → num_free fuel s2 = Ret n.
Proof. apply (kinit_num_free (KERNBASE + EXTMEM + 0x5123)). split; by vm_compute. Defined.
