(* ===== verification/Paging.v ===== *)
(** * Paging metadata of a process

    The per-process bookkeeping added to vm.c for demand paging: the table of
    pages [p_meta.pages], the page queue [p_meta.pq], the free map of the swap
    file [p_meta.offsets], and the operations that keep them (proc.h:42-63,
    vm.c:264-290 and 462-817). *)
From stdpp Require Import base list strings.
From Stdlib Require Import ZArith Lia.
From S2P Require Import Prelude Mmu.

(** ** Data *)

Record page := mkPage {
  p_exists : Z; vaddr : Z; in_back : Z; offset : Z; age : Z; age2 : Z }.

Record page_queue := mkQueue { q_pages : list page; lastIndex : Z }.

Record p_meta := mkMeta { pages : list page; pq : page_queue; offsets : list Z }.

#[global] Instance page_eq_dec : EqDecision page.
Proof. solve_decision. Defined.

Definition zero_page : page := mkPage 0 0 0 0 0 0.
Definition NPAGES : nat := Z.to_nat MAX_TOTAL_PAGES.

Definition set_pages (m : p_meta) (l : list page) : p_meta := mkMeta l (pq m) (offsets m).
Definition set_pq (m : p_meta) (q : page_queue) : p_meta := mkMeta (pages m) q (offsets m).
Definition set_offsets (m : p_meta) (o : list Z) : p_meta := mkMeta (pages m) (pq m) o.

(** A C integer used as a condition. *)
Definition c_true (x : Z) : bool := negb (Z.eqb x 0).

(** [memset(&pr->paging_meta, 0, sizeof(struct p_meta))]. *)
Definition reset_paging_meta : p_meta :=
  mkMeta (replicate NPAGES zero_page)
         (mkQueue (replicate NPAGES zero_page) 0)
         (replicate NPAGES 0).

(** ** The page queue *)

Definition enqueue (q : page_queue) (toAdd : page) : outcome page_queue :=
  if Z.eqb (lastIndex q) MAX_TOTAL_PAGES then Panic "enqueue"
  else
    let! l := aset (q_pages q) (lastIndex q) toAdd "enqueue: index" in
    Ret (mkQueue l (lastIndex q + 1)).

(** The fields a removed entry loses; its [offset] stays. *)
Definition clear_entry (p : page) : page := mkPage 0 0 0 (offset p) 0 0.

(** [for(; i < MAX_TOTAL_PAGES; i++)]: the last entry is cleared, every other
    one takes its successor; [n] counts the iterations that are left. *)
Fixpoint shift_loop (n i : nat) (l : list page) : outcome (list page) :=
  match n with
  | O => Ret l
  | S n' =>
      if Nat.eqb i (NPAGES - 1) then
        match l !! i with
        | Some p => shift_loop n' (S i) (<[i := clear_entry p]> l)
        | None => Undef "shift: index"
        end
      else
        match l !! S i with
        | Some p => shift_loop n' (S i) (<[i := p]> l)
        | None => Undef "shift: index"
        end
  end.

Definition dequeue (q : page_queue) : outcome (page * page_queue) :=
  match q_pages q !! O with
  | None => Undef "dequeue: index"
  | Some toReturn =>
      let! l := shift_loop NPAGES 0 (<[O := clear_entry toReturn]> (q_pages q)) in
      Ret (toReturn, mkQueue l (lastIndex q - 1))
  end.

(** The test of the loop of [free_from_queue], [page_out_meta] and [deallocuvm]. *)
Definition holds_vaddr (va : Z) (p : page) : bool := c_true (p_exists p) && Z.eqb (vaddr p) va.

Definition free_from_queue (q : page_queue) (va : Z) : outcome page_queue :=
  match list_find (λ p, holds_vaddr va p = true) (q_pages q) with
  | Some (to_del, _) =>
      let! l := shift_loop (NPAGES - to_del) to_del (q_pages q) in
      Ret (mkQueue l (lastIndex q - 1))
  | None => Ret q
  end.

(** ** The table of pages and the swap-file map *)

Definition getFreePageOffset (m : p_meta) : Z :=
  match list_find (λ o, o ≠ 1) (offsets m) with
  | Some (i, _) => PGSIZE * Z.of_nat i
  | None => PGFILE_FULL_ERR
  end.

Definition page_out_meta (m : p_meta) (va off : Z) : outcome (Z * p_meta) :=
  match list_find (λ p, holds_vaddr va p = true) (pages m) with
  | Some (i, p) =>
      let l := <[i := mkPage (p_exists p) (vaddr p) 1 off (age p) (age2 p)]> (pages m) in
      let! o := aset (offsets m) (off / PGSIZE) 1 "page_out_meta: offset" in
      Ret (1, mkMeta l (pq m) o)
  | None => Ret (0, m)
  end.

Definition page_in_meta (m : p_meta) (va : Z) : outcome (Z * p_meta) :=
  match list_find (λ p, vaddr p = va) (pages m) with
  | Some (i, p) =>
      let p' := mkPage (p_exists p) (vaddr p) 0 (offset p) 0 0xffffffff in
      let! o := aset (offsets m) (offset p / PGSIZE) 0 "page_in_meta: offset" in
      let! q := enqueue (pq m) p' in
      Ret (1, mkMeta (<[i := p']> (pages m)) q o)
  | None => Ret (0, m)
  end.

Definition new_page (va : Z) : page := mkPage 1 va 0 0 0 0xffffffff.

(** The loop of [add_new_page]: the index of the slot to fill. *)
Fixpoint add_scan (va : Z) (i : nat) (l : list page) : outcome (option nat) :=
  match l with
  | [] => Ret None
  | p :: l' =>
      if holds_vaddr va p then Panic "add_new_page vaddr exists"
      else if c_true (p_exists p) then add_scan va (S i) l'
      else Ret (Some i)
  end.

Definition add_new_page (m : p_meta) (va : Z) : outcome (Z * p_meta) :=
  let! s := add_scan va 0 (pages m) in
  match s with
  | Some i =>
      let! q := enqueue (pq m) (new_page va) in
      Ret (1, mkMeta (<[i := new_page va]> (pages m)) q (offsets m))
  | None => Ret (0, m)
  end.

Definition numOfPagedOut (m : p_meta) : Z :=
  foldl (λ c p, if Z.eqb (p_exists p) 0 then c
                else if Z.eqb (in_back p) 1 then c + 1 else c) 0 (pages m).

Definition numOfPagedIn (m : p_meta) : Z :=
  foldl (λ c p, if Z.eqb (p_exists p) 0 then c
                else if Z.eqb (in_back p) 0 && Z.eqb (p_exists p) 1 then c + 1 else c) 0 (pages m).

Definition get_allocated_pages (m : p_meta) : Z :=
  foldl (λ c p, if c_true (p_exists p) then c + 1 else c) 0 (pages m).

(** The part of [deallocuvm] that forgets the page at [va]: every matching
    entry of the table is reset, then the page leaves the queue. *)
Definition forget_entry (va : Z) (p : page) : page :=
  if holds_vaddr va p then mkPage 0 0 0 0 0 0xffffffff else p.

Definition forget_page (m : p_meta) (va : Z) : outcome p_meta :=
  let! q := free_from_queue (pq m) va in
  Ret (mkMeta (forget_entry va <$> pages m) q (offsets m)).

(** ** Choice of the page to replace *)

Fixpoint count_loop (n : nat) (number counter : Z) : Z :=
  match n with
  | O => counter
  | S n' => count_loop n' (number / 2)
              (if Z.gtb (Z.lor number 1) 0 then u32 (counter + 1) else counter)
  end.
Definition count_set_bits (number : Z) : Z := count_loop 32 number 0.

(** A page both selection loops consider: present in the table and in RAM. *)
Definition in_ram (p : page) : bool := c_true (p_exists p) && negb (c_true (in_back p)).

Fixpoint nfua_scan (min_page : page) (l : list page) : page :=
  match l with
  | [] => min_page
  | p :: l' =>
      if negb (in_ram p) then nfua_scan min_page l'
      else if Z.ltb (age p) (age min_page) then nfua_scan p l'
      else nfua_scan min_page l'
  end.

Definition nfua_min (l : list page) : page :=
  match list_find (λ p, in_ram p = true) l with
  | Some (i, p) => nfua_scan p (drop i l)
  | None => zero_page
  end.

Definition select_nfua (m : p_meta) : outcome (Z * p_meta) :=
  let! (_, q) := dequeue (pq m) in
  Ret (vaddr (nfua_min (pages m)), set_pq m q).

Fixpoint lapa_scan (min_count : Z) (min_page : page) (l : list page) : page :=
  match l with
  | [] => min_page
  | p :: l' =>
      if negb (in_ram p) || Z.eqb (vaddr p) (vaddr min_page) then lapa_scan min_count min_page l'
      else
        let curr_count := count_set_bits (age2 p) in
        if Z.ltb curr_count min_count then lapa_scan curr_count p l'
        else if Z.eqb curr_count min_count then
          if Z.ltb (age2 p) (age2 min_page)
          then lapa_scan (count_set_bits (age2 p)) p l'
          else lapa_scan min_count min_page l'
        else lapa_scan min_count min_page l'
  end.

Definition lapa_min (l : list page) : page :=
  match list_find (λ p, in_ram p = true) l with
  | Some (i, p) => lapa_scan (count_set_bits (age2 p)) p (drop i l)
  | None => zero_page
  end.

Definition select_lapa (m : p_meta) : outcome (Z * p_meta) :=
  let! (_, q) := dequeue (pq m) in
  Ret (vaddr (lapa_min (pages m)), set_pq m q).

Definition select_aq (m : p_meta) : outcome (Z * p_meta) :=
  let! (toReturn, q) := dequeue (pq m) in
  Ret (vaddr toReturn, set_pq m q).

(** ** The queue as a list

    [queue_rep q l]: the array of [q] holds the pages of [l] in order, then
    only free entries. *)
Record queue_rep (q : page_queue) (l : list page) : Prop := mk_queue_rep {
  qr_len : length (q_pages q) = NPAGES;
  qr_last : lastIndex q = Z.of_nat (length l);
  qr_live : Forall (λ p, p_exists p = 1) l;
  qr_eq : ∃ free, q_pages q = l ++ free ∧ Forall (λ p, p_exists p = 0 ∧ vaddr p = 0) free }.

Lemma NPAGES_eq : NPAGES = 32%nat.
Proof. done. Qed.

Lemma shift_loop_S n i l :
  shift_loop (S n) i l =
    if Nat.eqb i (NPAGES - 1)
    then match l !! i with
         | Some p => shift_loop n (S i) (<[i := clear_entry p]> l)
         | None => Undef "shift: index" end
    else match l !! S i with
         | Some p => shift_loop n (S i) (<[i := p]> l)
         | None => Undef "shift: index" end.
Proof. done. Qed.

Lemma shift_loop_eq n i l :
  length l = NPAGES → (i + S n = NPAGES)%nat →
  ∃ x, l !! (NPAGES - 1)%nat = Some x ∧
       shift_loop (S n) i l = Ret (take i l ++ drop (S i) l ++ [clear_entry x]).
Proof.
  revert i l. induction n as [|n IH]; intros i l Hl Hi; rewrite shift_loop_S.
  - assert (i = (NPAGES - 1)%nat) as -> by lia. rewrite Nat.eqb_refl.
    destruct (lookup_lt_is_Some_2 l (NPAGES - 1)) as [x Hx]; [rewrite Hl; pose proof NPAGES_eq; lia|].
    exists x. rewrite Hx. split; [done|]. f_equal.
    rewrite insert_take_drop by (rewrite Hl; pose proof NPAGES_eq; lia).
    by rewrite (drop_ge l) by (rewrite Hl; pose proof NPAGES_eq; lia).
  - destruct (Nat.eqb_spec i (NPAGES - 1)); [lia|].
    destruct (lookup_lt_is_Some_2 l (S i)) as [y Hy]; [lia|]. rewrite Hy.
    destruct (IH (S i) (<[i:=y]> l)) as (x & Hx & ->);
      [by rewrite length_insert|lia|].
    exists x. rewrite list_lookup_insert_ne in Hx by lia. split; [done|]. f_equal.
    rewrite (drop_insert_lt l (S (S i)) i) by lia.
    rewrite (take_S_r _ i y) by (apply list_lookup_insert_eq; lia).
    rewrite take_insert_ge by lia.
    by rewrite (drop_S l y (S i) Hy), <- (assoc_L (++)).
Qed.

Lemma clear_entry_free p : p_exists (clear_entry p) = 0.
Proof. done. Qed.

Lemma enqueue_spec q l x :
  queue_rep q l → (length l < NPAGES)%nat → p_exists x = 1 →
  ∃ q', enqueue q x = Ret q' ∧ queue_rep q' (l ++ [x]).
Proof.
  intros [Hlen Hlast Hlive (free & Heq & Hfree)] Hlt Hx.
  assert (MAX_TOTAL_PAGES = Z.of_nat NPAGES) as HN by done.
  unfold enqueue. destruct (Z.eqb_spec (lastIndex q) MAX_TOTAL_PAGES); [lia|].
  rewrite aset_Ret by lia. cbn. eexists; split; [done|].
  destruct free as [|f free].
  { exfalso. apply (f_equal length) in Heq. rewrite length_app in Heq. simpl in Heq. lia. }
  split; simpl.
  - by rewrite length_insert.
  - rewrite length_app. simpl. lia.
  - apply Forall_app_2; [done|by constructor].
  - exists free. inversion Hfree. split; [|done].
    rewrite Hlast, Nat2Z.id, Heq, <- (Nat.add_0_r (length l)), insert_app_r. simpl.
    by rewrite <- (assoc_L (++)).
Qed.

Lemma enqueue_full q l x :
  queue_rep q l → length l = NPAGES → enqueue q x = Panic "enqueue".
Proof.
  intros [_ Hlast _ _] Hl. unfold enqueue. rewrite Hlast, Hl. done.
Qed.

Lemma dequeue_spec q x l :
  queue_rep q (x :: l) → ∃ q', dequeue q = Ret (x, q') ∧ queue_rep q' l.
Proof.
  intros [Hlen Hlast Hlive (free & Heq & Hfree)].
  unfold dequeue. rewrite Heq. simpl lookup. cbn [lookup list_lookup].
  destruct (shift_loop_eq (NPAGES - 1) 0 (clear_entry x :: l ++ free)) as (y & Hy & Hs).
  { rewrite <- Hlen, Heq. done. } { done. }
  change (S (NPAGES - 1)) with NPAGES in Hs.
  cbn [insert list_insert app]. rewrite Hs. cbn. eexists; split; [done|].
  inversion Hlive; subst. split; simpl.
  - rewrite drop_0, !length_app. apply (f_equal length) in Heq.
    rewrite Hlen in Heq. simpl in Heq. rewrite length_app in Heq. simpl. lia.
  - rewrite Hlast. simpl. lia.
  - done.
  - exists (free ++ [clear_entry y]). rewrite drop_0, <- (assoc_L (++)). split; [done|].
    apply Forall_app_2; [done|]. by constructor.
Qed.

Lemma holds_vaddr_true va p :
  holds_vaddr va p = true ↔ p_exists p ≠ 0 ∧ vaddr p = va.
Proof. unfold holds_vaddr, c_true. rewrite andb_true_iff, negb_true_iff, Z.eqb_neq, Z.eqb_eq. done. Qed.

(** The queue without its first page at [va]. *)
Fixpoint remove_vaddr (va : Z) (l : list page) : list page :=
  match l with
  | [] => []
  | p :: l' => if decide (vaddr p = va) then l' else p :: remove_vaddr va l'
  end.

Lemma remove_vaddr_find va l :
  Forall (λ p, p_exists p = 1) l →
  match list_find (λ p, holds_vaddr va p = true) l with
  | Some (i, _) => (i < length l)%nat ∧ remove_vaddr va l = take i l ++ drop (S i) l
  | None => remove_vaddr va l = l
  end.
Proof.
  induction 1 as [|p l Hp Hl IH]; simpl; [done|].
  destruct (decide (holds_vaddr va p = true)) as [Hh|Hh]; rewrite holds_vaddr_true in Hh.
  - simpl. destruct Hh. rewrite decide_True by done. split; [lia|]. by rewrite drop_0.
  - rewrite decide_False by (intros ?; apply Hh; split; [lia|done]).
    destruct (list_find _ l) as [[i y]|]; simpl; [|by rewrite IH].
    destruct IH as [? ->]. split; [lia|done].
Qed.

Lemma find_free_None va free :
  Forall (λ p, p_exists p = 0 ∧ vaddr p = 0) free →
  list_find (λ p, holds_vaddr va p = true) free = None.
Proof.
  intros Hf. apply list_find_None. eapply Forall_impl; [done|].
  intros p [Hp _] Hh. apply holds_vaddr_true in Hh. tauto.
Qed.

Lemma free_from_queue_spec q l va :
  queue_rep q l →
  ∃ q', free_from_queue q va = Ret q' ∧ queue_rep q' (remove_vaddr va l).
Proof.
  intros [Hlen Hlast Hlive (free & Heq & Hfree)]. unfold free_from_queue.
  pose proof (remove_vaddr_find va l Hlive) as Hrm. rewrite Heq.
  destruct (list_find (λ p, holds_vaddr va p = true) l) as [[i y]|] eqn:Hf.
  - destruct Hrm as [Hi ->]. rewrite (list_find_app_l _ _ _ _ _ Hf).
    assert (length l + length free = NPAGES)%nat as HN by (rewrite <- length_app, <- Heq; done).
    destruct (shift_loop_eq (NPAGES - i - 1) i (l ++ free)) as (x & Hx & Hs);
      [by rewrite <- Heq|lia|].
    replace (S (NPAGES - i - 1)) with (NPAGES - i)%nat in Hs by lia.
    rewrite Hs. cbn. eexists; split; [done|].
    rewrite take_app_le, drop_app_le by lia.
    split; simpl.
    + rewrite !length_app, length_take, length_drop. simpl. lia.
    + rewrite length_app, length_take, length_drop, Hlast. lia.
    + apply Forall_app_2; [by apply Forall_take|by apply Forall_drop].
    + exists (free ++ [clear_entry x]). split; [by rewrite <- !(assoc_L (++))|].
      apply Forall_app_2; [done|by constructor].
  - rewrite list_find_app_r by done. rewrite (find_free_None va free Hfree). simpl.
    exists q. split; [done|]. rewrite Hrm. split; eauto.
Qed.

(** ** Counting pages *)

Definition count_pages (P : page → bool) (l : list page) : Z :=
  Z.of_nat (length (filter (λ p, P p = true) l)).

Lemma foldl_count (P : page → bool) l c :
  foldl (λ c p, if P p then c + 1 else c) c l = c + count_pages P l.
Proof.
  revert c. unfold count_pages. induction l as [|p l IH]; intros c; simpl; [lia|].
  rewrite IH, filter_cons. destruct (P p) eqn:E; simpl; lia.
Qed.

Definition pg_out (p : page) : bool := negb (Z.eqb (p_exists p) 0) && Z.eqb (in_back p) 1.
Definition pg_in (p : page) : bool := Z.eqb (in_back p) 0 && Z.eqb (p_exists p) 1.

Lemma foldl_ext_page (f g : Z → page → Z) l c :
  (∀ c p, f c p = g c p) → foldl f c l = foldl g c l.
Proof. intros Hfg. revert c. induction l; intros; simpl; [done|]. by rewrite Hfg. Qed.

Lemma numOfPagedOut_count m : numOfPagedOut m = count_pages pg_out (pages m).
Proof.
  unfold numOfPagedOut. rewrite <- (Z.add_0_l (count_pages _ _)), <- foldl_count.
  apply foldl_ext_page. intros c p. unfold pg_out. by destruct (p_exists p =? 0), (in_back p =? 1).
Qed.

Lemma numOfPagedIn_count m : numOfPagedIn m = count_pages pg_in (pages m).
Proof.
  unfold numOfPagedIn. rewrite <- (Z.add_0_l (count_pages _ _)), <- foldl_count.
  apply foldl_ext_page. intros c p. unfold pg_in.
  destruct (Z.eqb_spec (p_exists p) 0) as [->|]; [by rewrite andb_false_r|done].
Qed.

Lemma get_allocated_pages_count m :
  get_allocated_pages m = count_pages (λ p, c_true (p_exists p)) (pages m).
Proof. unfold get_allocated_pages. by rewrite foldl_count. Qed.

Lemma count_pages_split (P Q R : page → bool) l :
  Forall (λ p, R p = P p || Q p ∧ P p && Q p = false) l →
  count_pages R l = count_pages P l + count_pages Q l.
Proof.
  unfold count_pages. induction 1 as [|p l [HR HPQ] Hl IH]; [done|].
  rewrite !filter_cons. destruct (P p) eqn:HP, (Q p) eqn:HQ, (R p) eqn:HR';
    simpl in *; try done; simpl; lia.
Qed.

Lemma count_pages_bound P l : 0 ≤ count_pages P l ≤ Z.of_nat (length l).
Proof. unfold count_pages. pose proof (length_filter (λ p, P p = true) l). lia. Qed.

(** ** Well-formed metadata *)

Definition page_ok (p : page) : Prop :=
  (p_exists p = 0 ∧ vaddr p = 0 ∧ in_back p = 0) ∨
  (p_exists p = 1 ∧ (in_back p = 0 ∨ in_back p = 1)).

Record meta_wf (m : p_meta) : Prop := mk_meta_wf {
  mw_pages : length (pages m) = NPAGES;
  mw_offs : length (offsets m) = NPAGES;
  mw_flags : Forall page_ok (pages m);
  (* a virtual address has at most one entry *)
  mw_uniq : ∀ i j p q, pages m !! i = Some p → pages m !! j = Some q →
    p_exists p = 1 → p_exists q = 1 → vaddr p = vaddr q → i = j;
  (* a page in the swap file owns a slot marked taken *)
  mw_slot : ∀ i p, pages m !! i = Some p → in_back p = 1 →
    ∃ k, offset p = PGSIZE * Z.of_nat k ∧ offsets m !! k = Some 1;
  (* and owns it alone *)
  mw_slot_uniq : ∀ i j p q, pages m !! i = Some p → pages m !! j = Some q →
    in_back p = 1 → in_back q = 1 → offset p = offset q → i = j;
  mw_bits : Forall (λ o, o = 0 ∨ o = 1) (offsets m);
  (* a taken slot has an owner *)
  mw_owner : ∀ k, offsets m !! k = Some 1 →
    ∃ i p, pages m !! i = Some p ∧ in_back p = 1 ∧ offset p = PGSIZE * Z.of_nat k }.

Lemma page_ok_at m i p : meta_wf m → pages m !! i = Some p → page_ok p.
Proof. intros Hm Hp. eapply (Forall_lookup_1 page_ok); [apply (mw_flags m Hm)|done]. Qed.

Lemma page_ok_back p : page_ok p → in_back p = 1 → p_exists p = 1.
Proof. unfold page_ok. lia. Qed.

Lemma owner_in_out m k :
  meta_wf m → offsets m !! k = Some 1 →
  PGSIZE * Z.of_nat k ∈ offset <$> filter (λ p, pg_out p = true) (pages m).
Proof.
  intros Hm Hk. destruct (mw_owner m Hm k Hk) as (i & p & Hp & Hb & Ho).
  apply list_elem_of_fmap. exists p. split; [done|].
  apply list_elem_of_filter. split; [|by eapply list_elem_of_lookup_2].
  pose proof (page_ok_back p (page_ok_at m i p Hm Hp) Hb) as He.
  unfold pg_out. by rewrite He, Hb.
Qed.

(** If the first [k] slots are taken then at least [k] pages are out. *)
Lemma taken_prefix_le m k :
  meta_wf m → (∀ j, (j < k)%nat → offsets m !! j = Some 1) →
  Z.of_nat k ≤ numOfPagedOut m.
Proof.
  intros Hm Htaken. rewrite numOfPagedOut_count. unfold count_pages.
  apply inj_le. rewrite <- (length_fmap offset).
  rewrite <- (length_seq k 0), <- (length_fmap (λ j, PGSIZE * Z.of_nat j)).
  apply submseteq_length, NoDup_submseteq.
  - apply NoDup_fmap_2_strong; [|apply NoDup_seq].
    intros x y _ _. unfold PGSIZE. lia.
  - intros x. rewrite list_elem_of_fmap. intros (j & -> & Hj).
    apply elem_of_seq in Hj. apply owner_in_out; [done|]. apply Htaken. lia.
Qed.

Lemma taken_before m k :
  meta_wf m → (∀ j y, offsets m !! j = Some y → (j < k)%nat → ¬ y ≠ 1) →
  (k ≤ NPAGES)%nat → ∀ j, (j < k)%nat → offsets m !! j = Some 1.
Proof.
  intros Hm Hbefore Hk j Hj.
  destruct (lookup_lt_is_Some_2 (offsets m) j) as [y Hy]; [rewrite (mw_offs m Hm); lia|].
  rewrite Hy. f_equal. destruct (decide (y = 1)); [done|]. exfalso. by eapply Hbefore.
Qed.

Lemma free_slot m :
  meta_wf m → numOfPagedOut m < MAX_TOTAL_PAGES →
  ∃ k, Z.of_nat k ≤ numOfPagedOut m ∧ offsets m !! k = Some 0 ∧
       getFreePageOffset m = PGSIZE * Z.of_nat k ∧ ∀ j, (j < k)%nat → offsets m !! j = Some 1.
Proof.
  intros Hm Hlt. unfold getFreePageOffset.
  destruct (list_find _ (offsets m)) as [[k o]|] eqn:Hf.
  - apply list_find_Some in Hf as (Hk & Ho & Hbefore).
    pose proof (lookup_lt_Some _ _ _ Hk) as Hlen. rewrite (mw_offs m Hm) in Hlen.
    assert (Htaken : ∀ j, (j < k)%nat → offsets m !! j = Some 1) by (by apply taken_before; [| |lia]).
    exists k. split; [|split; [|done]].
    + by apply taken_prefix_le.
    + rewrite Hk. f_equal. pose proof (Forall_lookup_1 _ _ _ _ (mw_bits m Hm) Hk). simpl in *. lia.
  - exfalso. apply list_find_None in Hf.
    assert (Z.of_nat NPAGES ≤ numOfPagedOut m); [|change (Z.of_nat NPAGES) with MAX_TOTAL_PAGES in *; lia].
    apply taken_prefix_le; [done|]. apply taken_before; [done| |lia].
    intros j y Hy _. by apply (Forall_lookup_1 _ _ _ _ Hf Hy).
Qed.

Lemma find_vaddr m i p :
  meta_wf m → pages m !! i = Some p → p_exists p = 1 →
  list_find (λ q, holds_vaddr (vaddr p) q = true) (pages m) = Some (i, p).
Proof.
  intros Hm Hp He. apply list_find_Some. split; [done|]. split.
  { apply holds_vaddr_true. lia. }
  intros j q Hq Hj Hh. apply holds_vaddr_true in Hh as [Hq0 Hqv].
  destruct (page_ok_at m j q Hm Hq) as [?|[? _]]; [lia|].
  pose proof (mw_uniq m Hm j i q p Hq Hp). lia.
Qed.

(** [page_in_meta] does not look at [exists]; the entries of absent pages hold
    address 0, so it finds the page unless the page is page 0. *)
Lemma find_vaddr_raw m i p :
  meta_wf m → pages m !! i = Some p → p_exists p = 1 → vaddr p ≠ 0 ∨ i = O →
  list_find (λ q, vaddr q = vaddr p) (pages m) = Some (i, p).
Proof.
  intros Hm Hp He Hz. apply list_find_Some. split; [done|]. split; [done|].
  intros j q Hq Hj Hqv.
  destruct (page_ok_at m j q Hm Hq) as [?|[? _]]; [lia|].
  pose proof (mw_uniq m Hm j i q p Hq Hp). lia.
Qed.

Lemma count_pages_lt (P : page → bool) l i p :
  l !! i = Some p → P p = false → count_pages P l < Z.of_nat (length l).
Proof.
  intros Hp HP. rewrite <- (take_drop_middle l i p Hp) at 1.
  unfold count_pages. rewrite filter_app, filter_cons, HP. simpl.
  rewrite length_app.
  pose proof (length_filter (λ p, P p = true) (take i l)).
  pose proof (length_filter (λ p, P p = true) (drop (S i) l)).
  pose proof (lookup_lt_Some _ _ _ Hp).
  rewrite length_take, length_drop in *. lia.
Qed.

Lemma div_PGSIZE_slot k : PGSIZE * Z.of_nat k / PGSIZE = Z.of_nat k.
Proof. rewrite Z.mul_comm. by apply Z.div_mul. Qed.

(** Case analysis of a lookup in an updated list. *)
Ltac insert_cases :=
  repeat match goal with
  | H : <[_:=_]> _ !! _ = Some _ |- _ =>
      apply list_lookup_insert_Some in H; destruct H as [(? & ? & ?)|(? & ?)]; simplify_eq
  end.

Lemma page_out_meta_wf m i p :
  meta_wf m → pages m !! i = Some p → p_exists p = 1 → in_back p = 0 →
  let off := getFreePageOffset m in
  ∃ k, off = PGSIZE * Z.of_nat k ∧ Z.of_nat k ≤ numOfPagedOut m ∧ offsets m !! k = Some 0 ∧
    (∀ j, (j < k)%nat → offsets m !! j = Some 1) ∧
    let m' := mkMeta (<[i := mkPage 1 (vaddr p) 1 off (age p) (age2 p)]> (pages m)) (pq m)
                (<[k := 1]> (offsets m)) in
    page_out_meta m (vaddr p) off = Ret (1, m') ∧ meta_wf m'.
Proof.
  intros Hm Hp He Hb. cbn zeta.
  destruct (free_slot m Hm) as (k & Hk & Ho & Heq & Htaken).
  { rewrite numOfPagedOut_count.
    assert (pg_out p = false) as HP by (unfold pg_out; by rewrite Hb, andb_false_r).
    pose proof (count_pages_lt _ _ _ _ Hp HP). rewrite (mw_pages m Hm) in *.
    change (Z.of_nat NPAGES) with MAX_TOTAL_PAGES in *. lia. }
  exists k. do 4 (split; [done|]).
  pose proof (lookup_lt_Some _ _ _ Ho) as Hlt.
  pose proof (lookup_lt_Some _ _ _ Hp) as Hlp.
  split.
  { unfold page_out_meta. rewrite (find_vaddr m i p) by done.
    rewrite Heq, div_PGSIZE_slot, aset_Ret, Nat2Z.id, He by lia. done. }
  assert (Hnew : ∀ j q, pages m !! j = Some q → in_back q = 1 → offset q ≠ getFreePageOffset m).
  { intros j q Hq Hqb Hqo. destruct (mw_slot m Hm j q Hq Hqb) as (k' & Hk' & Ho').
    rewrite Hqo, Heq in Hk'. assert (k' = k) as -> by (unfold PGSIZE in Hk'; lia).
    rewrite Ho in Ho'. done. }
  split; simpl.
  - by rewrite length_insert, (mw_pages m Hm).
  - by rewrite length_insert, (mw_offs m Hm).
  - apply Forall_insert; [apply (mw_flags m Hm)|]. right. simpl. lia.
  - intros j1 j2 p1 p2 H1 H2 He1 He2 Hv. insert_cases; try done;
      eapply (mw_uniq m Hm); eauto.
  - intros j q Hq Hqb. insert_cases.
    + exists k. simpl. split; [done|]. by apply list_lookup_insert_eq.
    + destruct (mw_slot m Hm j q ltac:(done) Hqb) as (k' & Hk' & Ho'). exists k'. split; [done|].
      rewrite list_lookup_insert_ne; [done|]. intros ->. rewrite Ho in Ho'. done.
  - intros j1 j2 p1 p2 H1 H2 Hb1 Hb2 Hoo. insert_cases; try done.
    + exfalso. by eapply (Hnew j1 p1).
    + exfalso. by eapply (Hnew j2 p2).
    + by eapply (mw_slot_uniq m Hm _ _ p1 p2).
  - apply Forall_insert; [apply (mw_bits m Hm)|]. by right.
  - intros k' Hk'. insert_cases.
    + exists i. eexists. split; [by apply list_lookup_insert_eq|]. done.
    + destruct (mw_owner m Hm k' ltac:(done)) as (j & q & Hq & Hqb & Hqo).
      exists j, q. rewrite list_lookup_insert_ne; [done|]. intros ->. congruence.
Qed.

Lemma page_in_meta_wf m l i p :
  meta_wf m → queue_rep (pq m) l → (length l < NPAGES)%nat →
  pages m !! i = Some p → in_back p = 1 → vaddr p ≠ 0 ∨ i = O →
  let p' := mkPage 1 (vaddr p) 0 (offset p) 0 0xffffffff in
  ∃ q' k, offset p = PGSIZE * Z.of_nat k ∧ offsets m !! k = Some 1 ∧
    let m' := mkMeta (<[i := p']> (pages m)) q' (<[k := 0]> (offsets m)) in
    page_in_meta m (vaddr p) = Ret (1, m') ∧ meta_wf m' ∧ queue_rep q' (l ++ [p']).
Proof.
  intros Hm Hq Hl Hp Hb Hz. cbn zeta.
  pose proof (page_ok_back p (page_ok_at m i p Hm Hp) Hb) as He.
  destruct (mw_slot m Hm i p Hp Hb) as (k & Hk & Ho).
  pose proof (lookup_lt_Some _ _ _ Ho) as Hlt.
  pose proof (lookup_lt_Some _ _ _ Hp) as Hlp.
  destruct (enqueue_spec _ _ (mkPage 1 (vaddr p) 0 (offset p) 0 0xffffffff) Hq Hl)
    as (q' & Hq' & Hrep); [done|].
  exists q', k. do 2 (split; [done|]). split; [|split; [|done]].
  { unfold page_in_meta. rewrite (find_vaddr_raw m i p) by done.
    rewrite Hk, div_PGSIZE_slot, aset_Ret, Nat2Z.id, He by lia. cbn.
    rewrite <- Hk, Hq'. done. }
  split; simpl.
  - by rewrite length_insert, (mw_pages m Hm).
  - by rewrite length_insert, (mw_offs m Hm).
  - apply Forall_insert; [apply (mw_flags m Hm)|]. right. simpl. lia.
  - intros j1 j2 p1 p2 H1 H2 He1 He2 Hv. insert_cases; try done;
      eapply (mw_uniq m Hm); eauto.
  - intros j x Hx Hxb. insert_cases.
    destruct (mw_slot m Hm j x ltac:(done) Hxb) as (k' & Hk' & Ho'). exists k'. split; [done|].
    rewrite list_lookup_insert_ne; [done|]. intros ->.
    assert (i = j); [|done]. eapply (mw_slot_uniq m Hm i j p x); try done. congruence.
  - intros j1 j2 p1 p2 H1 H2 Hb1 Hb2 Hoo. insert_cases.
    by eapply (mw_slot_uniq m Hm _ _ p1 p2).
  - apply Forall_insert; [apply (mw_bits m Hm)|]. by left.
  - intros k' Hk'. insert_cases.
    destruct (mw_owner m Hm k' ltac:(done)) as (j & x & Hx & Hxb & Hxo).
    exists j, x. rewrite list_lookup_insert_ne; [done|]. intros ->. simplify_eq.
    unfold PGSIZE in *. lia.
Qed.

Lemma add_scan_spec va j l :
  Forall page_ok l → Forall (λ p, holds_vaddr va p = false) l →
  match add_scan va j l with
  | Ret (Some i) => ∃ k p, i = (j + k)%nat ∧ l !! k = Some p ∧ p_exists p = 0
  | Ret None => Forall (λ p, p_exists p = 1) l
  | _ => False
  end.
Proof.
  revert j. induction l as [|p l IH]; intros j Hok Hva; simpl; [done|].
  apply Forall_cons in Hok as [Hp Hok]. apply Forall_cons in Hva as [Hv Hva]. rewrite Hv.
  destruct (c_true (p_exists p)) eqn:Hc; unfold c_true in Hc.
  - specialize (IH (S j) Hok Hva). destruct (add_scan va (S j) l) as [[i|]| | | |]; try done.
    + destruct IH as (k & q & -> & Hk & Hq). exists (S k), q. split; [lia|done].
    + constructor; [|done]. destruct Hp as [(Hp & _)|[Hp _]]; [by rewrite Hp in Hc|done].
  - exists O, p. split; [lia|]. split; [done|]. apply negb_false_iff, Z.eqb_eq in Hc. done.
Qed.

(** Metadata, queue and swap map agree: the queue lists the pages in RAM. *)
Definition ram_vaddrs (l : list page) : list Z := vaddr <$> filter (λ p, in_ram p = true) l.

Record meta_inv (m : p_meta) (l : list page) : Prop := mk_meta_inv {
  mi_wf : meta_wf m;
  mi_queue : queue_rep (pq m) l;
  mi_sync : vaddr <$> l ≡ₚ ram_vaddrs (pages m) }.

Lemma ram_vaddrs_mid l i p :
  l !! i = Some p →
  ram_vaddrs l ≡ₚ (if in_ram p then [vaddr p] else []) ++ ram_vaddrs (take i l ++ drop (S i) l).
Proof.
  intros Hp. unfold ram_vaddrs. rewrite <- (take_drop_middle l i p Hp) at 1.
  rewrite !filter_app, filter_cons, !fmap_app.
  destruct (in_ram p); simpl; [|done]. by rewrite Permutation_middle.
Qed.

Lemma ram_vaddrs_insert l i p p' :
  l !! i = Some p →
  (if in_ram p then [vaddr p] else []) ++ ram_vaddrs (<[i := p']> l) ≡ₚ
  (if in_ram p' then [vaddr p'] else []) ++ ram_vaddrs l.
Proof.
  intros Hp. pose proof (lookup_lt_Some _ _ _ Hp) as Hlt.
  rewrite (ram_vaddrs_mid l i p Hp).
  rewrite (ram_vaddrs_mid (<[i := p']> l) i p') by (by apply list_lookup_insert_eq).
  rewrite take_insert_ge, drop_insert_lt by lia.
  rewrite !(assoc_L (++)). apply Permutation_app_tail, Permutation_app_comm.
Qed.

Lemma in_ram_ok p : page_ok p → in_ram p = pg_in p.
Proof.
  unfold page_ok, in_ram, pg_in, c_true.
  intros [(-> & _ & ->)|(-> & [-> | ->])]; done.
Qed.

Lemma meta_inv_count m l : meta_inv m l → numOfPagedIn m = Z.of_nat (length l).
Proof.
  intros [Hm Hq Hs]. apply Permutation_length in Hs. unfold ram_vaddrs in Hs.
  rewrite !length_fmap in Hs. rewrite Hs, numOfPagedIn_count. unfold count_pages.
  pose proof (mw_flags m Hm) as Hok. clear -Hok. do 2 f_equal.
  induction Hok as [|p l Hp Hl IH]; [done|]. rewrite !filter_cons, <- (in_ram_ok p Hp), IH. done.
Qed.

Lemma in_ram_spec m i p :
  meta_wf m → pages m !! i = Some p → in_ram p = true → p_exists p = 1 ∧ in_back p = 0.
Proof.
  intros Hm Hp. rewrite (in_ram_ok p (page_ok_at m i p Hm Hp)). unfold pg_in.
  rewrite andb_true_iff, !Z.eqb_eq. tauto.
Qed.

Lemma ram_vaddrs_elem m va :
  meta_wf m → va ∈ ram_vaddrs (pages m) →
  ∃ i p, pages m !! i = Some p ∧ p_exists p = 1 ∧ in_back p = 0 ∧ vaddr p = va.
Proof.
  intros Hm. unfold ram_vaddrs. rewrite list_elem_of_fmap. intros (p & -> & Hp).
  apply list_elem_of_filter in Hp as [Hr Hp]. apply list_elem_of_lookup in Hp as [i Hp].
  exists i, p. destruct (in_ram_spec m i p Hm Hp Hr). done.
Qed.

(** ** The operations keep metadata, queue and swap map in agreement *)

Lemma count_pages_all (P : page → bool) l :
  Forall (λ p, P p = true) l → count_pages P l = Z.of_nat (length l).
Proof.
  unfold count_pages. induction 1 as [|p l Hp Hl IH]; [done|].
  rewrite filter_cons, decide_True by done. simpl. lia.
Qed.

Lemma count_pages_insert (P : page → bool) l i p p' :
  l !! i = Some p →
  count_pages P (<[i := p']> l) + (if P p then 1 else 0) =
  count_pages P l + (if P p' then 1 else 0).
Proof.
  intros Hp. pose proof (lookup_lt_Some _ _ _ Hp) as Hlt.
  rewrite insert_take_drop by done. rewrite <- (take_drop_middle l i p Hp) at 3.
  unfold count_pages. rewrite !filter_app, !filter_cons, !length_app.
  destruct (P p), (P p'); simpl; lia.
Qed.

(** The metadata after page [i] has gone to the swap file, and after it has come back. *)
Definition out_meta (m : p_meta) (i : nat) (p : page) (k : nat) : p_meta :=
  mkMeta (<[i := mkPage 1 (vaddr p) 1 (PGSIZE * Z.of_nat k) (age p) (age2 p)]> (pages m)) (pq m)
    (<[k := 1]> (offsets m)).
Definition back_page (p : page) : page := mkPage 1 (vaddr p) 0 (offset p) 0 0xffffffff.
Definition in_meta (m : p_meta) (i : nat) (p : page) (q : page_queue) (k : nat) : p_meta :=
  mkMeta (<[i := back_page p]> (pages m)) q (<[k := 0]> (offsets m)).

Lemma ram_vaddrs_out m i p k :
  pages m !! i = Some p → p_exists p = 1 → in_back p = 0 →
  vaddr p :: ram_vaddrs (pages (out_meta m i p k)) ≡ₚ ram_vaddrs (pages m).
Proof.
  intros Hp He Hb. pose proof (ram_vaddrs_insert (pages m) i p
    (mkPage 1 (vaddr p) 1 (PGSIZE * Z.of_nat k) (age p) (age2 p)) Hp) as Hi.
  unfold in_ram in Hi at 1. rewrite He, Hb in Hi. exact Hi.
Qed.

Lemma ram_vaddrs_in m i p q k :
  pages m !! i = Some p → in_back p = 1 →
  ram_vaddrs (pages (in_meta m i p q k)) ≡ₚ vaddr p :: ram_vaddrs (pages m).
Proof.
  intros Hp Hb. pose proof (ram_vaddrs_insert (pages m) i p (back_page p) Hp) as Hi.
  unfold in_ram in Hi at 1. rewrite Hb, andb_false_r in Hi. exact Hi.
Qed.

Lemma evict_meta_inv m i p l :
  meta_wf m → queue_rep (pq m) l → pages m !! i = Some p → p_exists p = 1 → in_back p = 0 →
  vaddr p :: (vaddr <$> l) ≡ₚ ram_vaddrs (pages m) →
  ∃ k, getFreePageOffset m = PGSIZE * Z.of_nat k ∧ Z.of_nat k ≤ numOfPagedOut m ∧
    page_out_meta m (vaddr p) (getFreePageOffset m) = Ret (1, out_meta m i p k) ∧
    meta_inv (out_meta m i p k) l ∧ numOfPagedOut (out_meta m i p k) = numOfPagedOut m + 1.
Proof.
  intros Hm Hq Hp He Hb Hs.
  destruct (page_out_meta_wf m i p Hm Hp He Hb) as (k & Hk & Hle & _ & _ & Hout & Hwf).
  exists k. rewrite Hk in Hout, Hwf. split; [done|]. split; [done|]. rewrite Hk. split; [exact Hout|]. split.
  - split; [done|done|]. apply (Permutation_cons_inv (a := vaddr p)). by rewrite Hs, ram_vaddrs_out.
  - rewrite !numOfPagedOut_count. simpl.
    pose proof (count_pages_insert pg_out (pages m) i p
      (mkPage 1 (vaddr p) 1 (PGSIZE * Z.of_nat k) (age p) (age2 p)) Hp) as Hc.
    unfold pg_out in Hc at 2 4. rewrite Hb, andb_false_r in Hc. simpl in Hc. lia.
Qed.

Lemma page_in_meta_inv m l i p :
  meta_inv m l → (length l < NPAGES)%nat →
  pages m !! i = Some p → in_back p = 1 → vaddr p ≠ 0 ∨ i = O →
  ∃ q k, page_in_meta m (vaddr p) = Ret (1, in_meta m i p q k) ∧ offset p = PGSIZE * Z.of_nat k ∧
    offsets m !! k = Some 1 ∧ meta_inv (in_meta m i p q k) (l ++ [back_page p]) ∧
    numOfPagedOut (in_meta m i p q k) = numOfPagedOut m - 1.
Proof.
  intros [Hm Hq Hs] Hl Hp Hb Hz.
  destruct (page_in_meta_wf m l i p Hm Hq Hl Hp Hb Hz) as (q' & k & Hoff & Hk & Hin & Hwf & Hrep).
  exists q', k. split; [exact Hin|]. do 2 (split; [done|]). split; [split; [done|done|]|].
  - rewrite fmap_app, Hs, ram_vaddrs_in by done. by rewrite (comm (++)).
  - rewrite !numOfPagedOut_count. simpl.
    pose proof (page_ok_back p (page_ok_at m i p Hm Hp) Hb) as He.
    pose proof (count_pages_insert pg_out (pages m) i p (back_page p) Hp) as Hc.
    unfold pg_out in Hc at 2 4. rewrite Hb, He in Hc. simpl in Hc. lia.
Qed.

Lemma add_new_page_inv m l va :
  meta_inv m l → (length l < NPAGES)%nat →
  Forall (λ p, holds_vaddr va p = false) (pages m) →
  get_allocated_pages m < MAX_TOTAL_PAGES →
  ∃ m', add_new_page m va = Ret (1, m') ∧ meta_inv m' (l ++ [new_page va]) ∧
    numOfPagedOut m' = numOfPagedOut m ∧ get_allocated_pages m' = get_allocated_pages m + 1.
Proof.
  intros [Hm Hq Hs] Hl Hva Halloc. unfold add_new_page.
  pose proof (add_scan_spec va 0 (pages m) (mw_flags m Hm) Hva) as Hscan.
  destruct (add_scan va 0 (pages m)) as [[i|]| | | |]; try done; cbn.
  2:{ exfalso. rewrite get_allocated_pages_count, count_pages_all, (mw_pages m Hm) in Halloc.
      - by vm_compute in Halloc.
      - eapply Forall_impl; [exact Hscan|]. simpl. intros p ->. done. }
  destruct Hscan as (k & p & -> & Hp & He). simpl.
  destruct (enqueue_spec (pq m) l (new_page va) Hq Hl) as (q' & Hq' & Hrep); [done|].
  rewrite Hq'. cbn. eexists. split; [done|].
  pose proof (lookup_lt_Some _ _ _ Hp) as Hlt.
  assert (Hb : in_back p = 0) by (destruct (page_ok_at m k p Hm Hp); lia).
  assert (Hfresh : ∀ j q, pages m !! j = Some q → p_exists q = 1 → vaddr q ≠ va).
  { intros j q Hq1 Hqe Hqv. pose proof (Forall_lookup_1 _ _ _ _ Hva Hq1) as Hh. simpl in Hh.
    assert (holds_vaddr va q = true) by (apply holds_vaddr_true; lia). congruence. }
  split; [split; [split|done|]|split]; simpl.
  - by rewrite length_insert, (mw_pages m Hm).
  - apply (mw_offs m Hm).
  - apply Forall_insert; [apply (mw_flags m Hm)|]. right. simpl. lia.
  - intros j1 j2 p1 p2 H1 H2 He1 He2 Hv. insert_cases; try done.
    + exfalso. by eapply Hfresh.
    + exfalso. symmetry in Hv. by eapply Hfresh.
    + eapply (mw_uniq m Hm); eauto.
  - intros j x Hx Hxb. insert_cases. by eapply (mw_slot m Hm).
  - intros j1 j2 p1 p2 H1 H2 Hb1 Hb2 Hoo. insert_cases. by eapply (mw_slot_uniq m Hm _ _ p1 p2).
  - apply (mw_bits m Hm).
  - intros k' Hk'. destruct (mw_owner m Hm k' Hk') as (j & x & Hx & Hxb & Hxo).
    exists j, x. rewrite list_lookup_insert_ne; [done|]. intros ->. simplify_eq. lia.
  - rewrite fmap_app, Hs. simpl.
    pose proof (ram_vaddrs_insert (pages m) k p (new_page va) Hp) as Hi.
    unfold in_ram in Hi at 1. rewrite He in Hi. simpl in Hi. rewrite Hi. by rewrite (comm (++)).
  - rewrite !numOfPagedOut_count. simpl.
    pose proof (count_pages_insert pg_out (pages m) k p (new_page va) Hp) as Hc.
    unfold pg_out in Hc at 2 4. rewrite He in Hc. simpl in Hc. lia.
  - rewrite !get_allocated_pages_count. simpl.
    pose proof (count_pages_insert (λ p, c_true (p_exists p)) (pages m) k p (new_page va) Hp) as Hc.
    simpl in Hc. rewrite He in Hc. simpl in Hc. lia.
Qed.

Lemma forget_entry_other va p : holds_vaddr va p = false → forget_entry va p = p.
Proof. unfold forget_entry. by intros ->. Qed.

Lemma forget_fmap_id va l :
  Forall (λ p, holds_vaddr va p = false) l → forget_entry va <$> l = l.
Proof.
  induction 1 as [|p l Hp Hl IH]; [done|]. by rewrite fmap_cons, IH, forget_entry_other.
Qed.

Lemma forget_fmap_insert m i p :
  meta_wf m → pages m !! i = Some p → p_exists p = 1 →
  forget_entry (vaddr p) <$> pages m = <[i := mkPage 0 0 0 0 0 0xffffffff]> (pages m).
Proof.
  intros Hm Hp He. apply list_eq. intros j. rewrite list_lookup_fmap.
  destruct (decide (i = j)) as [<-|Hne].
  - rewrite list_lookup_insert_eq by (by eapply lookup_lt_Some). rewrite Hp. simpl.
    unfold forget_entry. assert (holds_vaddr (vaddr p) p = true) as -> by (apply holds_vaddr_true; lia).
    done.
  - rewrite list_lookup_insert_ne by done. destruct (pages m !! j) as [q|] eqn:Hq; [|done]. simpl.
    f_equal. apply forget_entry_other. apply not_true_is_false. rewrite holds_vaddr_true.
    intros [Hq0 Hv]. destruct (page_ok_at m j q Hm Hq) as [?|[? _]]; [lia|].
    apply Hne. by eapply (mw_uniq m Hm i j p q).
Qed.

Lemma remove_vaddr_perm va l :
  va ∈ vaddr <$> l → va :: (vaddr <$> remove_vaddr va l) ≡ₚ vaddr <$> l.
Proof.
  induction l as [|p l IH]; simpl; [by intros ?%not_elem_of_nil|].
  destruct (decide (vaddr p = va)) as [->|Hne]; [done|]. simpl.
  rewrite elem_of_cons. intros [?|Hin]; [congruence|].
  rewrite <- (IH Hin). apply Permutation_swap.
Qed.

Lemma remove_vaddr_notin va l : va ∉ vaddr <$> l → remove_vaddr va l = l.
Proof.
  induction l as [|p l IH]; simpl; [done|]. rewrite not_elem_of_cons. intros [? ?].
  rewrite decide_False by congruence. by rewrite IH.
Qed.

Lemma forget_ram_wf m i p :
  meta_wf m → pages m !! i = Some p → p_exists p = 1 → in_back p = 0 → ∀ q,
  meta_wf (mkMeta (<[i := mkPage 0 0 0 0 0 0xffffffff]> (pages m)) q (offsets m)).
Proof.
  intros Hm Hp He Hb q. split; simpl.
  - by rewrite length_insert, (mw_pages m Hm).
  - apply (mw_offs m Hm).
  - apply Forall_insert; [apply (mw_flags m Hm)|]. by left.
  - intros j1 j2 p1 p2 H1 H2 He1 He2 Hv. insert_cases; try done. eapply (mw_uniq m Hm); eauto.
  - intros j x Hx Hxb. insert_cases. by eapply (mw_slot m Hm).
  - intros j1 j2 p1 p2 H1 H2 Hb1 Hb2 Hoo. insert_cases. by eapply (mw_slot_uniq m Hm _ _ p1 p2).
  - apply (mw_bits m Hm).
  - intros k' Hk'. destruct (mw_owner m Hm k' Hk') as (j & x & Hx & Hxb & Hxo).
    exists j, x. rewrite list_lookup_insert_ne; [done|]. intros ->. simplify_eq. lia.
Qed.

Lemma forget_page_inv m l i p :
  meta_inv m l → pages m !! i = Some p → p_exists p = 1 → in_back p = 0 →
  ∃ m', forget_page m (vaddr p) = Ret m' ∧ meta_inv m' (remove_vaddr (vaddr p) l) ∧
    Forall (λ q, holds_vaddr (vaddr p) q = false) (pages m') ∧
    numOfPagedIn m' = numOfPagedIn m - 1.
Proof.
  intros [Hm Hq Hs] Hp He Hb. unfold forget_page.
  destruct (free_from_queue_spec (pq m) l (vaddr p) Hq) as (q' & -> & Hrep). cbn.
  rewrite (forget_fmap_insert m i p) by done. eexists. split; [done|].
  assert (Hinv : meta_inv (mkMeta (<[i:=mkPage 0 0 0 0 0 0xffffffff]> (pages m)) q' (offsets m))
                   (remove_vaddr (vaddr p) l)).
  { split; [by eapply forget_ram_wf|done|]. simpl.
    apply (Permutation_cons_inv (a := vaddr p)).
    pose proof (ram_vaddrs_insert (pages m) i p (mkPage 0 0 0 0 0 0xffffffff) Hp) as Hi.
    unfold in_ram in Hi at 1. rewrite He, Hb in Hi. simpl in Hi.
    rewrite remove_vaddr_perm; [by rewrite Hi|]. rewrite Hs, <- Hi. left. }
  split; [done|]. split.
  - rewrite <- (forget_fmap_insert m i p) by done. apply Forall_fmap, Forall_true.
    intros x. simpl. unfold forget_entry.
    destruct (holds_vaddr (vaddr p) x) eqn:Hx; [done|done].
  - rewrite (meta_inv_count _ _ Hinv), (meta_inv_count m l) by (by split).
    assert (Hin : vaddr p ∈ vaddr <$> l).
    { rewrite Hs. unfold ram_vaddrs. apply list_elem_of_fmap. exists p. split; [done|].
      apply list_elem_of_filter. split; [|by eapply list_elem_of_lookup_2].
      unfold in_ram. by rewrite He, Hb. }
    pose proof (Permutation_length (remove_vaddr_perm _ _ Hin)) as Hlen. simpl in Hlen.
    rewrite !length_fmap in Hlen. lia.
Qed.

Lemma reset_inv : meta_inv reset_paging_meta [].
Proof.
  split; [|split; [done|done|done|]|done].
  - split; try done.
    + apply Forall_replicate. by left.
    + intros i j p q Hp Hq. apply lookup_replicate_1 in Hp as [-> _]. done.
    + intros i p Hp. apply lookup_replicate_1 in Hp as [-> _]. done.
    + intros i j p q Hp Hq. apply lookup_replicate_1 in Hp as [-> _]. done.
    + apply Forall_replicate. by left.
    + intros k Hk. apply lookup_replicate_1 in Hk as [? _]. done.
  - exists (replicate NPAGES zero_page). split; [done|]. by apply Forall_replicate.
Qed.

(** ** Concrete metadata

    A process whose pages [l] are all in RAM, in the order they were added. *)
Definition pad_pages (l : list page) : list page := l ++ replicate (NPAGES - length l) zero_page.
Definition fresh_meta (l : list page) : p_meta :=
  mkMeta (pad_pages l) (mkQueue (pad_pages l) (Z.of_nat (length l))) (replicate NPAGES 0).

Lemma pad_pages_lookup l i p :
  pad_pages l !! i = Some p → l !! i = Some p ∨ p = zero_page.
Proof.
  unfold pad_pages. intros Hp. apply lookup_app_Some in Hp as [?|[_ Hp]]; [by left|right].
  by apply lookup_replicate_1 in Hp as [-> _].
Qed.

Lemma fresh_meta_inv l :
  (length l ≤ NPAGES)%nat → Forall (λ p, p_exists p = 1 ∧ in_back p = 0) l →
  NoDup (vaddr <$> l) → meta_inv (fresh_meta l) l.
Proof.
  intros Hlen Hall Hnd.
  assert (length (pad_pages l) = NPAGES) as Hpad.
  { unfold pad_pages. rewrite length_app, length_replicate. lia. }
  assert (Hl : ∀ i p, l !! i = Some p → p_exists p = 1 ∧ in_back p = 0).
  { intros i p Hp. by apply (Forall_lookup_1 _ _ _ _ Hall Hp). }
  split.
  - split; cbn [pages offsets fresh_meta]; try done.
    + apply Forall_app_2; [|apply Forall_replicate; by left].
      eapply Forall_impl; [done|]. intros p [? ?]. right. lia.
    + intros i j p q Hp Hq He1 He2 Hv.
      apply pad_pages_lookup in Hp as [Hp| ->]; [|done].
      apply pad_pages_lookup in Hq as [Hq| ->]; [|done].
      eapply (NoDup_lookup (vaddr <$> l) i j (vaddr p)); [done|..];
        rewrite list_lookup_fmap; [by rewrite Hp|by rewrite Hq, Hv].
    + intros i p Hp Hb. apply pad_pages_lookup in Hp as [Hp| ->]; [|done].
      apply Hl in Hp. lia.
    + intros i j p q Hp Hq Hb. apply pad_pages_lookup in Hp as [Hp| ->]; [|done].
      apply Hl in Hp. lia.
    + apply Forall_replicate. by left.
    + intros k Hk. apply lookup_replicate_1 in Hk as [? _]. done.
  - split; [done|done|by eapply Forall_impl; [done|]; intros ? [? ?]|].
    eexists. split; [done|]. by apply Forall_replicate.
  - unfold ram_vaddrs. simpl. unfold pad_pages. rewrite filter_app, fmap_app.
    replace (filter (λ p, in_ram p = true) l) with l.
    + assert (filter (λ p, in_ram p = true) (replicate (NPAGES - length l) zero_page) = []) as ->.
      { clear. induction (NPAGES - length l)%nat as [|n IH]; [done|].
        simpl replicate. rewrite filter_cons. exact IH. }
      by rewrite app_nil_r.
    + clear -Hall. induction Hall as [|p l [He Hb] Hl IH]; [done|].
      rewrite filter_cons, decide_True; [by rewrite <- IH|]. unfold in_ram. by rewrite He, Hb.
Qed.

(** The pages [0 .. n-1] of an address space, as [add_new_page] creates them. *)
Definition new_pages (n : nat) : list page := (λ k, new_page (PGSIZE * Z.of_nat k)) <$> seq 0 n.

Lemma new_pages_inv n : (n ≤ NPAGES)%nat → meta_inv (fresh_meta (new_pages n)) (new_pages n).
Proof.
  intros Hn. apply fresh_meta_inv.
  - unfold new_pages. by rewrite length_fmap, length_seq.
  - apply Forall_fmap, Forall_true. done.
  - unfold new_pages. rewrite <- list_fmap_compose. apply NoDup_fmap_2_strong; [|apply NoDup_seq].
    intros x y _ _. simpl. unfold PGSIZE. lia.
Qed.
