(* ===== verification/Replacement.v ===== *)
(** * Page-replacement policies

    Aging of the pages on a clock tick and the choice of the page to evict
    (vm.c:782-965) for the four policies the kernel can be built with: NFUA,
    LAPA, SCFIFO and AQ.  The policies read and clear the accessed bit of
    page-table entries; they are stated against the interface [PteOps], which
    the page tables of the machine implement. *)
From stdpp Require Import base list strings sets.
From Stdlib Require Import ZArith Lia.
From S2P Require Import Prelude Mmu Paging.

(** ** Interface to the page table of a process

    [pte_get t va] is [*walkpgdir(pgdir, va, 0)], [None] when [walkpgdir] gives
    a null pointer; [pte_set t va e] is the store [*walkpgdir(pgdir, va, 0) = e]. *)
Class PteOps (T : Type) := {
  pte_get : T → Z → option Z;
  pte_set : T → Z → Z → T;
  pte_wf : T → Prop }.

Class PteLaws (T : Type) `{!PteOps T} := {
  pte_get_u32 t va e : pte_wf t → is_u32 va → pte_get t va = Some e → is_u32 e;
  pte_get_page t va va' : is_u32 va → is_u32 va' → va / PGSIZE = va' / PGSIZE →
    pte_get t va = pte_get t va';
  pte_set_wf t va e : pte_wf t → is_u32 va → is_Some (pte_get t va) → is_u32 e →
    pte_wf (pte_set t va e);
  pte_get_set t va va' e : pte_wf t → is_u32 va → is_u32 va' →
    is_Some (pte_get t va) → is_u32 e →
    pte_get (pte_set t va e) va' =
      if decide (va / PGSIZE = va' / PGSIZE) then Some e else pte_get t va' }.

Section policies.
  Context {T : Type} `{!PteOps T}.

(** ** Aging *)

Definition shift_age (accessed : bool) (a : Z) : Z :=
  if accessed then Z.lor (Z.shiftr a 1) MSB else Z.shiftr a 1.

Definition age_page (accessed : bool) (p : page) : page :=
  mkPage (p_exists p) (vaddr p) (in_back p) (offset p)
         (shift_age accessed (age p)) (shift_age accessed (age2 p)).

Fixpoint age_loop (t : T) (l : list page) : outcome (T * list page) :=
  match l with
  | [] => Ret (t, [])
  | p :: l' =>
      if negb (c_true (p_exists p)) || c_true (in_back p) then
        let! (t', r) := age_loop t l' in Ret (t', p :: r)
      else
        match pte_get t (vaddr p) with
        | None => Undef "age_process_pages: null pte"
        | Some e =>
            let accessed := flagged e PTE_A in
            let t1 := if accessed then pte_set t (vaddr p) (clear_flag e PTE_A) else t in
            let! (t', r) := age_loop t1 l' in Ret (t', age_page accessed p :: r)
        end
  end.

(** [for(j = pq->lastIndex - 1; j >= 0; j--)]; [n] is [j + 1]. *)
Fixpoint aq_advance (t : T) (n : nat) (l : list page) : outcome (list page) :=
  match n with
  | O => Ret l
  | S j =>
      match l !! j, l !! S j with
      | Some pj, Some pj1 =>
          match pte_get t (vaddr pj), pte_get t (vaddr pj1) with
          | Some ej, Some ej1 =>
              if flagged ej PTE_A && negb (flagged ej1 PTE_A)
              then aq_advance t j (<[S j := pj]> (<[j := pj1]> l))
              else aq_advance t j l
          | _, _ => Undef "age_process_pages: null pte"
          end
      | _, _ => Undef "age_process_pages: queue index"
      end
  end.

Fixpoint aq_clean (t : T) (n : nat) (l : list page) : outcome T :=
  match n with
  | O => Ret t
  | S j =>
      match l !! j with
      | Some pj =>
          match pte_get t (vaddr pj) with
          | Some e => aq_clean (pte_set t (vaddr pj) (clear_flag e PTE_A)) j l
          | None => Undef "age_process_pages: null pte"
          end
      | None => Undef "age_process_pages: queue index"
      end
  end.

(** Built with [AQ], the handler goes on to reorder the queue. *)
Definition age_process_pages (aq : bool) (t : T) (m : p_meta) : outcome (T * p_meta) :=
  let! (t1, l) := age_loop t (pages m) in
  if aq then
    let n := Z.to_nat (lastIndex (pq m)) in
    let! ql := aq_advance t1 n (q_pages (pq m)) in
    let! t2 := aq_clean t1 n ql in
    Ret (t2, mkMeta l (mkQueue ql (lastIndex (pq m))) (offsets m))
  else Ret (t1, mkMeta l (pq m) (offsets m)).

(** ** Second chance *)

Fixpoint scfifo_loop (fuel : nat) (t : T) (q : page_queue) : outcome (Z * T * page_queue) :=
  match fuel with
  | O => NoFuel
  | S fuel' =>
      let! (current, q1) := dequeue q in
      match pte_get t (vaddr current) with
      | None => Undef "select_page_to_back: null pte"
      | Some e =>
          if flagged e PTE_A then
            let! q2 := enqueue q1 current in
            scfifo_loop fuel' (pte_set t (vaddr current) (clear_flag e PTE_A)) q2
          else Ret (vaddr current, t, q1)
      end
  end.

(** A full lap clears every accessed bit, so one more step than the queue is long suffices. *)
Definition scfifo_fuel : nat := S NPAGES.

Definition select_scfifo (t : T) (m : p_meta) : outcome (Z * T * p_meta) :=
  let! (va, t', q) := scfifo_loop scfifo_fuel t (pq m) in
  Ret (va, t', set_pq m q).
End policies.

Inductive policy := NFUA | LAPA | SCFIFO | AQ.

Definition select_page_to_back {T : Type} `{!PteOps T} (pol : policy) (t : T) (m : p_meta)
  : outcome (Z * T * p_meta) :=
  match pol with
  | NFUA => let! (va, m') := select_nfua m in Ret (va, t, m')
  | LAPA => let! (va, m') := select_lapa m in Ret (va, t, m')
  | SCFIFO => select_scfifo t m
  | AQ => let! (va, m') := select_aq m in Ret (va, t, m')
  end.

(** ** NFUA: the smallest age *)

Lemma nfua_scan_spec x l :
  in_ram x = true →
  let r := nfua_scan x l in
  in_ram r = true ∧ (r = x ∨ r ∈ l) ∧ age r ≤ age x ∧
  (∀ q, q ∈ l → in_ram q = true → age r ≤ age q).
Proof.
  revert x. induction l as [|p l IH]; intros x Hx; simpl.
  { split; [done|]. split; [by left|]. split; [lia|]. by intros q ?%not_elem_of_nil. }
  destruct (in_ram p) eqn:Hp; simpl; [destruct (Z.ltb_spec (age p) (age x)) as [Hlt|Hge]|].
  - destruct (IH p Hp) as (? & Hin & Hle & Hall). split; [done|].
    split; [right; destruct Hin as [->|?]; [left|by right]|]. split; [lia|].
    intros q [->|Hq]%elem_of_cons Hqr; [done|auto].
  - destruct (IH x Hx) as (? & Hin & Hle & Hall). split; [done|].
    split; [destruct Hin; [by left|right; by right]|]. split; [done|].
    intros q [->|Hq]%elem_of_cons Hqr; [lia|auto].
  - destruct (IH x Hx) as (? & Hin & Hle & Hall). split; [done|].
    split; [destruct Hin; [by left|right; by right]|]. split; [done|].
    intros q [->|Hq]%elem_of_cons Hqr; [congruence|auto].
Qed.

(** Pages before the first one in RAM are not in RAM. *)
Lemma in_ram_after l i p q :
  list_find (λ p, in_ram p = true) l = Some (i, p) → q ∈ l → in_ram q = true → q ∈ drop i l.
Proof.
  intros Hf Hq Hr. apply list_find_Some in Hf as (_ & _ & Hbefore).
  apply list_elem_of_lookup in Hq as [j Hq].
  destruct (decide (j < i)%nat) as [Hj|Hj]; [by destruct (Hbefore j q Hq Hj)|].
  apply list_elem_of_lookup. exists (j - i)%nat. rewrite lookup_drop. rewrite <- Hq. f_equal. lia.
Qed.

Lemma elem_of_drop_elem {A} (l : list A) i x : x ∈ drop i l → x ∈ l.
Proof. intros Hx. rewrite <- (take_drop i l). apply elem_of_app. by right. Qed.

(** The scan moves to a later page only when its age is strictly smaller. *)
Lemma nfua_scan_first x l :
  in_ram x = true → let r := nfua_scan x l in
  r = x ∨ ∃ l1 l2, l = l1 ++ r :: l2 ∧ age r < age x ∧ ∀ q, q ∈ l1 → in_ram q = true → age r < age q.
Proof.
  revert x. induction l as [|p l IH]; intros x Hx; simpl; [by left|].
  destruct (in_ram p) eqn:Hp; simpl; [destruct (Z.ltb_spec (age p) (age x)) as [Hlt|Hge]|].
  - right. destruct (IH p Hp) as [->|(l1 & l2 & El & Hlt' & Hall)].
    + exists [], l. split_and!; [done|done|]. by intros q ?%not_elem_of_nil.
    + exists (p :: l1), l2. split_and!; [by rewrite El at 1|lia|]. intros q [->|Hq]%elem_of_cons; auto.
  - destruct (IH x Hx) as [->|(l1 & l2 & El & Hlt' & Hall)]; [by left|right].
    exists (p :: l1), l2. split_and!; [by rewrite El at 1|done|]. intros q [->|Hq]%elem_of_cons; [lia|auto].
  - destruct (IH x Hx) as [->|(l1 & l2 & El & Hlt' & Hall)]; [by left|right].
    exists (p :: l1), l2. split_and!; [by rewrite El at 1|done|]. intros q [->|Hq]%elem_of_cons; [congruence|auto].
Qed.

Lemma nfua_min_first l :
  (∃ p, p ∈ l ∧ in_ram p = true) →
  ∃ l1 l2, l = l1 ++ nfua_min l :: l2 ∧ ∀ q, q ∈ l1 → in_ram q = true → age (nfua_min l) < age q.
Proof.
  intros (p0 & Hp0 & Hr0). unfold nfua_min.
  destruct (list_find_elem_of (λ p, in_ram p = true) l p0 Hp0 Hr0) as [[i p] Hf]. rewrite Hf.
  apply list_find_Some in Hf as (Hp & Hr & Hbefore).
  assert (Hpre : ∀ q, q ∈ take i l → in_ram q = true → False).
  { intros q Hq Hqr. apply list_elem_of_lookup in Hq as [j Hj]. apply lookup_take_Some in Hj as [Hj Hlt]. by apply (Hbefore j q). }
  pose proof (drop_S l p i Hp) as Hd. rewrite Hd. cbn [nfua_scan]. rewrite Hr. cbn [negb]. rewrite Z.ltb_irrefl.
  assert (El : l = take i l ++ p :: drop (S i) l) by (by rewrite <- Hd, take_drop).
  destruct (nfua_scan_first p (drop (S i) l) Hr) as [->|(l1 & l2 & E2 & Hlt & Hall)].
  - exists (take i l), (drop (S i) l). split; [done|]. intros q Hq Hqr. by destruct (Hpre q).
  - exists (take i l ++ p :: l1), l2. split.
    + rewrite El at 1. rewrite E2 at 1. by rewrite <- app_assoc.
    + intros q [Hq|[->|Hq]%elem_of_cons]%elem_of_app Hqr; [by destruct (Hpre q)|done|auto].
Qed.

Lemma nfua_min_spec l :
  (∃ p, p ∈ l ∧ in_ram p = true) →
  nfua_min l ∈ l ∧ in_ram (nfua_min l) = true ∧
  ∀ q, q ∈ l → in_ram q = true → age (nfua_min l) ≤ age q.
Proof.
  intros (p0 & Hp0 & Hr0). unfold nfua_min.
  destruct (list_find_elem_of (λ p, in_ram p = true) l p0 Hp0 Hr0) as [[i p] Hf]. rewrite Hf.
  pose proof Hf as (Hp & Hr & _)%list_find_Some.
  destruct (nfua_scan_spec p (drop i l) Hr) as (? & Hin & _ & Hall).
  split; [|split; [done|]].
  - destruct Hin as [->|Hin]; [by eapply list_elem_of_lookup_2|by eapply elem_of_drop_elem].
  - intros q Hq Hqr. apply Hall; [|done]. by eapply in_ram_after.
Qed.

(** ** LAPA: the count of set bits is constant, so the smallest [age2] is taken *)

Lemma count_loop_spec n x c : 0 ≤ c → c + Z.of_nat n < 2 ^ 32 → 0 ≤ x → count_loop n x c = c + Z.of_nat n.
Proof.
  revert x c. induction n as [|n IH]; intros x c Hc Hn Hx; cbn [count_loop]; [lia|].
  assert (Z.gtb (Z.lor x 1) 0 = true) as ->.
  { apply Z.gtb_lt. assert (Z.lor x 1 ≠ 0); [|pose proof (proj2 (Z.lor_nonneg x 1)); lia].
    intros [_ ?]%Z.lor_eq_0_iff. done. }
  rewrite u32_small by (unfold is_u32; lia). rewrite IH; [lia|lia|lia|]. apply Z.div_pos; lia.
Qed.

Lemma count_set_bits_const x : 0 ≤ x → count_set_bits x = 32.
Proof. intros. unfold count_set_bits. rewrite count_loop_spec; lia. Qed.

(** Membership in lists built with [::]. *)
Ltac in_cons := intros; rewrite ?elem_of_cons in *; tauto.

Lemma lapa_scan_spec x l :
  (∀ q q', q ∈ x :: l → q' ∈ x :: l → in_ram q = true → in_ram q' = true → vaddr q = vaddr q' → q = q') →
  (∀ q, q ∈ x :: l → 0 ≤ age2 q) →
  in_ram x = true →
  let r := lapa_scan 32 x l in
  in_ram r = true ∧ r ∈ x :: l ∧ age2 r ≤ age2 x ∧
  (∀ q, q ∈ l → in_ram q = true → age2 r ≤ age2 q).
Proof.
  revert x. induction l as [|p l IH]; intros x Hu Hn Hx; cbn [lapa_scan]; cbn zeta.
  { split; [done|]. split; [by left|]. split; [lia|]. by intros q ?%not_elem_of_nil. }
  assert (Hux : ∀ q q', q ∈ x :: l → q' ∈ x :: l → in_ram q = true → in_ram q' = true →
                 vaddr q = vaddr q' → q = q') by (intros; apply Hu; in_cons).
  assert (Hup : ∀ q q', q ∈ p :: l → q' ∈ p :: l → in_ram q = true → in_ram q' = true →
                 vaddr q = vaddr q' → q = q') by (intros; apply Hu; in_cons).
  assert (Hp0 : 0 ≤ age2 p) by (apply Hn; in_cons).
  destruct (IH x Hux ltac:(intros q Hq; apply Hn; in_cons) Hx) as (Hr1 & Hin1 & Hle1 & Hall1).
  destruct (in_ram p) eqn:Hp; cbn [negb orb].
  2:{ split; [done|]. split; [in_cons|]. split; [done|].
      intros q [->|Hq]%elem_of_cons Hqr; [congruence|auto]. }
  destruct (Z.eqb_spec (vaddr p) (vaddr x)) as [Hv|Hv].
  { assert (p = x) as -> by (apply Hu; in_cons). split; [done|]. split; [in_cons|].
    split; [done|]. intros q [->|Hq]%elem_of_cons Hqr; auto. }
  rewrite count_set_bits_const by done. change (32 <? 32) with false. change (32 =? 32) with true. cbn match.
  destruct (Z.ltb_spec (age2 p) (age2 x)) as [Hlt|Hge].
  - destruct (IH p Hup ltac:(intros q Hq; apply Hn; in_cons) Hp) as (Hr2 & Hin2 & Hle2 & Hall2).
    split; [done|]. split; [in_cons|]. split; [lia|].
    intros q [->|Hq]%elem_of_cons Hqr; [done|auto].
  - split; [done|]. split; [in_cons|]. split; [done|].
    intros q [->|Hq]%elem_of_cons Hqr; [lia|auto].
Qed.

Lemma lapa_min_spec m :
  meta_wf m → (∀ p, p ∈ pages m → 0 ≤ age2 p) →
  (∃ p, p ∈ pages m ∧ in_ram p = true) →
  lapa_min (pages m) ∈ pages m ∧ in_ram (lapa_min (pages m)) = true ∧
  ∀ q, q ∈ pages m → in_ram q = true → age2 (lapa_min (pages m)) ≤ age2 q.
Proof.
  intros Hm Hn (p0 & Hp0 & Hr0). unfold lapa_min.
  destruct (list_find_elem_of (λ p, in_ram p = true) _ p0 Hp0 Hr0) as [[i p] Hf]. rewrite Hf.
  pose proof Hf as (Hp & Hr & _)%list_find_Some.
  pose proof (list_elem_of_lookup_2 _ _ _ Hp) as Hpin.
  assert (Hsub : ∀ q, q ∈ p :: drop i (pages m) → q ∈ pages m).
  { intros q [->|Hq]%elem_of_cons; [done|by eapply elem_of_drop_elem]. }
  rewrite count_set_bits_const by auto.
  destruct (lapa_scan_spec p (drop i (pages m))) as (? & Hin & _ & Hall); auto.
  - intros q q' [j Hq]%Hsub%list_elem_of_lookup [j' Hq']%Hsub%list_elem_of_lookup Hqr Hqr' Hv.
    destruct (in_ram_spec m j q Hm Hq Hqr), (in_ram_spec m j' q' Hm Hq' Hqr').
    assert (j = j') as <- by (by eapply (mw_uniq m Hm j j' q q')). congruence.
  - split; [auto|]. split; [done|]. intros q Hq Hqr. apply Hall; [|done]. by eapply in_ram_after.
Qed.

(** Whatever the ages, the page taken is in RAM. *)
Lemma lapa_scan_in c x l : in_ram x = true → in_ram (lapa_scan c x l) = true ∧ lapa_scan c x l ∈ x :: l.
Proof.
  revert c x. induction l as [|p l IH]; intros c x Hx; cbn [lapa_scan]; cbn zeta; [split; [done|by left]|].
  assert (Hl : ∀ c, in_ram (lapa_scan c x l) = true ∧ lapa_scan c x l ∈ x :: p :: l) by (intros c'; destruct (IH c' x Hx); split; [done|in_cons]).
  destruct (in_ram p) eqn:Hp; cbn [negb orb]; [|apply Hl].
  assert (Hr : ∀ c, in_ram (lapa_scan c p l) = true ∧ lapa_scan c p l ∈ x :: p :: l) by (intros c'; destruct (IH c' p Hp); split; [done|in_cons]).
  repeat case_match; auto.
Qed.

Lemma lapa_min_in l : (∃ p, p ∈ l ∧ in_ram p = true) → lapa_min l ∈ l ∧ in_ram (lapa_min l) = true.
Proof.
  intros (p0 & Hp0 & Hr0). unfold lapa_min.
  destruct (list_find_elem_of (λ p, in_ram p = true) l p0 Hp0 Hr0) as [[i p] Hf]. rewrite Hf.
  pose proof Hf as (Hp & Hr & _)%list_find_Some.
  destruct (lapa_scan_in (count_set_bits (age2 p)) p (drop i l) Hr) as [? [-> | ?]%elem_of_cons]; split; try done.
  - by eapply list_elem_of_lookup_2.
  - by eapply elem_of_drop_elem.
Qed.

(** ** The queue under each policy

    SCFIFO and AQ take the page they evict from the queue, which so lists the
    pages in RAM.  NFUA and LAPA drop the head of the queue whatever page they
    evict: after the first eviction only its length is right. *)
Definition queue_policy (pol : policy) : Prop := pol = SCFIFO ∨ pol = AQ.

Record queue_ok (pol : policy) (m : p_meta) (l : list page) : Prop := mk_queue_ok {
  qo_wf : meta_wf m;
  qo_queue : queue_rep (pq m) l;
  qo_length : length l = length (ram_vaddrs (pages m));
  qo_sync : queue_policy pol → vaddr <$> l ≡ₚ ram_vaddrs (pages m) }.

Lemma queue_ok_of_inv pol m l : meta_inv m l → queue_ok pol m l.
Proof. intros [Hm Hq Hs]. split; try done. apply Permutation_length in Hs. by rewrite length_fmap in Hs. Qed.

Lemma queue_ok_inv pol m l : queue_policy pol → queue_ok pol m l ↔ meta_inv m l.
Proof. intros Hp. split; [|apply queue_ok_of_inv]. intros [Hm Hq _ Hs]. split; auto. Qed.

Lemma queue_ok_count pol m l : queue_ok pol m l → numOfPagedIn m = Z.of_nat (length l).
Proof.
  intros [Hm Hq Hl _]. rewrite Hl, numOfPagedIn_count. unfold ram_vaddrs, count_pages. rewrite length_fmap.
  pose proof (mw_flags m Hm) as Hok. clear -Hok. do 2 f_equal.
  induction Hok as [|p l Hp Hl IH]; [done|]. rewrite !filter_cons, <- (in_ram_ok p Hp), IH. done.
Qed.

Lemma queue_ok_resident pol m l : queue_ok pol m l → l ≠ [] → ∃ p, p ∈ pages m ∧ in_ram p = true.
Proof.
  intros [_ _ Hl _] Hne. unfold ram_vaddrs in Hl. rewrite length_fmap in Hl.
  destruct (filter (λ p, in_ram p = true) (pages m)) as [|p l'] eqn:Hf; [by destruct l|].
  exists p. assert (Hp : p ∈ filter (λ p, in_ram p = true) (pages m)) by (rewrite Hf; by left).
  apply list_elem_of_filter in Hp. tauto.
Qed.

(** ** SCFIFO: second chance over the queue *)

Section scfifo.
  Context {T : Type} `{!PteOps T} `{!PteLaws T}.

(** The accessed bit of the page at [va]. *)
Definition accessed (t : T) (va : Z) : bool :=
  match pte_get t va with Some e => flagged e PTE_A | None => false end.

Definition page_no (p : page) : Z := vaddr p / PGSIZE.

Definition mapped (t : T) (l : list page) : Prop :=
  Forall (λ p, is_u32 (vaddr p) ∧ is_Some (pte_get t (vaddr p))) l.

(** [t'] is [t] with the accessed bits of the pages of [l] cleared. *)
Definition cleared (t t' : T) (l : list page) : Prop :=
  ∀ va, is_u32 va →
    pte_get t' va = if decide (va / PGSIZE ∈ page_no <$> l)
                    then (λ e, clear_flag e PTE_A) <$> pte_get t va else pte_get t va.

Lemma cleared_nil t : cleared t t [].
Proof. intros va _. rewrite decide_False; [done|]. apply not_elem_of_nil. Qed.

Lemma cleared_cons t t' p l e :
  pte_wf t → is_u32 (vaddr p) → pte_get t (vaddr p) = Some e → page_no p ∉ page_no <$> l →
  cleared (pte_set t (vaddr p) (clear_flag e PTE_A)) t' l → cleared t t' (p :: l).
Proof.
  intros Hwf Hp He Hni Hc va Hva. rewrite (Hc va Hva), fmap_cons.
  rewrite pte_get_set; eauto using clear_flag_u32, pte_get_u32.
  fold (page_no p). destruct (decide (page_no p = va / PGSIZE)) as [Heq|Hne].
  - rewrite decide_False by congruence. rewrite decide_True by (rewrite Heq; left).
    rewrite (pte_get_page t va (vaddr p)) by done. by rewrite He.
  - destruct (decide (va / PGSIZE ∈ page_no <$> l)).
    + rewrite decide_True; [done|]. by right.
    + rewrite decide_False; [done|]. apply not_elem_of_cons. split; [congruence|done].
Qed.

Lemma cleared_accessed t t' l p :
  pte_wf t → cleared t t' l → is_u32 (vaddr p) →
  accessed t' (vaddr p) = if decide (page_no p ∈ page_no <$> l) then false else accessed t (vaddr p).
Proof.
  intros Hwf Hc Hp. unfold accessed. rewrite (Hc _ Hp). fold (page_no p). case_decide; [|done].
  destruct (pte_get t (vaddr p)) as [e|] eqn:He; simpl; [|done].
  apply flagged_clear_same. by eapply pte_get_u32.
Qed.

Lemma cleared_is_Some t t' l va :
  cleared t t' l → is_u32 va → is_Some (pte_get t va) → is_Some (pte_get t' va).
Proof. intros Hc Hu Hs. rewrite (Hc _ Hu). case_decide; [by apply fmap_is_Some|done]. Qed.

Lemma cleared_mapped t t' l k : cleared t t' l → mapped t k → mapped t' k.
Proof.
  intros Hc Hm. eapply Forall_impl; [exact Hm|]. intros p [Hp Hs]. split; [done|].
  by eapply cleared_is_Some.
Qed.

(** The pages of [pre], all accessed, lose the bit and go to the back. *)
Lemma scfifo_rotate fuel pre suf t q :
  pte_wf t → queue_rep q (pre ++ suf) → mapped t (pre ++ suf) →
  NoDup (page_no <$> pre) → Forall (λ p, accessed t (vaddr p) = true) pre →
  ∃ t' q', scfifo_loop (length pre + fuel) t q = scfifo_loop fuel t' q' ∧
    pte_wf t' ∧ queue_rep q' (suf ++ pre) ∧ cleared t t' pre.
Proof.
  revert suf t q. induction pre as [|p pre IH]; intros suf t q Hwf Hq Hmap Hnd Hacc.
  { exists t, q. rewrite app_nil_r. eauto using cleared_nil. }
  simpl in Hq, Hnd. apply NoDup_cons in Hnd as [Hni Hnd].
  apply Forall_cons in Hacc as [Hp Hacc].
  pose proof Hmap as Hmap0. apply Forall_cons in Hmap0 as [[Hpu [e He]] _].
  destruct (dequeue_spec q p (pre ++ suf) Hq) as (q1 & Hd & Hq1).
  pose proof (qr_live _ _ Hq) as Hlive. apply Forall_cons in Hlive as [Hpe _].
  assert (length (pre ++ suf) < NPAGES)%nat as Hlt.
  { destruct (qr_eq _ _ Hq) as (free & Heq & _). pose proof (qr_len _ _ Hq) as Hlen.
    rewrite Heq in Hlen. simpl in Hlen. rewrite length_app in Hlen. lia. }
  destruct (enqueue_spec q1 (pre ++ suf) p Hq1 Hlt Hpe) as (q2 & He2 & Hq2).
  unfold accessed in Hp. rewrite He in Hp.
  set (t1 := pte_set t (vaddr p) (clear_flag e PTE_A)).
  assert (Hwf1 : pte_wf t1) by (apply pte_set_wf; eauto using clear_flag_u32, pte_get_u32).
  assert (Hc1 : cleared t t1 [p]).
  { eapply cleared_cons; eauto using cleared_nil. apply not_elem_of_nil. }
  destruct (IH (suf ++ [p]) t1 q2) as (t' & q' & Hloop & Hwf' & Hq' & Hc').
  - done.
  - by rewrite (assoc_L (++)).
  - apply (cleared_mapped t t1 [p]); [done|].
    rewrite (assoc_L (++)). apply Forall_app_2; [by apply Forall_cons in Hmap as [_ ?]|].
    apply Forall_cons in Hmap as [? _]. by constructor.
  - done.
  - rewrite Forall_forall in Hacc |- *. intros x Hx.
    assert (is_u32 (vaddr x)) as Hxu.
    { unfold mapped in Hmap. rewrite Forall_forall in Hmap. apply (Hmap x). right. apply elem_of_app. by left. }
    rewrite (cleared_accessed t t1 [p]) by done. rewrite decide_False; [auto|].
    simpl. rewrite list_elem_of_singleton. intros Heq. apply Hni. rewrite <- Heq.
    by apply list_elem_of_fmap_2.
  - exists t', q'. split; [|split; [done|split]].
    + simpl. rewrite Hd. cbn. rewrite He, Hp, He2. cbn. done.
    + by rewrite <- (assoc_L (++)) in Hq'.
    + by eapply cleared_cons.
Qed.

Lemma queue_rep_length q l : queue_rep q l → (length l ≤ NPAGES)%nat.
Proof.
  intros Hq. destruct (qr_eq _ _ Hq) as (free & Heq & _). pose proof (qr_len _ _ Hq) as Hlen.
  rewrite Heq, length_app in Hlen. lia.
Qed.

Lemma scfifo_head fuel t q x l :
  queue_rep q (x :: l) → is_Some (pte_get t (vaddr x)) → accessed t (vaddr x) = false →
  ∃ q', scfifo_loop (S fuel) t q = Ret (vaddr x, t, q') ∧ queue_rep q' l.
Proof.
  intros Hq [e He] Hacc. destruct (dequeue_spec q x l Hq) as (q' & Hd & Hq').
  exists q'. split; [|done]. simpl. rewrite Hd. cbn. unfold accessed in Hacc.
  by rewrite He in Hacc |- *; rewrite Hacc.
Qed.

(** The ages after a tick: a page in RAM shifts its counters and takes the
    accessed bit at the top; every accessed bit of those pages is cleared. *)
Definition aged (t : T) (p : page) : page :=
  if in_ram p then age_page (accessed t (vaddr p)) p else p.

Lemma clear_flag_id e f : is_u32 e → flagged e f = false → clear_flag e f = e.
Proof.
  intros He Hf. rewrite clear_flag_ldiff by done. apply negb_false_iff, Z.eqb_eq in Hf.
  by rewrite <- (Z.lor_ldiff_and e f) at 2; rewrite Hf, Z.lor_0_r.
Qed.

Lemma aged_cleared t t1 p l e :
  pte_wf t → is_u32 (vaddr p) → pte_get t (vaddr p) = Some e →
  page_no p ∉ page_no <$> filter (λ q, in_ram q = true) l →
  Forall (λ q, in_ram q = true → is_u32 (vaddr q)) l →
  t1 = pte_set t (vaddr p) (clear_flag e PTE_A) → aged t1 <$> l = aged t <$> l.
Proof.
  intros Hwf Hp He Hni Hu ->. apply list_fmap_ext. intros i q Hq. unfold aged.
  destruct (in_ram q) eqn:Hr; [|done].
  pose proof (list_elem_of_lookup_2 _ _ _ Hq) as Hin.
  rewrite (cleared_accessed t (pte_set t (vaddr p) (clear_flag e PTE_A)) [p] q); first last.
  - rewrite Forall_forall in Hu. by apply Hu.
  - eapply cleared_cons; eauto using cleared_nil. apply not_elem_of_nil.
  - done.
  - rewrite decide_False; [done|]. simpl. rewrite list_elem_of_singleton. intros Heq.
    apply Hni. rewrite <- Heq. apply list_elem_of_fmap_2. by apply list_elem_of_filter.
Qed.

Lemma age_loop_spec t l :
  pte_wf t → mapped t (filter (λ p, in_ram p = true) l) →
  NoDup (page_no <$> filter (λ p, in_ram p = true) l) →
  ∃ t', age_loop t l = Ret (t', aged t <$> l) ∧ pte_wf t' ∧
        cleared t t' (filter (λ p, in_ram p = true) l).
Proof.
  revert t. induction l as [|p l IH]; intros t Hwf Hmap Hnd.
  { exists t. eauto using cleared_nil. }
  rewrite fmap_cons. rewrite filter_cons in Hmap, Hnd |- *. cbn [age_loop].
  replace (negb (c_true (p_exists p)) || c_true (in_back p)) with (negb (in_ram p))
    by (unfold in_ram; by rewrite negb_andb, negb_involutive).
  destruct (in_ram p) eqn:Hr; simpl.
  - rewrite decide_True in Hmap, Hnd by done. rewrite fmap_cons in Hnd.
    apply NoDup_cons in Hnd as [Hni Hnd]. apply Forall_cons in Hmap as [[Hpu [e He]] Hmap].
    rewrite He.
    set (t1 := pte_set t (vaddr p) (clear_flag e PTE_A)).
    assert (Hwf1 : pte_wf t1) by (apply pte_set_wf; eauto using clear_flag_u32, pte_get_u32).
    assert (Hc1 : cleared t t1 [p]).
    { eapply cleared_cons; eauto using cleared_nil. apply not_elem_of_nil. }
    assert (Hul : Forall (λ q, in_ram q = true → is_u32 (vaddr q)) l).
    { apply Forall_forall. intros q Hq Hqr. unfold mapped in Hmap. rewrite Forall_forall in Hmap.
      apply (Hmap q). by apply list_elem_of_filter. }
    assert (Haged : aged t p = age_page (flagged e PTE_A) p).
    { unfold aged, accessed. by rewrite Hr, He. }
    rewrite Haged.
    destruct (flagged e PTE_A) eqn:Hf.
    + destruct (IH t1) as (t' & -> & Hwf' & Hc'); [done|by eapply cleared_mapped|done|].
      exists t'. cbn. rewrite (aged_cleared t t1 p l e) by done.
      split; [done|]. split; [done|]. by eapply cleared_cons.
    + destruct (IH t) as (t' & -> & Hwf' & Hc'); [done|done|done|].
      exists t'. cbn. split; [done|]. split; [done|].
      intros va Hva. rewrite (Hc' va Hva), fmap_cons. fold page_no.
      destruct (decide (va / PGSIZE = page_no p)) as [Heq|Hne].
      * rewrite decide_False by congruence. rewrite decide_True by (rewrite Heq; left).
        rewrite (pte_get_page t va (vaddr p)) by done. rewrite He. simpl.
        rewrite clear_flag_id; eauto using pte_get_u32.
      * destruct (decide (va / PGSIZE ∈ page_no <$> filter (λ p, in_ram p = true) l)).
        -- rewrite decide_True; [done|]. by right.
        -- rewrite decide_False; [done|]. by apply not_elem_of_cons.
  - rewrite decide_False in Hmap, Hnd by done.
    destruct (IH t Hwf Hmap Hnd) as (t' & -> & Hwf' & Hc'). exists t'. cbn.
    unfold aged at 2. rewrite Hr. done.
Qed.

(** With no accessed bit left, the loops of AQ change nothing. *)
Lemma aq_advance_idle t n l :
  (∀ j p, l !! j = Some p → (j ≤ n)%nat → is_Some (pte_get t (vaddr p))) →
  (∀ j p, l !! j = Some p → (j < n)%nat → accessed t (vaddr p) = false) →
  (n < length l)%nat → aq_advance t n l = Ret l.
Proof.
  induction n as [|j IH]; intros Hmap Hacc Hn; [done|]. cbn [aq_advance].
  destruct (lookup_lt_is_Some_2 l j) as [p Hp]; [lia|].
  destruct (lookup_lt_is_Some_2 l (S j)) as [p1 Hp1]; [lia|]. rewrite Hp, Hp1.
  destruct (Hmap j p Hp) as [e He]; [lia|]. destruct (Hmap (S j) p1 Hp1) as [e1 He1]; [lia|].
  rewrite He, He1. pose proof (Hacc j p Hp ltac:(lia)) as Ha. unfold accessed in Ha.
  rewrite He in Ha. rewrite Ha. simpl. apply IH; [| |lia].
  - intros k q Hq Hk. apply (Hmap k q Hq). lia.
  - intros k q Hq Hk. apply (Hacc k q Hq). lia.
Qed.

Lemma aq_clean_idle t n l :
  pte_wf t →
  (∀ j p, l !! j = Some p → (j < n)%nat →
     is_u32 (vaddr p) ∧ is_Some (pte_get t (vaddr p)) ∧ accessed t (vaddr p) = false) →
  (n ≤ length l)%nat →
  ∃ t', aq_clean t n l = Ret t' ∧ pte_wf t' ∧ ∀ va, is_u32 va → pte_get t' va = pte_get t va.
Proof.
  revert t. induction n as [|j IH]; intros t Hwf Hall Hn; [by exists t|]. cbn [aq_clean].
  destruct (lookup_lt_is_Some_2 l j) as [p Hp]; [lia|]. rewrite Hp.
  destruct (Hall j p Hp) as (Hpu & [e He] & Ha); [lia|]. rewrite He.
  assert (Heu : is_u32 e) by (by eapply pte_get_u32).
  unfold accessed in Ha. rewrite He in Ha. rewrite (clear_flag_id e PTE_A Heu Ha).
  assert (Hsame : ∀ va, is_u32 va → pte_get (pte_set t (vaddr p) e) va = pte_get t va).
  { intros va Hva. rewrite pte_get_set by eauto. case_decide; [|done].
    rewrite <- He. by apply pte_get_page. }
  destruct (IH (pte_set t (vaddr p) e)) as (t' & -> & Hwf' & Hg).
  - apply pte_set_wf; eauto.
  - intros k q Hq Hk. destruct (Hall k q Hq) as (Hqu & Hqs & Hqa); [lia|].
    unfold accessed. rewrite Hsame by done. done.
  - lia.
  - exists t'. split; [done|]. split; [done|]. intros va Hva. rewrite Hg by done. auto.
Qed.

(** The page SCFIFO evicts, the queue it leaves and the pages whose accessed bit it clears. *)
Definition scfifo_spec (t : T) (l : list page) : option (page * list page * list page) :=
  match list_find (λ p, accessed t (vaddr p) = false) l with
  | Some (i, x) => Some (x, drop (S i) l ++ take i l, take i l)
  | None => match l with x :: l' => Some (x, l', l) | [] => None end
  end.
End scfifo.

(** ** A reference page table: one entry per page number *)
Definition flat_pt : Type := Z → option Z.
#[global] Instance flat_ops : PteOps flat_pt := {
  pte_get f va := f (va / PGSIZE);
  pte_set f va e := λ n, if decide (va / PGSIZE = n) then Some e else f n;
  pte_wf f := ∀ n e, f n = Some e → is_u32 e }.
#[global] Instance flat_laws : PteLaws flat_pt.
Proof.
  split; simpl.
  - eauto.
  - intros t va va' _ _ ->. done.
  - intros t va e Hwf _ _ He n e'. case_decide; naive_solver.
  - done.
Qed.
(** Pages [0 .. n-1] are present; those of [acc] were accessed. *)
Definition flat_example (n : Z) (acc : list Z) : flat_pt := λ k,
  if decide (0 ≤ k < n) then Some (if decide (k ∈ acc) then 0x27 else 0x07) else None.
Lemma flat_example_wf n acc : pte_wf (flat_example n acc).
Proof. intros k e. unfold flat_example. repeat case_decide; intros ?; simplify_eq; unfold is_u32; lia. Qed.

(** ** Properties *)

Lemma select_scfifo_ok {T} `{!PteOps T} `{!PteLaws T} (t : T) m l :
  pte_wf t → queue_rep (pq m) l → l ≠ [] → mapped t l → NoDup (page_no <$> l) →
  ∃ x l' pre t' m', scfifo_spec t l = Some (x, l', pre) ∧
    select_scfifo t m = Ret (vaddr x, t', m') ∧ pte_wf t' ∧ cleared t t' pre ∧
    queue_rep (pq m') l' ∧ pages m' = pages m ∧ offsets m' = offsets m.
Proof.
  intros Hwf Hq Hne Hmap Hnd. unfold scfifo_spec, select_scfifo.
  pose proof (queue_rep_length _ _ Hq) as Hlen.
  destruct (list_find _ l) as [[i x]|] eqn:Hf.
  - apply list_find_Some in Hf as (Hx & Hxa & Hbefore).
    pose proof (lookup_lt_Some _ _ _ Hx) as Hi.
    pose proof (take_drop_middle l i x Hx) as Hl.
    destruct (scfifo_rotate (S (NPAGES - i)) (take i l) (x :: drop (S i) l) t (pq m))
      as (t' & q' & Hloop & Hwf' & Hq' & Hc); rewrite ?Hl; try done.
    { rewrite fmap_take. rewrite <- (take_drop i (page_no <$> l)) in Hnd.
      by apply NoDup_app in Hnd as [? _]. }
    { apply Forall_forall. intros p [j Hj]%list_elem_of_lookup.
      apply lookup_take_Some in Hj as [Hj Hji].
      apply not_false_is_true. by apply (Hbefore j p). }
    rewrite length_take, Nat.min_l in Hloop by lia.
    replace (i + S (NPAGES - i))%nat with scfifo_fuel in Hloop by (unfold scfifo_fuel; lia).
    assert (Hxm : is_u32 (vaddr x) ∧ is_Some (pte_get t (vaddr x))) by (by apply (Forall_lookup_1 _ _ _ _ Hmap Hx)).
    destruct (scfifo_head (NPAGES - i) t' q' x (drop (S i) l ++ take i l)) as (q2 & Hh & Hq2).
    + done.
    + destruct Hxm. by eapply cleared_is_Some.
    + rewrite (cleared_accessed t t' (take i l)) by (done || tauto). by case_decide.
    + eexists x, _, _, t', (set_pq m q2). split; [done|]. rewrite Hloop, Hh. done.
  - destruct l as [|x l]; [done|]. apply list_find_None in Hf.
    destruct (scfifo_rotate (S (NPAGES - S (length l))) (x :: l) [] t (pq m))
      as (t' & q' & Hloop & Hwf' & Hq' & Hc); rewrite ?app_nil_r; try done.
    { eapply Forall_impl; [done|]. simpl. intros p ?. by apply not_false_is_true. }
    simpl in Hlen. cbn [length] in Hloop.
    replace (S (length l) + S (NPAGES - S (length l)))%nat with scfifo_fuel in Hloop by (unfold scfifo_fuel; lia).
    apply Forall_cons in Hmap as [[Hxu Hxs] _].
    destruct (scfifo_head (NPAGES - S (length l)) t' q' x l) as (q2 & Hh & Hq2).
    + done.
    + by eapply cleared_is_Some.
    + rewrite (cleared_accessed t t' (x :: l)) by done. rewrite decide_True; [done|]. left.
    + eexists x, _, _, t', (set_pq m q2). split; [done|]. rewrite Hloop, Hh. done.
Qed.

(** C12: SCFIFO terminates and gives the second chance its name promises: it
    evicts the first page of the queue whose accessed bit is clear, the pages
    skipped before it lose their bit and move to the back in order; when every
    page was accessed, a full lap clears all bits and the oldest page goes. *)
Theorem scfifo_select_spec {T} `{!PteOps T} `{!PteLaws T} (t : T) m l :
  pte_wf t → queue_rep (pq m) l → l ≠ [] → mapped t l → NoDup (page_no <$> l) →
  ∃ x l' pre t' m', scfifo_spec t l = Some (x, l', pre) ∧
    select_scfifo t m = Ret (vaddr x, t', m') ∧ pte_wf t' ∧ cleared t t' pre ∧
    queue_rep (pq m') l' ∧ pages m' = pages m ∧ offsets m' = offsets m.
Proof. apply select_scfifo_ok. Qed.

Lemma flat_mapped n acc k :
  Z.of_nat k ≤ n → n ≤ 32 → mapped (flat_example n acc) (new_pages k).
Proof.
  intros Hk Hn. apply Forall_fmap, Forall_forall. intros j Hj%elem_of_seq. simpl.
  unfold is_u32, PGSIZE. split; [lia|]. rewrite Z.mul_comm, Z.div_mul by done.
  unfold flat_example. rewrite decide_True by lia. eauto.
Qed.

Lemma scfifo_select_spec_witness :
  ∃ x l' pre t' m', scfifo_spec (flat_example 3 [0; 1]) (new_pages 3) = Some (x, l', pre) ∧
    select_scfifo (flat_example 3 [0; 1]) (fresh_meta (new_pages 3)) = Ret (vaddr x, t', m') ∧
    pte_wf t' ∧ cleared (flat_example 3 [0; 1]) t' pre ∧ queue_rep (pq m') l' ∧
    pages m' = pages (fresh_meta (new_pages 3)) ∧ offsets m' = offsets (fresh_meta (new_pages 3)).
Proof.
  apply scfifo_select_spec.
  - apply flat_example_wf.
  - apply (mi_queue _ _ (new_pages_inv 3 ltac:(vm_compute; lia))).
  - done.
  - apply flat_mapped; lia.
  - vm_compute. repeat constructor; set_solver.
Defined.

(** A clock tick ages exactly the pages in RAM: both counters shift right by
    one and the accessed bit of the page enters at the top; the accessed bits of
    those pages are cleared in the page table and nothing else changes. *)
Theorem age_process_pages_spec {T} `{!PteOps T} `{!PteLaws T} (t : T) m :
  pte_wf t → mapped t (filter (λ p, in_ram p = true) (pages m)) →
  NoDup (page_no <$> filter (λ p, in_ram p = true) (pages m)) →
  ∃ t', age_process_pages false t m = Ret (t', set_pages m (aged t <$> pages m)) ∧
    pte_wf t' ∧ cleared t t' (filter (λ p, in_ram p = true) (pages m)).
Proof.
  intros Hwf Hmap Hnd. destruct (age_loop_spec t (pages m) Hwf Hmap Hnd) as (t' & Hl & ? & ?).
  exists t'. unfold age_process_pages. by rewrite Hl.
Qed.

Lemma filter_new_pages n :
  filter (λ p, in_ram p = true) (pages (fresh_meta (new_pages n))) ≡ₚ new_pages n.
Proof.
  simpl. unfold pad_pages. rewrite filter_app.
  assert (∀ k, filter (λ p, in_ram p = true) (replicate k zero_page) = []) as Hz.
  { induction k as [|k IH]; [done|]. simpl replicate. rewrite filter_cons. exact IH. }
  rewrite Hz, app_nil_r. unfold new_pages. induction (seq 0 n) as [|k l IH]; [done|].
  rewrite fmap_cons, filter_cons. simpl. by rewrite IH.
Qed.

Lemma age_process_pages_spec_witness :
  ∃ t', age_process_pages false (flat_example 3 [1]) (fresh_meta (new_pages 3)) =
      Ret (t', set_pages (fresh_meta (new_pages 3))
                 (aged (flat_example 3 [1]) <$> pages (fresh_meta (new_pages 3)))) ∧
    pte_wf t' ∧
    cleared (flat_example 3 [1]) t'
      (filter (λ p, in_ram p = true) (pages (fresh_meta (new_pages 3)))).
Proof.
  apply age_process_pages_spec.
  - apply flat_example_wf.
  - unfold mapped. rewrite filter_new_pages. apply flat_mapped; lia.
  - rewrite filter_new_pages. vm_compute. repeat constructor; set_solver.
Defined.

Lemma ram_page_accessed {T} `{!PteOps T} `{!PteLaws T} (t t' : T) m l p :
  meta_inv m l → pte_wf t → cleared t t' (filter (λ p, in_ram p = true) (pages m)) →
  p ∈ l → is_u32 (vaddr p) → accessed t' (vaddr p) = false.
Proof.
  intros Hm Hwf Hc Hp Hu. rewrite (cleared_accessed t t' _ p Hwf Hc Hu).
  rewrite decide_True; [done|].
  assert (vaddr p ∈ ram_vaddrs (pages m)) as Hin.
  { rewrite <- (mi_sync m l Hm). by apply list_elem_of_fmap_2. }
  unfold ram_vaddrs in Hin. apply list_elem_of_fmap in Hin as (q & Hq & Hqin).
  unfold page_no. rewrite Hq. change (page_no q ∈ page_no <$> filter (λ p, in_ram p = true) (pages m)).
  by apply list_elem_of_fmap_2.
Qed.

(** The AQ build never advances a page: the aging loop clears the accessed
    bits of the pages in RAM before the queue loop tests them, so whenever the
    queue lists the pages in RAM a tick leaves the queue as it was, and AQ
    evicts in plain FIFO order. *)
Theorem aq_never_advances {T} `{!PteOps T} `{!PteLaws T} (t : T) m l :
  meta_inv m l → (length l < NPAGES)%nat → pte_wf t → is_Some (pte_get t 0) →
  mapped t (filter (λ p, in_ram p = true) (pages m)) →
  NoDup (page_no <$> filter (λ p, in_ram p = true) (pages m)) →
  mapped t l →
  ∃ t' m', age_process_pages true t m = Ret (t', m') ∧ pte_wf t' ∧
    pq m' = pq m ∧ pages m' = aged t <$> pages m.
Proof.
  intros Hm Hl Hwf H0 Hmap Hnd Hml.
  destruct (age_loop_spec t (pages m) Hwf Hmap Hnd) as (t1 & Hloop & Hwf1 & Hc).
  destruct (mi_queue m l Hm) as [Hlen Hlast _ (free & Heq & Hfree)].
  assert (Hn : Z.to_nat (lastIndex (pq m)) = length l) by (rewrite Hlast; lia).
  assert (Hlive : ∀ j p, q_pages (pq m) !! j = Some p → (j < length l)%nat → p ∈ l).
  { intros j p Hp Hj. rewrite Heq, lookup_app_l in Hp by done. by eapply list_elem_of_lookup_2. }
  assert (Hmem : ∀ p, p ∈ l → is_u32 (vaddr p) ∧ is_Some (pte_get t1 (vaddr p))).
  { intros p Hp. pose proof (cleared_mapped t t1 _ l Hc Hml) as Hm1. unfold mapped in Hm1.
    rewrite Forall_forall in Hm1. auto. }
  assert (H01 : is_Some (pte_get t1 0)).
  { eapply cleared_is_Some; [done|unfold is_u32; lia|done]. }
  assert (Hadv : aq_advance t1 (length l) (q_pages (pq m)) = Ret (q_pages (pq m))).
  { apply aq_advance_idle; [| |by rewrite Hlen].
    - intros j p Hp Hj. destruct (decide (j < length l)%nat) as [Hlt|Hge].
      + by apply Hmem, (Hlive j).
      + rewrite Heq, lookup_app_r in Hp by lia.
        destruct (Forall_lookup_1 _ _ _ _ Hfree Hp) as [_ ->]. done.
    - intros j p Hp Hj. pose proof (Hlive j p Hp Hj) as Hin.
      eapply (ram_page_accessed t t1 m l); eauto. by apply Hmem. }
  destruct (aq_clean_idle t1 (length l) (q_pages (pq m)) Hwf1) as (t2 & Hcl & Hwf2 & _).
  { intros j p Hp Hj. pose proof (Hlive j p Hp Hj) as Hin.
    destruct (Hmem p Hin) as [Hu Hs]. split; [done|]. split; [done|].
    by eapply (ram_page_accessed t t1 m l). }
  { lia. }
  exists t2, (mkMeta (aged t <$> pages m) (pq m) (offsets m)). unfold age_process_pages.
  rewrite Hloop. cbn. rewrite Hn, Hadv. cbn. rewrite Hcl. cbn. by destruct (pq m).
Qed.

Lemma aq_never_advances_witness :
  ∃ t' m', age_process_pages true (flat_example 4 [2]) (fresh_meta (new_pages 4)) = Ret (t', m') ∧
    pte_wf t' ∧ pq m' = pq (fresh_meta (new_pages 4)) ∧
    pages m' = aged (flat_example 4 [2]) <$> pages (fresh_meta (new_pages 4)).
Proof.
  apply (aq_never_advances _ _ (new_pages 4)).
  - apply new_pages_inv. vm_compute; lia.
  - vm_compute; lia.
  - apply flat_example_wf.
  - done.
  - unfold mapped. rewrite filter_new_pages. apply flat_mapped; lia.
  - rewrite filter_new_pages. vm_compute. repeat constructor; set_solver.
  - apply flat_mapped; lia.
Defined.

(** C37: NFUA evicts the first page in RAM whose age is minimal among the pages in
    RAM: every page in RAM before it has a larger age, every one after it none
    smaller; the queue loses its head whatever page was chosen. *)
Theorem select_nfua_spec m l x :
  queue_rep (pq m) (x :: l) → (∃ p, p ∈ pages m ∧ in_ram p = true) →
  ∃ p m' l1 l2, select_nfua m = Ret (vaddr p, m') ∧ pages m = l1 ++ p :: l2 ∧ in_ram p = true ∧
    (∀ q, q ∈ l1 → in_ram q = true → age p < age q) ∧
    (∀ q, q ∈ pages m → in_ram q = true → age p ≤ age q) ∧
    queue_rep (pq m') l ∧ pages m' = pages m ∧ offsets m' = offsets m.
Proof.
  intros Hq Hex. destruct (dequeue_spec _ _ _ Hq) as (q' & Hd & Hq').
  destruct (nfua_min_spec (pages m) Hex) as (Hin & Hr & Hmin). destruct (nfua_min_first (pages m) Hex) as (l1 & l2 & El & Hfirst).
  exists (nfua_min (pages m)), (set_pq m q'), l1, l2. unfold select_nfua. rewrite Hd. done.
Qed.

Lemma select_nfua_spec_witness :
  ∃ p m' l1 l2, select_nfua (fresh_meta (new_pages 2)) = Ret (vaddr p, m') ∧
    pages (fresh_meta (new_pages 2)) = l1 ++ p :: l2 ∧ in_ram p = true ∧
    (∀ q, q ∈ l1 → in_ram q = true → age p < age q) ∧
    (∀ q, q ∈ pages (fresh_meta (new_pages 2)) → in_ram q = true → age p ≤ age q) ∧
    queue_rep (pq m') [new_page 4096] ∧ pages m' = pages (fresh_meta (new_pages 2)) ∧
    offsets m' = offsets (fresh_meta (new_pages 2)).
Proof.
  apply (select_nfua_spec _ _ (new_page 0)).
  - apply (new_pages_inv 2). vm_compute; lia.
  - exists (new_page 0). split; [by left|done].
Defined.

(** C38: The LAPA build does not compare numbers of set bits: [count_set_bits]
    gives 32 for every word (it tests [number | 1]), so the page it evicts is
    one in RAM whose [age2], read as a number, is minimal.  The queue, whatever
    it lists, loses its head. *)
Theorem select_lapa_spec m l x :
  meta_wf m → queue_rep (pq m) (x :: l) → (∃ p, p ∈ pages m ∧ in_ram p = true) → (∀ p, p ∈ pages m → 0 ≤ age2 p) →
  (∀ n, 0 ≤ n → count_set_bits n = 32) ∧
  ∃ p m', select_lapa m = Ret (vaddr p, m') ∧ p ∈ pages m ∧ in_ram p = true ∧
    (∀ q, q ∈ pages m → in_ram q = true → age2 p ≤ age2 q) ∧
    queue_rep (pq m') l ∧ pages m' = pages m ∧ offsets m' = offsets m.
Proof.
  intros Hm Hq Hex Hn. split; [apply count_set_bits_const|].
  destruct (dequeue_spec _ _ _ Hq) as (q' & Hd & Hq').
  destruct (lapa_min_spec m Hm Hn Hex) as (Hin & Hr & Hmin).
  exists (lapa_min (pages m)), (set_pq m q'). unfold select_lapa. rewrite Hd. done.
Qed.

(** Page 0 has three set bits, page 1 has one; LAPA takes page 0. *)
Definition lapa_pages : list page := [mkPage 1 0 0 0 0 7; mkPage 1 4096 0 0 0 8].

Lemma select_lapa_spec_witness :
  (∀ n, 0 ≤ n → count_set_bits n = 32) ∧
  ∃ p m', select_lapa (fresh_meta lapa_pages) = Ret (vaddr p, m') ∧
    p ∈ pages (fresh_meta lapa_pages) ∧ in_ram p = true ∧
    (∀ q, q ∈ pages (fresh_meta lapa_pages) → in_ram q = true → age2 p ≤ age2 q) ∧
    queue_rep (pq m') [mkPage 1 4096 0 0 0 8] ∧ pages m' = pages (fresh_meta lapa_pages) ∧
    offsets m' = offsets (fresh_meta lapa_pages).
Proof.
  destruct (fresh_meta_inv lapa_pages) as [Hm Hq _].
  { vm_compute; lia. }
  { repeat constructor. }
  { vm_compute. repeat constructor; set_solver. }
  apply (select_lapa_spec _ _ (mkPage 1 0 0 0 0 7)).
  - exact Hm.
  - exact Hq.
  - exists (mkPage 1 0 0 0 0 7). split; [by left|done].
  - intros p [i Hp]%list_elem_of_lookup. apply pad_pages_lookup in Hp as [Hp| ->]; [|done].
    destruct i as [|[|i]]; simpl in Hp; [by simplify_eq..|done].
Defined.
