(* ===== verification/PageTable.v ===== *)
(** * Page tables (vm.c:32-82, 119-138, 359-457, 520-610)

    Two-level x86 page tables kept in the memory of the machine: a directory
    page and the table pages its entries point to, walked with [walkpgdir] and
    filled with [mappages]; the accesses the rest of the kernel makes through
    them. *)
From stdpp Require Import base list strings.
From Stdlib Require Import ZArith Lia.
From S2P Require Import Prelude Mmu Memory Kalloc Paging Replacement.

(** ** Operations *)

(** [walkpgdir] gives the address of an entry, 0 for the null pointer. *)
Definition walkpgdir (s : kstate) (pgdir va : Z) (alloc : bool) : Z * kstate :=
  let pde := pgdir + 4 * PDX va in
  let w := load32 (memory s) pde in
  if flagged w PTE_P then (P2V (PTE_ADDR w) + 4 * PTX va, s)
  else if negb alloc then (0, s)
  else
    let '(pgtab, s1) := kalloc s in
    if Z.eqb pgtab 0 then (0, s1)
    else
      let m1 := memset (memory s1) pgtab 0 PGSIZE in
      let m2 := store32 m1 pde (Z.lor (Z.lor (Z.lor (V2P pgtab) PTE_P) PTE_W) PTE_U) in
      (pgtab + 4 * PTX va, set_memory s1 m2).

(** The loop of [mappages]; the pair is the C result and the state. *)
Fixpoint mappages_loop (fuel : nat) (s : kstate) (pgdir a last pa perm : Z) : outcome (Z * kstate) :=
  match fuel with
  | O => NoFuel
  | S k =>
      let '(pte, s1) := walkpgdir s pgdir a true in
      if Z.eqb pte 0 then Ret (-1, s1)
      else if flagged (load32 (memory s1) pte) PTE_P then Panic "remap"
      else
        let s2 := set_memory s1 (store32 (memory s1) pte (Z.lor (Z.lor pa perm) PTE_P)) in
        if Z.eqb a last then Ret (0, s2)
        else mappages_loop k s2 pgdir (u32 (a + PGSIZE)) last (u32 (pa + PGSIZE)) perm
  end.

(** The distance from the first to the last page, wrapping at 2^32, bounds the loop. *)
Definition mappages (s : kstate) (pgdir va size pa perm : Z) : outcome (Z * kstate) :=
  let a := PGROUNDDOWN va in
  let last := PGROUNDDOWN (u32 (va + size - 1)) in
  mappages_loop (S (Z.to_nat (u32 (last - a) / PGSIZE))) s pgdir a last pa perm.

(** [*walkpgdir(pgdir, va, 0)] as an lvalue: its address when there is one. *)
Definition pte_addr (s : kstate) (pgdir va : Z) : Z := fst (walkpgdir s pgdir va false).

Definition clearpteu (s : kstate) (pgdir uva : Z) : outcome kstate :=
  let pte := pte_addr s pgdir uva in
  if Z.eqb pte 0 then Panic "clearpteu"
  else Ret (set_memory s (store32 (memory s) pte (clear_flag (load32 (memory s) pte) PTE_U))).

(** [isFlagged] and [uva2ka] read through the entry without a test for null. *)
Definition isFlagged (s : kstate) (pgdir va flag : Z) : outcome Z :=
  let pte := pte_addr s pgdir va in
  if Z.eqb pte 0 then Undef "isFlagged: null pte"
  else Ret (if flagged (load32 (memory s) pte) flag then 1 else 0).

Definition setPTE_FLAG (s : kstate) (pgdir va flag : Z) : outcome kstate :=
  let pte := pte_addr s pgdir va in
  if Z.eqb pte 0 then Panic "setPTE_PG"
  else Ret (set_memory s (store32 (memory s) pte (set_flag (load32 (memory s) pte) flag))).

Definition clearPTE_FLAG (s : kstate) (pgdir va flag : Z) : outcome kstate :=
  let pte := pte_addr s pgdir va in
  if Z.eqb pte 0 then Panic "setPTE_PG"
  else Ret (set_memory s (store32 (memory s) pte (clear_flag (load32 (memory s) pte) flag))).

Definition clearPTE_P (s : kstate) (pgdir va : Z) : outcome (Z * kstate) :=
  let pte := pte_addr s pgdir va in
  if Z.eqb pte 0 then Panic "clearPTE_P"
  else Ret (1, set_memory s (store32 (memory s) pte (clear_flag (load32 (memory s) pte) PTE_P))).

Definition setPTE_PG (s : kstate) (pgdir va : Z) : outcome (Z * kstate) :=
  let pte := pte_addr s pgdir va in
  if Z.eqb pte 0 then Panic "setPTE_PG"
  else Ret (1, set_memory s (store32 (memory s) pte (set_flag (load32 (memory s) pte) PTE_P))).

Definition isPagedOut (s : kstate) (pgdir va : Z) : outcome Z :=
  let rounded := PGROUNDDOWN va in
  let! p := isFlagged s pgdir va PTE_P in
  if c_true p then Ret 0
  else
    let! g := isFlagged s pgdir rounded PTE_PG in
    Ret (if c_true g then 1 else 0).

Definition uva2ka (s : kstate) (pgdir uva : Z) : outcome Z :=
  let pte := pte_addr s pgdir uva in
  if Z.eqb pte 0 then Undef "uva2ka: null pte"
  else
    let e := load32 (memory s) pte in
    if negb (flagged e PTE_P) then Ret 0
    else if negb (flagged e PTE_U) then Ret 0
    else Ret (P2V (PTE_ADDR e)).

(** Each turn of [copyout] but the first and the last moves a whole page. *)
Fixpoint copyout_loop (fuel : nat) (s : kstate) (pgdir va buf len : Z) : outcome (Z * kstate) :=
  if Z.leb len 0 then Ret (0, s)
  else match fuel with
  | O => NoFuel
  | S k =>
      let va0 := PGROUNDDOWN va in
      let! pa0 := uva2ka s pgdir va0 in
      if Z.eqb pa0 0 then Ret (-1, s)
      else
        let n0 := u32 (PGSIZE - (va - va0)) in
        let n := if Z.ltb len n0 then len else n0 in
        let s1 := set_memory s (memmove (memory s) (u32 (pa0 + (va - va0))) buf n) in
        copyout_loop k s1 pgdir (u32 (va0 + PGSIZE)) (u32 (buf + n)) (u32 (len - n))
  end.
Definition copyout (s : kstate) (pgdir va p len : Z) : outcome (Z * kstate) :=
  copyout_loop (S (S (Z.to_nat (len / PGSIZE)))) s pgdir va p len.

Definition inituvm (s : kstate) (pgdir init sz : Z) : outcome kstate :=
  if Z.leb PGSIZE sz then Panic "inituvm: more than a page"
  else
    let '(mem, s1) := kalloc s in
    if Z.eqb mem 0 then Undef "inituvm: memset of a null page"
    else
      let s2 := set_memory s1 (memset (memory s1) mem 0 PGSIZE) in
      let! (_, s3) := mappages s2 pgdir 0 PGSIZE (V2P mem) (Z.lor PTE_W PTE_U) in
      Ret (set_memory s3 (memmove (memory s3) mem init sz)).

(** ** Abstract page tables

    A page table is described by the table pages [T] of its directory entries
    and the entries [E] of its 2^20 pages. *)

Definition NDIR : Z := 1024.
Definition VPAGES : Z := 2 ^ 20.

(** The indices of the directory, sealed so that no proof computes the list. *)
Definition dirs_aux : seal (seqZ 0 NDIR). Proof. by eexists. Qed.
Definition dirs : list Z := unseal dirs_aux.
Lemma elem_of_dirs i : i ∈ dirs ↔ 0 ≤ i < NDIR.
Proof. unfold dirs. rewrite (seal_eq dirs_aux), elem_of_seqZ. lia. Qed.
Lemma NoDup_dirs : NoDup dirs.
Proof. unfold dirs. rewrite (seal_eq dirs_aux). apply NoDup_seqZ. Qed.

Definition tables (T : Z → option Z) : list Z := omap T dirs.

(** The bytes of page [p] are the same in both memories. *)
Definition same_page (m m' : mem) (p : Z) : Prop := ∀ x, in_page p x → load8 m' x = load8 m x.

Lemma omap_insert_perm {A} (f g : Z → option A) l i a :
  NoDup l → i ∈ l → (∀ k, k ∈ l → k ≠ i → g k = f k) → f i = None → g i = Some a →
  omap g l ≡ₚ a :: omap f l.
Proof.
  intros Hnd Hi Hext Hf Hg. induction Hnd as [|k l Hk Hnd IH]; [by apply elem_of_nil in Hi|].
  simpl. destruct (decide (k = i)) as [->|Hne].
  - rewrite Hf, Hg. f_equiv. apply eq_subrelation; [apply _|].
    apply list_omap_ext, Forall2_same_length_lookup_2; [done|].
    intros j x y Hx Hy. simplify_eq. apply Hext; [right; by eapply list_elem_of_lookup_2|].
    intros ->. apply Hk. by eapply list_elem_of_lookup_2.
  - assert (Hi' : i ∈ l) by (apply elem_of_cons in Hi as [->|]; done).
    assert (Hrec : omap g l ≡ₚ a :: omap f l) by (apply IH; [done|]; intros; apply Hext; [by right|done]).
    rewrite Hext by (done || by left). destruct (f k); simpl; rewrite Hrec; [apply Permutation_swap|done].
Qed.

Lemma omap_inj {A} (f : Z → option A) l i j a :
  NoDup (omap f l) → i ∈ l → j ∈ l → f i = Some a → f j = Some a → i = j.
Proof.
  intros Hnd Hi Hj Hfi Hfj. induction l as [|k l IH]; [by apply elem_of_nil in Hi|].
  assert (Hin : ∀ x, x ∈ l → f x = Some a → a ∈ omap f l) by (intros x ? ?; apply list_elem_of_omap; eauto).
  cbn [omap list_omap] in Hnd. apply elem_of_cons in Hi as [->|Hi], Hj as [->|Hj]; [done|..].
  - rewrite Hfi in Hnd. apply NoDup_cons in Hnd as [[] _]. eauto.
  - rewrite Hfj in Hnd. apply NoDup_cons in Hnd as [[] _]. eauto.
  - apply IH; [|done..]. destruct (f k); [by apply NoDup_cons in Hnd as [_ ?]|done].
Qed.

Section page_table.
  Context (kend : Z) (kend_kernel : KERNBASE + EXTMEM ≤ kend).

Record pt_rep (s : kstate) (free : list Z) (pgdir : Z) (T : Z → option Z) (E : Z → Z)
    (held : list Z) : Prop := mk_pt_rep {
  pt_free : free_rep kend s free;
  pt_dir i : 0 ≤ i < NDIR → let pde := load32 (memory s) (pgdir + 4 * i) in
    match T i with
    | Some t => flagged pde PTE_P = true ∧ P2V (PTE_ADDR pde) = t
    | None => flagged pde PTE_P = false
    end;
  pt_ent n t : 0 ≤ n < VPAGES → T (n / 1024) = Some t →
    load32 (memory s) (t + 4 * (n mod 1024)) = E n;
  pt_none n : 0 ≤ n < VPAGES → T (n / 1024) = None → E n = 0;
  pt_valid : Forall (valid_page kend) (pgdir :: tables T ++ held);
  pt_nodup : NoDup (pgdir :: tables T ++ held ++ free) }.

Lemma elem_of_tables T i t : 0 ≤ i < NDIR → T i = Some t → t ∈ tables T.
Proof. intros Hi Ht. apply list_elem_of_omap. exists i. split; [|done]. by apply elem_of_dirs. Qed.

Lemma tables_inj T i j t l :
  NoDup (tables T ++ l) → 0 ≤ i < NDIR → 0 ≤ j < NDIR → T i = Some t → T j = Some t → i = j.
Proof.
  intros [Hnd _]%NoDup_app Hi Hj. apply (omap_inj T dirs); [done|by apply elem_of_dirs..].
Qed.

Lemma load32_same_page m m' p o :
  same_page m m' p → 0 ≤ o ≤ PGSIZE - 4 → load32 m' (p + o) = load32 m (p + o).
Proof. intros Hs Ho. apply load32_ext. intros x Hx. apply Hs. unfold in_page. lia. Qed.

Lemma same_page_store32 m p q o v :
  valid_page kend p → valid_page kend q → p ≠ q → 0 ≤ o ≤ PGSIZE - 4 →
  same_page m (store32 m (q + o) v) p.
Proof.
  intros Hp Hq Hne Ho x Hx. rewrite load8_store32, decide_False; [done|].
  intros Hx'. apply Hne. apply (in_page_inj p q x); [apply Hp|apply Hq|done|].
  unfold in_page in *. lia.
Qed.

Lemma same_page_memset m p q c :
  valid_page kend p → valid_page kend q → p ≠ q → same_page m (memset m q c PGSIZE) p.
Proof.
  intros Hp Hq Hne x Hx. rewrite memset_spec, decide_False; [done| |unfold PGSIZE; lia].
  intros Hx'. apply Hne. apply (in_page_inj p q x); [apply Hp|apply Hq|done|].
  unfold in_page in *. lia.
Qed.

Lemma same_page_trans m1 m2 m3 p : same_page m1 m2 p → same_page m2 m3 p → same_page m1 m3 p.
Proof. intros H1 H2 x Hx. rewrite H2 by done. by apply H1. Qed.

Lemma free_rep_frame s s' free :
  free_rep kend s free → freelist s' = freelist s →
  (∀ p, p ∈ free → same_page (memory s) (memory s') p) → free_rep kend s' free.
Proof.
  intros [Hc Hv Hnd] Hl Hs. split; [|done|done]. rewrite Hl. eapply chain_ext; [|exact Hc].
  intros a Ha. rewrite <- (Z.add_0_r a). apply load32_same_page; [by apply Hs|unfold PGSIZE; lia].
Qed.

(** Writes to pages that are neither tables nor free leave the page table alone. *)
Lemma pt_rep_frame s s' free pgdir T E held :
  pt_rep s free pgdir T E held → freelist s' = freelist s →
  (∀ p, p ∈ pgdir :: tables T ++ free → same_page (memory s) (memory s') p) →
  pt_rep s' free pgdir T E held.
Proof.
  intros [Hf Hd He Hn Hv Hnd] Hl Hs. split; try done.
  - apply (free_rep_frame s); [done|done|]. intros p Hp. apply Hs. right. apply elem_of_app. by right.
  - intros i Hi pde. subst pde.
    rewrite (load32_same_page (memory s)); [by apply Hd|apply Hs; left|unfold PGSIZE, NDIR in *; lia].
  - intros n t Hnr Ht. rewrite <- (He n t Hnr Ht). apply load32_same_page.
    + apply Hs. right. apply elem_of_app. left. apply (elem_of_tables _ (n / 1024)); [|done].
      unfold VPAGES, NDIR in *. split; [apply Z.div_pos; lia|apply Z.div_lt_upper_bound; lia].
    + pose proof (Z.mod_pos_bound n 1024). unfold PGSIZE. lia.
Qed.

Lemma pt_valid_in s free pgdir T E held p :
  pt_rep s free pgdir T E held → p ∈ pgdir :: tables T ++ held ++ free → valid_page kend p.
Proof.
  intros [Hf _ _ _ Hv _] Hp. destruct Hf as [_ Hfv _]. rewrite Forall_forall in Hv, Hfv.
  rewrite elem_of_cons, !elem_of_app in Hp.
  destruct Hp as [->|[Hp|[Hp|Hp]]]; [apply Hv; left|..|by apply Hfv];
    apply Hv; right; apply elem_of_app; auto.
Qed.

Lemma dir_index n : 0 ≤ n < VPAGES → 0 ≤ n / 1024 < NDIR.
Proof. unfold VPAGES, NDIR. intros. split; [apply Z.div_pos; lia|apply Z.div_lt_upper_bound; lia]. Qed.

(** A store to an entry of a table page. *)
Lemma pt_rep_store s free pgdir T E held n t v :
  pt_rep s free pgdir T E held → 0 ≤ n < VPAGES → T (n / 1024) = Some t → is_u32 v →
  pt_rep (set_memory s (store32 (memory s) (t + 4 * (n mod 1024)) v)) free pgdir T (upd E n v) held.
Proof.
  intros Hpt Hn Ht Hv. pose proof (dir_index n Hn) as Hi.
  pose proof (Z.mod_pos_bound n 1024 ltac:(lia)) as Hm.
  assert (Htt : t ∈ tables T) by exact (elem_of_tables T _ t Hi Ht).
  assert (Hne : ∀ p, p ∈ pgdir :: free → p ≠ t).
  { destruct Hpt as [_ _ _ _ _ [Hn1 [_ [Hn2 _]]%NoDup_app]%NoDup_cons].
    intros p Hp ->. apply elem_of_cons in Hp as [->|Hp].
    - apply Hn1, elem_of_app. by left.
    - apply (Hn2 _ Htt), elem_of_app. by right. }
  assert (Hsame : ∀ p, p ∈ pgdir :: tables T ++ held ++ free → p ≠ t →
    same_page (memory s) (store32 (memory s) (t + 4 * (n mod 1024)) v) p).
  { intros p Hp Hpt'. apply same_page_store32; [by eapply pt_valid_in| |done|unfold PGSIZE; lia].
    eapply pt_valid_in; [done|]. right. apply elem_of_app. by left. }
  pose proof Hpt as [Hf Hd He Hno Hval Hnd]. split; cbn [memory freelist set_memory]; try done.
  - apply (free_rep_frame s); [done|done|]. intros p Hp. apply Hsame; [|apply Hne; by right].
    right. rewrite !elem_of_app. auto.
  - intros i Hir. rewrite (load32_same_page (memory s)); [by apply Hd| |unfold PGSIZE, NDIR in *; lia].
    apply Hsame; [left|apply Hne; left].
  - intros k t' Hk Ht'. destruct (decide (k = n)) as [->|Hkn].
    + rewrite upd_eq. simplify_eq. by apply load32_store32_eq.
    + rewrite upd_ne by done. rewrite <- (He k t' Hk Ht').
      pose proof (Z.mod_pos_bound k 1024 ltac:(lia)) as Hkm. destruct (decide (t' = t)) as [->|Htn].
      * apply load32_store32_ne. 
        assert (k / 1024 = n / 1024).
        { apply NoDup_cons in Hnd as [_ Hnd]. by eapply tables_inj; [|apply dir_index| |..]. }
        pose proof (Z.div_mod k 1024). pose proof (Z.div_mod n 1024). lia.
      * apply load32_same_page; [|unfold PGSIZE; lia]. apply Hsame; [|done].
        right. apply elem_of_app. left. eapply elem_of_tables; [by apply dir_index|done].
  - intros k Hk Hkn. rewrite upd_ne; [by apply Hno|]. intros ->. congruence.
Qed.

Lemma pt_rep_perm s free pgdir T E held held' :
  held ≡ₚ held' → pt_rep s free pgdir T E held → pt_rep s free pgdir T E held'.
Proof. intros Hp [Hf Hd He Hn Hv Hnd]. split; try done; by rewrite <- Hp. Qed.

Lemma pt_rep_kalloc s free pgdir T E held :
  pt_rep s free pgdir T E held →
  match free with
  | [] => kalloc s = (0, s)
  | a :: free' => ∃ s', kalloc s = (a, s') ∧ memory s' = memory s ∧ valid_page kend a ∧
                        pt_rep s' free' pgdir T E (a :: held)
  end.
Proof.
  intros Hpt. pose proof Hpt as [Hf Hd He Hn Hv Hnd].
  pose proof (kalloc_spec kend kend_kernel s free Hf) as Hk. destruct free as [|a free]; [done|].
  destruct Hk as (s' & Hk & Hm & Hf' & Ha & Hni). exists s'. split_and!; try done.
  split; rewrite ?Hm; try done.
  - apply Forall_cons in Hv as [Hp Hv]. apply Forall_app in Hv as [Ht Hh].
    constructor; [done|]. apply Forall_app. split; [done|]. by constructor.
  - by rewrite <- app_comm_cons, (Permutation_middle held).
Qed.

Lemma pt_rep_kfree s free pgdir T E held held' v :
  pt_rep s free pgdir T E held → held ≡ₚ v :: held' →
  ∃ s', kfree kend s v = Ret s' ∧ pt_rep s' (v :: free) pgdir T E held' ∧
    ∀ p, p mod PGSIZE = 0 → p ≠ v → same_page (memory s) (memory s') p.
Proof.
  intros Hpt Hp. apply (pt_rep_perm _ _ _ _ _ _ _ Hp) in Hpt. clear Hp.
  pose proof Hpt as [Hf Hd He Hn Hv Hnd].
  assert (Hval : valid_page kend v).
  { eapply pt_valid_in; [done|]. right. rewrite !elem_of_app. right; left. left. }
  assert (Hni : v ∉ pgdir :: tables T ++ free).
  { rewrite app_comm_cons, Permutation_app_swap_app in Hnd.
    rewrite <- app_comm_cons in Hnd. apply NoDup_cons in Hnd as [Hni _].
    intros Hin. apply Hni. rewrite !elem_of_app. rewrite app_comm_cons, elem_of_app in Hin.
    destruct Hin; auto. }
  rewrite app_comm_cons in Hni.
  destruct (kfree_spec kend kend_kernel s free v Hf Hval) as (s' & Hk & Hf' & Hm).
  { intros Hin. apply Hni, elem_of_app. by right. }
  exists s'. split; [done|].
  assert (Hs : ∀ p, p mod PGSIZE = 0 → p ≠ v → same_page (memory s) (memory s') p).
  { intros p Hpm Hpv x Hx. apply Hm. intros Hx'. apply Hpv.
    apply (in_page_inj p v x); [done|apply Hval|done|done]. }
  split; [|done].
  assert (Hfr : pt_rep (set_freelist s' (freelist s)) free pgdir T E (v :: held')).
  { apply (pt_rep_frame s); [done|done|]. intros p Hp'. simpl. apply Hs.
    - eapply pt_valid_in; [done|]. rewrite app_comm_cons, !elem_of_app. 
      rewrite app_comm_cons, elem_of_app in Hp'. tauto.
    - intros ->. by apply Hni. }
  destruct Hfr as [_ Hd' He' Hn' Hv' _]. split; try done.
  - apply Forall_cons in Hv as [Hpd Hv]. apply Forall_app in Hv as [Ht Hh].
    constructor; [done|]. apply Forall_app. split; [done|]. by apply Forall_cons in Hh as [_ ?].
  - rewrite <- Permutation_middle. by rewrite <- app_comm_cons in Hnd.
Qed.

Lemma pt_rep_ext s free pgdir T E E' held :
  (∀ n, 0 ≤ n < VPAGES → E' n = E n) → pt_rep s free pgdir T E held → pt_rep s free pgdir T E' held.
Proof.
  intros Hext [Hf Hd He Hn Hv Hnd]. split; try done.
  - intros n t Hr Ht. rewrite Hext by done. by apply He.
  - intros n Hr Ht. rewrite Hext by done. by apply Hn.
Qed.

(** A held page is not on the free list. *)
Lemma held_not_free s free pgdir T E held x v :
  pt_rep s free pgdir T E held → x ∈ held → v ∈ free → x ≠ v ∧ x mod PGSIZE = 0.
Proof.
  intros Hpt Hx Hv. split.
  - intros ->. pose proof (pt_nodup _ _ _ _ _ _ Hpt) as [_ Hnd]%NoDup_cons.
    apply NoDup_app in Hnd as (_ & _ & Hnd). apply NoDup_app in Hnd as (_ & Hnd & _). by apply (Hnd v).
  - eapply pt_valid_in; [exact Hpt|]. rewrite elem_of_cons, !elem_of_app. auto.
Qed.

Lemma same_page_outside m m' a x :
  (∀ y, ¬ in_page a y → load8 m' y = load8 m y) → a mod PGSIZE = 0 → x mod PGSIZE = 0 → x ≠ a →
  same_page m m' x.
Proof. intros Hm Ha Hx Hne y Hy. apply Hm. intros Hy'. apply Hne. by eapply in_page_inj. Qed.

(** Writing inside a held page does not disturb the page table. *)
Lemma pt_rep_held_write s free pgdir T E held a m' :
  pt_rep s free pgdir T E held → a ∈ held →
  (∀ x, ¬ in_page a x → load8 m' x = load8 (memory s) x) →
  pt_rep (set_memory s m') free pgdir T E held.
Proof.
  intros Hpt Ha Hm. apply (pt_rep_frame s); [done|done|]. intros p Hp.
  apply (same_page_outside _ _ a); [done|eapply pt_valid_in; [exact Hpt|]..|].
  - rewrite elem_of_cons, !elem_of_app. auto.
  - rewrite elem_of_cons, !elem_of_app in *. tauto.
  - intros ->. pose proof (pt_nodup _ _ _ _ _ _ Hpt) as Hnd. rewrite app_comm_cons in Hnd, Hp.
    rewrite Permutation_app_swap_app in Hnd. apply NoDup_app in Hnd as (_ & Hnd & _). by apply (Hnd a).
Qed.

(** ** Walking and mapping *)

Lemma walkpgdir_lookup s free pgdir T E held va :
  pt_rep s free pgdir T E held → is_u32 va →
  walkpgdir s pgdir va false =
    (match T (va / PGSIZE / 1024) with
     | Some t => t + 4 * (va / PGSIZE mod 1024) | None => 0 end, s).
Proof.
  intros Hpt Hva. unfold walkpgdir.
  assert (Hi : 0 ≤ PDX va < NDIR) by (unfold NDIR; by apply PDX_range).
  pose proof (pt_dir _ _ _ _ _ _ Hpt (PDX va) Hi) as Hd. simpl in Hd.
  rewrite <- PDX_page, <- PTX_page by done. destruct (T (PDX va)) as [t|].
  - destruct Hd as [-> ->]. done.
  - by rewrite Hd.
Qed.

Lemma page_no_range va : is_u32 va → 0 ≤ va / PGSIZE < VPAGES.
Proof.
  unfold is_u32, PGSIZE, VPAGES. intros. split; [apply Z.div_pos; lia|apply Z.div_lt_upper_bound; lia].
Qed.

Lemma table_entry_nonzero s free pgdir T E held i t o :
  pt_rep s free pgdir T E held → 0 ≤ i < NDIR → T i = Some t → 0 ≤ o → t + o ≠ 0.
Proof.
  intros Hpt Hi Ht Ho. assert (Hv : valid_page kend t).
  { eapply pt_valid_in; [done|]. right. apply elem_of_app. left. by eapply elem_of_tables. }
  apply valid_page_range in Hv; [|done]. unfold KERNBASE, EXTMEM in *. lia.
Qed.

(** The flags [walkpgdir] gives a new table. *)
Lemma table_entry_flags a :
  valid_page kend a →
  let pde := Z.lor (Z.lor (Z.lor (V2P a) PTE_P) PTE_W) PTE_U in
  is_u32 pde ∧ flagged pde PTE_P = true ∧ P2V (PTE_ADDR pde) = a.
Proof.
  intros Ha. simpl. rewrite <- !Z.lor_assoc.
  assert (Hm : V2P a mod PGSIZE = 0).
  { rewrite (V2P_valid kend) by done. destruct Ha as (Ha & _). unfold PGSIZE, KERNBASE in *.
    rewrite Zminus_mod, Ha. done. }
  change (Z.lor PTE_P (Z.lor PTE_W PTE_U)) with 7.
  split; [apply is_u32_lor_page; [apply u32_range|done|by vm_compute]|]. split.
  - change 7 with (Z.lor 6 PTE_P). rewrite Z.lor_assoc. by apply flagged_set_same.
  - rewrite PTE_ADDR_lor; [by apply (P2V_V2P kend)|apply u32_range|done|by vm_compute].
Qed.

(** A zeroed page the kernel holds becomes the table of directory entry [i]. *)
Lemma pt_rep_link s free pgdir T E held i a pde :
  pt_rep s free pgdir T E (a :: held) → 0 ≤ i < NDIR → T i = None →
  (∀ x, in_page a x → load8 (memory s) x = 0) →
  is_u32 pde → flagged pde PTE_P = true → P2V (PTE_ADDR pde) = a →
  pt_rep (set_memory s (store32 (memory s) (pgdir + 4 * i) pde)) free pgdir (upd T i (Some a)) E held.
Proof.
  intros Hpt Hi HT Hz Hu Hfl Hback. pose proof Hpt as [Hf Hd He Hn Hv Hnd].
  assert (Htab : tables (upd T i (Some a)) ≡ₚ a :: tables T).
  { apply (omap_insert_perm _ _ _ i); [apply NoDup_dirs|by apply elem_of_dirs| |done|apply upd_eq].
    intros k _ Hk. by apply upd_ne. }
  assert (Hpd : ∀ p, p ∈ tables T ++ a :: held ++ free → p ≠ pgdir).
  { intros p Hp ->. apply NoDup_cons in Hnd as [Hni _]. apply Hni. by rewrite <- app_comm_cons. }
  assert (Hsame : ∀ p, p ∈ tables T ++ a :: held ++ free →
    same_page (memory s) (store32 (memory s) (pgdir + 4 * i) pde) p).
  { intros p Hp. apply same_page_store32; [| |by apply Hpd|unfold PGSIZE, NDIR in *; lia];
      eapply pt_valid_in; try done; [right|left]. by rewrite <- app_comm_cons. }
  split; cbn [memory freelist set_memory].
  - apply (free_rep_frame s); [done|done|]. intros p Hp. apply Hsame.
    rewrite elem_of_app, elem_of_cons, elem_of_app. auto.
  - intros j Hj. destruct (decide (j = i)) as [->|Hne].
    + rewrite upd_eq, load32_store32_eq by done. done.
    + rewrite upd_ne, load32_store32_ne by (done || lia). by apply Hd.
  - intros n t Hnr Ht. pose proof (Z.mod_pos_bound n 1024 ltac:(lia)).
    destruct (decide (n / 1024 = i)) as [Hni|Hne].
    + rewrite Hni, upd_eq in Ht. injection Ht as <-. rewrite Hn by congruence.
      assert (Hza : ∀ o, 0 ≤ o < 4 → load8 (store32 (memory s) (pgdir + 4 * i) pde)
        (a + 4 * (n mod 1024) + o) = 0).
      { intros o Ho. assert (Hin : in_page a (a + 4 * (n mod 1024) + o)) by (unfold in_page, PGSIZE; lia).
        rewrite Hsame with (p := a); [by apply Hz| |done]. rewrite elem_of_app. right. left. }
      rewrite (load32_ext (store32 (memory s) (pgdir + 4 * i) pde) (λ _, 0)); [by vm_compute|].
      intros x Hx. replace x with (a + 4 * (n mod 1024) + (x - (a + 4 * (n mod 1024)))) by lia.
      rewrite Hza by lia. done.
    + rewrite upd_ne in Ht by done. rewrite <- (He n t Hnr Ht). apply load32_same_page; [|unfold PGSIZE; lia].
      apply Hsame, elem_of_app. left. eapply elem_of_tables; [by apply dir_index|done].
  - intros n Hnr Ht. apply Hn; [done|]. unfold upd in Ht. case_decide; done.
  - rewrite Htab. rewrite <- app_comm_cons. by rewrite (Permutation_middle (tables T)).
  - rewrite Htab. rewrite <- app_comm_cons, (Permutation_middle (tables T)).
    by rewrite <- app_comm_cons in Hnd.
Qed.

Lemma walkpgdir_alloc s free pgdir T E held va :
  pt_rep s free pgdir T E held → is_u32 va →
  let n := va / PGSIZE in
  match T (n / 1024), free with
  | Some t, _ => walkpgdir s pgdir va true = (t + 4 * (n mod 1024), s)
  | None, [] => walkpgdir s pgdir va true = (0, s)
  | None, a :: free' => ∃ s', walkpgdir s pgdir va true = (a + 4 * (n mod 1024), s') ∧
      pt_rep s' free' pgdir (upd T (n / 1024) (Some a)) E held ∧
      (∀ p, p ∈ held → same_page (memory s) (memory s') p)
  end.
Proof.
  intros Hpt Hva. cbv zeta. unfold walkpgdir.
  assert (Hi : 0 ≤ PDX va < NDIR) by (unfold NDIR; by apply PDX_range).
  pose proof (pt_dir _ _ _ _ _ _ Hpt (PDX va) Hi) as Hd. cbv zeta in Hd.
  rewrite <- PDX_page, <- PTX_page by done. destruct (T (PDX va)) as [t|] eqn:HT.
  { destruct Hd as [-> ->]. done. }
  rewrite Hd. cbn [negb]. pose proof (pt_rep_kalloc _ _ _ _ _ _ Hpt) as Hk.
  destruct free as [|a free]; [by rewrite Hk|].
  destruct Hk as (s1 & -> & Hm1 & Ha & Hpt1).
  rewrite (proj2 (Z.eqb_neq a 0)) by (by apply (valid_page_nonzero kend)).
  eexists. split; [done|]. rewrite <- Hm1. clear s Hm1 Hpt Hd. rename s1 into s.
  destruct (table_entry_flags a Ha) as (Hu & Hfl & Hback). cbv zeta in *.
  set (pde := Z.lor (Z.lor (Z.lor (V2P a) PTE_P) PTE_W) PTE_U) in *.
  assert (Hne : ∀ p, p ∈ pgdir :: tables T ++ held ++ free → p ≠ a).
  { intros p Hp ->. pose proof (pt_nodup _ _ _ _ _ _ Hpt1) as Hnd.
    rewrite <- app_comm_cons, <- Permutation_middle, Permutation_swap in Hnd.
    by apply NoDup_cons in Hnd as [? _]. }
  assert (Hms : ∀ p, p ∈ pgdir :: tables T ++ held ++ free →
    same_page (memory s) (memset (memory s) a 0 PGSIZE) p).
  { intros p Hp. apply same_page_memset; [|done|by apply Hne]. eapply pt_valid_in; [done|].
    rewrite elem_of_cons, !elem_of_app in *. rewrite elem_of_cons. tauto. }
  assert (Hpt2 : pt_rep (set_memory s (memset (memory s) a 0 PGSIZE)) free pgdir T E (a :: held)).
  { apply (pt_rep_frame s); [done|done|]. intros p Hp. apply Hms.
    rewrite elem_of_cons, !elem_of_app in *. tauto. }
  split.
  - apply (pt_rep_link _ _ _ _ _ _ _ _ _ Hpt2); try done.
    intros x Hx. cbn [memory set_memory]. rewrite memset_spec, decide_True by (done || unfold PGSIZE; lia).
    done.
  - intros p Hp. apply (same_page_trans _ (memset (memory s) a 0 PGSIZE)).
    { apply Hms. rewrite elem_of_cons, !elem_of_app. auto. }
    apply same_page_store32; [| | |unfold PGSIZE, NDIR in *; lia].
    + eapply pt_valid_in; [exact Hpt1|]. rewrite elem_of_cons, !elem_of_app, elem_of_cons. auto.
    + eapply pt_valid_in; [exact Hpt1|]. left.
    + intros ->. pose proof (pt_nodup _ _ _ _ _ _ Hpt1) as [Hni _]%NoDup_cons. apply Hni.
      rewrite !elem_of_app, elem_of_cons. auto.
Qed.

(** One turn of [mappages]: find or make the table, then fill the entry. *)
Lemma map_step s free pgdir T E held n e :
  pt_rep s free pgdir T E held → 0 ≤ n < VPAGES → is_u32 e →
  (∃ s' free' T' l t, walkpgdir s pgdir (PGSIZE * n) true = (t + 4 * (n mod 1024), s') ∧
     t + 4 * (n mod 1024) ≠ 0 ∧ load32 (memory s') (t + 4 * (n mod 1024)) = E n ∧
     free = l ++ free' ∧ tables T' ≡ₚ l ++ tables T ∧ (∀ i t, T i = Some t → T' i = Some t) ∧
     pt_rep (set_memory s' (store32 (memory s') (t + 4 * (n mod 1024)) e)) free' pgdir T' (upd E n e) held ∧
     ∀ p, p ∈ held → same_page (memory s) (store32 (memory s') (t + 4 * (n mod 1024)) e) p) ∨
  (walkpgdir s pgdir (PGSIZE * n) true = (0, s) ∧ free = []).
Proof.
  intros Hpt Hn He. pose proof (dir_index n Hn) as Hi. pose proof (Z.mod_pos_bound n 1024 ltac:(lia)) as Hm.
  assert (Hva : is_u32 (PGSIZE * n)) by (unfold is_u32, PGSIZE, VPAGES in *; lia).
  pose proof (walkpgdir_alloc _ _ _ _ _ _ _ Hpt Hva) as Hw. cbv zeta in Hw.
  replace (PGSIZE * n / PGSIZE) with n in Hw by (rewrite Z.mul_comm, Z.div_mul; done).
  assert (Hgo : ∀ s' free' T' t, pt_rep s' free' pgdir T' E held → T' (n / 1024) = Some t →
    (∀ p, p ∈ held → same_page (memory s) (memory s') p) →
    t + 4 * (n mod 1024) ≠ 0 ∧ load32 (memory s') (t + 4 * (n mod 1024)) = E n ∧
    pt_rep (set_memory s' (store32 (memory s') (t + 4 * (n mod 1024)) e)) free' pgdir T' (upd E n e) held ∧
    ∀ p, p ∈ held → same_page (memory s) (store32 (memory s') (t + 4 * (n mod 1024)) e) p).
  { intros s' free' T' t Hpt' Ht Hs.
    split; [eapply table_entry_nonzero; [done|exact Hi|done|lia]|].
    split; [by apply (pt_ent _ _ _ _ _ _ Hpt')|]. split; [by apply pt_rep_store|].
    intros p Hp. apply (same_page_trans _ (memory s')); [by apply Hs|].
    assert (Htt : t ∈ tables T') by by apply (elem_of_tables _ (n / 1024)).
    apply same_page_store32; [| | |unfold PGSIZE; lia].
    - eapply pt_valid_in; [exact Hpt'|]. rewrite elem_of_cons, !elem_of_app. auto.
    - eapply pt_valid_in; [exact Hpt'|]. rewrite elem_of_cons, !elem_of_app. auto.
    - intros ->. pose proof (pt_nodup _ _ _ _ _ _ Hpt') as [_ Hnd]%NoDup_cons.
      apply NoDup_app in Hnd as (_ & Hnd & _). apply (Hnd t Htt), elem_of_app. by left. }
  destruct (T (n / 1024)) as [t|] eqn:HT.
  - left. destruct (Hgo s free T t Hpt HT) as (? & ? & ? & ?); [by intros p _ x|].
    exists s, free, T, [], t. done.
  - destruct free as [|a free]; [by right|]. left. destruct Hw as (s' & Hw & Hpt' & Hs).
    destruct (Hgo s' free _ a Hpt' (upd_eq _ _ _) Hs) as (? & ? & ? & ?).
    exists s', free, (upd T (n / 1024) (Some a)), [a], a. split_and!; try done.
    + apply (omap_insert_perm _ _ _ (n / 1024)); [apply NoDup_dirs|by apply elem_of_dirs| |done|apply upd_eq].
      intros k _ Hk. by apply upd_ne.
    + intros i t Ht. rewrite upd_ne; [done|]. intros ->. congruence.
Qed.

(** The entries [mappages] writes. *)
Definition map_entry (pa perm i : Z) : Z := Z.lor (Z.lor (u32 (pa + PGSIZE * i)) perm) PTE_P.

Lemma map_entry_u32 pa perm i : 0 ≤ perm < PGSIZE → is_u32 (map_entry pa perm i).
Proof.
  intros Hp. unfold map_entry. repeat apply lor_u32; [apply u32_range|unfold is_u32, PGSIZE in *; lia|done].
Qed.

Lemma map_entry_0 pa perm : is_u32 pa → map_entry pa perm 0 = Z.lor (Z.lor pa perm) PTE_P.
Proof. intros Hpa. unfold map_entry. by rewrite Z.mul_0_r, Z.add_0_r, u32_small. Qed.

Lemma map_entry_next pa perm i : map_entry (u32 (pa + PGSIZE)) perm i = map_entry pa perm (i + 1).
Proof.
  unfold map_entry, u32. rewrite Zplus_mod_idemp_l. do 3 f_equal. lia.
Qed.

Lemma mappages_loop_spec c : ∀ fuel s free pgdir T E held n pa perm,
  pt_rep s free pgdir T E held → (c < fuel)%nat → 0 ≤ n → n + Z.of_nat c < VPAGES →
  is_u32 pa → 0 ≤ perm < PGSIZE →
  (∀ i, 0 ≤ i ≤ Z.of_nat c → flagged (E (n + i)) PTE_P = false) →
  ∃ r s' free' T' E' l j, 
    mappages_loop fuel s pgdir (PGSIZE * n) (PGSIZE * (n + Z.of_nat c)) pa perm = Ret (r, s') ∧
    pt_rep s' free' pgdir T' E' held ∧ (∀ p, p ∈ held → same_page (memory s) (memory s') p) ∧
    free = l ++ free' ∧ tables T' ≡ₚ l ++ tables T ∧ (∀ i t, T i = Some t → T' i = Some t) ∧
    (r = 0 ∧ j = Z.of_nat c + 1 ∨ r = -1 ∧ 0 ≤ j ≤ Z.of_nat c ∧ free' = []) ∧
    ∀ k, E' k = if decide (n ≤ k < n + j) then map_entry pa perm (k - n) else E k.
Proof.
  induction c as [|c IH]; intros fuel s free pgdir T E held n pa perm Hpt Hfuel Hn Hhi Hpa Hperm Hnp;
    (destruct fuel as [|fuel]; [lia|]); cbn [mappages_loop];
    (destruct (map_step s free pgdir T E held n (map_entry pa perm 0))
      as [(s1 & free1 & T1 & l1 & t & -> & Hnz & Hld & -> & Htab & Hext & Hpt1 & Hsame)|[-> ->]];
     [done|lia|by apply map_entry_u32| |
      exists (-1), s, [], T, E, [], 0; split; [done|]; split; [done|];
      split; [by intros p _ x|]; split; [done|]; split; [done|]; split; [done|];
      split; [right; split_and!; done || lia|];
      intros k; rewrite decide_False by lia; done]);
    (rewrite (proj2 (Z.eqb_neq _ _) Hnz), Hld; specialize (Hnp 0) as Hnp0; rewrite Z.add_0_r in Hnp0;
     rewrite Hnp0 by lia);
    rewrite <- map_entry_0 by done; set (s2 := set_memory s1 _) in *.
  - rewrite Z.add_0_r, Z.eqb_refl.
    exists 0, s2, free1, T1, (upd E n (map_entry pa perm 0)), l1, 1.
    do 6 (split; [done|]). split; [by left|].
    intros k. unfold upd. destruct (decide (k = n)) as [->|].
    + rewrite decide_True by lia. by rewrite Z.sub_diag.
    + rewrite decide_False by lia. done.
  - assert (Hs : PGSIZE * (n + 1) = u32 (PGSIZE * n + PGSIZE)).
    { rewrite u32_small; unfold is_u32, PGSIZE, VPAGES in *; lia. }
    rewrite (proj2 (Z.eqb_neq _ _)) by (unfold PGSIZE; lia). rewrite <- Hs.
    destruct (IH fuel s2 free1 pgdir T1 (upd E n (map_entry pa perm 0)) held (n + 1) (u32 (pa + PGSIZE)) perm)
      as (r & s' & free' & T' & E' & l & j & Hrun & Hpt' & Hsame' & -> & Htab' & Hext' & Hr & HE');
      [done|lia..|apply u32_range|done| |].
    { intros i Hi. rewrite upd_ne by lia. rewrite <- Z.add_assoc. apply Hnp. lia. }
    exists r, s', free', T', E', (l1 ++ l), (j + 1).
    split; [by replace (n + Z.of_nat (S c)) with (n + 1 + Z.of_nat c) by lia|]. split; [done|].
    split; [intros p Hp; eapply same_page_trans; eauto|]. split; [by rewrite app_assoc|].
    split; [by rewrite Htab', Htab, <- app_assoc, Permutation_app_swap_app|]. split; [eauto|].
    split; [destruct Hr as [[-> ->]|(-> & ? & ->)]; [left|right]; split_and!; done || lia|].
    intros k. rewrite HE', map_entry_next. unfold upd.
    destruct (decide (k = n)) as [->|Hkn].
    + rewrite decide_False, decide_True by lia. by rewrite Z.sub_diag.
    + replace (k - (n + 1) + 1) with (k - n) by lia.
      destruct (decide (n + 1 ≤ k < n + 1 + j)), (decide (n ≤ k < n + (j + 1))); done || lia.
Qed.

Lemma PGROUNDDOWN_page va : is_u32 va → PGROUNDDOWN va = PGSIZE * (va / PGSIZE).
Proof.
  intros Hva. rewrite PGROUNDDOWN_eq by done. pose proof (Z.div_mod va 4096). unfold PGSIZE. lia.
Qed.

(** [mappages] on a range of pages none of which is present: it terminates; it
    maps the whole range, or runs out of memory for a table after a prefix. *)
Lemma mappages_range s free pgdir T E held va size pa perm :
  pt_rep s free pgdir T E held → 0 ≤ va → 0 < size → va + size ≤ 2 ^ 32 → is_u32 pa → 0 ≤ perm < PGSIZE →
  let n := va / PGSIZE in let c := (va + size - 1) / PGSIZE - n in
  (∀ k, n ≤ k ≤ n + c → flagged (E k) PTE_P = false) →
  ∃ r s' free' T' E' l j,
    mappages s pgdir va size pa perm = Ret (r, s') ∧
    pt_rep s' free' pgdir T' E' held ∧ (∀ p, p ∈ held → same_page (memory s) (memory s') p) ∧
    free = l ++ free' ∧ tables T' ≡ₚ l ++ tables T ∧ (∀ i t, T i = Some t → T' i = Some t) ∧
    (r = 0 ∧ j = c + 1 ∨ r = -1 ∧ 0 ≤ j ≤ c ∧ free' = []) ∧
    ∀ k, E' k = if decide (n ≤ k < n + j) then map_entry pa perm (k - n) else E k.
Proof.
  intros Hpt Hva Hsz Hhi Hpa Hperm n c Hnp. unfold mappages.
  assert (Hu : is_u32 (va + size - 1)) by (unfold is_u32; lia).
  pose proof (page_no_range va ltac:(unfold is_u32; lia)) as Hn0.
  pose proof (page_no_range _ Hu) as Hl0.
  assert (Hc : 0 ≤ c).
  { unfold c, n. pose proof (Z.div_le_mono va (va + size - 1) PGSIZE ltac:(done) ltac:(lia)). lia. }
  rewrite (u32_small (va + size - 1)), !PGROUNDDOWN_page by (done || unfold is_u32; lia).
  fold n. replace ((va + size - 1) / PGSIZE) with (n + Z.of_nat (Z.to_nat c)) by lia.
  replace (u32 (PGSIZE * (n + Z.of_nat (Z.to_nat c)) - PGSIZE * n) / PGSIZE) with c.
  2: { rewrite Z2Nat.id by done. replace (PGSIZE * (n + c) - PGSIZE * n) with (c * PGSIZE) by lia.
       rewrite u32_small, Z.div_mul; [done..|]. unfold c, n, is_u32, PGSIZE, VPAGES in *. lia. }
  destruct (mappages_loop_spec (Z.to_nat c) (S (Z.to_nat c)) s free pgdir T E held n pa perm)
    as (r & s' & free' & T' & E' & l & j & Hrun & Hrest); try done;
    [lia|unfold n; lia|unfold n, c in *; lia|intros i Hi; apply Hnp; lia|].
  rewrite Z2Nat.id in Hrest by done. exists r, s', free', T', E', l, j. by split.
Qed.

(** One page whose table exists: no memory is needed, so it cannot fail. *)
Lemma mappages_one s free pgdir T E held n t pa perm :
  pt_rep s free pgdir T E held → 0 ≤ n < VPAGES → T (n / 1024) = Some t → is_u32 pa → 0 ≤ perm < PGSIZE →
  flagged (E n) PTE_P = false →
  ∃ s', mappages s pgdir (PGSIZE * n) PGSIZE pa perm = Ret (0, s') ∧
    pt_rep s' free pgdir T (upd E n (map_entry pa perm 0)) held ∧
    ∀ p, p ∈ held → same_page (memory s) (memory s') p.
Proof.
  intros Hpt Hn Ht Hpa Hperm Hnp. unfold mappages.
  assert (Hva : is_u32 (PGSIZE * n)) by (unfold is_u32, PGSIZE, VPAGES in *; lia).
  assert (Hl : PGROUNDDOWN (u32 (PGSIZE * n + PGSIZE - 1)) = PGSIZE * n).
  { assert (Hu : is_u32 (PGSIZE * n + PGSIZE - 1)) by (unfold is_u32, PGSIZE, VPAGES in *; lia).
    rewrite u32_small, PGROUNDDOWN_page by done. f_equal. symmetry.
    apply (Z.div_unique _ _ n (PGSIZE - 1)); unfold PGSIZE; lia. }
  rewrite Hl. rewrite PGROUNDDOWN_page by done.
  replace (PGSIZE * n / PGSIZE) with n by (rewrite Z.mul_comm, Z.div_mul; done). cbn [mappages_loop].
  destruct (map_step s free pgdir T E held n (map_entry pa perm 0))
    as [(s1 & free1 & T1 & l1 & t1 & Hw & Hnz & Hld & Hfree & _ & _ & Hpt1 & Hsame)|[Hw _]];
    [done|done|by apply map_entry_u32| |].
  - pose proof (walkpgdir_alloc _ _ _ _ _ _ _ Hpt Hva) as Hw'. cbv zeta in Hw'.
    replace (PGSIZE * n / PGSIZE) with n in Hw' by (rewrite Z.mul_comm, Z.div_mul; done).
    rewrite Ht, Hw in Hw'. injection Hw' as Htt ->. assert (t1 = t) as -> by lia.
    rewrite Hw, (proj2 (Z.eqb_neq _ _) Hnz), Hld, Hnp, Z.eqb_refl, <- map_entry_0 by done.
    eexists. split; [done|]. split; [|done]. by apply pt_rep_store; [| | |apply map_entry_u32].
  - exfalso. pose proof (walkpgdir_alloc _ _ _ _ _ _ _ Hpt Hva) as Hw'. cbv zeta in Hw'.
    replace (PGSIZE * n / PGSIZE) with n in Hw' by (rewrite Z.mul_comm, Z.div_mul; done).
    rewrite Ht, Hw in Hw'. injection Hw' as Hz. pose proof (Z.mod_pos_bound n 1024 ltac:(lia)).
    symmetry in Hz. revert Hz. eapply table_entry_nonzero; [done|by apply dir_index|done|lia].
Qed.

(** ** Access through an entry *)

Lemma pte_addr_table s free pgdir T E held va t :
  pt_rep s free pgdir T E held → is_u32 va → T (va / PGSIZE / 1024) = Some t →
  pte_addr s pgdir va = t + 4 * (va / PGSIZE mod 1024) ∧ pte_addr s pgdir va ≠ 0 ∧
  load32 (memory s) (pte_addr s pgdir va) = E (va / PGSIZE).
Proof.
  intros Hpt Hva Ht. unfold pte_addr. rewrite (walkpgdir_lookup _ _ _ _ _ _ _ Hpt Hva), Ht. cbn [fst].
  pose proof (page_no_range va Hva) as Hn. pose proof (Z.mod_pos_bound (va / PGSIZE) 1024).
  split; [done|]. split; [|by apply (pt_ent _ _ _ _ _ _ Hpt)].
  eapply table_entry_nonzero; [done|by apply dir_index|done|lia].
Qed.

Lemma pte_addr_null s free pgdir T E held va :
  pt_rep s free pgdir T E held → is_u32 va → T (va / PGSIZE / 1024) = None → pte_addr s pgdir va = 0.
Proof.
  intros Hpt Hva Ht. unfold pte_addr. by rewrite (walkpgdir_lookup _ _ _ _ _ _ _ Hpt Hva), Ht.
Qed.

(** A store through [walkpgdir(pgdir, va, 0)]: one entry changes, no held page does. *)
Lemma pte_store s free pgdir T E held va t e :
  pt_rep s free pgdir T E held → is_u32 va → T (va / PGSIZE / 1024) = Some t → is_u32 e →
  let s' := set_memory s (store32 (memory s) (pte_addr s pgdir va) e) in
  pt_rep s' free pgdir T (upd E (va / PGSIZE) e) held ∧
  ∀ p, p ∈ held → same_page (memory s) (memory s') p.
Proof.
  intros Hpt Hva Ht He s'. subst s'.
  destruct (pte_addr_table _ _ _ _ _ _ _ _ Hpt Hva Ht) as (-> & _ & _).
  pose proof (page_no_range va Hva) as Hn. pose proof (Z.mod_pos_bound (va / PGSIZE) 1024).
  split; [by apply pt_rep_store|]. intros p Hp. cbn [memory set_memory].
  assert (Htt : t ∈ tables T) by by apply (elem_of_tables _ (va / PGSIZE / 1024)); [apply dir_index|].
  apply same_page_store32; [| | |unfold PGSIZE in *; lia].
  - eapply pt_valid_in; [exact Hpt|]. rewrite elem_of_cons, !elem_of_app. auto.
  - eapply pt_valid_in; [exact Hpt|]. rewrite elem_of_cons, !elem_of_app. auto.
  - intros ->. pose proof (pt_nodup _ _ _ _ _ _ Hpt) as [_ Hnd]%NoDup_cons.
    apply NoDup_app in Hnd as (_ & Hnd & _). apply (Hnd t Htt), elem_of_app. by left.
Qed.

Lemma isFlagged_spec s free pgdir T E held va t flag :
  pt_rep s free pgdir T E held → is_u32 va → T (va / PGSIZE / 1024) = Some t →
  isFlagged s pgdir va flag = Ret (if flagged (E (va / PGSIZE)) flag then 1 else 0).
Proof.
  intros Hpt Hva Ht. unfold isFlagged.
  destruct (pte_addr_table _ _ _ _ _ _ _ _ Hpt Hva Ht) as (_ & Hnz & ->).
  by rewrite (proj2 (Z.eqb_neq _ _) Hnz).
Qed.

Lemma setPTE_FLAG_spec s free pgdir T E held va t flag :
  pt_rep s free pgdir T E held → is_u32 va → T (va / PGSIZE / 1024) = Some t → is_u32 flag →
  ∃ s', setPTE_FLAG s pgdir va flag = Ret s' ∧
    pt_rep s' free pgdir T (upd E (va / PGSIZE) (set_flag (E (va / PGSIZE)) flag)) held ∧
    ∀ p, p ∈ held → same_page (memory s) (memory s') p.
Proof.
  intros Hpt Hva Ht Hf. unfold setPTE_FLAG.
  destruct (pte_addr_table _ _ _ _ _ _ _ _ Hpt Hva Ht) as (_ & Hnz & Hld).
  rewrite (proj2 (Z.eqb_neq _ _) Hnz), Hld. eexists. split; [done|]. eapply pte_store; try done.
  apply set_flag_u32; [|done]. rewrite <- Hld. apply load32_range.
Qed.

Lemma clearPTE_FLAG_spec s free pgdir T E held va t flag :
  pt_rep s free pgdir T E held → is_u32 va → T (va / PGSIZE / 1024) = Some t →
  ∃ s', clearPTE_FLAG s pgdir va flag = Ret s' ∧
    pt_rep s' free pgdir T (upd E (va / PGSIZE) (clear_flag (E (va / PGSIZE)) flag)) held ∧
    ∀ p, p ∈ held → same_page (memory s) (memory s') p.
Proof.
  intros Hpt Hva Ht. unfold clearPTE_FLAG.
  destruct (pte_addr_table _ _ _ _ _ _ _ _ Hpt Hva Ht) as (_ & Hnz & Hld).
  rewrite (proj2 (Z.eqb_neq _ _) Hnz), Hld. eexists. split; [done|]. eapply pte_store; try done.
  apply clear_flag_u32. rewrite <- Hld. apply load32_range.
Qed.

Lemma uva2ka_spec s free pgdir T E held va t :
  pt_rep s free pgdir T E held → is_u32 va → T (va / PGSIZE / 1024) = Some t →
  uva2ka s pgdir va = Ret (if flagged (E (va / PGSIZE)) PTE_P && flagged (E (va / PGSIZE)) PTE_U
                           then P2V (PTE_ADDR (E (va / PGSIZE))) else 0).
Proof.
  intros Hpt Hva Ht. unfold uva2ka.
  destruct (pte_addr_table _ _ _ _ _ _ _ _ Hpt Hva Ht) as (_ & Hnz & ->).
  rewrite (proj2 (Z.eqb_neq _ _) Hnz). by destruct (flagged _ PTE_P), (flagged _ PTE_U).
Qed.

(** The frame of page [n] and the kernel address of user address [va]. *)
Definition frame (E : Z → Z) (n : Z) : Z := P2V (PTE_ADDR (E n)).
Definition uaddr (E : Z → Z) (va : Z) : Z := frame E (va / PGSIZE) + va mod PGSIZE.

(** Page [n] is mapped for user access to a page the kernel holds. *)
Record user_page (T : Z → option Z) (E : Z → Z) (held : list Z) (n : Z) : Prop := mk_user_page {
  up_table : is_Some (T (n / 1024));
  up_present : flagged (E n) PTE_P = true;
  up_user : flagged (E n) PTE_U = true;
  up_frame : frame E n ∈ held }.

Lemma uaddr_in_page E n o : 0 ≤ o < PGSIZE → uaddr E (PGSIZE * n + o) = frame E n + o.
Proof.
  intros Ho. unfold uaddr. rewrite Z.mul_comm.
  rewrite Z.div_add_l, Z.div_small, Z.add_0_r by done. rewrite (Z.add_comm (n * PGSIZE) o), Z.mod_add by done.
  by rewrite Z.mod_small.
Qed.

Lemma copyout_loop_done fuel s pgdir va buf : copyout_loop fuel s pgdir va buf 0 = Ret (0, s).
Proof. by destruct fuel. Qed.

Lemma copyout_loop_spec fuel : ∀ s free pgdir T E held va buf len,
  pt_rep s free pgdir T E held → 0 ≤ va → 0 ≤ len → va + len ≤ 2 ^ 32 → 0 ≤ buf → buf + len < 2 ^ 32 →
  va mod PGSIZE + len ≤ PGSIZE * Z.of_nat fuel →
  (∀ n, va / PGSIZE ≤ n → PGSIZE * n < va + len → user_page T E held n) →
  (∀ n n', va / PGSIZE ≤ n → PGSIZE * n < va + len → va / PGSIZE ≤ n' → PGSIZE * n' < va + len →
     frame E n = frame E n' → n = n') →
  (∀ n x, va / PGSIZE ≤ n → PGSIZE * n < va + len → buf ≤ x < buf + len → ¬ in_page (frame E n) x) →
  ∃ s', copyout_loop fuel s pgdir va buf len = Ret (0, s') ∧ pt_rep s' free pgdir T E held ∧
    (∀ i, 0 ≤ i < len → load8 (memory s') (uaddr E (va + i)) = load8 (memory s) (buf + i)) ∧
    (∀ x, (∀ i, 0 ≤ i < len → x ≠ uaddr E (va + i)) → load8 (memory s') x = load8 (memory s) x).
Proof.
  induction fuel as [|fuel IH]; intros s free pgdir T E held va buf len Hpt Hva Hlen Hhi Hbuf Hbhi Hfuel Hup Hinj Hdis.
  { pose proof (Z.mod_pos_bound va PGSIZE ltac:(done)). simpl.
    assert (len = 0) as -> by lia. exists s. split_and!; try done. lia. }
  cbn [copyout_loop]. destruct (Z.leb_spec len 0) as [Hl0|Hpos].
  { exists s. split_and!; try done. lia. }
  assert (Hvu : is_u32 va) by (unfold is_u32; lia).
  pose proof (Z.div_mod va PGSIZE ltac:(done)) as Hdm. pose proof (Z.mod_pos_bound va PGSIZE ltac:(done)) as Hmb.
  set (n := va / PGSIZE) in *. set (o := va mod PGSIZE) in *.
  destruct (Hup n) as [[t Ht] HP HU Hheld]; [lia|lia|].
  rewrite PGROUNDDOWN_page by done. fold n.
  assert (Hn : PGSIZE * n / PGSIZE = n) by (rewrite Z.mul_comm; by apply Z.div_mul).
  assert (Hn0 : 0 ≤ n) by (apply Z.div_pos; done).
  assert (Hnu : is_u32 (PGSIZE * n)) by (pose proof (Z.mul_nonneg_nonneg PGSIZE n); unfold is_u32, PGSIZE in *; lia).
  rewrite (uva2ka_spec _ _ _ _ _ _ _ t Hpt) by (done || by rewrite Hn).
  rewrite Hn, HP, HU. cbn [obind andb]. fold (frame E n).
  assert (Hv : valid_page kend (frame E n)).
  { eapply pt_valid_in; [exact Hpt|]. rewrite elem_of_cons, !elem_of_app. auto. }
  rewrite (proj2 (Z.eqb_neq _ _)) by (by apply (valid_page_nonzero kend)).
  pose proof (valid_page_range kend kend_kernel _ Hv) as Hvr.
  replace (va - PGSIZE * n) with o by lia.
  rewrite (u32_small (PGSIZE - o)) by (unfold is_u32, PGSIZE in *; lia).
  rewrite (u32_small (frame E n + o)) by (unfold is_u32, PGSIZE, KERNBASE, EXTMEM, PHYSTOP in *; lia).
  set (c := if Z.ltb len (PGSIZE - o) then len else PGSIZE - o).
  assert (Hc : 0 < c ≤ len ∧ c ≤ PGSIZE - o ∧ (c < len → c = PGSIZE - o)).
  { unfold c. destruct (Z.ltb_spec len (PGSIZE - o)); lia. }
  set (s1 := set_memory s (memmove (memory s) (frame E n + o) buf c)).
  assert (Hmm : ∀ x, load8 (memory s1) x = if decide (frame E n + o ≤ x < frame E n + o + c)
    then load8 (memory s) (buf + (x - (frame E n + o))) else load8 (memory s) x).
  { intros x. unfold s1. cbn [memory set_memory]. apply memmove_ok; lia. }
  assert (Hout : ∀ x, ¬ in_page (frame E n) x → load8 (memory s1) x = load8 (memory s) x).
  { intros x Hx. rewrite Hmm, decide_False; [done|]. unfold in_page in Hx. lia. }
  assert (Hpt1 : pt_rep s1 free pgdir T E held).
  { unfold s1. by apply (pt_rep_held_write _ _ _ _ _ _ (frame E n)). }
  assert (Hua : ∀ i, 0 ≤ i < c → uaddr E (va + i) = frame E n + o + i).
  { intros i Hi. replace (va + i) with (PGSIZE * n + (o + i)) by lia. rewrite uaddr_in_page by lia. lia. }
  assert (Hcopy : ∀ i, 0 ≤ i < c → load8 (memory s1) (uaddr E (va + i)) = load8 (memory s) (buf + i)).
  { intros i Hi. rewrite Hua, Hmm, decide_True by lia. f_equal. lia. }
  assert (Hrest : ∀ x, (∀ i, 0 ≤ i < c → x ≠ uaddr E (va + i)) → load8 (memory s1) x = load8 (memory s) x).
  { intros x Hx. rewrite Hmm, decide_False; [done|]. intros Hx'.
    apply (Hx (x - (frame E n + o))); [lia|]. rewrite Hua by lia. lia. }
  rewrite (u32_small (len - c)) by (unfold is_u32; lia).
  destruct (decide (c = len)) as [Hcl|Hcl].
  { rewrite Hcl, Z.sub_diag, copyout_loop_done in *. eauto. }
  assert (Hva' : u32 (PGSIZE * n + PGSIZE) = va + c) by (rewrite u32_small; unfold is_u32; lia).
  rewrite Hva', (u32_small (buf + c)) by (unfold is_u32; lia).
  assert (Hn' : (va + c) / PGSIZE = n + 1).
  { replace (va + c) with ((n + 1) * PGSIZE) by lia. by apply Z.div_mul. }
  assert (Ho' : (va + c) mod PGSIZE = 0).
  { replace (va + c) with ((n + 1) * PGSIZE) by lia. by apply Z.mod_mul. }
  destruct (IH s1 free pgdir T E held (va + c) (buf + c) (len - c)) as (s' & Hrun & Hpt' & Hc' & Hr');
    rewrite ?Hn', ?Ho'; try done; try lia.
  { intros n' Hlo Hhi'. apply Hup; lia. }
  { intros n' n'' ? ? ? ?. apply Hinj; lia. }
  { intros n' x ? ? ?. apply Hdis; lia. }
  exists s'. split; [done|]. split; [done|]. split.
  - intros i Hi. destruct (decide (i < c)) as [Hic|Hic].
    + rewrite <- Hcopy by lia. apply Hr'. intros k Hk Heq.
      rewrite Hua in Heq by lia.
      assert (Hk' : (va + c + k) / PGSIZE ≤ (va + len - 1) / PGSIZE) by (apply Z.div_le_mono; lia).
      assert (Hk'' : n + 1 ≤ (va + c + k) / PGSIZE) by (rewrite <- Hn'; apply Z.div_le_mono; lia).
      pose proof (Z.div_mod (va + c + k) PGSIZE ltac:(done)).
      pose proof (Z.mod_pos_bound (va + c + k) PGSIZE ltac:(done)).
      assert (Hlt : PGSIZE * ((va + c + k) / PGSIZE) < va + len) by lia.
      assert (Hf : frame E n = frame E ((va + c + k) / PGSIZE)).
      { apply (in_page_inj _ _ (frame E n + o + i)); [apply Hv| |unfold in_page; lia|].
        - destruct (Hup ((va + c + k) / PGSIZE)) as [_ _ _ Hh]; [lia|done|].
          eapply pt_valid_in; [exact Hpt|]. rewrite elem_of_cons, !elem_of_app. auto.
        - rewrite Heq. unfold uaddr, in_page. lia. }
      apply Hinj in Hf; lia.
    + replace (va + i) with (va + c + (i - c)) by lia. rewrite Hc' by lia.
      replace (buf + c + (i - c)) with (buf + i) by lia. apply Hout. apply Hdis; lia.
  - intros x Hx. rewrite Hr', Hrest; [done|intros i Hi; apply Hx; lia|].
    intros i Hi. replace (va + c + i) with (va + (c + i)) by lia. apply Hx. lia.
Qed.

(** A directory without tables in a zeroed memory. *)
Lemma zero_rep free pgdir held u i :
  Forall (valid_page kend) (pgdir :: held) → NoDup (pgdir :: held ++ free) →
  free = [] ∨ (∃ p, free = [p] ∧ valid_page kend p) →
  pt_rep (mkKstate (λ _, 0) (hd 0 free) u i) free pgdir (λ _, None) (λ _, 0) held.
Proof.
  intros Hv Hnd Hfree. assert (Ht : tables (λ _, None) = []).
  { unfold tables. by induction dirs. }
  split; rewrite ?Ht; try done.
  destruct Hfree as [->|(p & -> & Hp)]; split; simpl; try done; [constructor|by constructor|apply NoDup_singleton].
Qed.
End page_table.

(** ** The page tables of the machine as entries for the replacement policies *)

Record ptab := mkPtab { pt_kernel : kstate; pt_pgdir : Z }.

#[export] Instance ptab_ops : PteOps ptab := {
  pte_get t va := let a := pte_addr (pt_kernel t) (pt_pgdir t) va in
    if Z.eqb a 0 then None else Some (load32 (memory (pt_kernel t)) a);
  pte_set t va e := let s := pt_kernel t in
    mkPtab (set_memory s (store32 (memory s) (pte_addr s (pt_pgdir t) va) e)) (pt_pgdir t);
  pte_wf t := ∃ kend free T E held, KERNBASE + EXTMEM ≤ kend ∧
    pt_rep kend (pt_kernel t) free (pt_pgdir t) T E held }.

Lemma ptab_get kend s free pgdir T E held va :
  KERNBASE + EXTMEM ≤ kend → pt_rep kend s free pgdir T E held → is_u32 va →
  pte_get (mkPtab s pgdir) va = (λ _, E (va / PGSIZE)) <$> T (va / PGSIZE / 1024).
Proof.
  intros Hk Hpt Hva. cbn. destruct (T (va / PGSIZE / 1024)) as [t|] eqn:HT; cbn.
  - destruct (pte_addr_table kend Hk _ _ _ _ _ _ _ _ Hpt Hva HT) as (_ & Hnz & ->).
    by rewrite (proj2 (Z.eqb_neq _ _) Hnz).
  - by rewrite (pte_addr_null kend _ _ _ _ _ _ _ Hpt Hva HT).
Qed.

#[export] Instance ptab_laws : PteLaws ptab.
Proof.
  split.
  - intros t va e _ _. cbn. destruct (Z.eqb _ 0); [done|]. intros [= <-]. apply load32_range.
  - intros t va va' Hva Hva' Hn. cbn. unfold pte_addr, walkpgdir.
    by rewrite !PDX_page, !PTX_page, Hn.
  - intros [s pgdir] va e (kend & free & T & E & held & Hk & Hpt) Hva Hs He. cbn [pt_kernel pt_pgdir] in Hpt.
    rewrite (ptab_get _ _ _ _ _ _ _ _ Hk Hpt Hva) in Hs. apply fmap_is_Some in Hs as [t Ht].
    destruct (pte_store kend Hk _ _ _ _ _ _ _ _ _ Hpt Hva Ht He) as [Hpt' _].
    exists kend, free, T, (upd E (va / PGSIZE) e), held. done.
  - intros [s pgdir] va va' e (kend & free & T & E & held & Hk & Hpt) Hva Hva' Hs He.
    cbn [pt_kernel pt_pgdir] in Hpt.
    rewrite (ptab_get _ _ _ _ _ _ _ _ Hk Hpt Hva) in Hs. apply fmap_is_Some in Hs as [t Ht].
    destruct (pte_store kend Hk _ _ _ _ _ _ _ _ _ Hpt Hva Ht He) as [Hpt' _].
    change (pte_set (mkPtab s pgdir) va e) with
      (mkPtab (set_memory s (store32 (memory s) (pte_addr s pgdir va) e)) pgdir).
    rewrite (ptab_get _ _ _ _ _ _ _ _ Hk Hpt' Hva'), (ptab_get _ _ _ _ _ _ _ _ Hk Hpt Hva').
    case_decide as Heq; [rewrite <- Heq, Ht, upd_eq; done|]. by rewrite upd_ne by done.
Qed.

(** ** Properties *)

(** C14: [mappages] terminates on every range of pages that are not present; on
    success exactly the entries of the range are set, to consecutive frames
    with the permissions and the present bit, and the tables it added came from
    the free list; on failure the free list is empty and a prefix of the range
    is mapped.  Pages held by others keep their bytes. *)
Theorem mappages_spec kend s free pgdir T E held va size pa perm :
  KERNBASE + EXTMEM ≤ kend → pt_rep kend s free pgdir T E held →
  0 ≤ va → 0 < size → va + size ≤ 2 ^ 32 → is_u32 pa → 0 ≤ perm < PGSIZE →
  let n := va / PGSIZE in let c := (va + size - 1) / PGSIZE - n in
  (∀ k, n ≤ k ≤ n + c → flagged (E k) PTE_P = false) →
  ∃ r s' free' T' E' l j,
    mappages s pgdir va size pa perm = Ret (r, s') ∧
    pt_rep kend s' free' pgdir T' E' held ∧ (∀ p, p ∈ held → same_page (memory s) (memory s') p) ∧
    free = l ++ free' ∧ tables T' ≡ₚ l ++ tables T ∧ (∀ i t, T i = Some t → T' i = Some t) ∧
    (r = 0 ∧ j = c + 1 ∨ r = -1 ∧ 0 ≤ j ≤ c ∧ free' = []) ∧
    ∀ k, E' k = if decide (n ≤ k < n + j) then map_entry pa perm (k - n) else E k.
Proof. intros Hk. apply mappages_range, Hk. Qed.

Definition demo_page (k : Z) : Z := KERNBASE + EXTMEM + PGSIZE * k.

Lemma demo_page_valid k : 0 ≤ k < 56000 → valid_page (KERNBASE + EXTMEM) (demo_page k).
Proof.
  intros Hk. unfold valid_page, demo_page, KERNBASE, EXTMEM, PGSIZE, PHYSTOP. split; [|lia].
  rewrite (Z.mul_comm 4096), Z.mod_add; done.
Qed.

Lemma mappages_spec_witness :
  let s := mkKstate (λ _, 0) (demo_page 1) 1 0 in
  ∃ r s' free' T' E' l j,
    mappages s (demo_page 0) 0x1234 0x2000 0x5000 (Z.lor PTE_W PTE_U) = Ret (r, s') ∧
    pt_rep (KERNBASE + EXTMEM) s' free' (demo_page 0) T' E' [] ∧
    (∀ p, p ∈ [] → same_page (memory s) (memory s') p) ∧
    [demo_page 1] = l ++ free' ∧ tables T' ≡ₚ l ++ tables (λ _, None) ∧
    (∀ i t, (λ _ : Z, None) i = Some t → T' i = Some t) ∧
    (r = 0 ∧ j = 3 ∨ r = -1 ∧ 0 ≤ j ≤ 2 ∧ free' = []) ∧
    ∀ k, E' k = if decide (1 ≤ k < 1 + j) then map_entry 0x5000 (Z.lor PTE_W PTE_U) (k - 1) else 0.
Proof.
  cbv zeta. apply (mappages_spec (KERNBASE + EXTMEM) _ [demo_page 1] _ (λ _, None) (λ _, 0) [] 0x1234 0x2000);
    try done.
  apply (zero_rep _ [demo_page 1] (demo_page 0) []).
  - by constructor; [apply demo_page_valid|].
  - by apply (bool_decide_unpack _); vm_compute.
  - right. exists (demo_page 1). by split; [|apply demo_page_valid].
Defined.

(** mapping a page that is already present stops the machine with the
    panic "remap": an existing mapping is never silently replaced. *)
Theorem mappages_remap kend s free pgdir T E held va size pa perm :
  KERNBASE + EXTMEM ≤ kend → pt_rep kend s free pgdir T E held →
  is_u32 va → flagged (E (va / PGSIZE)) PTE_P = true →
  mappages s pgdir va size pa perm = Panic "remap".
Proof.
  intros Hk Hpt Hva Hp. unfold mappages. cbn [mappages_loop].
  pose proof (page_no_range va Hva) as Hn. rewrite PGROUNDDOWN_page by done.
  destruct (map_step kend Hk s free pgdir T E held (va / PGSIZE) 0 Hpt Hn ltac:(done))
    as [(s1 & f1 & T1 & l1 & t & -> & Hnz & Hld & _)|[Hw _]].
  - by rewrite (proj2 (Z.eqb_neq _ _) Hnz), Hld, Hp.
  - destruct (T (va / PGSIZE / 1024)) as [t|] eqn:HT.
    + exfalso. assert (Hva' : is_u32 (PGSIZE * (va / PGSIZE))).
      { unfold is_u32, PGSIZE, VPAGES in *. lia. }
      pose proof (walkpgdir_alloc kend Hk _ _ _ _ _ _ _ Hpt Hva') as Hw'. cbv zeta in Hw'.
      rewrite Z.mul_comm, Z.div_mul, HT in Hw' by done. rewrite Z.mul_comm, Hw in Hw'.
      injection Hw' as Hz. symmetry in Hz. revert Hz.
      pose proof (Z.mod_pos_bound (va / PGSIZE) 1024).
      eapply table_entry_nonzero; [done|done|by apply dir_index|done|lia].
    + rewrite (pt_none _ _ _ _ _ _ _ Hpt _ Hn HT) in Hp. done.
Qed.

(** A page table that maps user page 0 to the frame [demo_page 2]. *)
Definition demo_kernel : kstate :=
  mkKstate (store32 (store32 (λ _, 0) (demo_page 0) (Z.lor (V2P (demo_page 1)) 7))
              (demo_page 1) (Z.lor (V2P (demo_page 2)) 7)) 0 1 0.
Definition demo_T : Z → option Z := upd (λ _, None) 0 (Some (demo_page 1)).
Definition demo_E : Z → Z := upd (λ _, 0) 0 (Z.lor (V2P (demo_page 2)) 7).

Lemma demo_rep : pt_rep (KERNBASE + EXTMEM) demo_kernel [] (demo_page 0) demo_T demo_E [demo_page 2; demo_page 3].
Proof.
  assert (H0 : pt_rep (KERNBASE + EXTMEM) (mkKstate (λ _, 0) 0 1 0) [] (demo_page 0) (λ _, None) (λ _, 0)
    [demo_page 1; demo_page 2; demo_page 3]).
  { apply (zero_rep _ [] (demo_page 0)); [|by apply (bool_decide_unpack _); vm_compute|by left].
    repeat constructor; by apply demo_page_valid. }
  eapply (pt_rep_link _ _ _ _ _ _ _ 0 _ (Z.lor (V2P (demo_page 1)) 7)) in H0;
    [|done|done|by intros x _|by vm_compute..].
  eapply (pt_rep_store _ _ _ _ _ _ _ 0 _ (Z.lor (V2P (demo_page 2)) 7)) in H0;
    [|done|apply upd_eq|by vm_compute].
  exact H0.
Qed.

Lemma mappages_remap_witness :
  mappages demo_kernel (demo_page 0) 0xfff 1 0x7000 PTE_U = Panic "remap".
Proof.
  apply (mappages_remap _ _ _ _ _ _ _ _ _ _ _ (Z.le_refl _) demo_rep); by vm_compute.
Defined.

(** C20: [copyout] to user memory whose pages are mapped for the user moves the
    whole buffer, across page boundaries: each user address then holds the
    matching byte of the buffer, and no other byte of memory changes. *)
Theorem copyout_spec kend s free pgdir T E held va p len :
  KERNBASE + EXTMEM ≤ kend → pt_rep kend s free pgdir T E held →
  0 ≤ va → 0 ≤ len → va + len ≤ 2 ^ 32 → 0 ≤ p → p + len < 2 ^ 32 →
  (∀ n, va / PGSIZE ≤ n → PGSIZE * n < va + len → user_page T E held n) →
  (∀ n n', va / PGSIZE ≤ n → PGSIZE * n < va + len → va / PGSIZE ≤ n' → PGSIZE * n' < va + len →
     frame E n = frame E n' → n = n') →
  (∀ n x, va / PGSIZE ≤ n → PGSIZE * n < va + len → p ≤ x < p + len → ¬ in_page (frame E n) x) →
  ∃ s', copyout s pgdir va p len = Ret (0, s') ∧ pt_rep kend s' free pgdir T E held ∧
    (∀ i, 0 ≤ i < len → load8 (memory s') (uaddr E (va + i)) = load8 (memory s) (p + i)) ∧
    (∀ x, (∀ i, 0 ≤ i < len → x ≠ uaddr E (va + i)) → load8 (memory s') x = load8 (memory s) x).
Proof.
  intros Hk Hpt Hva Hlen. intros. apply copyout_loop_spec; try done.
  pose proof (Z.mod_pos_bound va PGSIZE ltac:(done)). pose proof (Z.mod_pos_bound len PGSIZE ltac:(done)).
  pose proof (Z.div_mod len PGSIZE ltac:(done)). pose proof (Z.div_pos len PGSIZE Hlen ltac:(done)).
  unfold PGSIZE in *. lia.
Qed.

Lemma copyout_spec_witness :
  ∃ s', copyout demo_kernel (demo_page 0) 100 (demo_page 3) 50 = Ret (0, s') ∧
    pt_rep (KERNBASE + EXTMEM) s' [] (demo_page 0) demo_T demo_E [demo_page 2; demo_page 3] ∧
    (∀ i, 0 ≤ i < 50 → load8 (memory s') (uaddr demo_E (100 + i)) =
       load8 (memory demo_kernel) (demo_page 3 + i)) ∧
    (∀ x, (∀ i, 0 ≤ i < 50 → x ≠ uaddr demo_E (100 + i)) →
       load8 (memory s') x = load8 (memory demo_kernel) x).
Proof.
  assert (Hn : ∀ n, 100 / PGSIZE ≤ n → PGSIZE * n < 100 + 50 → n = 0).
  { change (100 / PGSIZE) with 0. unfold PGSIZE. intros. lia. }
  apply (copyout_spec _ _ _ _ _ _ _ _ _ _ (Z.le_refl _) demo_rep); try done.
  - intros n H1 H2. rewrite (Hn n H1 H2). split; [by eexists|by vm_compute..|].
    change (frame demo_E 0) with (demo_page 2). left.
  - intros n n' H1 H2 H3 H4 _. by rewrite (Hn n H1 H2), (Hn n' H3 H4).
  - intros n x H1 H2 Hx. rewrite (Hn n H1 H2). change (frame demo_E 0) with (demo_page 2).
    unfold in_page, demo_page, PGSIZE in *. lia.
Defined.
