(* ===== verification/Swap.v ===== *)
(** * User memory with demand paging (vm.c:119-138, 197-262, 293-416, 544-749)

    Growing, shrinking, copying and freeing address spaces, and moving pages of
    the running process between RAM and its swap file. *)
From stdpp Require Import base list strings.
From Stdlib Require Import ZArith Lia.
From S2P Require Import Prelude Mmu Memory Kalloc Paging Replacement PageTable.

(** ** Interface to the swap file of a process

    [F] is the state the calls run on.  [swap_read f off n] is
    [readFromSwapFile]: the C result, the bytes stored in the buffer and the
    state after it; [swap_write f data off] is [writeToSwapFile]. *)
Class SwapOps (F : Type) := {
  swap_read : F → Z → Z → outcome (Z * list Z * F);
  swap_write : F → list Z → Z → outcome (Z * F) }.

(** What the pager relies on: [swap_bytes] is the contents of the file and
    [swap_room f n] says that [n] more pages can be written. *)
Class SwapView (F : Type) := {
  swap_bytes : F → list Z;
  swap_room : F → nat → Prop }.

(** MAXFILE * BSIZE of fs.h: the size of the largest file. *)
Definition MAXFILE_BYTES : Z := (12 + 128) * 512.

Class SwapLaws (F : Type) `{!SwapOps F} `{!SwapView F} := {
  swap_room_S f n : swap_room f (S n) → swap_room f n;
  swap_write_ok f data off n :
    swap_room f (S n) → 0 ≤ off ≤ Z.of_nat (length (swap_bytes f)) →
    Z.of_nat (length data) ≤ PGSIZE → off + Z.of_nat (length data) ≤ MAXFILE_BYTES →
    ∃ f', swap_write f data off = Ret (Z.of_nat (length data), f') ∧ swap_room f' n ∧
      swap_bytes f' = take (Z.to_nat off) (swap_bytes f) ++ data ++
                      drop (Z.to_nat off + length data) (swap_bytes f);
  swap_read_ok f off k n :
    swap_room f n → 0 ≤ off ≤ Z.of_nat (length (swap_bytes f)) → 0 ≤ k ≤ PGSIZE →
    let data := take (Z.to_nat k) (drop (Z.to_nat off) (swap_bytes f)) in
    ∃ f', swap_read f off k = Ret (Z.of_nat (length data), data, f') ∧ swap_room f' n ∧ swap_bytes f' = swap_bytes f }.

(** ** Bytes of memory *)

Definition read_bytes (m : mem) (a n : Z) : list Z := (λ o, load8 m (a + o)) <$> seqZ 0 n.
Fixpoint write_bytes (m : mem) (a : Z) (l : list Z) : mem :=
  match l with
  | [] => m
  | b :: l' => write_bytes (store8 m a b) (a + 1) l'
  end.

(** The processor's translation of a kernel-mode access to [va]. *)
Definition translate (s : kstate) (pgdir va : Z) : outcome Z :=
  let pte := pte_addr s pgdir va in
  if Z.eqb pte 0 then Undef "page fault"
  else
    let e := load32 (memory s) pte in
    if flagged e PTE_P then Ret (P2V (PTE_ADDR e) + va mod PGSIZE) else Undef "page fault".

(** ** The running process, as far as paging is concerned *)
Record pproc (F : Type) := mkPproc {
  pp_pgdir : Z; pp_meta : p_meta; pp_swap : F; pp_pageouts : Z }.
Arguments mkPproc {F}.
Arguments pp_pgdir {F}.
Arguments pp_meta {F}.
Arguments pp_swap {F}.
Arguments pp_pageouts {F}.

Section swap.
  Context (kend kdata : Z) (pol : policy) {F : Type} `{!SwapOps F}.

Definition with_meta (p : pproc F) (m : p_meta) : pproc F :=
  mkPproc (pp_pgdir p) m (pp_swap p) (pp_pageouts p).
Definition with_swap (p : pproc F) (f : F) : pproc F :=
  mkPproc (pp_pgdir p) (pp_meta p) f (pp_pageouts p).

(** [buffer] is a user address of the running process. *)
Definition getPageFromBack (s : kstate) (p : pproc F) (va buffer : Z) : outcome (Z * kstate * pproc F) :=
  match list_find (λ q, holds_vaddr va q && c_true (in_back q) = true) (pages (pp_meta p)) with
  | Some (_, q) =>
      let! (r, data, f) := swap_read (pp_swap p) (offset q) PGSIZE in
      if Z.ltb r 0 then Panic "get page error"
      else
        let! a := translate s (pp_pgdir p) buffer in
        Ret (1, set_memory s (write_bytes (memory s) a data), with_swap p f)
  | None => Ret (0, s, p)
  end.

Definition pageIn (s : kstate) (p : pproc F) (va : Z) : outcome (Z * kstate * pproc F) :=
  let '(paddr, s1) := kalloc s in
  if Z.eqb paddr 0 then Undef "pageIn: no memory"
  else
    let! (r, s2) := mappages s1 (pp_pgdir p) va PGSIZE (V2P paddr) (Z.lor PTE_U PTE_W) in
    if negb (Z.eqb r 0) then Panic "pagein-mappages"
    else
      let! (g, s3, p1) := getPageFromBack s2 p va va in
      if negb (c_true g) then Ret (0, s3, p1)
      else
        let! s4 := clearPTE_FLAG s3 (pp_pgdir p1) va PTE_PG in
        let! s5 := setPTE_FLAG s4 (pp_pgdir p1) va PTE_P in
        let! (r', m') := page_in_meta (pp_meta p1) va in
        Ret (if c_true r' then 1 else 0, s5, with_meta p1 m').

(** The results of [writeToSwapFile] and [page_out_meta] are not looked at. *)
Definition addPageToBack (s : kstate) (p : pproc F) (va : Z) : outcome (Z * pproc F) :=
  let free_offset := getFreePageOffset (pp_meta p) in
  if Z.eqb free_offset PGFILE_FULL_ERR then Ret (0, p)
  else
    let! a := translate s (pp_pgdir p) (PTE_ADDR va) in
    let! (_, f) := swap_write (pp_swap p) (read_bytes (memory s) a PGSIZE) free_offset in
    let! (_, m) := page_out_meta (pp_meta p) (PTE_ADDR va) free_offset in
    Ret (1, with_meta (with_swap p f) m).

Definition pageOut (s : kstate) (p : pproc F) (va : Z) : outcome (Z * kstate * pproc F) :=
  let! (r, p1) := addPageToBack s p va in
  if c_true r then
    let pte := pte_addr s (pp_pgdir p1) va in
    if Z.eqb pte 0 then Undef "pageOut: null pte"
    else
      let to_free := P2V (PTE_ADDR (load32 (memory s) pte)) in
      let! s1 := kfree kend s to_free in
      let! s2 := clearPTE_FLAG s1 (pp_pgdir p1) va PTE_P in
      let! s3 := setPTE_FLAG s2 (pp_pgdir p1) va PTE_PG in
      Ret (1, s3, mkPproc (pp_pgdir p1) (pp_meta p1) (pp_swap p1) (u32 (pp_pageouts p1 + 1)))
  else Panic "page_out".

(** [pageOut(p, select_page_to_back(p))]. *)
Definition evict (s : kstate) (p : pproc F) : outcome (kstate * pproc F) :=
  let! (va, t, m) := select_page_to_back pol (mkPtab s (pp_pgdir p)) (pp_meta p) in
  let! (_, s', p') := pageOut (pt_kernel t) (with_meta p m) va in
  Ret (s', p').

Definition safe_page_in (s : kstate) (p : pproc F) (va : Z) : outcome (Z * kstate * pproc F) :=
  let! (s1, p1) := (if Z.eqb (numOfPagedIn (pp_meta p)) MAX_PSYC_PAGES then evict s p else Ret (s, p)) in
  pageIn s1 p1 (PGROUNDDOWN va).

(** The loop of [copy_parent_swapfile], half a page per turn; a write of the
    whole buffer follows every read, so the stale tail of [buff] is written
    after a short read. *)
Definition CHUNK : Z := PGSIZE / 2.
Fixpoint copy_swap_loop (fuel : nat) (child parent : F) (buff : list Z) (off : Z) : outcome (F * F) :=
  match fuel with
  | O => NoFuel
  | S k =>
      let! (r, data, parent') := swap_read parent off CHUNK in
      if Z.gtb r 0 then
        let buff' := data ++ drop (length data) buff in
        let! (_, child') := swap_write child buff' off in
        copy_swap_loop k child' parent' buff' (off + r)
      else Ret (child, parent')
  end.
Definition copy_parent_swapfile (child parent : pproc F) : outcome (Z * pproc F * pproc F) :=
  let fuel := S (S (Z.to_nat (MAXFILE_BYTES / CHUNK))) in
  let! (c, q) := copy_swap_loop fuel (pp_swap child) (pp_swap parent) (replicate (Z.to_nat CHUNK) 0) 0 in
  Ret (1, with_meta (with_swap child c) (pp_meta parent), with_swap parent q).

(** ** Address spaces

    The kernel with the process [myproc()] gives, if any. *)
Record vstate := mkVstate { vk : kstate; vp : option (pproc F) }.
Definition set_vk (v : vstate) (s : kstate) : vstate := mkVstate s (vp v).

(** [deallocuvm] forgets the metadata of a page only in the running process. *)
Definition forget_running (v : vstate) (pgdir a : Z) : outcome vstate :=
  match vp v with
  | Some p =>
      if Z.eqb pgdir (pp_pgdir p) then
        let! m := forget_page (pp_meta p) a in Ret (mkVstate (vk v) (Some (with_meta p m)))
      else Ret v
  | None => Ret v
  end.

Fixpoint dealloc_loop (fuel : nat) (v : vstate) (pgdir a oldsz : Z) : outcome vstate :=
  if negb (Z.ltb a oldsz) then Ret v
  else match fuel with
  | O => NoFuel
  | S k =>
      let pte := pte_addr (vk v) pgdir a in
      if Z.eqb pte 0 then
        dealloc_loop k v pgdir (u32 (u32 (PGADDR (PDX a + 1) 0 0 - PGSIZE) + PGSIZE)) oldsz
      else
        let e := load32 (memory (vk v)) pte in
        if flagged e PTE_P then
          let pa := PTE_ADDR e in
          if Z.eqb pa 0 then Panic "kfree"
          else
            let! v1 := forget_running v pgdir a in
            let! s1 := kfree kend (vk v1) (P2V pa) in
            let s2 := set_memory s1 (store32 (memory s1) pte 0) in
            dealloc_loop k (set_vk v1 s2) pgdir (u32 (a + PGSIZE)) oldsz
        else dealloc_loop k v pgdir (u32 (a + PGSIZE)) oldsz
  end.

(** Each turn moves [a] up by a page at least. *)
Definition deallocuvm (v : vstate) (pgdir oldsz newsz : Z) : outcome (Z * vstate) :=
  if Z.leb oldsz newsz then Ret (oldsz, v)
  else
    let! v' := dealloc_loop (S (Z.to_nat (oldsz / PGSIZE))) v pgdir (PGROUNDUP newsz) oldsz in
    Ret (newsz, v').

(** [for(i = 0; i < NPDENTRIES; i++)]; [n] turns are left. *)
Fixpoint free_tables (n : nat) (s : kstate) (pgdir i : Z) : outcome kstate :=
  match n with
  | O => Ret s
  | S k =>
      let pde := load32 (memory s) (pgdir + 4 * i) in
      let! s' := (if flagged pde PTE_P then kfree kend s (P2V (PTE_ADDR pde)) else Ret s) in
      free_tables k s' pgdir (i + 1)
  end.
Definition freevm (v : vstate) (pgdir : Z) : outcome vstate :=
  if Z.eqb pgdir 0 then Panic "freevm: no pgdir"
  else
    let! (_, v1) := deallocuvm v pgdir KERNBASE 0 in
    let! s2 := free_tables (Z.to_nat NPDENTRIES) (vk v1) pgdir 0 in
    let! s3 := kfree kend s2 pgdir in
    Ret (set_vk v1 s3).

(** A row of [kmap]: virtual address, physical range, permissions. *)
Record kmap_row := mkRow { virt : Z; phys_start : Z; phys_end : Z; perm : Z }.
Definition kmap : list kmap_row := [
  mkRow KERNBASE 0 EXTMEM PTE_W;
  mkRow KERNLINK (V2P KERNLINK) (V2P kdata) 0;
  mkRow kdata (V2P kdata) PHYSTOP PTE_W;
  mkRow DEVSPACE DEVSPACE 0 PTE_W ].

Fixpoint map_rows (s : kstate) (pgdir : Z) (rows : list kmap_row) : outcome (bool * kstate) :=
  match rows with
  | [] => Ret (true, s)
  | k :: rows' =>
      let! (r, s1) := mappages s pgdir (virt k) (u32 (phys_end k - phys_start k)) (phys_start k) (perm k) in
      if Z.ltb r 0 then Ret (false, s1) else map_rows s1 pgdir rows'
  end.
Definition setupkvm (v : vstate) : outcome (Z * vstate) :=
  let '(pgdir, s1) := kalloc (vk v) in
  if Z.eqb pgdir 0 then Ret (0, set_vk v s1)
  else
    let s2 := set_memory s1 (memset (memory s1) pgdir 0 PGSIZE) in
    if Z.gtb (P2V PHYSTOP) DEVSPACE then Panic "PHYSTOP too high"
    else
      let! (ok, s3) := map_rows s2 pgdir kmap in
      if ok then Ret (pgdir, set_vk v s3)
      else let! v' := freevm (set_vk v s3) pgdir in Ret (0, v').

(** [allocuvm]: the running process makes room for each page it grows by. *)
Definition make_room (v : vstate) : outcome vstate :=
  match vp v with
  | Some p =>
      if Z.eqb (numOfPagedIn (pp_meta p)) MAX_PSYC_PAGES then
        let! (s', p') := evict (vk v) p in Ret (mkVstate s' (Some p'))
      else Ret v
  | None => Ret v
  end.
Definition register_page (v : vstate) (a : Z) : outcome vstate :=
  match vp v with
  | Some p =>
      let! (_, m) := add_new_page (pp_meta p) a in
      Ret (mkVstate (vk v) (Some (with_meta p m)))
  | None => Undef "add_new_page: no process"
  end.

Fixpoint alloc_loop (fuel : nat) (v : vstate) (pgdir a oldsz newsz : Z) : outcome (Z * vstate) :=
  if negb (Z.ltb a newsz) then Ret (newsz, v)
  else match fuel with
  | O => NoFuel
  | S k =>
      let! v1 := make_room v in
      let '(mem, s1) := kalloc (vk v1) in
      if Z.eqb mem 0 then
        let! (_, v2) := deallocuvm (set_vk v1 s1) pgdir newsz oldsz in Ret (0, v2)
      else
        let s2 := set_memory s1 (memset (memory s1) mem 0 PGSIZE) in
        let! (r, s3) := mappages s2 pgdir a PGSIZE (V2P mem) (Z.lor PTE_W PTE_U) in
        if Z.ltb r 0 then
          let! (_, v2) := deallocuvm (set_vk v1 s3) pgdir newsz oldsz in
          let! s4 := kfree kend (vk v2) mem in
          Ret (0, set_vk v2 s4)
        else
          let! v2 := register_page (set_vk v1 s3) a in
          alloc_loop k v2 pgdir (u32 (a + PGSIZE)) oldsz newsz
  end.
Definition allocuvm (v : vstate) (pgdir oldsz newsz : Z) : outcome (Z * vstate) :=
  if Z.leb KERNBASE newsz then Ret (0, v)
  else if Z.ltb newsz oldsz then Ret (oldsz, v)
  else alloc_loop (S (Z.to_nat (newsz / PGSIZE))) v pgdir (PGROUNDUP oldsz) oldsz newsz.

(** [copyuvm]: a page that is out is marked in the parent and its frame field cleared. *)
Fixpoint copyuvm_loop (fuel : nat) (v : vstate) (pgdir d i sz : Z) : outcome (Z * vstate) :=
  if negb (Z.ltb i sz) then Ret (d, v)
  else match fuel with
  | O => NoFuel
  | S k =>
      let s := vk v in
      let pte := pte_addr s pgdir i in
      if Z.eqb pte 0 then Panic "copyuvm: pte should exist"
      else
        let e := load32 (memory s) pte in
        if negb (flagged e PTE_P) && negb (flagged e PTE_PG) then Panic "copyuvm: page not present"
        else
          let paged_out := flagged e PTE_PG in
          let s1 := if paged_out
                    then set_memory s (store32 (memory s) pte (Z.lor (Z.lor PTE_PG PTE_U) PTE_W)) else s in
          let e1 := load32 (memory s1) pte in
          let '(mem, s2) := kalloc s1 in
          if Z.eqb mem 0 then let! v' := freevm (set_vk v s2) d in Ret (0, v')
          else
            let s3 := set_memory s2 (memmove (memory s2) mem (P2V (PTE_ADDR e1)) PGSIZE) in
            let! (r, s4) := mappages s3 d i PGSIZE (V2P mem) (PTE_FLAGS e1) in
            if Z.ltb r 0 then let! v' := freevm (set_vk v s4) d in Ret (0, v')
            else
              let! s5 := (if paged_out then
                            let pte' := pte_addr s4 d i in
                            if Z.eqb pte' 0 then Undef "copyuvm: null pte"
                            else Ret (set_memory s4 (store32 (memory s4) pte'
                                        (clear_flag (load32 (memory s4) pte') PTE_P)))
                          else Ret s4) in
              copyuvm_loop k (set_vk v s5) pgdir d (u32 (i + PGSIZE)) sz
  end.
Definition copyuvm (v : vstate) (pgdir sz : Z) : outcome (Z * vstate) :=
  let! (d, v1) := setupkvm v in
  if Z.eqb d 0 then Ret (0, v1)
  else copyuvm_loop (S (Z.to_nat (sz / PGSIZE))) v1 pgdir d 0 sz.

(** [loaduvm]: [readi off n] is the file's answer, its C result and the bytes read. *)
Fixpoint load_loop (fuel : nat) (s : kstate) (readi : Z → Z → Z * list Z) (pgdir addr i off sz : Z)
    : outcome (Z * kstate) :=
  if negb (Z.ltb i sz) then Ret (0, s)
  else match fuel with
  | O => NoFuel
  | S k =>
      let pte := pte_addr s pgdir (u32 (addr + i)) in
      if Z.eqb pte 0 then Panic "loaduvm: address should exist"
      else
        let pa := PTE_ADDR (load32 (memory s) pte) in
        let n := if Z.ltb (sz - i) PGSIZE then sz - i else PGSIZE in
        let '(r, data) := readi (u32 (off + i)) n in
        let s1 := set_memory s (write_bytes (memory s) (P2V pa) data) in
        if Z.eqb r n then load_loop k s1 readi pgdir addr (u32 (i + PGSIZE)) off sz
        else Ret (-1, s1)
  end.
Definition loaduvm (s : kstate) (readi : Z → Z → Z * list Z) (pgdir addr off sz : Z)
    : outcome (Z * kstate) :=
  if negb (Z.eqb (addr mod PGSIZE) 0) then Panic "loaduvm: addr must be page aligned"
  else load_loop (S (Z.to_nat (sz / PGSIZE))) s readi pgdir addr 0 off sz.
End swap.
