(* ===== verification/Demand.v ===== *)
(** * Demand paging is transparent

    Moving a page of the running process to its swap file and back changes
    neither that page nor any other page of the process: the theorems of this
    file relate [pageOut], [pageIn] and [safe_page_in] to the contents of user
    memory, wherever each page is kept. *)
From stdpp Require Import base list strings.
From Stdlib Require Import ZArith Lia.
From S2P Require Import Prelude Mmu Memory Kalloc Paging Replacement PageTable Swap.

(** ** Bytes *)

Definition is_byte (b : Z) : Prop := 0 ≤ b < 256.

Lemma length_read_bytes m a n : length (read_bytes m a n) = Z.to_nat n.
Proof. unfold read_bytes. by rewrite length_fmap, length_seqZ. Qed.

Lemma read_bytes_is_byte m a n : Forall is_byte (read_bytes m a n).
Proof. apply Forall_fmap, Forall_true. intros x. apply load8_range. Qed.

Lemma lookup_read_bytes m a n i :
  (i < Z.to_nat n)%nat → read_bytes m a n !! i = Some (load8 m (a + Z.of_nat i)).
Proof.
  intros Hi. unfold read_bytes. rewrite list_lookup_fmap, lookup_seqZ_lt by lia. done.
Qed.

Lemma read_bytes_ext m m' a n :
  (∀ x, a ≤ x < a + n → load8 m' x = load8 m x) → read_bytes m' a n = read_bytes m a n.
Proof.
  intros Hext. unfold read_bytes. apply list_fmap_ext. intros i x Hx.
  apply lookup_seqZ in Hx as [-> Hi]. apply Hext. lia.
Qed.

Lemma write_bytes_spec l : ∀ m a x,
  load8 (write_bytes m a l) x =
    if decide (a ≤ x < a + Z.of_nat (length l))
    then u8 (nth (Z.to_nat (x - a)) l 0) else load8 m x.
Proof.
  induction l as [|b l IH]; intros m a x; simpl.
  { rewrite decide_False by lia. done. }
  rewrite IH, load8_store8. destruct (decide (x = a)) as [->|Hne].
  - rewrite decide_False, decide_True, Z.eqb_refl by lia. by rewrite Z.sub_diag.
  - rewrite (proj2 (Z.eqb_neq x a)) by done.
    destruct (decide (a + 1 ≤ x < a + 1 + Z.of_nat (length l))).
    + rewrite decide_True by lia. replace (Z.to_nat (x - a)) with (S (Z.to_nat (x - (a + 1)))) by lia. done.
    + rewrite decide_False by lia. done.
Qed.

(** Bytes written to a place are the bytes read there. *)
Lemma read_write_bytes m a l :
  Forall is_byte l → read_bytes (write_bytes m a l) a (Z.of_nat (length l)) = l.
Proof.
  intros Hl. apply list_eq_same_length with (length l); [done|by rewrite length_read_bytes, Nat2Z.id|].
  intros i x y Hi Hx Hy. rewrite lookup_read_bytes in Hx by lia. injection Hx as <-.
  rewrite write_bytes_spec, decide_True by lia. replace (Z.to_nat (a + Z.of_nat i - a)) with i by lia.
  rewrite (nth_lookup_Some _ _ _ _ Hy). unfold u8. apply Z.mod_small.
  by apply (Forall_lookup_1 _ _ _ _ Hl Hy).
Qed.

(** ** Slots of the swap file *)

Definition slot (b : list Z) (off : Z) : list Z := take (Z.to_nat PGSIZE) (drop (Z.to_nat off) b).

(** The contents after a page is written at slot [k]. *)
Definition put_slot (b data : list Z) (off : Z) : list Z :=
  take (Z.to_nat off) b ++ data ++ drop (Z.to_nat off + length data) b.

Lemma slot_put_eq b data off :
  0 ≤ off ≤ Z.of_nat (length b) → length data = Z.to_nat PGSIZE → slot (put_slot b data off) off = data.
Proof.
  intros Ho Hd. unfold slot, put_slot.
  rewrite drop_app_length' by (rewrite length_take; lia). by rewrite take_app_length'.
Qed.

Lemma slot_put_ne b data j k :
  j ≠ k → PGSIZE * Z.of_nat k ≤ Z.of_nat (length b) → length data = Z.to_nat PGSIZE →
  PGSIZE * (Z.of_nat j + 1) ≤ Z.of_nat (length b) →
  slot (put_slot b data (PGSIZE * Z.of_nat k)) (PGSIZE * Z.of_nat j) = slot b (PGSIZE * Z.of_nat j).
Proof.
  intros Hne Hk Hd Hj. unfold slot, put_slot. rewrite Hd. unfold PGSIZE in *.
  set (oj := Z.to_nat (4096 * Z.of_nat j)). set (ok := Z.to_nat (4096 * Z.of_nat k)).
  set (w := Z.to_nat 4096) in *.
  assert (Hw : ((j < k ∧ oj + w ≤ ok) ∨ (k < j ∧ ok + w ≤ oj))%nat) by lia.
  destruct Hw as [[_ Hw]|[_ Hw]].
  - rewrite drop_app_le by (rewrite length_take; lia).
    rewrite take_app_le by (rewrite length_drop, length_take; lia).
    rewrite skipn_firstn_comm, take_take. f_equal. lia.
  - rewrite drop_app_ge by (rewrite length_take; lia). rewrite length_take, Nat.min_l by lia.
    rewrite drop_app_ge by lia. rewrite drop_drop. do 2 f_equal. lia.
Qed.

Lemma length_put_slot b data off :
  0 ≤ off ≤ Z.of_nat (length b) →
  length (put_slot b data off) = Nat.max (length b) (Z.to_nat off + length data).
Proof. intros Ho. unfold put_slot. rewrite !length_app, length_take, length_drop. lia. Qed.

Lemma put_slot_is_byte b data off :
  Forall is_byte b → Forall is_byte data → Forall is_byte (put_slot b data off).
Proof. intros Hb Hd. unfold put_slot. repeat apply Forall_app_2; [by apply Forall_take|done|by apply Forall_drop]. Qed.

(** ** User memory of the running process *)

Definition frames (E : Z → Z) (l : list page) : list Z :=
  (λ va, frame E (va / PGSIZE)) <$> ram_vaddrs l.

(** The entry of a page says where the page is. *)
Record page_map (T : Z → option Z) (E : Z → Z) (q : page) : Prop := mk_page_map {
  pm_align : vaddr q mod PGSIZE = 0;
  pm_user : 0 ≤ vaddr q < KERNBASE;
  pm_table : is_Some (T (vaddr q / PGSIZE / 1024));
  pm_in : in_back q = 0 → flagged (E (vaddr q / PGSIZE)) PTE_P = true ∧
                          flagged (E (vaddr q / PGSIZE)) PTE_PG = false;
  pm_out : in_back q = 1 → flagged (E (vaddr q / PGSIZE)) PTE_P = false ∧
                           flagged (E (vaddr q / PGSIZE)) PTE_PG = true }.

Section demand.
  Context (kend : Z) (kend_kernel : KERNBASE + EXTMEM ≤ kend) {F : Type} `{!SwapOps F} `{!SwapView F} `{!SwapLaws F}.

(** The resident pages have their own frames, the others their own slots. *)
Record uv_rep (s : kstate) (p : pproc F) (free : list Z) (T : Z → option Z) (E : Z → Z)
    (other : list Z) : Prop := mk_uv_rep {
  uv_pt : pt_rep kend s free (pp_pgdir p) T E (frames E (pages (pp_meta p)) ++ other);
  uv_wf : meta_wf (pp_meta p);
  uv_map i q : pages (pp_meta p) !! i = Some q → p_exists q = 1 → page_map T E q;
  uv_slots k : offsets (pp_meta p) !! k = Some 1 →
    PGSIZE * (Z.of_nat k + 1) ≤ Z.of_nat (length (swap_bytes (pp_swap p)));
  uv_bytes : Forall is_byte (swap_bytes (pp_swap p)) }.

(** The contents of page [q], in RAM or in the swap file. *)
Definition page_view (s : kstate) (p : pproc F) (E : Z → Z) (q : page) : list Z :=
  if Z.eqb (in_back q) 1 then slot (swap_bytes (pp_swap p)) (offset q)
  else read_bytes (memory s) (frame E (vaddr q / PGSIZE)) PGSIZE.

(** The process has a page at [va] whose bytes are [d]. *)
Definition user_data (s : kstate) (p : pproc F) (E : Z → Z) (va : Z) (d : list Z) : Prop :=
  ∃ i q, pages (pp_meta p) !! i = Some q ∧ p_exists q = 1 ∧ vaddr q = va ∧ page_view s p E q = d.

Lemma uv_va_u32 T E q : page_map T E q → is_u32 (vaddr q).
Proof. intros Hm. pose proof (pm_user _ _ _ Hm). unfold is_u32, KERNBASE in *. lia. Qed.

Lemma page_va T E q : page_map T E q → PGSIZE * (vaddr q / PGSIZE) = vaddr q.
Proof.
  intros Hm. pose proof (pm_align _ _ _ Hm). pose proof (Z.div_mod (vaddr q) PGSIZE ltac:(done)). lia.
Qed.

(** Different pages of the process have different page numbers. *)
Lemma page_no_inj s p free T E other i j q r :
  uv_rep s p free T E other → pages (pp_meta p) !! i = Some q → pages (pp_meta p) !! j = Some r →
  p_exists q = 1 → p_exists r = 1 → i ≠ j → vaddr q / PGSIZE ≠ vaddr r / PGSIZE.
Proof.
  intros Huv Hi Hj Hq Hr Hne Heq. apply Hne.
  apply (mw_uniq _ (uv_wf _ _ _ _ _ _ Huv) i j q r); try done.
  rewrite <- (page_va T E q) by (by eapply (uv_map _ _ _ _ _ _ Huv)).
  rewrite <- (page_va T E r) by (by eapply (uv_map _ _ _ _ _ _ Huv)). by rewrite Heq.
Qed.

Lemma resident_frame s p free T E other i q :
  uv_rep s p free T E other → pages (pp_meta p) !! i = Some q → p_exists q = 1 → in_back q = 0 →
  frame E (vaddr q / PGSIZE) ∈ frames E (pages (pp_meta p)).
Proof.
  intros Huv Hi He Hb. apply (list_elem_of_fmap_2 (λ va, frame E (va / PGSIZE))).
  unfold ram_vaddrs. apply list_elem_of_fmap_2, list_elem_of_filter.
  split; [unfold in_ram; by rewrite He, Hb|by eapply list_elem_of_lookup_2].
Qed.

Lemma translate_spec s free pgdir T E held va :
  pt_rep kend s free pgdir T E held → is_u32 va → is_Some (T (va / PGSIZE / 1024)) →
  flagged (E (va / PGSIZE)) PTE_P = true →
  translate s pgdir va = Ret (frame E (va / PGSIZE) + va mod PGSIZE).
Proof.
  intros Hpt Hva [t Ht] Hp. unfold translate.
  destruct (pte_addr_table kend kend_kernel _ _ _ _ _ _ _ _ Hpt Hva Ht) as (_ & Hnz & ->).
  by rewrite (proj2 (Z.eqb_neq _ _) Hnz), Hp.
Qed.

Lemma addPageToBack_spec s p free T E other i q w :
  uv_rep s p free T E other → pages (pp_meta p) !! i = Some q → p_exists q = 1 → in_back q = 0 →
  numOfPagedOut (pp_meta p) ≤ MAX_PSYC_PAGES → swap_room (pp_swap p) (S w) →
  ∃ k f', addPageToBack s p (vaddr q) = Ret (1, with_meta (with_swap p f') (out_meta (pp_meta p) i q k)) ∧
    getFreePageOffset (pp_meta p) = PGSIZE * Z.of_nat k ∧
    offsets (pp_meta p) !! k = Some 0 ∧ meta_wf (out_meta (pp_meta p) i q k) ∧
    PGSIZE * Z.of_nat k ≤ Z.of_nat (length (swap_bytes (pp_swap p))) ∧
    swap_bytes f' = put_slot (swap_bytes (pp_swap p))
                      (read_bytes (memory s) (frame E (vaddr q / PGSIZE)) PGSIZE) (PGSIZE * Z.of_nat k) ∧
    swap_room f' w.
Proof.
  intros Huv Hi He Hb Hout Hroom. pose proof (uv_map _ _ _ _ _ _ Huv i q Hi He) as Hm.
  destruct (page_out_meta_wf _ i q (uv_wf _ _ _ _ _ _ Huv) Hi He Hb)
    as (k & Hk & Hle & Hfree & Htaken & Hmeta & Hwf).
  assert (Hlen : PGSIZE * Z.of_nat k ≤ Z.of_nat (length (swap_bytes (pp_swap p)))).
  { destruct k as [|k]; [unfold PGSIZE; lia|].
    pose proof (uv_slots _ _ _ _ _ _ Huv k (Htaken k ltac:(lia))). lia. }
  destruct (swap_write_ok (pp_swap p) (read_bytes (memory s) (frame E (vaddr q / PGSIZE)) PGSIZE)
    (PGSIZE * Z.of_nat k) w Hroom) as (f' & Hw & Hroom' & Hbytes).
  { unfold PGSIZE in *. lia. }
  { rewrite length_read_bytes. done. }
  { rewrite length_read_bytes. unfold MAXFILE_BYTES, MAX_PSYC_PAGES, PGSIZE in *. lia. }
  rewrite Hk in Hmeta, Hwf. exists k, f'. split; [|done]. unfold addPageToBack. rewrite Hk.
  rewrite (proj2 (Z.eqb_neq _ _)) by
    (unfold PGFILE_FULL_ERR, MAX_TOTAL_PAGES, MAX_PSYC_PAGES, PGSIZE in *; lia).
  assert (Hva : PTE_ADDR (vaddr q) = vaddr q).
  { rewrite PTE_ADDR_eq by (by eapply uv_va_u32). pose proof (pm_align _ _ _ Hm). unfold PGSIZE in *. lia. }
  rewrite Hva. rewrite (translate_spec _ _ _ T E _ _ (uv_pt _ _ _ _ _ _ Huv));
    [|by eapply uv_va_u32|apply Hm|by apply Hm].
  cbn [obind]. rewrite (pm_align _ _ _ Hm), Z.add_0_r, Hw. cbn [obind]. rewrite Hmeta. done.
Qed.

Lemma flags_disjoint : Z.land PTE_P PTE_PG = 0 ∧ Z.land PTE_PG PTE_P = 0.
Proof. done. Qed.

(** The entry of a page that has gone out: its frame field stays. *)
Definition out_entry (e : Z) : Z := set_flag (clear_flag e PTE_P) PTE_PG.

Lemma out_entry_spec e :
  is_u32 e → flagged (out_entry e) PTE_P = false ∧ flagged (out_entry e) PTE_PG = true ∧
  PTE_ADDR (out_entry e) = PTE_ADDR e.
Proof.
  intros He. unfold out_entry. rewrite flagged_set_other, flagged_set_same by done.
  split; [by apply flagged_clear_same|]. split; [done|]. unfold PTE_ADDR.
  rewrite land_set_disjoint by done. by rewrite land_clear_disjoint.
Qed.

Lemma frames_ext E E' l : (∀ n, frame E' n = frame E n) → frames E' l = frames E l.
Proof. intros Hf. unfold frames. apply list_fmap_ext. intros i x _. apply Hf. Qed.

Lemma entry_u32 s free pgdir T E held n :
  pt_rep kend s free pgdir T E held → 0 ≤ n < VPAGES → is_u32 (E n).
Proof.
  intros Hpt Hn. destruct (T (n / 1024)) as [t|] eqn:HT.
  - rewrite <- (pt_ent _ _ _ _ _ _ _ Hpt n t Hn HT). apply load32_range.
  - by rewrite (pt_none _ _ _ _ _ _ _ Hpt n Hn HT).
Qed.

(** The state after page [i] has gone to slot [k]. *)
Section out.
  Context (s : kstate) (p : pproc F) (free : list Z) (T : Z → option Z) (E : Z → Z) (other : list Z)
    (i : nat) (q : page) (k : nat) (s' : kstate) (p' : pproc F).
  Context (Huv : uv_rep s p free T E other) (Hi : pages (pp_meta p) !! i = Some q)
    (He : p_exists q = 1) (Hb : in_back q = 0) (Hfree : offsets (pp_meta p) !! k = Some 0)
    (Hwf : meta_wf (out_meta (pp_meta p) i q k))
    (Hlen : PGSIZE * Z.of_nat k ≤ Z.of_nat (length (swap_bytes (pp_swap p))))
    (Hdir : pp_pgdir p' = pp_pgdir p) (Hmeta : pp_meta p' = out_meta (pp_meta p) i q k)
    (Hbytes : swap_bytes (pp_swap p') = put_slot (swap_bytes (pp_swap p))
       (read_bytes (memory s) (frame E (vaddr q / PGSIZE)) PGSIZE) (PGSIZE * Z.of_nat k)).
Let E' := upd E (vaddr q / PGSIZE) (out_entry (E (vaddr q / PGSIZE))).

Lemma out_entry_at : flagged (E' (vaddr q / PGSIZE)) PTE_P = false ∧
  flagged (E' (vaddr q / PGSIZE)) PTE_PG = true ∧ ∀ n, frame E' n = frame E n.
Proof.
  pose proof (uv_map _ _ _ _ _ _ Huv i q Hi He) as Hm.
  pose proof (entry_u32 _ _ _ _ _ _ _ (uv_pt _ _ _ _ _ _ Huv) (page_no_range _ (uv_va_u32 _ _ _ Hm))) as Hu.
  destruct (out_entry_spec _ Hu) as (HP & HPG & Hadr). unfold E'. rewrite upd_eq. split_and!; try done.
  intros n. unfold frame, upd. case_decide as Hn; [|done]. by rewrite Hadr, Hn.
Qed.

Lemma out_page_cases j r :
  pages (out_meta (pp_meta p) i q k) !! j = Some r →
  (j = i ∧ r = mkPage 1 (vaddr q) 1 (PGSIZE * Z.of_nat k) (age q) (age2 q)) ∨
  (j ≠ i ∧ pages (pp_meta p) !! j = Some r).
Proof.
  simpl. intros Hj. apply list_lookup_insert_Some in Hj as [(-> & <- & _)|[Hne Hj]]; [by left|].
  right. done.
Qed.

Lemma out_uv_rep free' :
  pt_rep kend s' free' (pp_pgdir p) T E' (frames E (pages (out_meta (pp_meta p) i q k)) ++ other) →
  uv_rep s' p' free' T E' other.
Proof.
  intros Hpt. destruct out_entry_at as (HP & HPG & Hfr). split; rewrite ?Hmeta, ?Hdir, ?Hbytes.
  - by rewrite (frames_ext E) by done.
  - done.
  - intros j r [[-> ->]|[Hne Hj]]%out_page_cases Hr.
    + destruct (uv_map _ _ _ _ _ _ Huv i q Hi He). by split.
    + destruct (uv_map _ _ _ _ _ _ Huv j r Hj Hr).
      pose proof (page_no_inj _ _ _ _ _ _ j i r q Huv Hj Hi Hr He Hne) as Hpn.
      split; try done; unfold E'; rewrite upd_ne by done; done.
  - intros j Hj. rewrite length_put_slot, length_read_bytes by (unfold PGSIZE in *; lia).
    simpl in Hj. apply list_lookup_insert_Some in Hj as [(-> & _)|[Hne Hj]]; [unfold PGSIZE; lia|].
    pose proof (uv_slots _ _ _ _ _ _ Huv j Hj). lia.
  - apply put_slot_is_byte; [apply Huv|apply read_bytes_is_byte].
Qed.

Lemma out_user_data va d :
  (∀ x, x ∈ frames E (pages (out_meta (pp_meta p) i q k)) → same_page (memory s) (memory s') x) →
  user_data s p E va d → user_data s' p' E' va d.
Proof.
  intros Hsame (j & r & Hj & Hr & <- & <-). destruct out_entry_at as (_ & _ & Hfr).
  unfold user_data. rewrite Hmeta. exists j.
  destruct (decide (j = i)) as [->|Hne].
  - simplify_eq. eexists. split; [apply list_lookup_insert_eq; by eapply lookup_lt_Some|].
    do 2 (split; [done|]). unfold page_view. simpl. rewrite Hbytes, Hb. simpl.
    apply slot_put_eq; [unfold PGSIZE in *; lia|by rewrite length_read_bytes].
  - assert (Hj' : pages (out_meta (pp_meta p) i q k) !! j = Some r) by (simpl; by rewrite list_lookup_insert_ne).
    exists r. do 3 (split; [done|]). unfold page_view.
    destruct (Z.eqb_spec (in_back r) 1) as [Hrb|Hrb].
    + rewrite Hbytes. destruct (mw_slot _ (uv_wf _ _ _ _ _ _ Huv) j r Hj Hrb) as (k' & -> & Hk').
      apply slot_put_ne; [congruence|done|by rewrite length_read_bytes|by apply (uv_slots _ _ _ _ _ _ Huv)].
    + rewrite Hfr. apply read_bytes_ext. intros x Hx. apply (Hsame (frame E (vaddr r / PGSIZE))); [|done].
      apply (list_elem_of_fmap_2 (λ va, frame E (va / PGSIZE))). unfold ram_vaddrs.
      apply list_elem_of_fmap_2, list_elem_of_filter. split; [|by eapply list_elem_of_lookup_2].
      pose proof (page_ok_at _ j r (uv_wf _ _ _ _ _ _ Huv) Hj) as Hok.
      rewrite in_ram_ok by done. unfold pg_in. rewrite Hr, Z.eqb_refl, andb_true_r. apply Z.eqb_eq.
      destruct Hok as [[? _]|[_ [?|?]]]; lia.
Qed.
End out.

Lemma pageOut_spec s p free T E other i q w :
  uv_rep s p free T E other → pages (pp_meta p) !! i = Some q → p_exists q = 1 → in_back q = 0 →
  numOfPagedOut (pp_meta p) ≤ MAX_PSYC_PAGES → swap_room (pp_swap p) (S w) →
  ∃ k s' p', let E' := upd E (vaddr q / PGSIZE) (out_entry (E (vaddr q / PGSIZE))) in
    pageOut kend s p (vaddr q) = Ret (1, s', p') ∧ pp_pgdir p' = pp_pgdir p ∧
    pp_meta p' = out_meta (pp_meta p) i q k ∧ pp_pageouts p' = u32 (pp_pageouts p + 1) ∧
    getFreePageOffset (pp_meta p) = PGSIZE * Z.of_nat k ∧ swap_room (pp_swap p') w ∧
    uv_rep s' p' (frame E (vaddr q / PGSIZE) :: free) T E' other ∧
    (∀ x, x ∈ other → same_page (memory s) (memory s') x) ∧
    ∀ va d, user_data s p E va d → user_data s' p' E' va d.
Proof.
  intros Huv Hi He Hb Hout Hroom. pose proof (uv_map _ _ _ _ _ _ Huv i q Hi He) as Hm.
  pose proof (uv_va_u32 _ _ _ Hm) as Hva. set (n := vaddr q / PGSIZE) in *.
  pose proof (page_no_range _ Hva) as Hn. fold n in Hn.
  destruct (pm_table _ _ _ Hm) as [t Ht]. fold n in Ht.
  destruct (addPageToBack_spec _ _ _ _ _ _ i q w Huv Hi He Hb Hout Hroom)
    as (k & f' & Hadd & Hoff & Hfree & Hwf & Hlen & Hbytes & Hroom'). fold n in Hbytes.
  pose proof (uv_pt _ _ _ _ _ _ Huv) as Hpt.
  destruct (pte_addr_table kend kend_kernel _ _ _ _ _ _ _ _ Hpt Hva Ht) as (_ & Hnz & Hld). fold n in Hld.
  assert (Hfr : frames E (pages (pp_meta p)) ++ other ≡ₚ
                frame E n :: frames E (pages (out_meta (pp_meta p) i q k)) ++ other).
  { rewrite app_comm_cons. f_equiv. unfold frames. by rewrite <- (ram_vaddrs_out _ i q k) by done. }
  destruct (pt_rep_kfree kend kend_kernel _ _ _ _ _ _ _ _ Hpt Hfr) as (s1 & Hkf & Hpt1 & Hsame1).
  destruct (clearPTE_FLAG_spec kend kend_kernel _ _ _ _ _ _ (vaddr q) t PTE_P Hpt1 Hva Ht)
    as (s2 & Hcl & Hpt2 & Hsame2). fold n in Hpt2.
  destruct (setPTE_FLAG_spec kend kend_kernel _ _ _ _ _ _ (vaddr q) t PTE_PG Hpt2 Hva Ht ltac:(done))
    as (s3 & Hset & Hpt3 & Hsame3). fold n in Hpt3. rewrite upd_eq in Hpt3. 
  assert (Hsame : ∀ x, x ∈ frames E (pages (out_meta (pp_meta p) i q k)) ++ other →
    same_page (memory s) (memory s3) x).
  { intros x Hx. destruct (held_not_free kend _ _ _ _ _ _ x (frame E n) Hpt1 Hx) as [Hxv Hxm]; [left|].
    eapply same_page_trans; [by apply Hsame1|]. eapply same_page_trans; [by apply Hsame2|by apply Hsame3]. }
  exists k, s3. eexists. split.
  { unfold pageOut. rewrite Hadd. cbn [obind]. change (c_true 1) with true. cbv iota.
    cbn [pp_pgdir with_meta with_swap]. rewrite (proj2 (Z.eqb_neq _ _) Hnz), Hld.
    fold (frame E n). rewrite Hkf. cbn [obind]. rewrite Hcl. cbn [obind]. rewrite Hset. cbn [obind].
    cbn [pp_meta with_meta with_swap pp_swap pp_pageouts]. done. }
  cbn [pp_pgdir pp_meta pp_pageouts pp_swap with_meta with_swap]. do 5 (split; [done|]). split.
  { eapply (out_uv_rep s p _ _ _ _ i q k); try done. eapply pt_rep_ext; [|exact Hpt3].
    intros m _. fold n. unfold upd, out_entry. by case_decide. }
  split; [intros x Hx; apply Hsame, elem_of_app; by right|].
  intros va d. eapply (out_user_data s p _ _ _ _ i q k); try done.
  intros x Hx. apply Hsame, elem_of_app. by left.
Qed.

(** The entry of a page brought in to frame [a]. *)
Definition in_entry (a : Z) : Z :=
  set_flag (clear_flag (map_entry (V2P a) (Z.lor PTE_U PTE_W) 0) PTE_PG) PTE_P.

Lemma in_entry_spec a :
  valid_page kend a → is_u32 (in_entry a) ∧ flagged (in_entry a) PTE_P = true ∧
  flagged (in_entry a) PTE_PG = false ∧ P2V (PTE_ADDR (in_entry a)) = a ∧
  P2V (PTE_ADDR (map_entry (V2P a) (Z.lor PTE_U PTE_W) 0)) = a.
Proof.
  intros Ha. assert (Hu : is_u32 (map_entry (V2P a) (Z.lor PTE_U PTE_W) 0)) by by apply map_entry_u32.
  assert (Hm : V2P a mod PGSIZE = 0).
  { rewrite (V2P_valid kend) by done. destruct Ha as (Ha & _). unfold PGSIZE, KERNBASE in *.
    by rewrite Zminus_mod, Ha. }
  assert (Hadr : PTE_ADDR (map_entry (V2P a) (Z.lor PTE_U PTE_W) 0) = V2P a).
  { rewrite map_entry_0 by apply u32_range. rewrite <- Z.lor_assoc.
    apply PTE_ADDR_lor; [apply u32_range|done|by vm_compute]. }
  unfold in_entry. split_and!.
  - apply set_flag_u32; [by apply clear_flag_u32|done].
  - by apply flagged_set_same.
  - rewrite flagged_set_other by done. by apply flagged_clear_same.
  - rewrite <- (P2V_V2P kend kend_kernel a Ha) at 2. f_equal. etransitivity; [|exact Hadr].
    unfold PTE_ADDR. rewrite land_set_disjoint by done. by apply land_clear_disjoint.
  - rewrite Hadr. by apply (P2V_V2P kend).
Qed.

Lemma find_back m i q :
  meta_wf m → pages m !! i = Some q → p_exists q = 1 → in_back q = 1 →
  list_find (λ r, holds_vaddr (vaddr q) r && c_true (in_back r) = true) (pages m) = Some (i, q).
Proof.
  intros Hm Hi He Hb. apply list_find_Some. split; [done|]. split.
  - unfold holds_vaddr, c_true. by rewrite He, Hb, Z.eqb_refl.
  - intros j r Hj Hlt. unfold holds_vaddr. rewrite !andb_true_iff. intros [[Hr1 Hr2%Z.eqb_eq] _].
    assert (j = i); [|lia]. eapply (mw_uniq m Hm j i r q); try done.
    destruct (page_ok_at m j r Hm Hj) as [(Hz & _)|[? _]]; [|done].
    by rewrite Hz in Hr1.
Qed.

(** The state after page [i] has come back to frame [a]. *)
Section back.
  Context (s : kstate) (p : pproc F) (free : list Z) (T : Z → option Z) (E : Z → Z) (other : list Z)
    (i : nat) (q : page) (qu : page_queue) (k : nat) (a : Z) (s' : kstate) (p' : pproc F).
  Context (Huv : uv_rep s p free T E other) (Hi : pages (pp_meta p) !! i = Some q)
    (He : p_exists q = 1) (Hb : in_back q = 1) (Hslot : offset q = PGSIZE * Z.of_nat k)
    (Hk : offsets (pp_meta p) !! k = Some 1) (Ha : valid_page kend a)
    (Hwf : meta_wf (in_meta (pp_meta p) i q qu k))
    (Hdir : pp_pgdir p' = pp_pgdir p) (Hmeta : pp_meta p' = in_meta (pp_meta p) i q qu k)
    (Hbytes : swap_bytes (pp_swap p') = swap_bytes (pp_swap p)).
Let E' := upd E (vaddr q / PGSIZE) (in_entry a).

Lemma back_frame : frame E' (vaddr q / PGSIZE) = a.
Proof. unfold frame, E'. rewrite upd_eq. by apply in_entry_spec. Qed.

Lemma back_frame_ne va : va / PGSIZE ≠ vaddr q / PGSIZE → frame E' (va / PGSIZE) = frame E (va / PGSIZE).
Proof. intros Hne. unfold frame, E'. by rewrite upd_ne. Qed.

Lemma back_frames : frames E' (pages (in_meta (pp_meta p) i q qu k)) ≡ₚ a :: frames E (pages (pp_meta p)).
Proof.
  unfold frames. rewrite ram_vaddrs_in by done. rewrite fmap_cons, back_frame. f_equiv.
  apply eq_subrelation; [apply _|]. apply list_fmap_ext. intros j va Hva. apply back_frame_ne.
  destruct (ram_vaddrs_elem (pp_meta p) va) as (j' & r & Hj & Hr & Hrb & <-);
    [apply Huv|by eapply list_elem_of_lookup_2|].
  eapply page_no_inj; try done. intros ->. simplify_eq. lia.
Qed.

Lemma back_uv_rep free' :
  pt_rep kend s' free' (pp_pgdir p) T E' (a :: frames E (pages (pp_meta p)) ++ other) →
  uv_rep s' p' free' T E' other.
Proof.
  intros Hpt. destruct (in_entry_spec a Ha) as (Hu & HP & HPG & _ & _).
  split; rewrite ?Hmeta, ?Hdir, ?Hbytes.
  - eapply pt_rep_perm; [|exact Hpt]. by rewrite back_frames.
  - done.
  - simpl. intros j r Hj Hr. apply list_lookup_insert_Some in Hj as [(-> & <- & _)|[Hne Hj]].
    + destruct (uv_map _ _ _ _ _ _ Huv j q Hi He). split; simpl; try done.
      unfold E'. by rewrite upd_eq.
    + destruct (uv_map _ _ _ _ _ _ Huv j r Hj Hr).
      pose proof (page_no_inj _ _ _ _ _ _ j i r q Huv Hj Hi Hr He (not_eq_sym Hne)) as Hpn.
      split; try done; unfold E'; rewrite upd_ne by done; done.
  - simpl. intros j Hj. apply list_lookup_insert_Some in Hj as [(_ & [=] & _)|[Hne Hj]].
    by apply (uv_slots _ _ _ _ _ _ Huv).
  - apply Huv.
Qed.

Lemma back_user_data va d :
  (∀ x, x ∈ frames E (pages (pp_meta p)) → same_page (memory s) (memory s') x) →
  read_bytes (memory s') a PGSIZE = slot (swap_bytes (pp_swap p)) (offset q) →
  user_data s p E va d → user_data s' p' E' va d.
Proof.
  intros Hsame Hread (j & r & Hj & Hr & <- & <-). unfold user_data. rewrite Hmeta. exists j.
  destruct (decide (j = i)) as [->|Hne].
  - simplify_eq. eexists. split; [apply list_lookup_insert_eq; by eapply lookup_lt_Some|].
    do 2 (split; [done|]). unfold page_view. simpl. by rewrite back_frame, Hb, Hread.
  - assert (Hj' : pages (in_meta (pp_meta p) i q qu k) !! j = Some r) by (simpl; by rewrite list_lookup_insert_ne).
    exists r. do 3 (split; [done|]). unfold page_view. rewrite Hbytes.
    destruct (Z.eqb_spec (in_back r) 1) as [Hrb|Hrb]; [done|].
    rewrite back_frame_ne by (by eapply page_no_inj).
    apply read_bytes_ext. intros x Hx. apply (Hsame (frame E (vaddr r / PGSIZE))); [|done].
    eapply resident_frame; try done.
    pose proof (page_ok_at _ j r (uv_wf _ _ _ _ _ _ Huv) Hj) as Hok.
    destruct Hok as [[? _]|[_ [?|?]]]; lia.
Qed.
End back.

Lemma getPageFromBack_spec s p free T E held i q w :
  pt_rep kend s free (pp_pgdir p) T E held → vaddr q mod PGSIZE = 0 → is_u32 (vaddr q) →
  is_Some (T (vaddr q / PGSIZE / 1024)) → flagged (E (vaddr q / PGSIZE)) PTE_P = true →
  meta_wf (pp_meta p) → pages (pp_meta p) !! i = Some q → p_exists q = 1 → in_back q = 1 →
  0 ≤ offset q → offset q + PGSIZE ≤ Z.of_nat (length (swap_bytes (pp_swap p))) → swap_room (pp_swap p) w →
  ∃ f, getPageFromBack s p (vaddr q) (vaddr q) =
         Ret (1, set_memory s (write_bytes (memory s) (frame E (vaddr q / PGSIZE))
                                (slot (swap_bytes (pp_swap p)) (offset q))), with_swap p f) ∧
       swap_bytes f = swap_bytes (pp_swap p) ∧ swap_room f w.
Proof.
  intros Hpt Hal Hva HT HP Hwf Hi He Hb H0 Hlen Hroom. unfold getPageFromBack. rewrite (find_back _ i q) by done.
  destruct (swap_read_ok (pp_swap p) (offset q) PGSIZE w Hroom) as (f & Hrd & Hr & Hf); [unfold PGSIZE in *; lia|done|].
  rewrite Hrd. cbn [obind]. rewrite (proj2 (Z.ltb_ge _ _)) by lia.
  rewrite (translate_spec _ _ _ T E _ _ Hpt Hva HT HP). cbn [obind]. rewrite Hal, Z.add_0_r. by exists f.
Qed.

Lemma write_outside m a x l :
  length l = Z.to_nat PGSIZE → ¬ in_page a x → load8 (write_bytes m a l) x = load8 m x.
Proof. intros Hl Hx. rewrite write_bytes_spec, decide_False; [done|]. unfold in_page, PGSIZE in *. lia. Qed.

Lemma slot_length p k :
  PGSIZE * (Z.of_nat k + 1) ≤ Z.of_nat (length (swap_bytes (pp_swap p))) →
  length (slot (swap_bytes (pp_swap (F:=F) p)) (PGSIZE * Z.of_nat k)) = Z.to_nat PGSIZE.
Proof. intros Hk. unfold slot. rewrite length_take, length_drop. unfold PGSIZE in *. lia. Qed.

Lemma pageIn_spec s p a free T E other i q l w :
  uv_rep s p (a :: free) T E other → pages (pp_meta p) !! i = Some q → p_exists q = 1 → in_back q = 1 →
  queue_rep (pq (pp_meta p)) l → (length l < NPAGES)%nat → vaddr q ≠ 0 ∨ i = O → swap_room (pp_swap p) w →
  ∃ qu k s' p', let E' := upd E (vaddr q / PGSIZE) (in_entry a) in
    pageIn s p (vaddr q) = Ret (1, s', p') ∧ pp_pgdir p' = pp_pgdir p ∧
    pp_meta p' = in_meta (pp_meta p) i q qu k ∧ queue_rep qu (l ++ [back_page q]) ∧
    pp_pageouts p' = pp_pageouts p ∧ swap_room (pp_swap p') w ∧ uv_rep s' p' free T E' other ∧
    (∀ x, x ∈ other → same_page (memory s) (memory s') x) ∧
    ∀ va d, user_data s p E va d → user_data s' p' E' va d.
Proof.
  intros Huv Hi He Hb Hq Hl Hz Hroom. pose proof (uv_map _ _ _ _ _ _ Huv i q Hi He) as Hm.
  pose proof (uv_va_u32 _ _ _ Hm) as Hva. pose proof (page_no_range _ Hva) as Hn.
  pose proof (page_va _ _ _ Hm) as Hpva. destruct (pm_table _ _ _ Hm) as [t Ht].
  destruct (page_in_meta_wf _ l i q (uv_wf _ _ _ _ _ _ Huv) Hq Hl Hi Hb Hz)
    as (qu & k & Hoff & Hk & Hin & Hwf & Hrep).
  pose proof (uv_slots _ _ _ _ _ _ Huv k Hk) as Hkl.
  set (n := vaddr q / PGSIZE) in *. set (data := slot (swap_bytes (pp_swap p)) (offset q)).
  assert (Hdl : length data = Z.to_nat PGSIZE) by (unfold data; rewrite Hoff; by apply slot_length).
  (* the frame *)
  destruct (pt_rep_kalloc kend kend_kernel _ _ _ _ _ _ (uv_pt _ _ _ _ _ _ Huv))
    as (s1 & Hka & Hm1 & Ha & Hpt1).
  destruct (in_entry_spec a Ha) as (_ & HP & HPG & Hback & Hfr1).
  destruct (mappages_one kend kend_kernel _ _ _ _ _ _ n t (V2P a) (Z.lor PTE_U PTE_W) Hpt1 Hn Ht)
    as (s2 & Hmap & Hpt2 & Hsame2); [apply u32_range|done|by apply (pm_out _ _ _ Hm)|].
  rewrite Hpva in Hmap. set (E1 := upd E n (map_entry (V2P a) (Z.lor PTE_U PTE_W) 0)) in *.
  assert (HE1 : flagged (E1 n) PTE_P = true ∧ frame E1 n = a).
  { unfold frame, E1. rewrite upd_eq. split; [by apply flagged_set_same|done]. }
  (* the contents *)
  destruct (getPageFromBack_spec s2 p free T E1 _ i q w Hpt2) as (f & Hget & Hf & Hroom');
    [apply Hm|done|by exists t|apply HE1|apply Huv|done..|rewrite Hoff; unfold PGSIZE in *; lia|lia|done|].
  fold n data in Hget. rewrite (proj2 HE1) in Hget.
  set (s3 := set_memory s2 (write_bytes (memory s2) a data)) in *.
  assert (Hpt3 : pt_rep kend s3 free (pp_pgdir p) T E1 (a :: frames E (pages (pp_meta p)) ++ other)).
  { eapply pt_rep_held_write; [done|left|]. intros x. by apply write_outside. }
  (* the flags and the metadata *)
  destruct (clearPTE_FLAG_spec kend kend_kernel _ _ _ _ _ _ (vaddr q) t PTE_PG Hpt3 Hva Ht)
    as (s4 & Hcl & Hpt4 & Hsame4).
  destruct (setPTE_FLAG_spec kend kend_kernel _ _ _ _ _ _ (vaddr q) t PTE_P Hpt4 Hva Ht ltac:(done))
    as (s5 & Hset & Hpt5 & Hsame5). fold n in Hpt5. rewrite upd_eq in Hpt5. unfold E1 in Hpt5.
  rewrite upd_eq in Hpt5. fold (in_entry a) in Hpt5.
  assert (Hsame : ∀ x, x ∈ frames E (pages (pp_meta p)) ++ other → same_page (memory s) (memory s5) x).
  { intros x Hx. assert (Hx' : x ∈ a :: frames E (pages (pp_meta p)) ++ other) by by right.
    eapply same_page_trans; [|by apply Hsame5]. eapply same_page_trans; [|by apply Hsame4].
    rewrite <- Hm1. eapply same_page_trans; [by apply Hsame2|].
    destruct (held_not_free kend _ _ _ _ _ _ x a (uv_pt _ _ _ _ _ _ Huv) Hx) as [Hxa Hxm]; [left|].
    apply (same_page_outside _ _ a); [intros y; by apply write_outside|apply Ha|done|done]. }
  exists qu, k, s5. eexists. split.
  { unfold pageIn. rewrite Hka, (proj2 (Z.eqb_neq a 0)) by (by apply (valid_page_nonzero kend)).
    rewrite Hmap. cbn [obind]. change (negb (0 =? 0)) with false. cbv iota. rewrite Hget. cbn [obind].
    change (negb (c_true 1)) with false. cbv iota. cbn [pp_pgdir with_swap]. rewrite Hcl. cbn [obind].
    rewrite Hset. cbn [obind pp_meta with_swap]. rewrite Hin. cbn [obind].
    change (c_true 1) with true. done. }
  cbn [pp_pgdir pp_meta pp_pageouts pp_swap with_meta with_swap]. do 5 (split; [done|]). split.
  { eapply (back_uv_rep s p _ _ _ _ i q qu k a); try done. eapply pt_rep_ext; [|exact Hpt5].
    intros m _. fold n. unfold upd. by case_decide. }
  split; [intros x Hx; apply Hsame, elem_of_app; by right|].
  intros va d. eapply (back_user_data s p _ _ _ _ i q qu k a); try done.
  { intros x Hx. apply Hsame, elem_of_app. by left. }
  fold data. rewrite (read_bytes_ext (memory s3)).
  - change PGSIZE with (Z.of_nat (Z.to_nat PGSIZE)). rewrite <- Hdl. apply read_write_bytes.
    unfold data, slot. apply Forall_take, Forall_drop, Huv.
  - intros x Hx. rewrite <- (Hsame4 a) by (left || done). apply (Hsame5 a); [left|done].
Qed.

(** ** Choosing a victim

    The policies only clear accessed bits on the way. *)
Definition same_but_accessed (E E' : Z → Z) : Prop :=
  ∀ n, 0 ≤ n < VPAGES → clear_flag (E' n) PTE_A = clear_flag (E n) PTE_A.

Lemma land_accessed e e' g :
  is_u32 e → is_u32 e' → clear_flag e' PTE_A = clear_flag e PTE_A → Z.land PTE_A g = 0 →
  Z.land e' g = Z.land e g.
Proof.
  intros He He' Heq Hg. rewrite <- (land_clear_disjoint e' PTE_A g), <- (land_clear_disjoint e PTE_A g) by done.
  by rewrite Heq.
Qed.

Section accessed.
  Context (s s' : kstate) (p : pproc F) (free : list Z) (T : Z → option Z) (E E' : Z → Z) (other : list Z)
    (qu : page_queue).
  Context (Huv : uv_rep s p free T E other) (HE : same_but_accessed E E')
    (Hpt' : pt_rep kend s' free (pp_pgdir p) T E' (frames E (pages (pp_meta p)) ++ other))
    (Hsame : ∀ x, x ∈ frames E (pages (pp_meta p)) ++ other → same_page (memory s) (memory s') x).
Let p' := with_meta p (set_pq (pp_meta p) qu).

Lemma accessed_land n g : 0 ≤ n < VPAGES → Z.land PTE_A g = 0 → Z.land (E' n) g = Z.land (E n) g.
Proof.
  intros Hn Hg. apply land_accessed; [|by eapply entry_u32|by apply HE|done].
  eapply entry_u32; [apply Huv|done].
Qed.

Lemma accessed_frame i q :
  pages (pp_meta p) !! i = Some q → p_exists q = 1 → frame E' (vaddr q / PGSIZE) = frame E (vaddr q / PGSIZE).
Proof.
  intros Hi He. pose proof (uv_map _ _ _ _ _ _ Huv i q Hi He) as Hm. unfold frame, PTE_ADDR.
  rewrite accessed_land; [done|by eapply page_no_range, uv_va_u32|done].
Qed.

Lemma accessed_uv_rep : meta_wf (set_pq (pp_meta p) qu) → uv_rep s' p' free T E' other.
Proof.
  intros Hwf. split; cbn [pp_pgdir pp_meta pp_swap with_meta p' pages set_pq offsets].
  - replace (frames E' (pages (pp_meta p))) with (frames E (pages (pp_meta p))); [done|].
    unfold frames. apply list_fmap_ext. intros j va Hva.
    destruct (ram_vaddrs_elem (pp_meta p) va) as (j' & r & Hj & Hr & Hrb & <-);
      [apply Huv|by eapply list_elem_of_lookup_2|]. symmetry. by eapply accessed_frame.
  - done.
  - intros i q Hi He. pose proof (uv_map _ _ _ _ _ _ Huv i q Hi He) as [? ? ? Hin Hout].
    assert (Hfl : ∀ g, Z.land PTE_A g = 0 →
      flagged (E' (vaddr q / PGSIZE)) g = flagged (E (vaddr q / PGSIZE)) g).
    { intros g Hg. unfold flagged. rewrite accessed_land; [done| |done].
      apply page_no_range. unfold is_u32, KERNBASE in *. lia. }
    split; rewrite ?Hfl by done; done.
  - apply Huv.
  - apply Huv.
Qed.

Lemma accessed_user_data va d : user_data s p E va d → user_data s' p' E' va d.
Proof.
  intros (i & q & Hi & He & <- & <-). exists i, q. do 3 (split; [done|]). unfold page_view.
  destruct (Z.eqb_spec (in_back q) 1) as [Hb|Hb]; [done|]. rewrite (accessed_frame i q) by done.
  apply read_bytes_ext. intros x Hx. apply (Hsame (frame E (vaddr q / PGSIZE))); [|done].
  apply elem_of_app. left. eapply resident_frame; try done.
  pose proof (page_ok_at _ i q (uv_wf _ _ _ _ _ _ Huv) Hi) as Hok.
  destruct Hok as [[? _]|[_ [?|?]]]; lia.
Qed.
End accessed.

Lemma scfifo_loop_pres (R : ptab → Prop) :
  (∀ t va e, R t → is_u32 va → pte_get t va = Some e → R (pte_set t va (clear_flag e PTE_A))) →
  ∀ fuel t q l va t' q', queue_rep q l → l ≠ [] → Forall (λ x, is_u32 (vaddr x)) l → R t →
    scfifo_loop fuel t q = Ret (va, t', q') → R t'.
Proof.
  intros Hstep. induction fuel as [|fuel IH]; intros t q l va t' q' Hq Hne Hl HR; [done|].
  cbn [scfifo_loop]. destruct l as [|x l]; [done|]. apply Forall_cons in Hl as [Hx Hl].
  pose proof (queue_rep_length _ _ Hq) as Hlen.
  destruct (dequeue_spec q x l Hq) as (q1 & -> & Hq1). cbn [obind].
  destruct (pte_get t (vaddr x)) as [e|] eqn:He; [|done].
  destruct (flagged e PTE_A); [|intros [= _ <- _]; done].
  destruct (enqueue_spec q1 l x Hq1) as (q2 & -> & Hq2); [simpl in Hlen; lia| |].
  { pose proof (qr_live _ _ Hq) as Hlive. by apply Forall_cons in Hlive as [? _]. }
  cbn [obind]. eapply IH; [exact Hq2|by destruct l| |by apply Hstep].
  apply Forall_app_2; [done|]. by constructor.
Qed.

Lemma clear_flag_idem e f : is_u32 e → clear_flag (clear_flag e f) f = clear_flag e f.
Proof.
  intros He. unfold clear_flag. by rewrite <- Z.land_assoc, Z.land_diag.
Qed.

(** Clearing accessed bits through the page table of the machine. *)
Lemma accessed_step s free pgdir T E held : pt_rep kend s free pgdir T E held →
  let R t := ∃ s' E', t = mkPtab s' pgdir ∧ pt_rep kend s' free pgdir T E' held ∧
    same_but_accessed E E' ∧ ∀ x, x ∈ held → same_page (memory s) (memory s') x in
  R (mkPtab s pgdir) ∧
  ∀ t va e, R t → is_u32 va → pte_get t va = Some e → R (pte_set t va (clear_flag e PTE_A)).
Proof.
  intros Hpt R. split.
  { exists s, E. split; [done|]. split; [done|]. split; [by intros n Hn|by intros x _ y]. }
  intros t va e (s1 & E1 & -> & Hpt1 & HE & Hsame) Hva Hget.
  rewrite (ptab_get kend s1 free pgdir T E1 held va kend_kernel Hpt1 Hva) in Hget.
  destruct (T (va / PGSIZE / 1024)) as [t|] eqn:HT; [|done]. injection Hget as <-.
  pose proof (page_no_range va Hva) as Hn. pose proof (entry_u32 _ _ _ _ _ _ _ Hpt1 Hn) as Hu.
  destruct (pte_store kend kend_kernel _ _ _ _ _ _ _ _ (clear_flag (E1 (va / PGSIZE)) PTE_A) Hpt1 Hva HT)
    as [Hpt2 Hsame2]; [by apply clear_flag_u32|].
  eexists _, _. split; [done|]. split; [exact Hpt2|]. split.
  - intros n Hn'. unfold upd. case_decide as Hcase; [|by apply HE].
    rewrite clear_flag_idem, <- Hcase by done. subst n. by apply HE.
  - intros x Hx. eapply same_page_trans; [by apply Hsame|by apply Hsame2].
Qed.

(** The queue of SCFIFO and AQ lists mapped pages. *)
Lemma queue_pages pol s p free T E other l :
  uv_rep s p free T E other → queue_ok pol (pp_meta p) l → queue_policy pol →
  (∀ x, x ∈ l → ∃ i q, pages (pp_meta p) !! i = Some q ∧ p_exists q = 1 ∧ in_back q = 0 ∧ vaddr q = vaddr x) ∧
  mapped (mkPtab s (pp_pgdir p)) l ∧ NoDup (page_no <$> l).
Proof.
  intros Huv [Hwf Hq _ Hs] Hpol. specialize (Hs Hpol).
  assert (Hx : ∀ x, x ∈ l → ∃ i q, pages (pp_meta p) !! i = Some q ∧ p_exists q = 1 ∧
    in_back q = 0 ∧ vaddr q = vaddr x).
  { intros x Hx. apply ram_vaddrs_elem; [done|]. rewrite <- Hs. by apply list_elem_of_fmap_2. }
  split; [done|]. split.
  - apply Forall_forall. intros x Hin. destruct (Hx x Hin) as (i & q & Hi & He & Hb & <-).
    pose proof (uv_map _ _ _ _ _ _ Huv i q Hi He) as Hm. pose proof (uv_va_u32 _ _ _ Hm) as Hva.
    split; [done|]. rewrite (ptab_get kend _ _ _ _ _ _ _ kend_kernel (uv_pt _ _ _ _ _ _ Huv) Hva).
    apply fmap_is_Some, Hm.
  - pose proof (pt_nodup _ _ _ _ _ _ _ (uv_pt _ _ _ _ _ _ Huv)) as [_ Hnd]%NoDup_cons.
    apply NoDup_app in Hnd as (_ & _ & Hnd). apply NoDup_app in Hnd as (Hnd & _ & _).
    apply NoDup_app in Hnd as (Hnd & _ & _). unfold frames in Hnd. rewrite <- Hs in Hnd.
    rewrite <- list_fmap_compose in Hnd. apply (NoDup_fmap_1 (frame E)).
    rewrite <- list_fmap_compose. exact Hnd.
Qed.

(** What choosing a victim gives: the resident page [q], a shorter queue, and a
    page table with accessed bits cleared. *)
Definition selects (pol : policy) s (p : pproc F) free T E other (l : list page) : Prop :=
  ∃ i q l' s' E' qu, pages (pp_meta p) !! i = Some q ∧ p_exists q = 1 ∧ in_back q = 0 ∧
    select_page_to_back pol (mkPtab s (pp_pgdir p)) (pp_meta p) =
      Ret (vaddr q, mkPtab s' (pp_pgdir p), set_pq (pp_meta p) qu) ∧
    queue_rep qu l' ∧ length l = S (length l') ∧
    (queue_policy pol → vaddr q :: (vaddr <$> l') ≡ₚ vaddr <$> l) ∧ same_but_accessed E E' ∧
    pt_rep kend s' free (pp_pgdir p) T E' (frames E (pages (pp_meta p)) ++ other) ∧
    ∀ y, y ∈ frames E (pages (pp_meta p)) ++ other → same_page (memory s) (memory s') y.

(** A page of the queue, under SCFIFO and AQ. *)
Lemma select_from_queue pol s p free T E other l x l' s' E' qu :
  uv_rep s p free T E other → queue_ok pol (pp_meta p) l → queue_policy pol →
  select_page_to_back pol (mkPtab s (pp_pgdir p)) (pp_meta p) =
    Ret (vaddr x, mkPtab s' (pp_pgdir p), set_pq (pp_meta p) qu) →
  queue_rep qu l' → x :: l' ≡ₚ l → same_but_accessed E E' →
  pt_rep kend s' free (pp_pgdir p) T E' (frames E (pages (pp_meta p)) ++ other) →
  (∀ y, y ∈ frames E (pages (pp_meta p)) ++ other → same_page (memory s) (memory s') y) →
  selects pol s p free T E other l.
Proof.
  intros Huv Hok Hpol Hsel Hq' Hperm HE Hpt Hsame. destruct (queue_pages _ _ _ _ _ _ _ _ Huv Hok Hpol) as (Hx & _ & _).
  destruct (Hx x) as (i & q & Hi & He & Hb & Hv); [rewrite <- Hperm; by left|].
  exists i, q, l', s', E', qu. rewrite Hv. split_and!; try done.
  - by apply Permutation_length in Hperm.
  - intros _. by rewrite <- fmap_cons, Hperm.
Qed.

(** A page of the metadata, under NFUA and LAPA, which touch no accessed bit. *)
Lemma select_from_pages pol s p free T E other l q :
  uv_rep s p free T E other → queue_ok pol (pp_meta p) l → l ≠ [] → ¬ queue_policy pol →
  q ∈ pages (pp_meta p) → in_ram q = true →
  (∀ x qu, dequeue (pq (pp_meta p)) = Ret (x, qu) →
     select_page_to_back pol (mkPtab s (pp_pgdir p)) (pp_meta p) =
       Ret (vaddr q, mkPtab s (pp_pgdir p), set_pq (pp_meta p) qu)) →
  selects pol s p free T E other l.
Proof.
  intros Huv Hok Hne Hpol Hq Hr Hsel. apply list_elem_of_lookup in Hq as [i Hi].
  destruct (in_ram_spec _ i q (qo_wf _ _ _ Hok) Hi Hr) as [He Hb].
  destruct l as [|x l']; [done|]. destruct (dequeue_spec _ _ _ (qo_queue _ _ _ Hok)) as (qu & Hdq & Hq').
  exists i, q, l', s, E, qu. split_and!; try done; [by eapply Hsel|apply (uv_pt _ _ _ _ _ _ Huv)].
Qed.

Lemma select_victim pol s p free T E other l :
  uv_rep s p free T E other → queue_ok pol (pp_meta p) l → l ≠ [] → selects pol s p free T E other l.
Proof.
  intros Huv Hok Hne. pose proof (qo_queue _ _ _ Hok) as Hq. pose proof (uv_pt _ _ _ _ _ _ Huv) as Hpt.
  pose proof (queue_ok_resident _ _ _ Hok Hne) as Hex. destruct (accessed_step _ _ _ _ _ _ Hpt) as [HR0 Hstep]. destruct pol.
  - destruct (nfua_min_spec _ Hex) as (Hin & Hr & _). eapply select_from_pages; try done; [by intros [|]|].
    intros x qu Hd. cbn [select_page_to_back]. unfold select_nfua. by rewrite Hd.
  - destruct (lapa_min_in _ Hex) as [Hin Hr]. eapply select_from_pages; try done; [by intros [|]|].
    intros x qu Hd. cbn [select_page_to_back]. unfold select_lapa. by rewrite Hd.
  - destruct (queue_pages _ _ _ _ _ _ _ _ Huv Hok) as (_ & Hmap & Hnd); [by left|].
    assert (Hwf : pte_wf (mkPtab s (pp_pgdir p))) by (by exists kend, free, T, E, (frames E (pages (pp_meta p)) ++ other)).
    destruct (select_scfifo_ok _ _ l Hwf Hq Hne Hmap Hnd)
      as (x & l' & pre & t' & m' & Hspec & Hsel & _ & _ & Hq' & Hpg & Hoffs).
    pose proof Hsel as Hsel'. unfold select_scfifo in Hsel'.
    apply obind_Ret_inv in Hsel' as ([[va t1] q1] & Hloop & Hret). injection Hret as -> -> <-.
    assert (Hu : Forall (λ y, is_u32 (vaddr y)) l) by (eapply Forall_impl; [exact Hmap|]; by intros y [? _]).
    destruct (scfifo_loop_pres _ Hstep _ _ _ _ _ _ _ Hq Hne Hu HR0 Hloop)
      as (s' & E' & -> & Hpt' & HE & Hsame).
    eapply select_from_queue; try done; [by left|]. unfold scfifo_spec in Hspec. destruct (list_find _ l) as [[i y]|] eqn:Hf.
    + injection Hspec as -> <- _. apply list_find_Some in Hf as (Hi & _ & _).
      rewrite <- (take_drop_middle l i x Hi) at 3. rewrite <- Permutation_middle. f_equiv.
      apply Permutation_app_comm.
    + destruct l as [|y l2]; [done|]. by injection Hspec as -> -> _.
  - destruct l as [|x l']; [done|]. destruct (dequeue_spec _ _ _ Hq) as (q1 & Hdq & Hq1).
    eapply (select_from_queue AQ _ _ _ _ _ _ _ x l' s E q1); try done; [by right|].
    cbn [select_page_to_back]. unfold select_aq. by rewrite Hdq.
Qed.

Lemma meta_wf_set_pq m qu : meta_wf m → meta_wf (set_pq m qu).
Proof. by intros []. Qed.

Lemma queue_ok_out pol m i q k qu l l' :
  queue_ok pol m l → meta_wf (out_meta (set_pq m qu) i q k) → queue_rep qu l' →
  pages m !! i = Some q → p_exists q = 1 → in_back q = 0 → length l = S (length l') →
  (queue_policy pol → vaddr q :: (vaddr <$> l') ≡ₚ vaddr <$> l) → queue_ok pol (out_meta (set_pq m qu) i q k) l'.
Proof.
  intros [Hm _ Hl Hs] Hwf Hq' Hi He Hb Hlen Hperm. pose proof (ram_vaddrs_out (set_pq m qu) i q k Hi He Hb) as Hr.
  split; try done.
  - apply Permutation_length in Hr. simpl in Hr. simpl. lia.
  - intros Hp. apply (Permutation_cons_inv (a := vaddr q)). by rewrite Hr, Hperm, Hs.
Qed.

Lemma queue_ok_in pol m i q k qu l :
  queue_ok pol m l → meta_wf (in_meta m i q qu k) → queue_rep qu (l ++ [back_page q]) →
  pages m !! i = Some q → in_back q = 1 → queue_ok pol (in_meta m i q qu k) (l ++ [back_page q]).
Proof.
  intros [Hm _ Hl Hs] Hwf Hq' Hi Hb. pose proof (ram_vaddrs_in m i q qu k Hi Hb) as Hr. split; try done.
  - apply Permutation_length in Hr. simpl in Hr. rewrite length_app. simpl. lia.
  - intros Hp. rewrite Hr, fmap_app, (Hs Hp). by rewrite (comm (++)).
Qed.

(** Evicting a page, under each policy. *)
Lemma evict_spec pol s p free T E other l w :
  uv_rep s p free T E other → queue_ok pol (pp_meta p) l → l ≠ [] →
  numOfPagedOut (pp_meta p) ≤ MAX_PSYC_PAGES → swap_room (pp_swap p) (S w) →
  ∃ i q k qu fr s' p' E' l', pages (pp_meta p) !! i = Some q ∧ p_exists q = 1 ∧ in_back q = 0 ∧
    evict kend pol s p = Ret (s', p') ∧ pp_pgdir p' = pp_pgdir p ∧
    pp_meta p' = out_meta (set_pq (pp_meta p) qu) i q k ∧ queue_ok pol (pp_meta p') l' ∧
    length l = S (length l') ∧ swap_room (pp_swap p') w ∧
    uv_rep s' p' (fr :: free) T E' other ∧ (∀ x, x ∈ other → same_page (memory s) (memory s') x) ∧
    ∀ va d, user_data s p E va d → user_data s' p' E' va d.
Proof.
  intros Huv Hok Hne Hout Hroom.
  destruct (select_victim pol _ _ _ _ _ _ l Huv Hok Hne)
    as (i & q & l' & s1 & E1 & qu & Hi & He & Hb & Hsel & Hq' & Hlen & Hperm & HE & Hpt1 & Hsame1).
  set (p1 := with_meta p (set_pq (pp_meta p) qu)) in *.
  pose proof (meta_wf_set_pq _ qu (uv_wf _ _ _ _ _ _ Huv)) as Hwf1.
  pose proof (accessed_uv_rep _ _ _ _ _ _ _ _ qu Huv HE Hpt1 Hwf1) as Huv1. fold p1 in Huv1.
  destruct (pageOut_spec _ _ _ _ _ _ i q w Huv1 Hi He Hb Hout Hroom)
    as (k & s' & p' & Hpo & Hdir & Hmeta & _ & Hoff & Hroom' & Huv' & Hsame2 & Hdata).
  eexists i, q, k, qu, _, s', p', _, l'. do 3 (split; [done|]). split.
  { unfold evict. rewrite Hsel. cbn [obind pt_kernel]. fold p1. rewrite Hpo. done. }
  split; [done|]. split; [done|]. split.
  { rewrite Hmeta. eapply queue_ok_out; try done. change (set_pq (pp_meta p) qu) with (pp_meta p1). rewrite <- Hmeta. apply Huv'. }
  split; [done|]. split; [done|]. split; [exact Huv'|]. split.
  - intros y Hy. eapply same_page_trans; [apply Hsame1, elem_of_app; by right|by apply Hsame2].
  - intros va d Hd. apply Hdata. by eapply (accessed_user_data s s1 p).
Qed.

(** The page that came in, and the state it came into. *)
Lemma safe_page_in_spec pol s p free T E other l i q w :
  uv_rep s p free T E other → queue_ok pol (pp_meta p) l →
  pages (pp_meta p) !! i = Some q → p_exists q = 1 → in_back q = 1 → vaddr q ≠ 0 ∨ i = O →
  Z.of_nat (length l) ≤ MAX_PSYC_PAGES → (Z.of_nat (length l) < MAX_PSYC_PAGES → free ≠ []) →
  numOfPagedOut (pp_meta p) ≤ MAX_PSYC_PAGES → swap_room (pp_swap p) (S w) →
  ∃ s' p' free' E' l' j r, ∀ va, is_u32 va → va / PGSIZE = vaddr q / PGSIZE →
    safe_page_in kend pol s p va = Ret (1, s', p') ∧ uv_rep s' p' free' T E' other ∧
    queue_ok pol (pp_meta p') l' ∧ Z.of_nat (length l') ≤ MAX_PSYC_PAGES ∧ swap_room (pp_swap p') w ∧
    pages (pp_meta p') !! j = Some r ∧ p_exists r = 1 ∧ in_back r = 0 ∧ vaddr r = vaddr q ∧
    (∀ x, x ∈ other → same_page (memory s) (memory s') x) ∧
    ∀ va d, user_data s p E va d → user_data s' p' E' va d.
Proof.
  intros Huv Hok Hi He Hb Hz Hram Hmem Hout Hroom.
  assert (Hround : ∀ va, is_u32 va → va / PGSIZE = vaddr q / PGSIZE → PGROUNDDOWN va = vaddr q).
  { intros va Hva Hpn. rewrite PGROUNDDOWN_page, Hpn by done. eapply page_va, (uv_map _ _ _ _ _ _ Huv i); done. }
  assert (Hgo : ∃ s1 p1 a free1 E1 l1,
    (if Z.eqb (numOfPagedIn (pp_meta p)) MAX_PSYC_PAGES then evict kend pol s p else Ret (s, p)) = Ret (s1, p1) ∧
    uv_rep s1 p1 (a :: free1) T E1 other ∧ queue_ok pol (pp_meta p1) l1 ∧
    Z.of_nat (length l1) < MAX_PSYC_PAGES ∧ swap_room (pp_swap p1) w ∧ pages (pp_meta p1) !! i = Some q ∧
    (∀ x, x ∈ other → same_page (memory s) (memory s1) x) ∧
    ∀ va d, user_data s p E va d → user_data s1 p1 E1 va d).
  { rewrite (queue_ok_count _ _ _ Hok). destruct (Z.eqb_spec (Z.of_nat (length l)) MAX_PSYC_PAGES) as [Hfull|Hless].
    - destruct (evict_spec pol _ _ _ _ _ _ l w Huv Hok) as
        (i' & q' & k & qu & fr & s1 & p1 & E1 & l1 & Hi' & He' & Hb' & Hev & _ & Hmeta & Hok1 & Hlen & Hr1 & Huv1 & Hs & Hd);
        [by destruct l|done|done|].
      exists s1, p1, fr, free, E1, l1. do 3 (split; [done|]). split; [lia|]. split; [done|]. split; [|done].
      rewrite Hmeta. simpl. rewrite list_lookup_insert_ne; [done|]. intros ->. simplify_eq. lia.
    - destruct free as [|a free1]; [exfalso; apply Hmem; [lia|done]|].
      exists s, p, a, free1, E, l. do 3 (split; [done|]). split; [lia|]. split; [by apply swap_room_S|]. split; [done|].
      split; [by intros x _ y|done]. }
  destruct Hgo as (s1 & p1 & a & free1 & E1 & l1 & Hev & Huv1 & Hok1 & Hlen1 & Hr1 & Hi1 & Hs1 & Hd1).
  assert (Hl1 : (length l1 < NPAGES)%nat) by (rewrite NPAGES_eq; unfold MAX_PSYC_PAGES in *; lia).
  destruct (pageIn_spec _ _ _ _ _ _ _ i q l1 w Huv1 Hi1 He Hb (qo_queue _ _ _ Hok1) Hl1 Hz Hr1)
    as (qu & k & s2 & p2 & Hpi & _ & Hmeta & Hqr & _ & Hr2 & Huv2 & Hs2 & Hd2).
  eexists s2, p2, free1, _, (l1 ++ [back_page q]), i, (back_page q). intros va Hva Hpn. split.
  { unfold safe_page_in. rewrite Hev. cbn [obind]. by rewrite Hround. }
  split; [exact Huv2|]. split; [rewrite Hmeta; apply queue_ok_in; try done; rewrite <- Hmeta; apply Huv2|].
  split; [rewrite length_app; simpl; lia|]. split; [done|].
  split; [rewrite Hmeta; apply list_lookup_insert_eq; by eapply lookup_lt_Some|]. do 3 (split; [done|]). split.
  - intros x Hx. eapply same_page_trans; [by apply Hs1|by apply Hs2].
  - intros va' d Hd. by apply Hd2, Hd1.
Qed.
End demand.

(** ** A reference swap file: a list of bytes of bounded length *)

Definition byte_file : Type := list Z.

#[export] Instance byte_file_ops : SwapOps byte_file := {
  swap_read f off n :=
    if Z.ltb (Z.of_nat (length f)) off then Ret (-1, [], f)
    else let d := take (Z.to_nat n) (drop (Z.to_nat off) f) in Ret (Z.of_nat (length d), d, f);
  swap_write f data off :=
    if Z.ltb (Z.of_nat (length f)) off || Z.ltb MAXFILE_BYTES (off + Z.of_nat (length data)) then Ret (-1, f)
    else Ret (Z.of_nat (length data), put_slot f data off) }.

#[export] Instance byte_file_view : SwapView byte_file := { swap_bytes f := f; swap_room _ _ := True }.

#[export] Instance byte_file_laws : SwapLaws byte_file.
Proof.
  split; cbn.
  - done.
  - intros f data off _ _ Ho _ Hm. rewrite (proj2 (Z.ltb_ge _ _)), (proj2 (Z.ltb_ge _ _)) by lia. eauto.
  - intros f off k _ _ Ho Hn. rewrite (proj2 (Z.ltb_ge _ _)) by lia. eauto.
Qed.

(** ** A process with as many resident pages as it may have *)

(** It has 17 pages: the first 16 are resident, in the frames from
    [demo_page 2] on, the last is in slot 0 of its swap file; no page is free. *)
Definition full_entry (n : Z) : Z :=
  if Z.ltb n 16 then Z.lor (V2P (demo_page (n + 2))) 7 else Z.lor (Z.lor PTE_PG PTE_U) PTE_W.
Definition put_entry (s : kstate) (n : Z) : kstate :=
  set_memory s (store32 (memory s) (demo_page 1 + 4 * (n mod 1024)) (full_entry n)).
Definition full_kernel : kstate :=
  foldl put_entry (mkKstate (store32 (λ _, 0) (demo_page 0 + 4 * 0) (Z.lor (V2P (demo_page 1)) 7)) 0 1 0) (seqZ 0 17).
Definition full_E : Z → Z := foldl (λ E n, upd E n (full_entry n)) (λ _, 0) (seqZ 0 17).
Definition full_meta : p_meta :=
  out_meta (set_pq (fresh_meta (new_pages 17)) (pq (fresh_meta (new_pages 16)))) 16 (new_page 65536) 0.
Definition full_out {F} (fl : F) : pproc F := mkPproc (demo_page 0) full_meta fl 1.

Lemma put_entries kend s free T E held l :
  pt_rep kend s free (demo_page 0) T E held → T 0 = Some (demo_page 1) → Forall (λ n, 0 ≤ n < 1024) l →
  pt_rep kend (foldl put_entry s l) free (demo_page 0) T (foldl (λ E n, upd E n (full_entry n)) E l) held.
Proof.
  intros Hpt HT Hl. revert s E Hpt. induction Hl as [|n l Hn _ IH]; intros s E Hpt; [done|]. cbn [foldl]. apply IH.
  apply pt_rep_store; [done|unfold VPAGES; lia|by rewrite Z.div_small|].
  unfold full_entry. destruct (Z.ltb n 16); [|by vm_compute]. by apply lor_u32; [apply u32_range|].
Qed.

Lemma full_queue pol : queue_ok pol full_meta (new_pages 16).
Proof.
  destruct (new_pages_inv 17) as [Hm _ _]; [by vm_compute; lia|]. destruct (new_pages_inv 16) as [_ Hq _]; [by vm_compute; lia|].
  destruct (evict_meta_inv (set_pq (fresh_meta (new_pages 17)) (pq (fresh_meta (new_pages 16)))) 16 (new_page 65536) (new_pages 16))
    as (k & Hk & _ & _ & Hinv & _); [by destruct Hm|exact Hq|done|done|done| |].
  { apply (bool_decide_unpack _). vm_compute. done. }
  change (getFreePageOffset _) with 0 in Hk. assert (k = O) as -> by (unfold PGSIZE in Hk; lia).
  by apply queue_ok_of_inv.
Qed.

Lemma full_uv_rep {F} `{!SwapView F} (fl : F) :
  PGSIZE ≤ Z.of_nat (length (swap_bytes fl)) → Forall is_byte (swap_bytes fl) →
  uv_rep (KERNBASE + EXTMEM) full_kernel (full_out fl) [] demo_T full_E [].
Proof.
  intros Hlen Hbytes.
  assert (H0 : pt_rep (KERNBASE + EXTMEM) (mkKstate (λ _, 0) 0 1 0) [] (demo_page 0) (λ _, None) (λ _, 0)
    (demo_page 1 :: map demo_page (seqZ 2 16))).
  { apply (zero_rep _ [] (demo_page 0)); [|by apply (bool_decide_unpack _); vm_compute|by left].
    do 2 (constructor; [by apply demo_page_valid|]). apply Forall_forall. intros x Hx%list_elem_of_In%in_map_iff.
    destruct Hx as (k & <- & Hk%list_elem_of_In%elem_of_seqZ). apply demo_page_valid. lia. }
  eapply (pt_rep_link _ _ _ _ _ _ _ 0 _ (Z.lor (V2P (demo_page 1)) 7)) in H0;
    [|done|done|by intros x _|by vm_compute..].
  eapply (put_entries _ _ _ _ _ _ (seqZ 0 17)) in H0; [|apply upd_eq|by apply (bool_decide_unpack _); vm_compute].
  split; [exact H0|apply (full_queue SCFIFO)| | |].
  - intros i q Hi Hq. assert (Hall : Forall (λ q, p_exists q = 1 → page_map demo_T full_E q) (pages full_meta)); [|by eapply (Forall_lookup_1 _ _ i q Hall)].
    clear. change (pages full_meta) with (new_pages 16 ++ mkPage 1 65536 1 0 0 0xffffffff :: replicate 15 zero_page).
    apply Forall_app_2; [|constructor; [intros _; by split|by apply Forall_replicate]].
    apply Forall_fmap, Forall_forall. intros k [_ Hk]%elem_of_seq _. do 16 (destruct k as [|k]; [by split|]). lia.
  - intros [|k]; [intros _; exact Hlen|].
    intros Hk. change (replicate 31 0 !! k = Some 1) in Hk. apply lookup_replicate_1 in Hk as [? _]. done.
  - exact Hbytes.
Qed.
