(* ===== verification/AddressSpace.v ===== *)
(** * Lifetime of address spaces

    Shrinking and freeing an address space gives back every page it owns, and
    growing the running process preserves its memory: theorems on
    [deallocuvm], [freevm] and [allocuvm]. *)
From stdpp Require Import base list strings.
From Stdlib Require Import ZArith Lia.
From S2P Require Import Prelude Mmu Memory Kalloc Paging Replacement PageTable Swap Demand.

(** The frames of the present pages with numbers [m] up to [m + c]. *)
Definition present_frame (E : Z → Z) (n : Z) : option Z :=
  if flagged (E n) PTE_P then Some (frame E n) else None.
Fixpoint present_frames (E : Z → Z) (m : Z) (c : nat) : list Z :=
  match c with
  | O => []
  | S c' => match present_frame E m with
            | Some f => f :: present_frames E (m + 1) c'
            | None => present_frames E (m + 1) c'
            end
  end.

(** The entries after the pages of a range have been unmapped. *)
Definition unmapped (E : Z → Z) (m c : Z) : Z → Z :=
  λ n, if decide (m ≤ n < m + c) then (if flagged (E n) PTE_P then 0 else E n) else E n.

Lemma present_frames_ext E E' m c :
  (∀ n, m ≤ n < m + Z.of_nat c → E' n = E n) → present_frames E' m c = present_frames E m c.
Proof.
  revert m. induction c as [|c IH]; intros m Hext; simpl; [done|].
  rewrite IH by (intros; apply Hext; lia). unfold present_frame, frame. by rewrite Hext by lia.
Qed.

Lemma present_frames_skip E d : ∀ m c,
  (∀ n, m ≤ n < m + Z.of_nat d → present_frame E n = None) →
  present_frames E m (d + c) = present_frames E (m + Z.of_nat d) c.
Proof.
  induction d as [|d IH]; intros m c Hnone; simpl; [by rewrite Z.add_0_r|].
  rewrite Hnone by lia. rewrite IH by (intros; apply Hnone; lia). f_equal. lia.
Qed.

Section teardown.
  Context (kend : Z) (kend_kernel : KERNBASE + EXTMEM ≤ kend) {F : Type}.

(** [pgdir] is not the page table of the running process. *)
Definition idle (v : vstate (F := F)) (pgdir : Z) : Prop :=
  match vp v with Some p => pgdir ≠ pp_pgdir p | None => True end.

Lemma forget_idle v pgdir a : idle v pgdir → forget_running v pgdir a = Ret v.
Proof.
  unfold idle, forget_running. destruct (vp v) as [p|]; [|done]. intros Hne.
  by rewrite (proj2 (Z.eqb_neq _ _) Hne).
Qed.

(** The address [deallocuvm] jumps to when a table is missing. *)
Lemma next_table m :
  0 ≤ m < 2 ^ 19 →
  u32 (u32 (PGADDR (PDX (PGSIZE * m) + 1) 0 0 - PGSIZE) + PGSIZE) = PGSIZE * (1024 * (m / 1024 + 1)).
Proof.
  intros Hm. assert (Hq : 0 ≤ m / 1024 < 512).
  { split; [apply Z.div_pos; lia|apply Z.div_lt_upper_bound; lia]. }
  rewrite PDX_page by (unfold is_u32, PGSIZE; lia).
  replace (PGSIZE * m / PGSIZE) with m by (rewrite Z.mul_comm, Z.div_mul; done).
  unfold PGADDR. rewrite !Z.shiftl_mul_pow2 by (unfold PDXSHIFT, PTXSHIFT; lia).
  rewrite Z.lor_0_r. cbn [Z.mul]. rewrite Z.lor_0_r. unfold PDXSHIFT.
  rewrite (u32_small ((m / 1024 + 1) * 2 ^ 22)) by (unfold is_u32; lia).
  rewrite (u32_small ((m / 1024 + 1) * 2 ^ 22 - PGSIZE)) by (unfold is_u32, PGSIZE; lia).
  rewrite u32_small; unfold is_u32, PGSIZE; lia.
Qed.

Definition dealloc_goal (c : nat) : Prop := ∀ fuel (v : vstate (F := F)) free pgdir T E other m oldsz,
  (c ≤ fuel)%nat → 0 ≤ m → m + Z.of_nat c ≤ 2 ^ 19 →
  PGSIZE * (m + Z.of_nat c) - PGSIZE < oldsz ∨ c = O → oldsz ≤ PGSIZE * (m + Z.of_nat c) →
  idle v pgdir → pt_rep kend (vk v) free pgdir T E (present_frames E m c ++ other) →
  ∃ v' free', dealloc_loop kend fuel v pgdir (PGSIZE * m) oldsz = Ret v' ∧ vp v' = vp v ∧
    pt_rep kend (vk v') free' pgdir T (unmapped E m (Z.of_nat c)) other ∧
    free' ≡ₚ present_frames E m c ++ free ∧
    ∀ x, x ∈ other → same_page (memory (vk v)) (memory (vk v')) x.

Lemma dealloc_stop fuel (v : vstate (F := F)) pgdir a oldsz : oldsz ≤ a → dealloc_loop kend fuel v pgdir a oldsz = Ret v.
Proof. intros Ha. destruct fuel; simpl; by rewrite (proj2 (Z.ltb_ge _ _) Ha). Qed.

Lemma unmapped_skip E m d c n :
  (∀ n, m ≤ n < m + d → present_frame E n = None) →
  unmapped E m (d + c) n = unmapped E (m + d) c n ∨ d < 0 ∨ c < 0.
Proof.
  intros Hnone. destruct (decide (d < 0 ∨ c < 0)) as [|Hd]; [tauto|]. left. unfold unmapped.
  destruct (decide (m ≤ n < m + (d + c))) as [H1|H1], (decide (m + d ≤ n < m + d + c)) as [H2|H2]; try done; try lia.
  specialize (Hnone n ltac:(lia)). unfold present_frame in Hnone. by destruct (flagged (E n) PTE_P).
Qed.

(** The directory entry of page [m] has no table: every page up to the next one is absent. *)
Lemma dealloc_skip c fuel (v : vstate (F := F)) free pgdir T E other m oldsz :
  (∀ c', (c' < S c)%nat → dealloc_goal c') →
  (c ≤ fuel)%nat → 0 ≤ m → m + Z.of_nat (S c) ≤ 2 ^ 19 → oldsz ≤ PGSIZE * (m + Z.of_nat (S c)) →
  PGSIZE * (m + Z.of_nat (S c)) - PGSIZE < oldsz →
  idle v pgdir → pt_rep kend (vk v) free pgdir T E (present_frames E m (S c) ++ other) →
  T (m / 1024) = None →
  ∃ v' free', dealloc_loop kend fuel v pgdir (PGSIZE * (1024 * (m / 1024 + 1))) oldsz = Ret v' ∧
    vp v' = vp v ∧ pt_rep kend (vk v') free' pgdir T (unmapped E m (Z.of_nat (S c))) other ∧
    free' ≡ₚ present_frames E m (S c) ++ free ∧
    ∀ x, x ∈ other → same_page (memory (vk v)) (memory (vk v')) x.
Proof.
  intros IH Hf Hm Hhi Ho Ho' Hid Hpt HT. set (m' := 1024 * (m / 1024 + 1)).
  assert (Hm' : m < m' ≤ m + 1024).
  { unfold m'. pose proof (Z.div_mod m 1024). pose proof (Z.mod_pos_bound m 1024). lia. }
  assert (Hnone : ∀ n, m ≤ n < m' → present_frame E n = None).
  { intros n Hn. unfold present_frame. rewrite (pt_none _ _ _ _ _ _ _ Hpt); [done| |].
    - unfold VPAGES. pose proof (Z.div_lt_upper_bound m 1024 512 ltac:(lia) ltac:(lia)). unfold m' in *. lia.
    - replace (n / 1024) with (m / 1024); [done|]. unfold m' in Hn.
      pose proof (Z.div_mod m 1024). pose proof (Z.mod_pos_bound m 1024).
      apply (Z.div_unique _ _ _ (n - 1024 * (m / 1024))); lia. }
  set (d := Z.to_nat (m' - m)). destruct (decide (m + Z.of_nat (S c) ≤ m')) as [Hend|Hmore].
  - rewrite dealloc_stop by (unfold PGSIZE in *; lia).
    assert (Hnil : present_frames E m (S c) = []).
    { rewrite <- (Nat.add_0_r (S c)), present_frames_skip; [done|]. intros; apply Hnone; lia. }
    rewrite Hnil in *. exists v, free. split; [done|]. split; [done|]. split; [|done].
    eapply pt_rep_ext; [|exact Hpt]. intros n _. unfold unmapped. case_decide; [|done].
    specialize (Hnone n ltac:(lia)). unfold present_frame in Hnone. by destruct (flagged (E n) PTE_P).
  - assert (Hsplit : S c = (d + (S c - d))%nat) by lia.
    assert (Hpf : present_frames E m (S c) = present_frames E m' (S c - d)).
    { rewrite Hsplit at 1. rewrite present_frames_skip by (intros; apply Hnone; lia). f_equal. lia. }
    rewrite Hpf in *.
    destruct (IH (S c - d)%nat ltac:(lia) fuel v free pgdir T E other m' oldsz) as (v' & free' & Hrun & Hvp & Hpt' & Hrest);
      [lia|lia|lia|left; unfold PGSIZE in *; lia|unfold PGSIZE in *; lia|done|done|].
    exists v', free'. split; [done|]. split; [done|]. split; [|done].
    eapply pt_rep_ext; [|exact Hpt']. intros n _.
    destruct (unmapped_skip E m (m' - m) (Z.of_nat (S c - d)) n) as [Heq|]; [intros; apply Hnone; lia| |lia].
    replace (m' - m + Z.of_nat (S c - d)) with (Z.of_nat (S c)) in Heq by lia.
    replace (m + (m' - m)) with m' in Heq by lia. done.
Qed.

Lemma dealloc_loop_spec c : dealloc_goal c.
Proof.
  induction c as [c IH] using lt_wf_ind.
  intros fuel v free pgdir T E other m oldsz Hf Hm Hhi Hlo Ho Hid Hpt.
  destruct c as [|c].
  { rewrite dealloc_stop by (unfold PGSIZE in *; lia). exists v, free. do 2 (split; [done|]). split; [|done].
    eapply pt_rep_ext; [|exact Hpt]. intros n _. unfold unmapped. rewrite decide_False by lia. done. }
  destruct Hlo as [Hlo|]; [|done]. destruct fuel as [|fuel]; [lia|]. cbn [dealloc_loop].
  rewrite (proj2 (Z.ltb_lt _ _)) by (unfold PGSIZE in *; lia). cbn [negb].
  assert (Hva : is_u32 (PGSIZE * m)) by (unfold is_u32, PGSIZE; lia).
  assert (Hpn : PGSIZE * m / PGSIZE = m) by (rewrite Z.mul_comm; by apply Z.div_mul).
  assert (Hnext : u32 (PGSIZE * m + PGSIZE) = PGSIZE * (m + 1)) by (rewrite u32_small; unfold is_u32, PGSIZE; lia).
  destruct (T (m / 1024)) as [t|] eqn:HT.
  2: { rewrite (pte_addr_null kend _ _ _ _ _ _ _ Hpt Hva) by (by rewrite Hpn). cbn [Z.eqb].
       rewrite next_table by lia. eapply dealloc_skip; try done; lia. }
  destruct (pte_addr_table kend kend_kernel _ _ _ _ _ _ _ t Hpt Hva) as (Hpa & Hnz & Hld); [by rewrite Hpn|].
  rewrite Hpn in Hpa, Hld. rewrite (proj2 (Z.eqb_neq _ _) Hnz), Hld.
  pose proof (IH c ltac:(lia)) as IHc. specialize (IHc fuel).
  destruct (flagged (E m) PTE_P) eqn:HP.
  - assert (Hpf : present_frames E m (S c) = frame E m :: present_frames E (m + 1) c).
    { simpl. unfold present_frame at 1. by rewrite HP. }
    rewrite Hpf in Hpt |- *.
    assert (Hfv : valid_page kend (frame E m)).
    { eapply pt_valid_in; [exact Hpt|]. right. apply elem_of_app. right. apply elem_of_app. left. left. }
    assert (Hpa0 : PTE_ADDR (E m) ≠ 0).
    { intros Hz. apply valid_page_range in Hfv; [|done]. unfold frame in Hfv. rewrite Hz in Hfv.
      change (P2V 0) with KERNBASE in Hfv. unfold EXTMEM in Hfv. lia. }
    rewrite (proj2 (Z.eqb_neq _ _) Hpa0), forget_idle by done. cbn [obind]. fold (frame E m).
    destruct (pt_rep_kfree kend kend_kernel _ _ _ _ _ _ _ (frame E m) Hpt (Permutation_refl _)) as (s1 & -> & Hpt1 & Hs1).
    cbn [obind]. rewrite Hpa.
    assert (Hpt2 : pt_rep kend (set_memory s1 (store32 (memory s1) (t + 4 * (m mod 1024)) 0))
      (frame E m :: free) pgdir T (upd E m 0) (present_frames (upd E m 0) (m + 1) c ++ other)).
    { rewrite (present_frames_ext E) by (intros; apply upd_ne; lia).
      apply pt_rep_store; [done|unfold VPAGES; lia|done|done]. }
    rewrite Hnext.
    destruct (IHc (set_vk v (set_memory s1 (store32 (memory s1) (t + 4 * (m mod 1024)) 0)))
      (frame E m :: free) pgdir T (upd E m 0) other (m + 1) oldsz)
      as (v' & free' & Hrun & Hvp & Hpt' & Hperm & Hs');
      [lia..|destruct c; [by right|left; unfold PGSIZE in *; lia]|unfold PGSIZE in *; lia|done|done|].
    exists v', free'. split; [done|]. split; [done|]. split.
    { eapply pt_rep_ext; [|exact Hpt']. intros n Hn. unfold unmapped, upd.
      destruct (decide (n = m)) as [->|Hne].
      - rewrite decide_True by lia. rewrite HP. rewrite decide_False by lia. done.
      - destruct (decide (m ≤ n < m + Z.of_nat (S c))), (decide (m + 1 ≤ n < m + 1 + Z.of_nat c)); done || lia. }
    split.
    { rewrite Hperm. rewrite (present_frames_ext E) by (intros; apply upd_ne; lia).
      by rewrite <- Permutation_middle. }
    intros x Hx. eapply same_page_trans; [|by apply Hs']. cbn [vk set_vk memory set_memory].
    destruct (held_not_free kend _ _ _ _ _ _ x (frame E m) Hpt1) as [Hxf Hxm];
      [apply elem_of_app; by right|left|].
    eapply same_page_trans; [by apply Hs1|].
    destruct (pte_store kend kend_kernel _ _ _ _ _ _ (PGSIZE * m) t 0 Hpt1 Hva) as [_ Hst];
      [by rewrite Hpn|done|].
    destruct (pte_addr_table kend kend_kernel _ _ _ _ _ _ _ t Hpt1 Hva) as (Hpa1 & _); [by rewrite Hpn|].
    rewrite Hpa1, Hpn in Hst. apply Hst, elem_of_app. by right.
  - assert (Hpf : present_frames E m (S c) = present_frames E (m + 1) c).
    { simpl. unfold present_frame at 1. by rewrite HP. }
    rewrite Hpf in Hpt |- *. rewrite Hnext.
    destruct (IHc v free pgdir T E other (m + 1) oldsz)
      as (v' & free' & Hrun & Hvp & Hpt' & Hperm & Hs');
      [lia..|destruct c; [by right|left; unfold PGSIZE in *; lia]|unfold PGSIZE in *; lia|done|done|].
    exists v', free'. split; [done|]. split; [done|]. split; [|done].
    eapply pt_rep_ext; [|exact Hpt']. intros n Hn. unfold unmapped.
    destruct (decide (m ≤ n < m + Z.of_nat (S c))), (decide (m + 1 ≤ n < m + 1 + Z.of_nat c)); try done; try lia.
    assert (n = m) as -> by lia. by rewrite HP.
Qed.

(** The table pages of the directory entries from [i] on. *)
Fixpoint tables_from (T : Z → option Z) (i : Z) (n : nat) : list Z :=
  match n with
  | O => []
  | S k => match T i with Some t => t :: tables_from T (i + 1) k | None => tables_from T (i + 1) k end
  end.

Lemma tables_from_omap T n : ∀ i, tables_from T i n = omap T (seqZ i (Z.of_nat n)).
Proof.
  induction n as [|n IH]; intros i; [done|]. cbn [tables_from].
  rewrite seqZ_cons by lia. replace (Z.pred (Z.of_nat (S n))) with (Z.of_nat n) by lia.
  replace (Z.succ i) with (i + 1) by lia. rewrite !IH. simpl. by destruct (T i).
Qed.

Lemma tables_from_all T : tables T = tables_from T 0 (Z.to_nat NPDENTRIES).
Proof. rewrite tables_from_omap. unfold tables, dirs. by rewrite (seal_eq dirs_aux). Qed.

Lemma free_tables_spec T pgdir n : ∀ s free i,
  free_rep kend s free → valid_page kend pgdir → 0 ≤ i → i + Z.of_nat n = NDIR →
  (∀ j, i ≤ j < NDIR → let pde := load32 (memory s) (pgdir + 4 * j) in
    match T j with
    | Some t => flagged pde PTE_P = true ∧ P2V (PTE_ADDR pde) = t
    | None => flagged pde PTE_P = false
    end) →
  Forall (valid_page kend) (tables_from T i n) → NoDup (pgdir :: tables_from T i n ++ free) →
  ∃ s' free', free_tables kend n s pgdir i = Ret s' ∧ free_rep kend s' free' ∧
    free' ≡ₚ tables_from T i n ++ free ∧
    ∀ x, x mod PGSIZE = 0 → x ∉ tables_from T i n → same_page (memory s) (memory s') x.
Proof.
  induction n as [|n IH]; intros s free i Hf Hpd Hi Hin Hdir Hv Hnd; cbn [free_tables tables_from] in *.
  { exists s, free. split; [done|]. split; [done|]. split; [done|]. by intros x _ _ y. }
  pose proof (Hdir i ltac:(lia)) as Hdi. cbv zeta in Hdi. destruct (T i) as [t|] eqn:HT.
  - destruct Hdi as [-> ->]. apply Forall_cons in Hv as [Ht Hv].
    assert (Hnd' : NoDup (pgdir :: tables_from T (i + 1) n ++ t :: free)).
    { rewrite <- Permutation_middle. done. }
    assert (Hpt : pgdir ≠ t) by (intros ->; apply NoDup_cons in Hnd as [Hni _]; apply Hni; left).
    destruct (kfree_spec kend kend_kernel s free t Hf Ht) as (s1 & -> & Hf1 & Hm1).
    { apply NoDup_cons in Hnd as [_ Hnd]. rewrite <- app_comm_cons in Hnd.
      apply NoDup_cons in Hnd as [Hni _]. intros Hin'. apply Hni, elem_of_app. by right. }
    cbn [obind].
    assert (Hs1 : ∀ x, x mod PGSIZE = 0 → x ≠ t → same_page (memory s) (memory s1) x).
    { intros x Hx Hxt. apply (same_page_outside _ _ t); [done|apply Ht|done|done]. }
    destruct (IH s1 (t :: free) (i + 1)) as (s' & free' & Hrun & Hf' & Hperm & Hs'); try done; try lia.
    { intros j Hj. rewrite (load32_same_page (memory s)); [apply Hdir; lia|apply Hs1; [apply Hpd|done]|].
      unfold NDIR, PGSIZE in *. lia. }
    exists s', free'. split; [done|]. split; [done|].
    split; [by rewrite Hperm, <- Permutation_middle|].
    intros x Hx [Hxt Hxl]%not_elem_of_cons. eapply same_page_trans; [by apply Hs1|by apply Hs'].
  - rewrite Hdi. cbn [obind]. apply IH; try done; [lia|lia|]. intros j Hj. apply Hdir. lia.
Qed.

Lemma freevm_spec v free pgdir T E other c :
  Z.of_nat c = KERNBASE / PGSIZE → idle v pgdir →
  pt_rep kend (vk v) free pgdir T E (present_frames E 0 c ++ other) →
  ∃ v' free', freevm kend v pgdir = Ret v' ∧ vp v' = vp v ∧ free_rep kend (vk v') free' ∧
    free' ≡ₚ pgdir :: tables T ++ present_frames E 0 c ++ free ∧
    ∀ x, x ∈ other → same_page (memory (vk v)) (memory (vk v')) x.
Proof.
  intros Hc Hid Hpt. change (KERNBASE / PGSIZE) with 524288 in Hc.
  assert (Hpd : valid_page kend pgdir) by (eapply pt_valid_in; [exact Hpt|left]).
  unfold freevm. rewrite (proj2 (Z.eqb_neq _ _)) by (by apply (valid_page_nonzero kend)).
  unfold deallocuvm. change (KERNBASE <=? 0) with false. cbv iota.
  change (PGROUNDUP 0) with (PGSIZE * 0).
  assert (Hfuel : (c ≤ S (Z.to_nat (KERNBASE / PGSIZE)))%nat).
  { change (KERNBASE / PGSIZE) with 524288. lia. }
  destruct (dealloc_loop_spec c _ v free pgdir T E other 0 KERNBASE Hfuel)
    as (v1 & free1 & -> & Hvp1 & Hpt1 & Hperm1 & Hs1); try done; try lia.
  { left. unfold PGSIZE, KERNBASE. lia. } { unfold PGSIZE, KERNBASE. lia. }
  cbn [obind]. pose proof Hpt1 as [Hf1 Hd1 _ _ Hv1 Hnd1]. rewrite tables_from_all in Hv1, Hnd1 |- *.
  destruct (free_tables_spec T pgdir (Z.to_nat NPDENTRIES) (vk v1) free1 0) as (s2 & free2 & Hft & Hf2 & Hperm2 & Hs2);
    [done|done|done|done|done| | |].
  { apply Forall_cons in Hv1 as [_ Hv1]. by apply Forall_app in Hv1 as [? _]. }
  { rewrite (Permutation_app_comm other), app_assoc, app_comm_cons in Hnd1. by apply NoDup_app in Hnd1 as [? _]. }
  rewrite Hft. cbn [obind].
  assert (Hni : pgdir ∉ free2).
  { apply NoDup_cons in Hnd1 as [Hni _]. rewrite Hperm2. rewrite !elem_of_app in *. tauto. }
  destruct (kfree_spec kend kend_kernel s2 free2 pgdir Hf2 Hpd Hni) as (s3 & -> & Hf3 & Hm3). cbn [obind].
  exists (set_vk v1 s3), (pgdir :: free2). split; [done|]. split; [done|]. split; [done|].
  split; [by rewrite Hperm2, Hperm1|]. intros x Hx. cbn [vk set_vk].
  assert (Hxv : x mod PGSIZE = 0).
  { eapply pt_valid_in; [exact Hpt1|]. rewrite elem_of_cons, !elem_of_app. auto. }
  apply NoDup_cons in Hnd1 as [Hni1 Hnd1]. apply NoDup_app in Hnd1 as (_ & Hdis & _).
  eapply same_page_trans; [by apply Hs1|]. eapply same_page_trans.
  - apply Hs2; [done|]. intros Hxt. apply (Hdis x Hxt), elem_of_app. by left.
  - apply (same_page_outside _ _ pgdir); [done|apply Hpd|done|]. intros ->. apply Hni1. rewrite !elem_of_app. auto.
Qed.
End teardown.

(** ** Properties *)

(** C6: freeing an address space leaks nothing.  [freevm] of a page table that
    is not the running process's terminates and puts back on the free list the
    directory, every table page and the frame of every present user page, each
    exactly once; the running process and the pages of others are untouched. *)
Theorem freevm_frees_all {F} kend (v : vstate (F := F)) free pgdir T E other c :
  KERNBASE + EXTMEM ≤ kend → Z.of_nat c = KERNBASE / PGSIZE → idle v pgdir →
  pt_rep kend (vk v) free pgdir T E (present_frames E 0 c ++ other) →
  ∃ v' free', freevm kend v pgdir = Ret v' ∧ vp v' = vp v ∧ free_rep kend (vk v') free' ∧
    free' ≡ₚ pgdir :: tables T ++ present_frames E 0 c ++ free ∧
    ∀ x, x ∈ other → same_page (memory (vk v)) (memory (vk v')) x.
Proof. intros Hk. by apply freevm_spec. Qed.

Lemma demo_present c : c ≠ O → present_frames demo_E 0 c = [demo_page 2].
Proof.
  destruct c as [|c]; [done|]. intros _. cbn [present_frames].
  change (present_frame demo_E 0) with (Some (demo_page 2)). cbv iota. f_equal.
  rewrite <- (Nat.add_0_r c), present_frames_skip; [done|]. intros n Hn.
  unfold present_frame, demo_E. by rewrite upd_ne by lia.
Qed.

Lemma freevm_frees_all_witness :
  let v := mkVstate (F := byte_file) demo_kernel None in let c := Z.to_nat (KERNBASE / PGSIZE) in
  ∃ v' free', freevm (KERNBASE + EXTMEM) v (demo_page 0) = Ret v' ∧ vp v' = None ∧
    free_rep (KERNBASE + EXTMEM) (vk v') free' ∧
    free' ≡ₚ demo_page 0 :: tables demo_T ++ present_frames demo_E 0 c ++ [] ∧
    ∀ x, x ∈ [demo_page 3] → same_page (memory demo_kernel) (memory (vk v')) x.
Proof.
  cbv zeta. apply (freevm_frees_all (KERNBASE + EXTMEM) (mkVstate demo_kernel None) [] (demo_page 0)
    demo_T demo_E [demo_page 3]); [done|by rewrite Z2Nat.id|done|].
  rewrite demo_present; [apply demo_rep|]. change (KERNBASE / PGSIZE) with 524288. lia.
Defined.
