(* ===== verification/Spinlock.v ===== *)
(** * Spin locks and interrupt masking (spinlock.c)

    The locks of the kernel as CPUs see them: every access of [acquire] and
    [release] to a lock is a step of its own, so that the steps of different
    CPUs interleave in any order. *)
From stdpp Require Import base list strings.
From Stdlib Require Import ZArith Lia.
From S2P Require Import Prelude.

(** ** One CPU *)

(** The interrupt flag FL_IF, and [ncli] and [intena] of [struct cpu]. *)
Record cpu := mkCpu { FL_IF : bool; ncli : Z; intena : bool }.

Definition pushcli (c : cpu) : cpu :=
  mkCpu false (ncli c + 1) (if Z.eqb (ncli c) 0 then FL_IF c else intena c).

Definition popcli (c : cpu) : outcome cpu :=
  if FL_IF c then Panic "popcli - interruptible"
  else
    let n := ncli c - 1 in
    if Z.ltb n 0 then Panic "popcli"
    else Ret (mkCpu (Z.eqb n 0 && intena c) n (intena c)).

(** [lk->cpu] is the index of a CPU; [name] and [pcs] only serve debugging. *)
Record spinlock := mkLock { locked : bool; lk_cpu : option nat }.

Definition initlock : spinlock := mkLock false None.
Definition holding (lk : spinlock) (me : nat) : bool := locked lk && bool_decide (lk_cpu lk = Some me).

(** [getcallerpcs]: [stack] gives the word at an address of the kernel stack. *)
Fixpoint getcallerpcs_loop (n : nat) (stack : Z → Z) (ebp : Z) : list Z :=
  match n with
  | O => []
  | S k =>
      if Z.eqb ebp 0 || Z.ltb ebp 0x80000000 || Z.eqb ebp 0xffffffff then replicate n 0
      else stack (u32 (ebp + 4)) :: getcallerpcs_loop k stack (stack ebp)
  end.
Definition getcallerpcs (stack : Z → Z) (v : Z) : list Z := getcallerpcs_loop 10 stack (u32 (v - 8)).

(** ** CPUs that interleave *)

(** Where a CPU is in the lock code: running other code, spinning on the [xchg]
    of lock [k], having won it but not yet recorded itself, or having cleared
    [lk->cpu] but not yet [lk->locked]. *)
Inductive where_ := Run | Spin (k : nat) | Got (k : nat) | Rel (k : nat).

Record machine := mkMachine { cpus : nat → cpu; pc : nat → where_; locks : nat → spinlock }.

Definition set {A} (f : nat → A) (i : nat) (x : A) : nat → A := λ j, if decide (j = i) then x else f j.

(** [acquire] up to the loop. *)
Definition acquire_enter (m : machine) (c k : nat) : outcome machine :=
  let m1 := mkMachine (set (cpus m) c (pushcli (cpus m c))) (pc m) (locks m) in
  if holding (locks m k) c then Panic "acquire" else Ret (mkMachine (cpus m1) (set (pc m) c (Spin k)) (locks m)).
(** One turn of [while(xchg(&lk->locked, 1) != 0)]. *)
Definition acquire_xchg (m : machine) (c k : nat) : machine :=
  let old := locked (locks m k) in
  mkMachine (cpus m) (if old then pc m else set (pc m) c (Got k))
    (set (locks m) k (mkLock true (lk_cpu (locks m k)))).
(** [lk->cpu = mycpu()]. *)
Definition acquire_record (m : machine) (c k : nat) : machine :=
  mkMachine (cpus m) (set (pc m) c Run) (set (locks m) k (mkLock (locked (locks m k)) (Some c))).
(** [release] up to [lk->cpu = 0]. *)
Definition release_enter (m : machine) (c k : nat) : outcome machine :=
  if holding (locks m k) c
  then Ret (mkMachine (cpus m) (set (pc m) c (Rel k)) (set (locks m) k (mkLock (locked (locks m k)) None)))
  else Panic "release".
(** The store of 0 to [lk->locked] and [popcli]. *)
Definition release_exit (m : machine) (c k : nat) : outcome machine :=
  let! c' := popcli (cpus m c) in
  Ret (mkMachine (set (cpus m) c c') (set (pc m) c Run)
         (set (locks m) k (mkLock false (lk_cpu (locks m k))))).

(** The steps of CPU [c].  Code outside the lock code may turn interrupts on and
    off while no [pushcli] is pending. *)
Inductive step (m : machine) : machine → Prop :=
| step_enter c k m' : pc m c = Run → acquire_enter m c k = Ret m' → step m m'
| step_xchg c k : pc m c = Spin k → step m (acquire_xchg m c k)
| step_record c k : pc m c = Got k → step m (acquire_record m c k)
| step_release c k m' : pc m c = Run → release_enter m c k = Ret m' → step m m'
| step_exit c k m' : pc m c = Rel k → release_exit m c k = Ret m' → step m m'
| step_sti c b : pc m c = Run → ncli (cpus m c) = 0 →
    step m (mkMachine (set (cpus m) c (mkCpu b 0 (intena (cpus m c)))) (pc m) (locks m)).

Definition boot : machine := mkMachine (λ _, mkCpu false 0 false) (λ _, Run) (λ _, initlock).

Inductive reachable : machine → Prop :=
| reach_boot : reachable boot
| reach_step m m' : reachable m → step m m' → reachable m'.

(** ** Ownership *)

(** CPU [c] is between the winning [xchg] and the store of 0 on lock [k]. *)
Definition owns (m : machine) (c k : nat) : Prop :=
  lk_cpu (locks m k) = Some c ∨ pc m c = Got k ∨ pc m c = Rel k.

(** Pending [pushcli]s: one per owned lock and one for the lock being waited for. *)
Record lock_inv (m : machine) : Prop := mk_lock_inv {
  li_owner k c : owns m c k → locked (locks m k) = true;
  li_unique k c c' : owns m c k → owns m c' k → c = c';
  li_cli c : ∃ own : list nat, NoDup own ∧ (∀ k, k ∈ own ↔ owns m c k) ∧
    ncli (cpus m c) = Z.of_nat (length own) + (match pc m c with Spin _ => 1 | _ => 0 end);
  li_if c : 0 < ncli (cpus m c) → FL_IF (cpus m c) = false;
  (* a CPU that has won a lock, or is giving it up, is not recorded in it *)
  li_rec c k : pc m c = Got k ∨ pc m c = Rel k → lk_cpu (locks m k) = None }.

Lemma set_eq {A} (f : nat → A) i x : set f i x i = x.
Proof. unfold set. by rewrite decide_True. Qed.
Lemma set_ne {A} (f : nat → A) i x j : j ≠ i → set f i x j = f j.
Proof. intros. unfold set. by rewrite decide_False. Qed.

(** The invariant when ownership does not change and each CPU's [ncli] follows its [pc]. *)
Lemma lock_inv_same m m' :
  lock_inv m → (∀ c k, owns m' c k ↔ owns m c k) →
  (∀ k, locked (locks m k) = true → locked (locks m' k) = true) →
  (∀ c, ncli (cpus m' c) - (match pc m' c with Spin _ => 1 | _ => 0 end) =
        ncli (cpus m c) - (match pc m c with Spin _ => 1 | _ => 0 end)) →
  (∀ c, 0 < ncli (cpus m' c) → FL_IF (cpus m' c) = false) →
  (∀ c k, pc m' c = Got k ∨ pc m' c = Rel k → lk_cpu (locks m' k) = None) → lock_inv m'.
Proof.
  intros [Hl Hu Hc Hif Hr] Ho Hlk Hn Hif' Hr'. split; try done.
  - intros k c Hown. apply Hlk. by eapply Hl, Ho.
  - intros k c c' H1 H2. apply (Hu k); by apply Ho.
  - intros c. destruct (Hc c) as (own & Hnd & Hin & Hncli). exists own. split; [done|].
    split; [intros k; by rewrite Hin, Ho|]. specialize (Hn c). lia.
Qed.

Lemma lock_inv_ncli m c : lock_inv m → 0 ≤ ncli (cpus m c).
Proof. intros [_ _ Hc _ _]. destruct (Hc c) as (own & _ & _ & ->). destruct (pc m c); lia. Qed.

Lemma enter_inv m c k m' :
  lock_inv m → pc m c = Run → acquire_enter m c k = Ret m' → lock_inv m'.
Proof.
  intros Hi Hpc. unfold acquire_enter. destruct (holding _ _); [done|]. intros [= <-].
  pose proof (lock_inv_ncli m c Hi). apply (lock_inv_same m); simpl; try done.
  - intros c' k'. unfold owns. simpl. unfold set. case_decide; subst; [|done]. rewrite Hpc. naive_solver.
  - intros c'. unfold set. case_decide; subst; [|done]. rewrite Hpc. simpl. lia.
  - intros c'. unfold set. case_decide; subst; [done|]. by apply (li_if m Hi).
  - intros c' k'. unfold set. case_decide; [naive_solver|]. by apply (li_rec m Hi).
Qed.

Lemma record_inv m c k : lock_inv m → pc m c = Got k → lock_inv (acquire_record m c k).
Proof.
  intros Hi Hpc. pose proof (li_rec m Hi c k (or_introl Hpc)) as Hnone.
  assert (Hown : owns m c k) by (right; by left).
  apply (lock_inv_same m); simpl; try done.
  - intros c' k'. unfold owns. simpl. unfold set.
    destruct (decide (k' = k)) as [->|Hk], (decide (c' = c)) as [->|Hc]; simpl; rewrite ?Hnone, ?Hpc;
      naive_solver.
  - intros k'. unfold set. case_decide; subst; done.
  - intros c'. unfold set. case_decide; subst; [|done]. by rewrite Hpc.
  - apply Hi.
  - intros c' k'. unfold set. destruct (decide (c' = c)); [naive_solver|]. intros Hc'.
    case_decide; [subst|by apply (li_rec m Hi c')]. exfalso. apply n.
    apply (li_unique m Hi k); [unfold owns; naive_solver|done].
Qed.

Lemma release_enter_inv m c k m' :
  lock_inv m → pc m c = Run → release_enter m c k = Ret m' → lock_inv m'.
Proof.
  intros Hi Hpc. unfold release_enter. destruct (holding _ _) eqn:Hh; [|done]. intros [= <-].
  apply andb_true_iff in Hh as [Hlk Hcpu%bool_decide_eq_true].
  apply (lock_inv_same m); simpl; try done.
  - intros c' k'. unfold owns. simpl. unfold set.
    destruct (decide (k' = k)) as [->|Hk], (decide (c' = c)) as [->|Hc]; simpl; rewrite ?Hcpu, ?Hpc;
      naive_solver.
  - intros k'. unfold set. case_decide; subst; done.
  - intros c'. unfold set. case_decide; subst; [|done]. by rewrite Hpc.
  - apply Hi.
  - intros c' k'. unfold set. destruct (decide (c' = c)) as [->|].
    + intros [|[= ->]]; [done|]. by rewrite decide_True.
    + intros Hc'. case_decide; [done|by apply (li_rec m Hi c')].
Qed.

Lemma xchg_inv m c k : lock_inv m → pc m c = Spin k → lock_inv (acquire_xchg m c k).
Proof.
  intros Hi Hpc. unfold acquire_xchg. destruct (locked (locks m k)) eqn:Hlk.
  - apply (lock_inv_same m); simpl; try done; [..|apply Hi|].
    + intros c' k'. unfold owns. simpl. unfold set. case_decide; subst; done.
    + intros k'. unfold set. case_decide; done.
    + intros c' k' Hc'. unfold set. case_decide; subst; simpl; by apply (li_rec m Hi c').
  - assert (Hno : ∀ c', ¬ owns m c' k) by (intros c' Ho; apply (li_owner m Hi) in Ho; congruence).
    assert (Hown : ∀ c' k', owns (mkMachine (cpus m) (set (pc m) c (Got k))
      (set (locks m) k (mkLock true (lk_cpu (locks m k))))) c' k' ↔ owns m c' k' ∨ (c' = c ∧ k' = k)).
    { intros c' k'. unfold owns. simpl. unfold set.
      destruct (decide (k' = k)) as [->|], (decide (c' = c)) as [->|]; simpl; rewrite ?Hpc; naive_solver. }
    split; simpl.
    + intros k' c' [Ho|[-> ->]]%Hown; [|by rewrite set_eq].
      unfold set. case_decide; [done|]. by apply (li_owner m Hi k' c').
    + intros k' c1 c2 [H1|[-> ->]]%Hown [H2|[-> H2]]%Hown; subst; try done.
      * by apply (li_unique m Hi k').
      * by apply Hno in H1.
      * by apply Hno in H2.
    + intros c'. destruct (li_cli m Hi c') as (own & Hnd & Hin & Hn). destruct (decide (c' = c)) as [->|Hc].
      * exists (k :: own). split; [constructor; [|done]; rewrite Hin; apply Hno|].
        split; [intros k'; rewrite elem_of_cons, Hin, Hown; naive_solver|].
        rewrite set_eq. rewrite Hn, Hpc. simpl. lia.
      * exists own. split; [done|]. split; [intros k'; rewrite Hin, Hown; naive_solver|]. by rewrite set_ne.
    + apply Hi.
    + intros c' k' Hc'. assert (Hnone : lk_cpu (locks m k) = None).
      { destruct (lk_cpu (locks m k)) as [c2|] eqn:Hc2; [|done]. exfalso. apply (Hno c2). by left. }
      unfold set in *. destruct (decide (k' = k)); [exact Hnone|]. apply (li_rec m Hi c').
      destruct (decide (c' = c)); [naive_solver|done].
Qed.

Lemma release_exit_inv m c k m' :
  lock_inv m → pc m c = Rel k → release_exit m c k = Ret m' → lock_inv m'.
Proof.
  intros Hi Hpc. unfold release_exit. unfold popcli. destruct (FL_IF (cpus m c)) eqn:Hif; [done|].
  destruct (Z.ltb_spec (ncli (cpus m c) - 1) 0) as [|Hn0]; [done|]. cbn [obind]. intros [= <-].
  pose proof (li_rec m Hi c k (or_intror Hpc)) as Hnone.
  assert (Hck : owns m c k) by (right; by right).
  assert (Huniq : ∀ c', owns m c' k → c' = c) by (intros c' Ho; by apply (li_unique m Hi k)).
  set (m' := mkMachine _ _ _).
  assert (Hown : ∀ c' k', owns m' c' k' ↔ owns m c' k' ∧ k' ≠ k).
  { intros c' k'. specialize (Huniq c'). unfold owns in *. subst m'. simpl. unfold set.
    destruct (decide (k' = k)) as [->|], (decide (c' = c)) as [->|]; simpl; rewrite ?Hnone, ?Hpc in *; naive_solver. }
  split.
  - intros k' c' [Ho Hk]%Hown. simpl. rewrite set_ne by done. by apply (li_owner m Hi k' c').
  - intros k' c1 c2 [H1 _]%Hown [H2 _]%Hown. by apply (li_unique m Hi k').
  - intros c'. destruct (li_cli m Hi c') as (own & Hnd & Hin & Hn). destruct (decide (c' = c)) as [->|Hc].
    + assert (Hko : k ∈ own) by by apply Hin. apply list_elem_of_split in Hko as (l1 & l2 & ->).
      rewrite <- Permutation_middle in Hnd. apply NoDup_cons in Hnd as [Hni Hnd].
      exists (l1 ++ l2). split; [done|]. split.
      * intros k'. rewrite Hown, <- Hin, !elem_of_app, elem_of_cons. rewrite elem_of_app in Hni. naive_solver.
      * simpl. rewrite !set_eq. simpl. rewrite Hn, Hpc, !length_app. simpl. lia.
    + exists own. split; [done|]. split; [|simpl; by rewrite !set_ne].
      intros k'. rewrite Hown, Hin. split; [|naive_solver]. intros Ho. split; [done|]. intros ->. auto.
  - intros c'. simpl. unfold set. case_decide; subst; [|apply Hi]. simpl. intros Hpos.
    by rewrite (proj2 (Z.eqb_neq _ _)) by lia.
  - intros c' k'. simpl. unfold set. destruct (decide (c' = c)); [naive_solver|]. intros Hc'.
    case_decide; subst; [done|by apply (li_rec m Hi c')].
Qed.

Lemma sti_inv m c b : lock_inv m → pc m c = Run → ncli (cpus m c) = 0 →
  lock_inv (mkMachine (set (cpus m) c (mkCpu b 0 (intena (cpus m c)))) (pc m) (locks m)).
Proof.
  intros Hi Hpc Hn. apply (lock_inv_same m); simpl; try done.
  - intros c'. unfold set. case_decide; subst; [|done]. by rewrite Hpc, Hn.
  - intros c'. unfold set. case_decide; subst; simpl; [lia|apply Hi].
  - intros c' k'. apply (li_rec m Hi c').
Qed.

Lemma reachable_inv m : reachable m → lock_inv m.
Proof.
  induction 1 as [|m m' _ IH Hs].
  - split; simpl; try done.
    + intros k c [?|[?|?]]; done.
    + intros k c c' [?|[?|?]]; done.
    + intros c. exists []. split; [constructor|]. split; [|done]. intros k.
      split; [by intros ?%elem_of_nil|]. intros [?|[?|?]]; done.
  - destruct Hs as [c k m' Hpc He|c k Hpc|c k Hpc|c k m' Hpc He|c k m' Hpc He|c b Hpc Hn];
      eauto using enter_inv, xchg_inv, record_inv, release_enter_inv, release_exit_inv, sti_inv.
Qed.

(** ** Properties *)

(** C10: mutual exclusion.  Whatever the interleaving of the CPUs, between the
    [xchg] that wins a lock and the store that frees it no other CPU owns the
    lock, the lock word is set, and the owner runs with interrupts off. *)
Theorem spinlock_mutual_exclusion m c k :
  reachable m → owns m c k →
  locked (locks m k) = true ∧ FL_IF (cpus m c) = false ∧ ∀ c', owns m c' k → c' = c.
Proof.
  intros Hr Ho. pose proof (reachable_inv m Hr) as Hi. split; [by apply (li_owner m Hi k c)|]. split.
  - apply (li_if m Hi). destruct (li_cli m Hi c) as (own & _ & Hin & ->). apply Hin in Ho.
    destruct own; [by apply elem_of_nil in Ho|]. simpl. destruct (pc m c); lia.
  - intros c' Ho'. by apply (li_unique m Hi k).
Qed.

(** CPU 0 acquires lock 3. *)
Definition cpu0_holds : machine :=
  match acquire_enter boot 0 3 with Ret m => acquire_record (acquire_xchg m 0 3) 0 3 | _ => boot end.

Lemma spinlock_mutual_exclusion_witness :
  locked (locks cpu0_holds 3) = true ∧ FL_IF (cpus cpu0_holds 0) = false ∧
  ∀ c', owns cpu0_holds c' 3 → c' = 0%nat.
Proof.
  apply (spinlock_mutual_exclusion cpu0_holds 0 3); [|by left].
  eapply reach_step; [eapply reach_step; [eapply reach_step; [apply reach_boot|]|]|].
  - by apply (step_enter boot 0 3).
  - by apply (step_xchg _ 0 3).
  - by apply (step_record _ 0 3).
Defined.

(** [pushcli] and [popcli] nest: after any number of [pushcli]s the same
    number of [popcli]s succeeds and restores the interrupt flag and the depth,
    interrupts staying off in between. *)
Theorem pushcli_popcli_nest n c :
  ncli c = 0 → ∃ c' : cpu, Nat.iter n pushcli c = c' ∧ (0 < n → FL_IF c' = false)%nat ∧
    ∃ c'', Nat.iter n (λ o, obind o popcli) (Ret c') = Ret c'' ∧ FL_IF c'' = FL_IF c ∧ ncli c'' = 0.
Proof.
  intros H0. eexists. split; [done|].
  assert (Hup : ∀ n, (0 < n)%nat → Nat.iter n pushcli c = mkCpu false (Z.of_nat n) (FL_IF c)).
  { induction n0 as [|n0 IH]; [lia|]. intros _. destruct n0 as [|n0].
    - simpl. unfold pushcli. by rewrite H0.
    - rewrite Nat.iter_succ, IH by lia. unfold pushcli. simpl. f_equal. lia. }
  split; [intros Hn; by rewrite Hup|].
  assert (Hdown : ∀ k d, (k ≤ d)%nat → Nat.iter (S k) (λ o, obind o popcli)
    (Ret (mkCpu false (Z.of_nat (S d)) (FL_IF c))) =
      Ret (mkCpu (Nat.eqb k d && FL_IF c) (Z.of_nat (d - k)) (FL_IF c))).
  { induction k as [|k IH]; intros d Hk.
    - simpl. unfold popcli. simpl. rewrite (proj2 (Z.ltb_ge _ _)) by lia.
      do 3 f_equal; [|lia]. destruct d; simpl; [done|]. by rewrite (proj2 (Z.eqb_neq _ _)) by lia.
    - rewrite Nat.iter_succ, IH by lia. simpl. unfold popcli.
      rewrite (proj2 (Nat.eqb_neq k d)) by lia. simpl. rewrite (proj2 (Z.ltb_ge _ _)) by lia.
      do 2 f_equal; [|lia]. destruct d as [|d]; [lia|]. simpl. f_equal.
      destruct (Nat.eqb_spec k d); [apply Z.eqb_eq|apply Z.eqb_neq]; lia. }
  destruct n as [|n]; [simpl; by exists c|].
  rewrite Hup, Hdown by lia. rewrite Nat.eqb_refl. eexists. split; [done|]. simpl. split; [done|lia].
Qed.

Lemma pushcli_popcli_nest_witness :
  let c := mkCpu true 0 false in
  ∃ c' : cpu, Nat.iter 3 pushcli c = c' ∧ (0 < 3 → FL_IF c' = false)%nat ∧
    ∃ c'', Nat.iter 3 (λ o, obind o popcli) (Ret c') = Ret c'' ∧ FL_IF c'' = true ∧ ncli c'' = 0.
Proof. apply (pushcli_popcli_nest 3 (mkCpu true 0 false)). done. Defined.
