(* ===== verification/Proc.v ===== *)
(** * Processes (proc.c)

    The process table and the operations on it: allocation, fork, exit, wait,
    sleep and wakeup, kill, the scheduler.  Memory, files and swap files are
    reached through the interface [KernelOps], whose operations are modelled in
    the files of those components. *)
From stdpp Require Import base list strings.
From Stdlib Require Import ZArith Lia.
From S2P Require Import Prelude Mmu Paging Spinlock.

Definition NPROC : nat := 64.
Definition NOFILE : nat := 16.

Inductive procstate := UNUSED | EMBRYO | SLEEPING | RUNNABLE | RUNNING | ZOMBIE.
#[export] Instance procstate_eq_dec : EqDecision procstate.
Proof. solve_decision. Defined.

(** The saved registers; the padding of the 16-bit ones is left out. *)
Record trapframe := mkTf {
  tf_edi : Z; tf_esi : Z; tf_ebp : Z; tf_oesp : Z; tf_ebx : Z; tf_edx : Z; tf_ecx : Z; tf_eax : Z;
  tf_gs : Z; tf_fs : Z; tf_es : Z; tf_ds : Z; tf_trapno : Z; tf_err : Z; tf_eip : Z; tf_cs : Z;
  tf_eflags : Z; tf_esp : Z; tf_ss : Z }.

Definition tf_set_eax (v : Z) (t : trapframe) : trapframe :=
  mkTf (tf_edi t) (tf_esi t) (tf_ebp t) (tf_oesp t) (tf_ebx t) (tf_edx t) (tf_ecx t) v
    (tf_gs t) (tf_fs t) (tf_es t) (tf_ds t) (tf_trapno t) (tf_err t) (tf_eip t) (tf_cs t)
    (tf_eflags t) (tf_esp t) (tf_ss t).
Definition tf_set_start (eip esp : Z) (t : trapframe) : trapframe :=
  mkTf (tf_edi t) (tf_esi t) (tf_ebp t) (tf_oesp t) (tf_ebx t) (tf_edx t) (tf_ecx t) (tf_eax t)
    (tf_gs t) (tf_fs t) (tf_es t) (tf_ds t) (tf_trapno t) (tf_err t) eip (tf_cs t)
    (tf_eflags t) esp (tf_ss t).

(** Slots of the table stand for [struct proc *], [None] for the null pointer;
    open files and inodes are handles of their components; [p_context] is the
    saved %eip of the context. *)
Record proc := mkProc {
  p_sz : Z; p_pgdir : Z; p_kstack : Z; p_state : procstate; p_pid : Z;
  p_parent : option nat; p_tf : trapframe; p_context : Z; p_chan : Z; p_killed : Z;
  p_ofile : list (option nat); p_cwd : option nat; p_name : string;
  paging_meta : p_meta; swapFile : option nat; page_faults : Z; num_pageouts : Z }.

Definition no_tf : trapframe := mkTf 0 0 0 0 0 0 0 0 0 0 0 0 0 0 0 0 0 0 0.
Definition no_proc : proc :=
  mkProc 0 0 0 UNUSED 0 None no_tf 0 0 0 (replicate NOFILE None) None "" reset_paging_meta None 0 0.

(** Updates of one field. *)
Definition with_state (s : procstate) (p : proc) : proc :=
  mkProc (p_sz p) (p_pgdir p) (p_kstack p) s (p_pid p) (p_parent p) (p_tf p) (p_context p) (p_chan p)
    (p_killed p) (p_ofile p) (p_cwd p) (p_name p) (paging_meta p) (swapFile p) (page_faults p) (num_pageouts p).
Definition with_pid (n : Z) (p : proc) : proc :=
  mkProc (p_sz p) (p_pgdir p) (p_kstack p) (p_state p) n (p_parent p) (p_tf p) (p_context p) (p_chan p)
    (p_killed p) (p_ofile p) (p_cwd p) (p_name p) (paging_meta p) (swapFile p) (page_faults p) (num_pageouts p).
Definition with_kstack (k : Z) (p : proc) : proc :=
  mkProc (p_sz p) (p_pgdir p) k (p_state p) (p_pid p) (p_parent p) (p_tf p) (p_context p) (p_chan p)
    (p_killed p) (p_ofile p) (p_cwd p) (p_name p) (paging_meta p) (swapFile p) (page_faults p) (num_pageouts p).
Definition with_parent (q : option nat) (p : proc) : proc :=
  mkProc (p_sz p) (p_pgdir p) (p_kstack p) (p_state p) (p_pid p) q (p_tf p) (p_context p) (p_chan p)
    (p_killed p) (p_ofile p) (p_cwd p) (p_name p) (paging_meta p) (swapFile p) (page_faults p) (num_pageouts p).
Definition with_chan (c : Z) (p : proc) : proc :=
  mkProc (p_sz p) (p_pgdir p) (p_kstack p) (p_state p) (p_pid p) (p_parent p) (p_tf p) (p_context p) c
    (p_killed p) (p_ofile p) (p_cwd p) (p_name p) (paging_meta p) (swapFile p) (page_faults p) (num_pageouts p).
Definition with_killed (k : Z) (p : proc) : proc :=
  mkProc (p_sz p) (p_pgdir p) (p_kstack p) (p_state p) (p_pid p) (p_parent p) (p_tf p) (p_context p) (p_chan p)
    k (p_ofile p) (p_cwd p) (p_name p) (paging_meta p) (swapFile p) (page_faults p) (num_pageouts p).
Definition with_mem (sz pgdir : Z) (p : proc) : proc :=
  mkProc sz pgdir (p_kstack p) (p_state p) (p_pid p) (p_parent p) (p_tf p) (p_context p) (p_chan p) (p_killed p)
    (p_ofile p) (p_cwd p) (p_name p) (paging_meta p) (swapFile p) (page_faults p) (num_pageouts p).
Definition with_tf (t : trapframe) (p : proc) : proc :=
  mkProc (p_sz p) (p_pgdir p) (p_kstack p) (p_state p) (p_pid p) (p_parent p) t (p_context p) (p_chan p)
    (p_killed p) (p_ofile p) (p_cwd p) (p_name p) (paging_meta p) (swapFile p) (page_faults p) (num_pageouts p).
Definition with_context (e : Z) (p : proc) : proc :=
  mkProc (p_sz p) (p_pgdir p) (p_kstack p) (p_state p) (p_pid p) (p_parent p) (p_tf p) e (p_chan p) (p_killed p)
    (p_ofile p) (p_cwd p) (p_name p) (paging_meta p) (swapFile p) (page_faults p) (num_pageouts p).
Definition with_files (o : list (option nat)) (d : option nat) (p : proc) : proc :=
  mkProc (p_sz p) (p_pgdir p) (p_kstack p) (p_state p) (p_pid p) (p_parent p) (p_tf p) (p_context p) (p_chan p)
    (p_killed p) o d (p_name p) (paging_meta p) (swapFile p) (page_faults p) (num_pageouts p).
Definition with_name (n : string) (p : proc) : proc :=
  mkProc (p_sz p) (p_pgdir p) (p_kstack p) (p_state p) (p_pid p) (p_parent p) (p_tf p) (p_context p) (p_chan p)
    (p_killed p) (p_ofile p) (p_cwd p) n (paging_meta p) (swapFile p) (page_faults p) (num_pageouts p).
Definition with_meta (m : p_meta) (p : proc) : proc :=
  mkProc (p_sz p) (p_pgdir p) (p_kstack p) (p_state p) (p_pid p) (p_parent p) (p_tf p) (p_context p) (p_chan p)
    (p_killed p) (p_ofile p) (p_cwd p) (p_name p) m (swapFile p) (page_faults p) (num_pageouts p).
Definition with_swapFile (f : option nat) (p : proc) : proc :=
  mkProc (p_sz p) (p_pgdir p) (p_kstack p) (p_state p) (p_pid p) (p_parent p) (p_tf p) (p_context p) (p_chan p)
    (p_killed p) (p_ofile p) (p_cwd p) (p_name p) (paging_meta p) f (page_faults p) (num_pageouts p).
Definition with_counts (f o : Z) (p : proc) : proc :=
  mkProc (p_sz p) (p_pgdir p) (p_kstack p) (p_state p) (p_pid p) (p_parent p) (p_tf p) (p_context p) (p_chan p)
    (p_killed p) (p_ofile p) (p_cwd p) (p_name p) (paging_meta p) (swapFile p) f o.

(** ** What processes use of the rest of the kernel

    An operation that works on the fields of a process for paging takes the process
    and gives the fields it changes: its metadata and its count of pages paged out, or
    its swap file. *)
Class KernelOps (K : Type) := {
  k_kalloc : K → Z * K;
  k_kfree : K → Z → outcome K;
  k_setupkvm : K → outcome (Z * K);
  k_inituvm : K → Z → outcome K;
  k_allocuvm : K → proc → Z → Z → Z → outcome (Z * (p_meta * Z) * K);
  k_deallocuvm : K → proc → Z → Z → Z → outcome (Z * p_meta * K);
  k_copyuvm : K → Z → Z → outcome (Z * K);
  (* of a page table that is not the running process's *)
  k_freevm : K → Z → outcome K;
  k_filedup : K → nat → outcome K;
  k_fileclose : K → nat → outcome K;
  k_idup : K → nat → outcome K;
  k_iput : K → nat → outcome K;
  k_namei_root : K → outcome (option nat * K);
  k_createSwapFile : K → proc → outcome (Z * option nat * K);
  k_removeSwapFile : K → proc → outcome (Z * K);
  k_copy_parent_swapfile : K → proc → proc → outcome (p_meta * K);
  (* num_free, initial_pages_num *)
  k_free_counts : K → Z * Z }.

(** [on_cpu c] is [c->proc]. *)
Record kern (K : Type) := mkKern {
  ptable : list proc; nextpid : Z; initproc : option nat; on_cpu : nat → option nat; rest : K }.
Arguments mkKern {K}.
Arguments ptable {K}.
Arguments nextpid {K}.
Arguments initproc {K}.
Arguments on_cpu {K}.
Arguments rest {K}.

Definition is_user_proc (p : proc) : bool := Z.gtb (p_pid p) 2.

(** The address of slot [i], a sleep channel; the null pointer is 0. *)
Definition PTABLE : Z := 0x80112000.
Definition proc_addr (i : nat) : Z := PTABLE + 2048 * Z.of_nat i.
Definition chan_of (q : option nat) : Z := match q with Some i => proc_addr i | None => 0 end.

Section proc_ops.
  Context {K : Type} `{!KernelOps K} (forkret : Z).

Definition set_table (st : kern K) (l : list proc) : kern K :=
  mkKern l (nextpid st) (initproc st) (on_cpu st) (rest st).
Definition set_rest (st : kern K) (k : K) : kern K :=
  mkKern (ptable st) (nextpid st) (initproc st) (on_cpu st) k.
Definition set_cpu (st : kern K) (c : nat) (o : option nat) : kern K :=
  mkKern (ptable st) (nextpid st) (initproc st) (set (on_cpu st) c o) (rest st).
Definition upd_proc (st : kern K) (i : nat) (f : proc → proc) : kern K :=
  set_table st (alter f i (ptable st)).
Definition get_proc (st : kern K) (i : nat) : outcome proc :=
  match ptable st !! i with Some p => Ret p | None => Undef "no such process" end.

(** ** Allocation *)

(** The part of [allocproc] under the lock: the first free slot and its pid. *)
Definition alloc_slot (st : kern K) : option nat * kern K :=
  match list_find (λ p, p_state p = UNUSED) (ptable st) with
  | Some (i, _) =>
      let st1 := upd_proc st i (λ p, with_state EMBRYO (with_pid (nextpid st) p)) in
      (Some i, mkKern (ptable st1) (s32 (nextpid st + 1)) (initproc st) (on_cpu st) (rest st))
  | None => (None, st)
  end.

Definition allocproc (st : kern K) : option nat * kern K :=
  match alloc_slot st with
  | (Some i, st1) =>
      let '(kstack, k) := k_kalloc (rest st1) in
      let st2 := upd_proc (set_rest st1 k) i (with_kstack kstack) in
      if Z.eqb kstack 0 then (None, upd_proc st2 i (with_state UNUSED))
      else (Some i, upd_proc st2 i (with_context forkret))
  | (None, st1) => (None, st1)
  end.

(** ** The first process *)

(** SEG_UCODE, SEG_UDATA and DPL_USER of mmu.h. *)
Definition UCODE : Z := Z.lor (Z.shiftl 3 3) 3.
Definition UDATA : Z := Z.lor (Z.shiftl 4 3) 3.

Definition userinit (st : kern K) : outcome (kern K) :=
  match allocproc st with
  | (None, _) => Undef "userinit: no process"
  | (Some i, st1) =>
      let st1 := mkKern (ptable st1) (nextpid st1) (Some i) (on_cpu st1) (rest st1) in
      let! (pgdir, k1) := k_setupkvm (rest st1) in
      if Z.eqb pgdir 0 then Panic "userinit: out of memory?"
      else
        let! k2 := k_inituvm k1 pgdir in
        let! (cwd, k3) := k_namei_root k2 in
        Ret (upd_proc (set_rest st1 k3) i (λ p,
               with_state RUNNABLE (with_files (p_ofile p) cwd (with_name "initcode"
                 (with_counts 0 0 (with_tf (mkTf 0 0 0 0 0 0 0 0 0 0 UDATA UDATA 0 0 0 UCODE 0x200 PGSIZE UDATA)
                   (with_mem PGSIZE pgdir p)))))))
  end.

(** ** Growing, forking *)

(** [switchuvm]'s checks; the loads of the task and page-table registers are not state of the model. *)
Definition switchuvm (p : proc) : outcome unit :=
  if Z.eqb (p_kstack p) 0 then Panic "switchuvm: no kstack"
  else if Z.eqb (p_pgdir p) 0 then Panic "switchuvm: no pgdir"
  else Ret tt.

Definition growproc (st : kern K) (me : nat) (n : Z) : outcome (Z * kern K) :=
  let! p := get_proc st me in
  let sz := p_sz p in
  let finish st' sz' :=
    let st2 := upd_proc st' me (λ p, with_mem sz' (p_pgdir p) p) in
    let! p2 := get_proc st2 me in
    let! _ := switchuvm p2 in
    Ret (0, st2) in
  if Z.gtb n 0 then
    let! (r, k) := k_allocuvm (rest st) p (p_pgdir p) sz (u32 (sz + n)) in
    let '(sz', (m, outs)) := r in
    let st1 := upd_proc (set_rest st k) me (λ p, with_counts (page_faults p) outs (with_meta m p)) in
    if Z.eqb sz' 0 then Ret (-1, st1) else finish st1 sz'
  else if Z.ltb n 0 then
    let! (r, k) := k_deallocuvm (rest st) p (p_pgdir p) sz (u32 (sz + n)) in
    let '(sz', m) := r in
    let st1 := upd_proc (set_rest st k) me (with_meta m) in
    if Z.eqb sz' 0 then Ret (-1, st1) else finish st1 sz'
  else finish st sz.

Fixpoint dup_files (k : K) (l : list (option nat)) : outcome K :=
  match l with
  | [] => Ret k
  | Some f :: l' => let! k' := k_filedup k f in dup_files k' l'
  | None :: l' => dup_files k l'
  end.
(** [np->ofile[i]] keeps its value where the parent's entry is null. *)
Definition copy_ofile (mine theirs : list (option nat)) : list (option nat) :=
  zip_with (λ m t, match m with Some f => Some f | None => t end) mine theirs.

Definition fork (st : kern K) (me : nat) : outcome (Z * kern K) :=
  match allocproc st with
  | (None, st1) => Ret (-1, st1)
  | (Some i, st1) =>
      let! cur := get_proc st1 me in
      let! (pgdir, k1) := k_copyuvm (rest st1) (p_pgdir cur) (p_sz cur) in
      if Z.eqb pgdir 0 then
        let! np := get_proc st1 i in
        let! k2 := k_kfree k1 (p_kstack np) in
        Ret (-1, upd_proc (set_rest st1 k2) i (λ p, with_state UNUSED (with_kstack 0 (with_mem (p_sz p) 0 p))))
      else
        let! k2 := dup_files k1 (p_ofile cur) in
        let! k3 := (match p_cwd cur with Some d => k_idup k2 d | None => Undef "idup: null inode" end) in
        let st2 := upd_proc (set_rest st1 k3) i (λ p,
          with_name (p_name cur) (with_files (copy_ofile (p_ofile cur) (p_ofile p)) (p_cwd cur)
            (with_tf (tf_set_eax 0 (p_tf cur)) (with_parent (Some me) (with_mem (p_sz cur) pgdir p))))) in
        let! np := get_proc st2 i in
        let! st3 := (if is_user_proc np then
                       let! (r, k) := k_createSwapFile k3 np in
                       let '(r, f) := r in
                       if Z.eqb r 0 then Ret (upd_proc (set_rest st2 k) i (with_swapFile f))
                       else Panic "fork_create swapfile"
                     else Ret st2) in
        let! np := get_proc st3 i in
        let! st4 := (if is_user_proc cur then
                       let! (m, k) := k_copy_parent_swapfile (rest st3) np cur in
                       Ret (upd_proc (set_rest st3 k) i (with_meta m))
                     else Ret st3) in
        Ret (p_pid np, upd_proc st4 i (λ p, with_state RUNNABLE (with_counts 0 0 p)))
  end.

(** ** Sleeping and waking *)

Definition wake1 (chan : Z) (p : proc) : proc :=
  if bool_decide (p_state p = SLEEPING) && Z.eqb (p_chan p) chan then with_state RUNNABLE p else p.
Definition wakeup1 (st : kern K) (chan : Z) : kern K := set_table st (wake1 chan <$> ptable st).
Definition wakeup (st : kern K) (chan : Z) : kern K := wakeup1 st chan.

(** [sched]: the checks before the switch to the scheduler of CPU [c], which
    then clears [c->proc]. *)
Definition sched (holding_ptable : bool) (cp : cpu) (st : kern K) (c me : nat) : outcome (kern K) :=
  let! p := get_proc st me in
  if negb holding_ptable then Panic "sched ptable.lock"
  else if negb (Z.eqb (ncli cp) 1) then Panic "sched locks"
  else if bool_decide (p_state p = RUNNING) then Panic "sched running"
  else if FL_IF cp then Panic "sched interruptible"
  else Ret (set_cpu st c None).

(** [sleep] on a CPU in the state [cp], with the lock [lk] held, [None] if it is null;
    [lk] is [ptable.lock] itself or another one, which is released once
    [ptable.lock] is held. *)
Inductive sleep_lock := Ptable | Other_lock.

Definition sleep (st : kern K) (c : nat) (cp : cpu) (me : option nat) (chan : Z) (lk : option sleep_lock) : outcome (kern K) :=
  match me with
  | None => Panic "sleep"
  | Some i =>
      match lk with
      | None => Panic "sleep without lk"
      | Some lk =>
          let! cp1 := match lk with Ptable => Ret cp | Other_lock => popcli (pushcli cp) end in
          sched true cp1 (upd_proc st i (λ p, with_state SLEEPING (with_chan chan p))) c i
      end
  end.
(** After the scheduler has come back to the sleeper. *)
Definition sleep_resume (st : kern K) (me : nat) : kern K := upd_proc st me (with_chan 0).

(** [yield] called on a CPU in the state [cp]; [acquire] turns its interrupts off. *)
Definition yield (st : kern K) (c : nat) (cp : cpu) (me : nat) : outcome (kern K) :=
  sched true (pushcli cp) (upd_proc st me (with_state RUNNABLE)) c me.

(** The scheduler's turn at slot [i]. *)
Definition scheduler (st : kern K) (c i : nat) : outcome (kern K) :=
  let! p := get_proc st i in
  if bool_decide (p_state p = RUNNABLE) then
    let! _ := switchuvm p in
    Ret (upd_proc (set_cpu st c (Some i)) i (with_state RUNNING))
  else Ret st.

(** ** Exit, wait, kill *)

Fixpoint close_files (k : K) (l : list (option nat)) : outcome K :=
  match l with
  | [] => Ret k
  | Some f :: l' => let! k' := k_fileclose k f in close_files k' l'
  | None :: l' => close_files k l'
  end.

(** "Pass abandoned children to init": the loop over the table, which may wake init on the way. *)
Fixpoint reparent (n : nat) (st : kern K) (me i : nat) : kern K :=
  match n with
  | O => st
  | S k =>
      let st' := match ptable st !! i with
                 | Some p =>
                     if bool_decide (p_parent p = Some me) then
                       let st1 := upd_proc st i (with_parent (initproc st)) in
                       if bool_decide (p_state p = ZOMBIE) then wakeup1 st1 (chan_of (initproc st)) else st1
                     else st
                 | None => st
                 end in
      reparent k st' me (S i)
  end.

(** The part of [exit] under the lock. *)
Definition exit_locked (st : kern K) (c : nat) (cp : cpu) (me : nat) : outcome (kern K) :=
  let! cur := get_proc st me in
  let st1 := wakeup1 st (chan_of (p_parent cur)) in
  let st2 := reparent NPROC st1 me 0 in
  sched true (pushcli cp) (upd_proc st2 me (with_state ZOMBIE)) c me.

Definition exit (st : kern K) (c : nat) (cp : cpu) (me : nat) : outcome (kern K) :=
  if bool_decide (initproc st = Some me) then Panic "init exiting"
  else
    let! cur := get_proc st me in
    let! st0 := (if is_user_proc cur then
                   let! (r, k) := k_removeSwapFile (rest st) cur in
                   if Z.eqb r 0 then Ret (upd_proc (set_rest st k) me (with_meta reset_paging_meta))
                   else Panic "remove_swap_file"
                 else Ret st) in
    let! k2 := close_files (rest st0) (p_ofile cur) in
    let! k3 := (match p_cwd cur with Some d => k_iput k2 d | None => Undef "iput: null inode" end) in
    let st1 := upd_proc (set_rest st0 k3) me (with_files (replicate NOFILE None) None) in
    exit_locked st1 c cp me.

Definition reaped (p : proc) : proc :=
  with_state UNUSED (with_killed 0 (with_name "" (with_parent None (with_pid 0 (with_kstack 0 p))))).

Inductive wait_result := Reaped (pid : Z) | Failed | Sleeps.

(** One turn of [wait]: the scan for a zombie child, then what follows it. *)
Definition wait (st : kern K) (c : nat) (cp : cpu) (me : nat) : outcome (wait_result * kern K) :=
  match list_find (λ p, p_parent p = Some me ∧ p_state p = ZOMBIE) (ptable st) with
  | Some (i, p) =>
      let! k1 := k_kfree (rest st) (p_kstack p) in
      let! k2 := k_freevm k1 (p_pgdir p) in
      Ret (Reaped (p_pid p), upd_proc (set_rest st k2) i reaped)
  | None =>
      let! cur := get_proc st me in
      let havekids := existsb (λ p, bool_decide (p_parent p = Some me)) (ptable st) in
      if negb havekids || negb (Z.eqb (p_killed cur) 0) then Ret (Failed, st)
      else let! st' := sleep st c (pushcli cp) (Some me) (proc_addr me) (Some Ptable) in Ret (Sleeps, st')
  end.

Definition kill (st : kern K) (pid : Z) : Z * kern K :=
  match list_find (λ p, p_pid p = pid) (ptable st) with
  | Some (i, _) =>
      (0, upd_proc st i (λ p, let q := with_killed 1 p in
            if bool_decide (p_state p = SLEEPING) then with_state RUNNABLE q else q))
  | None => (-1, st)
  end.

(** ** Listing *)

Definition state_name (s : procstate) : string :=
  match s with
  | UNUSED => "unused" | EMBRYO => "embryo" | SLEEPING => "sleep " | RUNNABLE => "runble"
  | RUNNING => "run   " | ZOMBIE => "zombie"
  end.

(** A line of [procdump]: pid, state, name; pages, pages out, faults, page-outs. *)
Definition procdump_line (p : proc) : Z * string * string * (Z * Z * Z * Z) :=
  (p_pid p, state_name (p_state p), p_name p,
   (get_allocated_pages (paging_meta p), numOfPagedOut (paging_meta p), s32 (page_faults p), s32 (num_pageouts p))).
Definition procdump (st : kern K) : list (Z * string * string * (Z * Z * Z * Z)) * (Z * Z) :=
  let '(free, initial) := k_free_counts (rest st) in
  (omap (λ p, if bool_decide (p_state p = UNUSED) then None else Some (procdump_line p)) (ptable st), (free, free + initial)).
End proc_ops.
