(* ===== verification/ProcInv.v ===== *)
(** * The process table under interleaving

    The critical sections of [ptable.lock] as steps of a transition system, in
    which the CPUs interleave, and the invariant of the table: who runs where,
    unique pids, living parents, and no lost wakeup between [exit] and [wait]. *)
From stdpp Require Import base list strings.
From Stdlib Require Import ZArith Lia.
From S2P Require Import Prelude Mmu Paging Spinlock Proc.

Section inv.
  Context {K : Type} `{!KernelOps K}.
  Implicit Types (st : kern K) (p q : proc).

Definition alive (p : proc) : Prop :=
  p_state p = SLEEPING ∨ p_state p = RUNNABLE ∨ p_state p = RUNNING.

(** ** Steps

    Between critical sections a process changes only its own fields, and a
    forking one those of the slot it has allocated; [rest] may always change. *)
Inductive pstep (st : kern K) : kern K → Prop :=
| ps_rest k : pstep st (set_rest st k)
| ps_alloc i st' : alloc_slot st = (Some i, st') → nextpid st < 2 ^ 31 - 1 → pstep st st'
| ps_fill c me i p p' : on_cpu st c = Some me → ptable st !! i = Some p → p_state p = EMBRYO →
    p_state p' = EMBRYO → p_pid p' = p_pid p → p_parent p' = Some me →
    pstep st (upd_proc st i (λ _, p'))
| ps_fork_run c me i p : on_cpu st c = Some me → ptable st !! i = Some p → p_state p = EMBRYO →
    p_parent p = Some me → pstep st (upd_proc st i (with_state RUNNABLE))
| ps_fork_fail i p : ptable st !! i = Some p → p_state p = EMBRYO → p_parent p = None →
    pstep st (upd_proc st i (with_state UNUSED))
| ps_private c me p p' : on_cpu st c = Some me → ptable st !! me = Some p →
    p_state p' = p_state p → p_pid p' = p_pid p → p_parent p' = p_parent p →
    pstep st (upd_proc st me (λ _, p'))
| ps_exit c cp me st' : on_cpu st c = Some me → initproc st ≠ Some me →
    exit_locked st c cp me = Ret st' → pstep st st'
| ps_wait c cp me r st' : on_cpu st c = Some me → wait st c cp me = Ret (r, st') → pstep st st'
| ps_sleep c cp me chan lk st' : on_cpu st c = Some me → chan ≠ proc_addr me →
    sleep st c cp (Some me) chan lk = Ret st' → pstep st st'
| ps_resume c me : on_cpu st c = Some me → pstep st (sleep_resume st me)
| ps_wakeup chan : pstep st (wakeup st chan)
| ps_kill pid : pstep st (snd (kill st pid))
| ps_yield c cp me st' : on_cpu st c = Some me → yield st c cp me = Ret st' → pstep st st'
| ps_scheduler c i st' : on_cpu st c = None → scheduler st c i = Ret st' → pstep st st'.

(** After [userinit]: the first process is ready, nothing runs. *)
Definition init_kern (p0 : proc) (k : K) : kern K :=
  mkKern (p0 :: replicate (NPROC - 1) no_proc) 2 (Some O) (λ _, None) k.

Inductive preach : kern K → Prop :=
| pr_init p0 k : p_state p0 = RUNNABLE → p_pid p0 = 1 → p_parent p0 = None → preach (init_kern p0 k)
| pr_step st st' : preach st → pstep st st' → preach st'.

(** ** The invariant *)
Record proc_inv (st : kern K) : Prop := mk_proc_inv {
  pi_len : length (ptable st) = NPROC;
  pi_init : ∃ i p, initproc st = Some i ∧ ptable st !! i = Some p ∧ alive p ∧ p_parent p = None;
  pi_cpu c i : on_cpu st c = Some i → ∃ p, ptable st !! i = Some p ∧ p_state p = RUNNING;
  pi_cpu_inj c c' i : on_cpu st c = Some i → on_cpu st c' = Some i → c = c';
  pi_running i p : ptable st !! i = Some p → p_state p = RUNNING → ∃ c, on_cpu st c = Some i;
  pi_pid i p : ptable st !! i = Some p → 0 ≤ p_pid p < nextpid st ∧ (p_state p ≠ UNUSED → p_pid p ≠ 0);
  pi_pid_inj i j p q : ptable st !! i = Some p → ptable st !! j = Some q →
    p_pid p = p_pid q → p_pid p ≠ 0 → i = j;
  pi_unused i p : ptable st !! i = Some p → p_state p = UNUSED → p_parent p = None;
  pi_parent i p j : ptable st !! i = Some p → p_parent p = Some j →
    j ≠ i ∧ ∃ q, ptable st !! j = Some q ∧ alive q;
  pi_orphan i p : ptable st !! i = Some p → alive p ∨ p_state p = ZOMBIE →
    initproc st ≠ Some i → is_Some (p_parent p);
  pi_wait i p j q : ptable st !! j = Some q → p_state q = SLEEPING → p_chan q = proc_addr j →
    ptable st !! i = Some p → p_parent p = Some j → p_state p ≠ ZOMBIE }.

Lemma lookup_upd st i f j p :
  ptable (upd_proc st i f) !! j = Some p ↔
  ∃ p0, ptable st !! j = Some p0 ∧ p = (if decide (j = i) then f p0 else p0).
Proof.
  unfold upd_proc. simpl. destruct (decide (j = i)) as [->|Hne].
  - rewrite list_lookup_alter_eq, fmap_Some. done.
  - rewrite list_lookup_alter_ne by done. naive_solver.
Qed.

(** A change that wakes sleepers and touches nothing the invariant depends on. *)
Record calm (st st' : kern K) : Prop := mk_calm {
  ca_len : length (ptable st') = length (ptable st);
  ca_cpu : on_cpu st' = on_cpu st;
  ca_pid : nextpid st' = nextpid st;
  ca_init : initproc st' = initproc st;
  ca_slot i p' : ptable st' !! i = Some p' → ∃ p, ptable st !! i = Some p ∧ p_pid p' = p_pid p ∧
    p_parent p' = p_parent p ∧ (p_state p' = p_state p ∨ (p_state p = SLEEPING ∧ p_state p' = RUNNABLE)) ∧
    (p_state p' = SLEEPING → p_chan p' = p_chan p) }.

Lemma calm_fwd st st' i p : calm st st' → ptable st !! i = Some p → ∃ p', ptable st' !! i = Some p'.
Proof.
  intros Hc Hp. apply lookup_lt_is_Some_2. rewrite (ca_len _ _ Hc). by eapply lookup_lt_Some.
Qed.

Lemma calm_alive st st' i p : calm st st' → ptable st !! i = Some p → alive p →
  ∃ p', ptable st' !! i = Some p' ∧ alive p' ∧ p_parent p' = p_parent p.
Proof.
  intros Hc Hp Ha. destruct (calm_fwd _ _ i p Hc Hp) as [p' Hp']. exists p'. split; [done|].
  destruct (ca_slot _ _ Hc i p' Hp') as (p0 & Hp0 & _ & Hpar & Hs & _). simplify_eq. split; [|done].
  unfold alive in *. destruct Hs as [->|[_ ->]]; [done|]. auto.
Qed.

Lemma calm_inv st st' : calm st st' → proc_inv st → proc_inv st'.
Proof.
  intros Hc Hi. pose proof Hc as [Hlen Hcpu Hpid Hinit Hslot]. split; rewrite ?Hcpu, ?Hpid, ?Hinit, ?Hlen.
  - apply Hi.
  - destruct (pi_init _ Hi) as (i & p & Hip & Hp & Ha & Hpar).
    destruct (calm_alive _ _ i p Hc Hp Ha) as (p' & Hp' & Ha' & Heq). exists i, p'. rewrite Heq. done.
  - intros c i Hci. destruct (pi_cpu _ Hi c i Hci) as (p & Hp & Hr).
    destruct (calm_fwd _ _ i p Hc Hp) as [p' Hp']. exists p'. split; [done|].
    destruct (Hslot i p' Hp') as (p0 & Hp0 & _ & _ & Hs & _). simplify_eq. destruct Hs as [->|[]]; congruence.
  - apply Hi.
  - intros i p' Hp' Hr. destruct (Hslot i p' Hp') as (p & Hp & _ & _ & Hs & _).
    apply (pi_running _ Hi i p Hp). destruct Hs as [<-|[_ ?]]; congruence.
  - intros i p' Hp'. destruct (Hslot i p' Hp') as (p & Hp & -> & _ & Hs & _).
    destruct (pi_pid _ Hi i p Hp) as [? Hz]. split; [done|]. intros Hne. apply Hz.
    destruct Hs as [<-|[-> _]]; done.
  - intros i j p' q' Hp' Hq' Heq Hz. destruct (Hslot i p' Hp') as (p & Hp & Hpp & _).
    destruct (Hslot j q' Hq') as (q & Hq & Hqq & _). apply (pi_pid_inj _ Hi i j p q); congruence.
  - intros i p' Hp' Hu. destruct (Hslot i p' Hp') as (p & Hp & _ & -> & Hs & _).
    apply (pi_unused _ Hi i p Hp). destruct Hs as [<-|[_ ?]]; congruence.
  - intros i p' j Hp' Hj. destruct (Hslot i p' Hp') as (p & Hp & _ & Hpar & _). rewrite Hpar in Hj.
    destruct (pi_parent _ Hi i p j Hp Hj) as (Hne & q & Hq & Ha). split; [done|].
    destruct (calm_alive _ _ j q Hc Hq Ha) as (q' & ? & ? & _). eauto.
  - intros i p' Hp' Ha Hne. destruct (Hslot i p' Hp') as (p & Hp & _ & -> & Hs & _).
    apply (pi_orphan _ Hi i p Hp); [|done]. unfold alive in *. destruct Hs as [<-|[-> _]]; [done|auto].
  - intros i p' j q' Hq' Hsl Hch Hp' Hpar. destruct (Hslot i p' Hp') as (p & Hp & _ & Hpp & Hs & _).
    destruct (Hslot j q' Hq') as (q & Hq & _ & _ & Hsq & Hcq).
    assert (p_state p ≠ ZOMBIE) as Hz.
    { apply (pi_wait _ Hi i p j q); try done; [destruct Hsq as [<-|[]]; congruence|by rewrite <- Hcq|congruence]. }
    destruct Hs as [->|[_ ->]]; done.
Qed.

(** Waking, killing and private changes are calm. *)
Lemma calm_map st st' (f : nat → proc → proc) :
  (∀ i, ptable st' !! i = f i <$> ptable st !! i) → on_cpu st' = on_cpu st → nextpid st' = nextpid st →
  initproc st' = initproc st →
  (∀ i p, ptable st !! i = Some p → p_pid (f i p) = p_pid p ∧ p_parent (f i p) = p_parent p ∧
    (p_state (f i p) = p_state p ∨ (p_state p = SLEEPING ∧ p_state (f i p) = RUNNABLE)) ∧
    (p_state (f i p) = SLEEPING → p_chan (f i p) = p_chan p)) → calm st st'.
Proof.
  intros Hmap ? ? ? Hf. split; try done.
  - apply Nat.le_antisymm; apply Nat.nlt_ge; intros Hlt.
    + destruct (lookup_lt_is_Some_2 (ptable st') (length (ptable st)) Hlt) as [p Hp].
      rewrite Hmap in Hp. apply fmap_Some in Hp as (p0 & Hp0 & _). apply lookup_lt_Some in Hp0. lia.
    + destruct (lookup_lt_is_Some_2 (ptable st) (length (ptable st')) Hlt) as [p Hp].
      specialize (Hmap (length (ptable st'))). rewrite Hp in Hmap. apply lookup_lt_Some in Hmap. lia.
  - intros i p'. rewrite Hmap. rewrite fmap_Some. intros (p & Hp & ->). exists p. split; [done|]. by apply Hf.
Qed.

Lemma wakeup1_calm st chan : calm st (wakeup1 st chan).
Proof.
  apply (calm_map _ _ (λ _, wake1 chan)); try done.
  - intros i. unfold wakeup1. simpl. by rewrite list_lookup_fmap.
  - intros i p _. unfold wake1. case_bool_decide; simpl; [destruct (Z.eqb _ _); simpl|]; split_and!; auto.
Qed.

Lemma upd_calm st i f :
  (∀ p, ptable st !! i = Some p → p_pid (f p) = p_pid p ∧ p_parent (f p) = p_parent p ∧
    (p_state (f p) = p_state p ∨ (p_state p = SLEEPING ∧ p_state (f p) = RUNNABLE)) ∧
    (p_state (f p) = SLEEPING → p_chan (f p) = p_chan p)) → calm st (upd_proc st i f).
Proof.
  intros Hf. apply (calm_map _ _ (λ j p, if decide (j = i) then f p else p)); try done.
  - intros j. unfold upd_proc. simpl. destruct (decide (j = i)) as [->|Hne].
    + by rewrite list_lookup_alter_eq.
    + rewrite list_lookup_alter_ne by done. by destruct (_ !! j).
  - intros j p Hp. case_decide; [subst; by apply Hf|]. split_and!; auto.
Qed.

Lemma kill_calm st pid : calm st (snd (kill st pid)).
Proof.
  unfold kill. destruct (list_find _ _) as [[i p]|]; [|by apply (calm_map _ _ (λ _ p, p)); auto; intros i; destruct (_ !! i)].
  apply upd_calm. intros q _. case_bool_decide; simpl; split_and!; auto.
Qed.

(** ** Changes of one slot *)

(** Slot [i] goes from [p] to [p']; every condition is about that slot alone. *)
Record slot_ok (st st' : kern K) (i : nat) (p p' : proc) : Prop := mk_slot_ok {
  so_table : ptable st' = <[i := p']> (ptable st);
  so_old : ptable st !! i = Some p;
  so_init : initproc st' = initproc st;
  so_next : nextpid st ≤ nextpid st';
  so_cpu c j : j ≠ i → on_cpu st' c = Some j ↔ on_cpu st c = Some j;
  so_cpu_i : p_state p' = RUNNING ↔ ∃ c, on_cpu st' c = Some i;
  so_cpu_inj c c' : on_cpu st' c = Some i → on_cpu st' c' = Some i → c = c';
  so_pid : 0 ≤ p_pid p' < nextpid st' ∧ (p_state p' ≠ UNUSED → p_pid p' ≠ 0);
  so_pid_new : p_pid p' = p_pid p ∨ p_pid p' = 0 ∨ p_pid p' = nextpid st;
  so_unused : p_state p' = UNUSED → p_parent p' = None;
  so_parent j : p_parent p' = Some j → j ≠ i ∧ ∃ q, ptable st !! j = Some q ∧ alive q;
  so_orphan : alive p' ∨ p_state p' = ZOMBIE → initproc st ≠ Some i → is_Some (p_parent p');
  so_alive : alive p' ∨ (initproc st ≠ Some i ∧ ∀ j q, ptable st !! j = Some q → p_parent q ≠ Some i);
  so_root : initproc st = Some i → p_parent p' = None;
  so_sleep : p_state p' = SLEEPING → p_chan p' = proc_addr i →
    ∀ j q, ptable st !! j = Some q → p_parent q = Some i → p_state q ≠ ZOMBIE;
  so_zombie j q : p_state p' = ZOMBIE → p_parent p' = Some j → ptable st !! j = Some q →
    ¬ (p_state q = SLEEPING ∧ p_chan q = proc_addr j) }.

Lemma slot_lookup st st' i p p' j q :
  slot_ok st st' i p p' → ptable st' !! j = Some q → (j = i ∧ q = p') ∨ (j ≠ i ∧ ptable st !! j = Some q).
Proof.
  intros Hs. rewrite (so_table _ _ _ _ _ Hs). intros Hj.
  apply list_lookup_insert_Some in Hj as [(-> & -> & _)|[? ?]]; [by left|]. by right.
Qed.

Lemma slot_keep st st' i p p' j q :
  slot_ok st st' i p p' → ptable st !! j = Some q → ptable st' !! j = Some (if decide (j = i) then p' else q).
Proof.
  intros Hs Hj. rewrite (so_table _ _ _ _ _ Hs). case_decide as Hd.
  - subst. apply list_lookup_insert_eq. by eapply lookup_lt_Some.
  - by rewrite list_lookup_insert_ne.
Qed.

Lemma slot_alive st st' i p p' j q :
  slot_ok st st' i p p' → ptable st !! j = Some q → alive q → j ≠ i ∨ alive p' →
  ∃ q', ptable st' !! j = Some q' ∧ alive q'.
Proof.
  intros Hs Hj Ha Hd. rewrite (slot_keep _ _ _ _ _ _ _ Hs Hj). eexists. split; [done|].
  case_decide; [subst; by destruct Hd|done].
Qed.

Lemma slot_inv st st' i p p' : slot_ok st st' i p p' → proc_inv st → proc_inv st'.
Proof.
  intros Hs Hi. pose proof (so_init _ _ _ _ _ Hs) as Hroot.
  pose proof (λ j q, slot_lookup st st' i p p' j q) as Hlk.
  assert (Halive : ∀ j q, ptable st !! j = Some q → alive q →
    (∃ k r, ptable st !! k = Some r ∧ p_parent r = Some j) ∨ initproc st = Some j ∨ p_parent p' = Some j →
    ∃ q', ptable st' !! j = Some q' ∧ alive q').
  { intros j q Hj Ha Href. apply (slot_alive _ _ _ _ _ _ _ Hs Hj Ha).
    destruct (decide (j = i)) as [->|]; [|by left]. right.
    destruct (so_alive _ _ _ _ _ Hs) as [|[Hni Hno]]; [done|]. exfalso.
    destruct Href as [(k & r & Hk & Hr)|[Hr|Hr]]; [by eapply Hno|done|].
    by destruct (so_parent _ _ _ _ _ Hs i Hr) as [? _]. }
  split; rewrite ?Hroot.
  - rewrite (so_table _ _ _ _ _ Hs), length_insert. apply Hi.
  - destruct (pi_init _ Hi) as (k & r & Hk & Hr & Ha & Hpar). exists k.
    destruct (Halive k r Hr Ha) as (q' & Hq' & Ha'); [auto|]. exists q'. split_and!; try done.
    destruct (Hlk k q' Hs Hq') as [[-> ->]|[Hne Hq]]; [by apply (so_root _ _ _ _ _ Hs)|congruence].
  - intros c j Hj. destruct (decide (j = i)) as [->|Hne].
    + exists p'. split; [|apply (so_cpu_i _ _ _ _ _ Hs); by exists c].
      rewrite (slot_keep _ _ _ _ _ _ _ Hs (so_old _ _ _ _ _ Hs)), decide_True by done. done.
    + apply (so_cpu _ _ _ _ _ Hs) in Hj; [|done]. destruct (pi_cpu _ Hi c j Hj) as (q & Hq & Hr).
      exists q. rewrite (slot_keep _ _ _ _ _ _ _ Hs Hq), decide_False by done. done.
  - intros c c' j Hj Hj'. destruct (decide (j = i)) as [->|Hne]; [by eapply (so_cpu_inj _ _ _ _ _ Hs)|].
    apply (pi_cpu_inj _ Hi c c' j); by apply (so_cpu _ _ _ _ _ Hs).
  - intros j q Hq Hr. destruct (Hlk j q Hs Hq) as [[-> ->]|[Hne Hq']]; [by apply (so_cpu_i _ _ _ _ _ Hs)|].
    destruct (pi_running _ Hi j q Hq' Hr) as [c Hc]. exists c. by apply (so_cpu _ _ _ _ _ Hs).
  - intros j q Hq. destruct (Hlk j q Hs Hq) as [[-> ->]|[Hne Hq']]; [apply (so_pid _ _ _ _ _ Hs)|].
    pose proof (so_next _ _ _ _ _ Hs). destruct (pi_pid _ Hi j q Hq'). split; [lia|done].
  - assert (Hnew : ∀ j q, j ≠ i → ptable st !! j = Some q → p_pid p' = p_pid q → p_pid p' ≠ 0 → False).
    { intros j q Hne Hq Heq Hz. destruct (pi_pid _ Hi j q Hq) as [Hb _].
      destruct (so_pid_new _ _ _ _ _ Hs) as [Hp|[Hp|Hp]]; [|done|lia]. apply Hne.
      apply (pi_pid_inj _ Hi j i q p Hq (so_old _ _ _ _ _ Hs)); congruence. }
    intros j k q r Hq Hr Heq Hz.
    destruct (Hlk j q Hs Hq) as [[-> ->]|[Hne Hq']], (Hlk k r Hs Hr) as [[-> ->]|[Hne' Hr']]; [done|..].
    + exfalso. by eapply (Hnew k r).
    + exfalso. eapply (Hnew j q); [done|done|congruence|congruence].
    + by apply (pi_pid_inj _ Hi j k q r).
  - intros j q Hq Hu. destruct (Hlk j q Hs Hq) as [[-> ->]|[Hne Hq']]; [by apply (so_unused _ _ _ _ _ Hs)|].
    by apply (pi_unused _ Hi j q).
  - intros j q k Hq Hk. destruct (Hlk j q Hs Hq) as [[-> ->]|[Hne Hq']].
    + destruct (so_parent _ _ _ _ _ Hs k Hk) as (Hki & r & Hr & Ha). split; [done|]. eapply Halive; eauto.
    + destruct (pi_parent _ Hi j q k Hq' Hk) as (Hki & r & Hr & Ha). split; [done|]. eapply Halive; eauto 6.
  - intros j q Hq Ha Hne. destruct (Hlk j q Hs Hq) as [[-> ->]|[Hne' Hq']]; [by apply (so_orphan _ _ _ _ _ Hs)|].
    by apply (pi_orphan _ Hi j q).
  - intros j q k r Hr Hsl Hch Hq Hpar.
    destruct (Hlk k r Hs Hr) as [[-> ->]|[Hne Hr']], (Hlk j q Hs Hq) as [[-> ->]|[Hne' Hq']].
    + by destruct (so_parent _ _ _ _ _ Hs i Hpar) as [? _].
    + by apply (so_sleep _ _ _ _ _ Hs Hsl Hch j q).
    + intros Hz. by apply (so_zombie _ _ _ _ _ Hs k r Hz Hpar Hr').
    + by apply (pi_wait _ Hi j q k r).
Qed.

Lemma upd_insert st i f p :
  ptable st !! i = Some p → ptable (upd_proc st i f) = <[i := f p]> (ptable st).
Proof.
  intros Hp. apply list_eq. intros j. unfold upd_proc. simpl. destruct (decide (j = i)) as [->|Hne].
  - rewrite list_lookup_alter_eq, Hp, list_lookup_insert_eq; [done|]. by eapply lookup_lt_Some.
  - by rewrite list_lookup_alter_ne, list_lookup_insert_ne.
Qed.

(** A slot that is not alive is nobody's parent, and not init. *)
Lemma dead_no_child st i p :
  proc_inv st → ptable st !! i = Some p → ¬ alive p →
  initproc st ≠ Some i ∧ ∀ j q, ptable st !! j = Some q → p_parent q ≠ Some i.
Proof.
  intros Hi Hp Hd. split.
  - intros Hr. destruct (pi_init _ Hi) as (k & r & Hk & Hr' & Ha & _). simplify_eq. by apply Hd.
  - intros j q Hq Hpar. destruct (pi_parent _ Hi j q i Hq Hpar) as (_ & r & Hr & Ha). simplify_eq. by apply Hd.
Qed.

(** A slot that no CPU runs stays so. *)
Lemma idle_slot st i p s :
  proc_inv st → ptable st !! i = Some p → p_state p ≠ RUNNING → s ≠ RUNNING →
  s = RUNNING ↔ ∃ c, on_cpu st c = Some i.
Proof.
  intros Hi Hp Hne Hne'. split; [done|]. intros [c Hc].
  destruct (pi_cpu _ Hi c i Hc) as (q & Hq & Hr). simplify_eq.
Qed.

Lemma alloc_inv st i st' :
  proc_inv st → alloc_slot st = (Some i, st') → nextpid st < 2 ^ 31 - 1 → proc_inv st'.
Proof.
  intros Hi. unfold alloc_slot. destruct (list_find _ _) as [[j p]|] eqn:Hf; [|done].
  apply list_find_Some in Hf as (Hp & Hu & _). intros [= -> <-] Hb.
  assert (Hd : ¬ alive p) by (intros [|[|]]; congruence).
  destruct (dead_no_child st i p Hi Hp Hd) as [Hroot Hno]. destruct (pi_pid _ Hi i p Hp) as [Hpid _].
  assert (Hs : s32 (nextpid st + 1) = nextpid st + 1).
  { unfold s32. rewrite u32_small by (unfold is_u32; lia). by rewrite (proj2 (Z.ltb_lt _ _)) by lia. }
  apply (slot_inv st _ i p (with_state EMBRYO (with_pid (nextpid st) p))); [|done].
  split; simpl; try done; rewrite ?Hs; try lia.
  - by rewrite <- (upd_insert st i (λ p, with_state EMBRYO (with_pid (nextpid st) p)) p).
  - eapply (idle_slot st i p); [done|done|congruence|done].
  - intros c1 c2. by apply (pi_cpu_inj _ Hi).
  - intros j. rewrite (pi_unused _ Hi i p Hp Hu). done.
  - intros [[|[|]]|]; done.
  - right. done.
Qed.

Lemma fill_inv st c me i p p' :
  proc_inv st → on_cpu st c = Some me → ptable st !! i = Some p → p_state p = EMBRYO →
  p_state p' = EMBRYO → p_pid p' = p_pid p → p_parent p' = Some me → proc_inv (upd_proc st i (λ _, p')).
Proof.
  intros Hi Hc Hp Hs Hs' Hpid Hpar. destruct (pi_cpu _ Hi c me Hc) as (m & Hm & Hr).
  assert (Hd : ¬ alive p) by (intros [|[|]]; congruence).
  destruct (dead_no_child st i p Hi Hp Hd) as [Hroot Hno]. destruct (pi_pid _ Hi i p Hp) as [Hb Hz].
  apply (slot_inv st _ i p p'); [|done]. split; simpl; try done; try congruence.
  - by apply (upd_insert st i (λ _, p') p).
  - eapply (idle_slot st i p); [done|done|congruence|congruence].
  - intros c1 c2. by apply (pi_cpu_inj _ Hi).
  - rewrite Hpid. split; [done|]. intros _. apply Hz. congruence.
  - by left.
  - intros j Hj. simplify_eq. split; [|exists m; split; [done|by right; right]].
    intros ->. simplify_eq. congruence.
  - by right.
Qed.

Lemma fork_run_inv st c me i p :
  proc_inv st → on_cpu st c = Some me → ptable st !! i = Some p → p_state p = EMBRYO →
  p_parent p = Some me → proc_inv (upd_proc st i (with_state RUNNABLE)).
Proof.
  intros Hi Hc Hp Hs Hpar. assert (Hd : ¬ alive p) by (intros [|[|]]; congruence).
  destruct (dead_no_child st i p Hi Hp Hd) as [Hroot Hno]. destruct (pi_pid _ Hi i p Hp) as [Hb Hz].
  apply (slot_inv st _ i p (with_state RUNNABLE p)); [|done]. split; simpl; try done.
  - by apply upd_insert.
  - eapply (idle_slot st i p); [done|done|congruence|done].
  - intros c1 c2. by apply (pi_cpu_inj _ Hi).
  - split; [done|]. intros _. apply Hz. congruence.
  - by left.
  - intros j Hj. by apply (pi_parent _ Hi i p).
  - by left; right; left.
Qed.

Lemma fork_fail_inv st i p :
  proc_inv st → ptable st !! i = Some p → p_state p = EMBRYO → p_parent p = None →
  proc_inv (upd_proc st i (with_state UNUSED)).
Proof.
  intros Hi Hp Hs Hpar. assert (Hd : ¬ alive p) by (intros [|[|]]; congruence).
  destruct (dead_no_child st i p Hi Hp Hd) as [Hroot Hno]. destruct (pi_pid _ Hi i p Hp) as [Hb Hz].
  apply (slot_inv st _ i p (with_state UNUSED p)); [|done]. split; simpl; try done; try congruence.
  - by apply upd_insert.
  - eapply (idle_slot st i p); [done|done|congruence|done].
  - intros c1 c2. by apply (pi_cpu_inj _ Hi).
  - by left.
  - intros [[|[|]]|]; done.
  - by right.
Qed.

(** The running process gives up its CPU. *)
Lemma leave_inv st c me p f :
  proc_inv st → on_cpu st c = Some me → ptable st !! me = Some p →
  p_state (f p) = RUNNABLE ∨ p_state (f p) = SLEEPING → p_pid (f p) = p_pid p → p_parent (f p) = p_parent p →
  (p_state (f p) = SLEEPING → p_chan (f p) = proc_addr me →
     ∀ j q, ptable st !! j = Some q → p_parent q = Some me → p_state q ≠ ZOMBIE) →
  proc_inv (set_cpu (upd_proc st me f) c None).
Proof.
  intros Hi Hc Hp Hs Hpid Hpar Hsl. destruct (pi_cpu _ Hi c me Hc) as (m & Hm & Hr). simplify_eq.
  destruct (pi_pid _ Hi me p Hp) as [Hb Hz]. assert (Ha : alive p) by (by right; right).
  apply (slot_inv st _ me p (f p)); [|done]. split; simpl; try done.
  - by apply upd_insert.
  - intros c' j Hne. unfold set. case_decide; [|done]. subst. split; [done|]. rewrite Hc. congruence.
  - split; [destruct Hs; congruence|]. intros [c' Hc']. unfold set in Hc'. case_decide; [done|].
    exfalso. apply H. by eapply (pi_cpu_inj _ Hi).
  - intros c1 c2. unfold set. repeat case_decide; try done. by apply (pi_cpu_inj _ Hi).
  - rewrite Hpid. split; [done|]. intros _. apply Hz. congruence.
  - by left.
  - intros Hu. destruct Hs; congruence.
  - intros j. rewrite Hpar. by apply (pi_parent _ Hi me p).
  - intros _ Hne. rewrite Hpar. apply (pi_orphan _ Hi me p); auto.
  - left. unfold alive. destruct Hs; auto.
  - intros Hroot. rewrite Hpar. destruct (pi_init _ Hi) as (k & r & Hk & Hr' & _ & Hn). by simplify_eq.
  - intros j q Hzo. destruct Hs; congruence.
Qed.

Lemma sched_Ret st c cp me st' :
  sched true cp st c me = Ret st' → st' = set_cpu st c None.
Proof.
  unfold sched, get_proc. destruct (ptable st !! me) as [p|]; [|done]. cbn [obind]. simpl.
  destruct (negb _); [done|]. destruct (bool_decide _); [done|]. destruct (FL_IF cp); [done|]. by intros [= <-].
Qed.

Lemma scheduler_inv st c i st' :
  proc_inv st → on_cpu st c = None → scheduler st c i = Ret st' → proc_inv st'.
Proof.
  intros Hi Hc. unfold scheduler, get_proc. destruct (ptable st !! i) as [p|] eqn:Hp; [|done]. cbn [obind].
  case_bool_decide as Hs; [|by intros [= <-]]. unfold switchuvm.
  destruct (Z.eqb _ _); [done|]. destruct (Z.eqb _ _); [done|]. cbn [obind]. intros [= <-].
  destruct (pi_pid _ Hi i p Hp) as [Hb Hz]. assert (Ha : alive p) by (by right; left).
  assert (Hnone : ∀ c', on_cpu st c' ≠ Some i).
  { intros c' Hc'. destruct (pi_cpu _ Hi c' i Hc') as (q & Hq & Hr). simplify_eq. congruence. }
  apply (slot_inv st _ i p (with_state RUNNING p)); [|done]. split; simpl; try done.
  - by apply (upd_insert (set_cpu st c (Some i)) i (with_state RUNNING)).
  - intros c' j Hne. unfold set. case_decide; [subst|done]. rewrite Hc. split; congruence.
  - split; [|done]. intros _. exists c. by rewrite set_eq.
  - intros c1 c2. unfold set. repeat case_decide; subst; try done; intros H1 H2; exfalso; by eapply Hnone.
  - split; [done|]. intros _. apply Hz. congruence.
  - by left.
  - intros j. by apply (pi_parent _ Hi i p).
  - intros _ Hne. apply (pi_orphan _ Hi i p); auto.
  - left. by right; right.
  - intros Hroot. destruct (pi_init _ Hi) as (k & r & Hk & Hr' & _ & Hn). by simplify_eq.
Qed.

Lemma reap_inv st i p :
  proc_inv st → ptable st !! i = Some p → p_state p = ZOMBIE → proc_inv (upd_proc st i reaped).
Proof.
  intros Hi Hp Hs. assert (Hd : ¬ alive p) by (intros [|[|]]; congruence).
  destruct (dead_no_child st i p Hi Hp Hd) as [Hroot Hno]. destruct (pi_pid _ Hi i p Hp) as [Hb Hz].
  apply (slot_inv st _ i p (reaped p)); [|done]. split; simpl; try done; try congruence.
  - by apply upd_insert.
  - eapply (idle_slot st i p); [done|done|congruence|done].
  - intros c1 c2. by apply (pi_cpu_inj _ Hi).
  - split; [lia|done].
  - by right; left.
  - intros [[|[|]]|]; done.
  - by right.
Qed.

Lemma sleep_inv st c cp me chan lk st' :
  proc_inv st → on_cpu st c = Some me →
  (chan = proc_addr me → ∀ j q, ptable st !! j = Some q → p_parent q = Some me → p_state q ≠ ZOMBIE) →
  sleep st c cp (Some me) chan lk = Ret st' → proc_inv st'.
Proof.
  intros Hi Hc Hz. unfold sleep. destruct lk as [lk|]; [|done]. intros (cp1 & _ & ->%sched_Ret)%obind_Ret_inv.
  destruct (pi_cpu _ Hi c me Hc) as (p & Hp & Hr).
  eapply leave_inv; eauto; simpl; auto.
Qed.

Lemma wait_inv st c cp me r st' :
  proc_inv st → on_cpu st c = Some me → wait st c cp me = Ret (r, st') → proc_inv st'.
Proof.
  intros Hi Hc. unfold wait. destruct (list_find _ _) as [[i p]|] eqn:Hf.
  - apply list_find_Some in Hf as (Hp & [_ Hz] & _). intros Hrun. outcome_inv.
    apply (reap_inv (set_rest st _) i p); [|done|done].
    apply (calm_inv st); [|done]. apply (calm_map _ _ (λ _ p, p)); try done; [|auto].
    intros j. simpl. by destruct (_ !! j).
  - apply list_find_None in Hf. unfold get_proc. destruct (ptable st !! me) as [p|]; [|done]. cbn [obind].
    destruct (_ || _); [by intros [= <- <-]|]. intros Hrun. apply obind_Ret_inv in Hrun as (s1 & Hs & [= <- <-]).
    eapply sleep_inv; [done|done| |done]. intros _ j q Hq Hpar Hz.
    rewrite Forall_forall in Hf. apply (Hf q); [by eapply list_elem_of_lookup_2|done].
Qed.

(** [reparent] gives the children of [me] to init, and wakes init if one is a zombie. *)
Record repar (st st' : kern K) (me : nat) (R : nat → Prop) : Prop := mk_repar {
  rp_len : length (ptable st') = length (ptable st);
  rp_cpu : on_cpu st' = on_cpu st;
  rp_pid : nextpid st' = nextpid st;
  rp_init : initproc st' = initproc st;
  rp_slot j p' : ptable st' !! j = Some p' → ∃ p, ptable st !! j = Some p ∧ p_pid p' = p_pid p ∧
    p_chan p' = p_chan p ∧ (p_state p' = p_state p ∨ (p_state p = SLEEPING ∧ p_state p' = RUNNABLE)) ∧
    ((R j ∧ p_parent p = Some me ∧ p_parent p' = initproc st) ∨
     (¬ (R j ∧ p_parent p = Some me) ∧ p_parent p' = p_parent p));
  rp_wake j p : R j → ptable st !! j = Some p → p_parent p = Some me → p_state p = ZOMBIE →
    ∀ k q, ptable st' !! k = Some q → p_state q = SLEEPING → p_chan q ≠ chan_of (initproc st) }.

Lemma wake_awake st chan k q :
  ptable (wakeup1 st chan) !! k = Some q → p_state q = SLEEPING → p_chan q ≠ chan.
Proof.
  unfold wakeup1. simpl. rewrite list_lookup_fmap, fmap_Some. intros (p & Hp & ->). unfold wake1.
  case_bool_decide as Hs; simpl; [|congruence]. destruct (Z.eqb_spec (p_chan p) chan); simpl; done.
Qed.

(** One turn of the loop. *)
Lemma repar_turn st me i :
  initproc st ≠ Some me →
  repar st (match ptable st !! i with
            | Some p => if bool_decide (p_parent p = Some me) then
                          let st1 := upd_proc st i (with_parent (initproc st)) in
                          if bool_decide (p_state p = ZOMBIE) then wakeup1 st1 (chan_of (initproc st)) else st1
                        else st
            | None => st end) me (λ j, j = i).
Proof.
  intros Hroot. destruct (ptable st !! i) as [p|] eqn:Hp.
  2: { split; try done. intros j p' Hp'. exists p'. split_and!; auto. right. split; [|done]. intros [-> _]. congruence.
       intros j p' ->. congruence. }
  case_bool_decide as Hpar.
  2: { split; try done. intros j p' Hp'. exists p'. split_and!; auto. right. split; [|done]. intros [-> ?]. congruence.
       intros j p' -> Hp'. congruence. }
  assert (Hst1 : ∀ j p', ptable (upd_proc st i (with_parent (initproc st))) !! j = Some p' →
    ∃ p, ptable st !! j = Some p ∧ p_pid p' = p_pid p ∧ p_chan p' = p_chan p ∧ p_state p' = p_state p ∧
      ((j = i ∧ p_parent p = Some me ∧ p_parent p' = initproc st) ∨
       (¬ (j = i ∧ p_parent p = Some me) ∧ p_parent p' = p_parent p))).
  { intros j p'. rewrite lookup_upd. intros (p0 & Hp0 & ->). exists p0. split; [done|].
    case_decide; subst; simpl; [simplify_eq; naive_solver|naive_solver]. }
  cbv zeta. case_bool_decide as Hz.
  - split; try done; [simpl; by rewrite length_fmap, length_alter| |].
    + intros j p' Hp'. unfold wakeup1 in Hp'. simpl in Hp'. rewrite list_lookup_fmap, fmap_Some in Hp'.
      destruct Hp' as (p1 & Hp1 & ->). destruct (Hst1 j p1 Hp1) as (p0 & Hp0 & H1 & H2 & H3 & H4).
      exists p0. split; [done|]. unfold wake1. rewrite <- H1, <- H2, <- H3.
      case_bool_decide as Hs; simpl; [destruct (Z.eqb _ _); simpl|]; split_and!; auto.
    + intros j p0 -> Hp0 _ _ k q Hk Hs. by eapply wake_awake.
  - split; try done; [simpl; by rewrite length_alter| |].
    + intros j p' Hp'. destruct (Hst1 j p' Hp') as (p0 & Hp0 & H1 & H2 & H3 & H4). exists p0. split_and!; auto.
    + intros j p0 -> Hp0 _ Hz'. congruence.
Qed.

Lemma reparent_spec me n : ∀ st i,
  initproc st ≠ Some me → repar st (reparent n st me i) me (λ j, i ≤ j < i + n)%nat.
Proof.
  induction n as [|n IH]; intros st i Hroot; cbn [reparent].
  { split; try done; [|lia]. intros j p' Hp'. exists p'. split_and!; auto. right. split; [lia|done]. }
  pose proof (repar_turn st me i Hroot) as H1. set (st2 := match _ with Some p => _ | None => _ end) in *.
  assert (Hroot2 : initproc st2 ≠ Some me) by (by rewrite (rp_init _ _ _ _ H1)).
  destruct (IH st2 (S i) Hroot2) as [Hl2 Hc2 Hn2 Hi2 Hs2 Hw2]. destruct H1 as [Hl1 Hc1 Hn1 Hi1 Hs1 Hw1].
  split; rewrite ?Hl2, ?Hc2, ?Hn2, ?Hi2; try done.
  - intros j p' Hp'. destruct (Hs2 j p' Hp') as (p2 & Hp2 & A1 & A2 & A3 & A4).
    destruct (Hs1 j p2 Hp2) as (p1 & Hp1 & B1 & B2 & B3 & B4). exists p1.
    split; [done|]. split; [congruence|]. split; [congruence|]. split.
    { destruct A3 as [->|[A3 ->]], B3 as [B3|[B3 B3']]; try congruence; auto. right. split; congruence. }
    rewrite Hi1 in A4. destruct B4 as [(-> & Bp & B4)|[Bn B4]].
    + left. split; [lia|]. split; [done|]. destruct A4 as [(? & _)|[_ A4]]; [lia|congruence].
    + destruct A4 as [(Aj & Ap & A4)|[An A4]].
      * left. split; [lia|]. split; [congruence|done].
      * right. rewrite A4, B4. split; [|done]. intros [Hj Hp]. destruct (decide (j = i)) as [->|]; [by apply Bn|].
        apply An. split; [lia|congruence].
  - intros j p Hj Hp Hpar Hz k q Hq Hsl.
    destruct (Hs2 k q Hq) as (q2 & Hq2 & _ & Hch & Hst & _).
    assert (Hsl2 : p_state q2 = SLEEPING) by (destruct Hst as [<-|[_ ?]]; congruence).
    destruct (decide (j = i)) as [->|Hne].
    { rewrite Hch. by eapply (Hw1 i p). }
    destruct (lookup_lt_is_Some_2 (ptable st2) j) as [p2 Hp2]; [rewrite Hl1; by eapply lookup_lt_Some|].
    destruct (Hs1 j p2 Hp2) as (p1 & Hp1 & _ & _ & B3 & B4). simplify_eq. rewrite <- Hi1.
    eapply (Hw2 j p2); [lia|done| |destruct B3 as [->|[]]; congruence|done|done].
    destruct B4 as [(? & _)|[_ ->]]; done.
Qed.

Lemma reparent_inv st st' me :
  proc_inv st → initproc st ≠ Some me → repar st st' me (λ j, 0 ≤ j < 0 + NPROC)%nat →
  proc_inv st' ∧ ∀ j q, ptable st' !! j = Some q → p_parent q ≠ Some me.
Proof.
  intros Hi Hroot [Hl Hc Hn Hr Hs Hw]. pose proof (pi_len _ Hi) as Hlen.
  destruct (pi_init _ Hi) as (ini & pi & Hini & Hpi & Hai & Hpari).
  assert (HR : ∀ j p, ptable st !! j = Some p → (0 ≤ j < 0 + NPROC)%nat).
  { intros j p Hj%lookup_lt_Some. lia. }
  assert (Hfw : ∀ j p, ptable st !! j = Some p → ∃ p', ptable st' !! j = Some p' ∧ p_pid p' = p_pid p ∧
    (p_state p' = p_state p ∨ (p_state p = SLEEPING ∧ p_state p' = RUNNABLE)) ∧
    p_parent p' = (if decide (p_parent p = Some me) then initproc st else p_parent p)).
  { intros j p Hj. destruct (lookup_lt_is_Some_2 (ptable st') j) as [p' Hp'];
      [rewrite Hl; by eapply lookup_lt_Some|].
    exists p'. destruct (Hs j p' Hp') as (p0 & Hp0 & H1 & _ & H3 & H4). simplify_eq. split_and!; try done.
    destruct H4 as [(_ & Hp & ->)|[Hnp ->]]; [by rewrite decide_True|].
    rewrite decide_False; [done|]. intros Hp. apply Hnp. split; [by eapply HR|done]. }
  assert (Hbw : ∀ j p', ptable st' !! j = Some p' → ∃ p, ptable st !! j = Some p ∧ p_pid p' = p_pid p ∧
    p_chan p' = p_chan p ∧ (p_state p' = p_state p ∨ (p_state p = SLEEPING ∧ p_state p' = RUNNABLE)) ∧
    p_parent p' = (if decide (p_parent p = Some me) then initproc st else p_parent p)).
  { intros j p' Hj. destruct (Hs j p' Hj) as (p & Hp & H1 & H2 & H3 & _). exists p.
    destruct (Hfw j p Hp) as (p2 & Hp2 & _ & _ & H4). simplify_eq. done. }
  assert (Hal : ∀ j p, ptable st !! j = Some p → alive p → ∃ p', ptable st' !! j = Some p' ∧ alive p').
  { intros j p Hp Ha. destruct (Hfw j p Hp) as (p' & Hp' & _ & Hst & _). exists p'. split; [done|].
    unfold alive in *. destruct Hst as [->|[_ ->]]; [done|auto]. }
  split; [split; rewrite ?Hl, ?Hc, ?Hn, ?Hr|].
  - done.
  - destruct (Hfw ini pi Hpi) as (p' & Hp' & _ & Hst & Hpp). destruct (Hal ini pi Hpi Hai) as (p2 & Hp2 & Ha2).
    assert (p2 = p') as -> by congruence. exists ini, p'. split_and!; try done. by rewrite Hpp, Hpari, decide_False.
  - intros c i Hci. destruct (pi_cpu _ Hi c i Hci) as (p & Hp & Hrun). destruct (Hfw i p Hp) as (p' & Hp' & _ & Hst & _).
    exists p'. split; [done|]. destruct Hst as [->|[]]; congruence.
  - apply Hi.
  - intros i p' Hp' Hrun. destruct (Hbw i p' Hp') as (p & Hp & _ & _ & Hst & _).
    apply (pi_running _ Hi i p Hp). destruct Hst as [<-|[_ ?]]; congruence.
  - intros i p' Hp'. destruct (Hbw i p' Hp') as (p & Hp & -> & _ & Hst & _).
    destruct (pi_pid _ Hi i p Hp) as [? Hz]. split; [done|]. intros Hne. apply Hz. destruct Hst as [<-|[-> _]]; done.
  - intros i j p' q' Hp' Hq' Heq Hz. destruct (Hbw i p' Hp') as (p & Hp & Hpp & _).
    destruct (Hbw j q' Hq') as (q & Hq & Hqq & _). apply (pi_pid_inj _ Hi i j p q); congruence.
  - intros i p' Hp' Hu. destruct (Hbw i p' Hp') as (p & Hp & _ & _ & Hst & ->).
    assert (p_parent p = None) as -> by (apply (pi_unused _ Hi i p Hp); destruct Hst as [<-|[_ ?]]; congruence).
    done.
  - intros i p' j Hp' Hj. destruct (Hbw i p' Hp') as (p & Hp & _ & _ & _ & Hpp). rewrite Hpp in Hj.
    case_decide as Hd.
    + simplify_eq. split; [|by eapply Hal]. intros ->. simplify_eq.
    + destruct (pi_parent _ Hi i p j Hp Hj) as (Hne & q & Hq & Ha). split; [done|by eapply Hal].
  - intros i p' Hp' Ha Hne. destruct (Hbw i p' Hp') as (p & Hp & _ & _ & Hst & ->). case_decide; [by rewrite Hini|].
    apply (pi_orphan _ Hi i p Hp); [|done]. unfold alive in *. destruct Hst as [<-|[-> _]]; [done|auto].
  - intros i p' j q' Hq' Hsl Hch Hp' Hpar Hz. destruct (Hbw i p' Hp') as (p & Hp & _ & _ & Hst & Hpp).
    destruct (Hbw j q' Hq') as (q & Hq & _ & Hcq & Hsq & _).
    assert (Hpz : p_state p = ZOMBIE) by (destruct Hst as [<-|[_ ?]]; congruence).
    rewrite Hpp in Hpar. case_decide as Hd.
    + apply (Hw i p (HR i p Hp) Hp Hd Hpz j q' Hq' Hsl). by rewrite Hpar.
    + apply (pi_wait _ Hi i p j q); try done; [destruct Hsq as [<-|[]]; congruence|congruence].
  - intros j q Hq. destruct (Hbw j q Hq) as (p & _ & _ & _ & _ & ->). by case_decide.
Qed.

(** A running process without children whose parent is not asleep in [wait] becomes a zombie. *)
Lemma zombie_inv st c me p :
  proc_inv st → on_cpu st c = Some me → ptable st !! me = Some p → initproc st ≠ Some me →
  (∀ j q, ptable st !! j = Some q → p_parent q ≠ Some me) →
  (∀ j q, p_parent p = Some j → ptable st !! j = Some q → ¬ (p_state q = SLEEPING ∧ p_chan q = proc_addr j)) →
  proc_inv (set_cpu (upd_proc st me (with_state ZOMBIE)) c None).
Proof.
  intros Hi Hc Hp Hroot Hno Hpar. destruct (pi_cpu _ Hi c me Hc) as (p2 & Hp2 & Hr). simplify_eq.
  destruct (pi_pid _ Hi me p Hp) as [Hb Hz].
  apply (slot_inv st _ me p (with_state ZOMBIE p)); [|done]. split; simpl; try done.
  - by apply upd_insert.
  - intros c' j Hne. unfold set. case_decide; [|done]. subst. split; [done|]. rewrite Hc. congruence.
  - split; [done|]. intros [c' Hc']. unfold set in Hc'. case_decide; [done|].
    exfalso. apply H. by eapply (pi_cpu_inj _ Hi).
  - intros c1 c2. unfold set. repeat case_decide; try done. by apply (pi_cpu_inj _ Hi).
  - split; [done|]. intros _. apply Hz. congruence.
  - by left.
  - intros j. by apply (pi_parent _ Hi me p).
  - intros _ _. apply (pi_orphan _ Hi me p); [done|left; by right; right|done].
  - by right.
  - intros j q _. apply Hpar.
Qed.

Lemma exit_inv_gen st st2 c me p :
  proc_inv st → on_cpu st c = Some me → initproc st ≠ Some me → ptable st !! me = Some p →
  repar (wakeup1 st (chan_of (p_parent p))) st2 me (λ j, 0 ≤ j < 0 + NPROC)%nat →
  proc_inv (set_cpu (upd_proc st2 me (with_state ZOMBIE)) c None).
Proof.
  intros Hi Hc Hroot Hp Hrep. pose proof (wakeup1_calm st (chan_of (p_parent p))) as Hcalm.
  pose proof (calm_inv _ _ Hcalm Hi) as Hi1. pose proof (wake_awake st (chan_of (p_parent p))) as Hawake.
  assert (Hc1 : on_cpu (wakeup1 st (chan_of (p_parent p))) c = Some me) by done.
  assert (Hroot1 : initproc (wakeup1 st (chan_of (p_parent p))) ≠ Some me) by done.
  set (st1 := wakeup1 st (chan_of (p_parent p))) in *. clearbody st1.
  destruct (reparent_inv st1 _ me Hi1 Hroot1 Hrep) as [Hi2 Hno].
  assert (Hc2 : on_cpu st2 c = Some me) by (by rewrite (rp_cpu _ _ _ _ Hrep)).
  destruct (pi_cpu _ Hi2 c me Hc2) as (p2 & Hp2 & Hr2).
  assert (Hroot2 : initproc st2 ≠ Some me) by (by rewrite (rp_init _ _ _ _ Hrep)).
  apply (zombie_inv st2 c me p2); try done. intros j q Hpar Hq [Hsl Hch].
  destruct (rp_slot _ _ _ _ Hrep me p2 Hp2) as (p1 & Hp1 & _ & _ & _ & Hpp).
  destruct (ca_slot _ _ Hcalm me p1 Hp1) as (p0 & Hp0 & _ & Hpp0 & _). simplify_eq.
  destruct (rp_slot _ _ _ _ Hrep j q Hq) as (q1 & Hq1 & _ & Hcq & Hsq & _).
  assert (Hsl1 : p_state q1 = SLEEPING) by (destruct Hsq as [<-|[_ ?]]; congruence).
  apply (Hawake _ _ Hq1 Hsl1). rewrite <- Hcq, Hch.
  destruct Hpp as [(_ & Hself & _)|[_ Hpp]].
  - rewrite Hpp0 in Hself. by destruct (pi_parent _ Hi me p me Hp Hself) as [? _].
  - rewrite Hpp, Hpp0 in Hpar. by rewrite Hpar.
Qed.

Lemma exit_inv st c cp me st' :
  proc_inv st → on_cpu st c = Some me → initproc st ≠ Some me → exit_locked st c cp me = Ret st' → proc_inv st'.
Proof.
  intros Hi Hc Hroot. unfold exit_locked, get_proc.
  destruct (pi_cpu _ Hi c me Hc) as (p & Hp & Hr). rewrite Hp. cbn [obind]. intros Hs.
  apply sched_Ret in Hs as ->. eapply exit_inv_gen; [done|done|done|done|].
  apply reparent_spec. done.
Qed.

Lemma init_inv p0 k :
  p_state p0 = RUNNABLE → p_pid p0 = 1 → p_parent p0 = None → proc_inv (init_kern p0 k).
Proof.
  intros Hs Hpid Hpar.
  assert (Hl : ∀ i p, ptable (init_kern p0 k) !! i = Some p → (i = O ∧ p = p0) ∨ (i ≠ O ∧ p = no_proc)).
  { intros [|i] p; simpl; [intros [= <-]; by left|]. intros Hp.
    change (replicate 63 no_proc !! i = Some p) in Hp. apply lookup_replicate_1 in Hp as [-> _]. by right. }
  split; try done.
  - exists O, p0. split; [done|]. split; [done|]. split; [by right; left|done].
  - intros i p [[-> ->]|[_ ->]]%Hl; [congruence|done].
  - intros i p [[-> ->]|[_ ->]]%Hl; [rewrite Hpid|]; simpl; (split; [lia|done]).
  - intros i j p q [[-> ->]|[_ ->]]%Hl [[-> ->]|[_ ->]]%Hl; done.
  - intros i p [[-> ->]|[_ ->]]%Hl; done.
  - intros i p j [[-> ->]|[_ ->]]%Hl; [congruence|done].
  - intros i p [[-> ->]|[_ ->]]%Hl; [done|]. intros [[|[|]]|]; done.
  - intros i p j q [[-> ->]|[_ ->]]%Hl; [congruence|done].
Qed.

Lemma preach_inv st : preach st → proc_inv st.
Proof.
  induction 1 as [p0 k ? ? ?|st st' _ IH Hs]; [by apply init_inv|].
  destruct Hs as [k|i st' Ha Hb|c me i p p' Hc Hp Hs Hs' Hpid Hpar|c me i p Hc Hp Hs Hpar|i p Hp Hs Hpar
    |c me p p' Hc Hp Hs Hpid Hpar|c cp me st' Hc Hroot He|c cp me r st' Hc Hw|c cp me chan lk st' Hc Hch Hs|c me Hc
    |chan|pid|c cp me st' Hc Hy|c i st' Hc Hs].
  - apply (calm_inv st); [|done]. apply (calm_map _ _ (λ _ p, p)); try done; [|auto].
    intros j. simpl. by destruct (_ !! j).
  - by eapply alloc_inv.
  - by eapply fill_inv.
  - by eapply fork_run_inv.
  - by eapply fork_fail_inv.
  - apply (calm_inv st); [|done]. apply upd_calm. intros p0 Hp0. simplify_eq.
    split_and!; auto. intros Hsl. destruct (pi_cpu _ IH c me Hc) as (q & Hq & Hr). congruence.
  - by eapply exit_inv.
  - by eapply wait_inv.
  - by eapply sleep_inv.
  - apply (calm_inv st); [|done]. apply upd_calm. intros p0 Hp0.
    destruct (pi_cpu _ IH c me Hc) as (q & Hq & Hr). simplify_eq. simpl. split_and!; auto. congruence.
  - by apply (calm_inv st); [apply wakeup1_calm|].
  - by apply (calm_inv st); [apply kill_calm|].
  - destruct (pi_cpu _ IH c me Hc) as (p & Hp & Hr). apply sched_Ret in Hy as ->.
    eapply leave_inv; [done|done|done|by left|done|done|done].
  - by eapply scheduler_inv.
Qed.
End inv.

(** ** A kernel whose memory and files always succeed, to run the operations *)
#[export] Instance unit_kernel : KernelOps unit := {
  k_kalloc _ := (0x80200000, tt);
  k_kfree _ _ := Ret tt;
  k_setupkvm _ := Ret (0x80300000, tt);
  k_inituvm _ _ := Ret tt;
  k_allocuvm _ p _ _ n := Ret (n, (paging_meta p, num_pageouts p), tt);
  k_deallocuvm _ p _ _ n := Ret (n, paging_meta p, tt);
  k_copyuvm _ _ _ := Ret (0x80400000, tt);
  k_freevm _ _ := Ret tt;
  k_filedup _ _ := Ret tt;
  k_fileclose _ _ := Ret tt;
  k_idup _ _ := Ret tt;
  k_iput _ _ := Ret tt;
  k_namei_root _ := Ret (Some O, tt);
  k_createSwapFile _ _ := Ret (0, Some O, tt);
  k_removeSwapFile _ _ := Ret (0, tt);
  k_copy_parent_swapfile _ _ cur := Ret (paging_meta cur, tt);
  k_free_counts _ := (0, 0) }.

(** ** Properties *)

(** C8: in every state the CPUs can reach, a process is RUNNING exactly when one
    CPU runs it, and then on that CPU only; processes have distinct pids below
    [nextpid]; and every process that is not init has a living parent. *)
Theorem ptable_invariant {K} `{!KernelOps K} (st : kern K) :
  preach st →
  (∀ i p, ptable st !! i = Some p → p_state p = RUNNING ↔ ∃ c, on_cpu st c = Some i) ∧
  (∀ c c' i, on_cpu st c = Some i → on_cpu st c' = Some i → c = c') ∧
  (∀ i j p q, ptable st !! i = Some p → ptable st !! j = Some q → p_state p ≠ UNUSED →
     0 < p_pid p < nextpid st ∧ (p_pid p = p_pid q → i = j)) ∧
  (∀ i p, ptable st !! i = Some p → alive p ∨ p_state p = ZOMBIE → initproc st ≠ Some i →
     ∃ j q, p_parent p = Some j ∧ j ≠ i ∧ ptable st !! j = Some q ∧ alive q).
Proof.
  intros Hr. pose proof (preach_inv st Hr) as Hi. split_and!.
  - intros i p Hp. split; [by apply (pi_running _ Hi)|]. intros [c Hc].
    destruct (pi_cpu _ Hi c i Hc) as (q & Hq & Hrun). congruence.
  - apply Hi.
  - intros i j p q Hp Hq Hu. destruct (pi_pid _ Hi i p Hp) as [Hb Hz]. specialize (Hz Hu). split; [lia|].
    intros Heq. by apply (pi_pid_inj _ Hi i j p q).
  - intros i p Hp Ha Hne. destruct (pi_orphan _ Hi i p Hp Ha Hne) as [j Hj].
    destruct (pi_parent _ Hi i p j Hp Hj) as (Hji & q & Hq & Haq). eauto 6.
Qed.

(** Init, ready to run, and then running on CPU 0. *)
Definition first_proc : proc :=
  with_state RUNNABLE (with_mem PGSIZE 0x80300000 (with_kstack 0x80200000
    (with_files (replicate NOFILE None) (Some O) (with_pid 1 no_proc)))).
Definition running_init : kern unit :=
  match scheduler (init_kern first_proc tt) 0 0 with Ret st => st | _ => init_kern first_proc tt end.

Lemma preach_running_init : preach running_init.
Proof.
  eapply pr_step; [by apply (pr_init first_proc tt)|]. by apply (ps_scheduler _ 0 0).
Qed.

Lemma ptable_invariant_witness :
  let st := running_init in
  (∀ i p, ptable st !! i = Some p → p_state p = RUNNING ↔ ∃ c, on_cpu st c = Some i) ∧
  (∀ c c' i, on_cpu st c = Some i → on_cpu st c' = Some i → c = c') ∧
  (∀ i j p q, ptable st !! i = Some p → ptable st !! j = Some q → p_state p ≠ UNUSED →
     0 < p_pid p < nextpid st ∧ (p_pid p = p_pid q → i = j)) ∧
  (∀ i p, ptable st !! i = Some p → alive p ∨ p_state p = ZOMBIE → initproc st ≠ Some i →
     ∃ j q, p_parent p = Some j ∧ j ≠ i ∧ ptable st !! j = Some q ∧ alive q).
Proof. apply (ptable_invariant running_init). apply preach_running_init. Defined.

(** C4: no wakeup is lost between [exit] and [wait].  In every reachable state a
    parent with a zombie child is not asleep in [wait]; and a parent that calls
    [wait] while it has a zombie child does not go to sleep and does not fail:
    it reaps one of its children, whose slot becomes free. *)
Theorem exit_wait_no_lost_wakeup {K} `{!KernelOps K} (st : kern K) i p j q :
  preach st → ptable st !! i = Some p → p_parent p = Some j → p_state p = ZOMBIE →
  ptable st !! j = Some q →
  ¬ (p_state q = SLEEPING ∧ p_chan q = proc_addr j) ∧
  ∀ c cp r st', wait st c cp j = Ret (r, st') →
    ∃ k z, ptable st !! k = Some z ∧ p_parent z = Some j ∧ p_state z = ZOMBIE ∧
      r = Reaped (p_pid z) ∧ ptable st' !! k = Some (reaped z).
Proof.
  intros Hr Hp Hpar Hz Hq. pose proof (preach_inv st Hr) as Hi. split.
  - intros [Hs Hc]. by apply (pi_wait _ Hi i p j q).
  - intros c cp r st'. unfold wait. destruct (list_find _ _) as [[k z]|] eqn:Hf.
    + apply list_find_Some in Hf as (Hk & [Hkp Hkz] & _). intros Hrun. outcome_inv.
      exists k, z. split_and!; try done. apply lookup_upd. exists z. by rewrite decide_True.
    + apply list_find_None in Hf. rewrite Forall_forall in Hf.
      exfalso. apply (Hf p); [by eapply list_elem_of_lookup_2|done].
Qed.

(** Init forks slot 1, which runs on CPU 1 and exits. *)
Definition child_proc : proc :=
  with_parent (Some O) (with_state EMBRYO (with_pid 2 (with_mem PGSIZE 0x80400000 (with_kstack 0x80200000 no_proc)))).
Definition after_exit : outcome (kern unit) :=
  let st1 := snd (alloc_slot running_init) in
  let st2 := upd_proc st1 1 (λ _, child_proc) in
  let st3 := upd_proc st2 1 (with_state RUNNABLE) in
  let! st4 := scheduler st3 1 1 in
  exit_locked st4 1 (mkCpu true 0 false) 1.

Lemma preach_after_exit : ∃ st, after_exit = Ret st ∧ preach st ∧
  ptable st !! 1%nat = Some (with_state ZOMBIE child_proc) ∧ ptable st !! 0%nat = ptable running_init !! 0%nat.
Proof.
  unfold after_exit. set (st1 := snd (alloc_slot running_init)). set (st2 := upd_proc st1 1 (λ _, child_proc)).
  set (st3 := upd_proc st2 1 (with_state RUNNABLE)).
  destruct (scheduler st3 1 1) as [st4| | | |] eqn:H4; [|by vm_compute in H4..].
  assert (Hr4 : preach st4).
  { apply (pr_step st3); [apply (pr_step st2); [apply (pr_step st1); [apply (pr_step running_init)|]|]|].
    - apply preach_running_init.
    - apply (ps_alloc _ 1 st1); by vm_compute.
    - apply (ps_fill _ 0 0 1 (with_state EMBRYO (with_pid 2 no_proc)) child_proc); by vm_compute.
    - apply (ps_fork_run _ 0 0 1 child_proc); by vm_compute.
    - apply (ps_scheduler _ 1 1 st4); [by vm_compute|done]. }
  vm_compute in H4. injection H4 as <-. eexists. split; [by vm_compute|]. split; [|by vm_compute].
  eapply pr_step; [exact Hr4|]. apply (ps_exit _ 1 (mkCpu true 0 false) 1); by vm_compute.
Qed.

Lemma exit_wait_no_lost_wakeup_witness :
  ∃ st q, after_exit = Ret st ∧ ptable st !! 0%nat = Some q ∧
  (¬ (p_state q = SLEEPING ∧ p_chan q = proc_addr 0) ∧
   ∀ c cp r st', wait st c cp 0 = Ret (r, st') →
     ∃ k z, ptable st !! k = Some z ∧ p_parent z = Some 0%nat ∧ p_state z = ZOMBIE ∧
       r = Reaped (p_pid z) ∧ ptable st' !! k = Some (reaped z)).
Proof.
  destruct preach_after_exit as (st & He & Hr & H1 & H0). exists st, (with_state RUNNING first_proc).
  assert (Hq : ptable st !! 0%nat = Some (with_state RUNNING first_proc)) by (by rewrite H0).
  split; [exact He|]. split; [exact Hq|].
  apply (exit_wait_no_lost_wakeup st 1 (with_state ZOMBIE child_proc) 0 (with_state RUNNING first_proc));
    [exact Hr|exact H1|reflexivity|reflexivity|exact Hq].
Defined.

(** a pid that a failed allocation left behind can be killed, and the mark
    stays: the next process to get that slot is born killed.  ([kill] does not
    look at the state of the slot, and [allocproc] does not clear [killed].) *)
Theorem stale_pid_kill_marks_next :
  ∃ st st' p, preach (K := unit) st ∧ preach st' ∧
    (∀ i q, ptable st !! i = Some q → p_killed q = 0) ∧ fst (kill st 2) = 0 ∧
    alloc_slot (snd (kill st 2)) = (Some 1%nat, st') ∧ ptable st' !! 1%nat = Some p ∧
    p_state p = EMBRYO ∧ p_pid p = 3 ∧ p_killed p = 1.
Proof.
  set (st1 := snd (alloc_slot running_init)). set (st2 := upd_proc st1 1 (with_state UNUSED)).
  set (st3 := snd (kill st2 2)). set (st4 := snd (alloc_slot st3)).
  assert (H2 : preach st2).
  { apply (pr_step st1); [apply (pr_step running_init); [apply preach_running_init|]|].
    - apply (ps_alloc _ 1 st1); by vm_compute.
    - apply (ps_fork_fail _ 1 (with_state EMBRYO (with_pid 2 no_proc))); by vm_compute. }
  assert (H4 : preach st4).
  { apply (pr_step st3); [apply (pr_step st2); [exact H2|apply ps_kill]|].
    apply (ps_alloc _ 1 st4); by vm_compute. }
  exists st2, st4. eexists. split; [exact H2|]. split; [exact H4|].
  split; [|by vm_compute]. intros i q Hq. apply list_elem_of_lookup_2 in Hq.
  assert (Hall : Forall (λ q, p_killed q = 0) (ptable st2)) by (by apply (bool_decide_unpack _); vm_compute).
  rewrite Forall_forall in Hall. by apply Hall.
Qed.

(** ** fork *)





(** What the rest of the kernel shows of its state: the page directories in use, the
    bytes of the pages each has in memory, and the references to files and inodes. *)
Class KernelView (K : Type) := {
  k_dirs : K → list Z;
  k_byte : K → Z → Z → option Z;
  k_frefs : K → nat → Z;
  k_irefs : K → nat → Z }.

(** No address space changes, and no file in use; an inode may be used once more. *)
Record same_view {K} `{KernelView K} (k k' : K) : Prop := mk_same_view {
  sv_dirs : k_dirs k' = k_dirs k;
  sv_byte d va : k_byte k' d va = k_byte k d va;
  sv_frefs f : 0 < k_frefs k f → k_frefs k' f = k_frefs k f;
  sv_irefs i : k_irefs k i ≤ k_irefs k' i }.

Class KernelLaws (K : Type) `{KernelOps K, KernelView K} := {
  kalloc_view k : same_view k (k_kalloc k).2;
  createSwapFile_view k p r k' : k_createSwapFile k p = Ret (r, k') → same_view k k';
  copy_parent_view k np p m k' : k_copy_parent_swapfile k np p = Ret (m, k') → same_view k k';
  filedup_view k f k' : k_filedup k f = Ret k' →
    k_dirs k' = k_dirs k ∧ (∀ d va, k_byte k' d va = k_byte k d va) ∧ (∀ i, k_irefs k' i = k_irefs k i) ∧
    ∀ g, k_frefs k' g = k_frefs k g + (if decide (g = f) then 1 else 0);
  idup_view k d k' : k_idup k d = Ret k' →
    k_dirs k' = k_dirs k ∧ (∀ d va, k_byte k' d va = k_byte k d va) ∧ (∀ f, k_frefs k' f = k_frefs k f) ∧
    ∀ i, k_irefs k' i = k_irefs k i + (if decide (i = d) then 1 else 0);
  copyuvm_view k pgdir sz d k' : k_copyuvm k pgdir sz = Ret (d, k') → d ≠ 0 →
    d ∉ k_dirs k ∧ k_dirs k' = d :: k_dirs k ∧
    (∀ va, 0 ≤ va < sz → is_Some (k_byte k pgdir va) → k_byte k' d va = k_byte k pgdir va) ∧
    (∀ d' va, d' ≠ d → k_byte k' d' va = k_byte k d' va) ∧
    (∀ f, k_frefs k' f = k_frefs k f) ∧ ∀ i, k_irefs k' i = k_irefs k i }.

Section fork_proofs.
  Context {K : Type} `{KernelOps K, KernelView K, !KernelLaws K}.

Lemma same_view_refl (k : K) : same_view k k.
Proof. split; [done..|intros; lia]. Qed.












End fork_proofs.


(** A kernel with address spaces of bytes and counted files, in which nothing fails. *)
Record mini := mkMini { n_dirs : list Z; n_byte : Z → Z → option Z; n_frefs : nat → Z; n_irefs : nat → Z }.

Definition n_new (k : mini) : Z := 1 + foldr Z.max 0 (n_dirs k).
Definition n_copy (k : mini) (pgdir sz : Z) : Z → Z → option Z := λ d va,
  if Z.eqb d (n_new k) then if Z.ltb va sz then n_byte k pgdir va else None else n_byte k d va.

#[export] Instance mini_kernel : KernelOps mini := {
  k_kalloc k := (0x80200000, k);
  k_kfree k _ := Ret k;
  k_setupkvm k := Ret (n_new k, mkMini (n_new k :: n_dirs k) (n_byte k) (n_frefs k) (n_irefs k));
  k_inituvm k _ := Ret k;
  k_allocuvm k p _ _ n := Ret (n, (paging_meta p, num_pageouts p), k);
  k_deallocuvm k p _ _ n := Ret (n, paging_meta p, k);
  k_copyuvm k pgdir sz := Ret (n_new k, mkMini (n_new k :: n_dirs k) (n_copy k pgdir sz) (n_frefs k) (n_irefs k));
  k_freevm k _ := Ret k;
  k_filedup k f := Ret (mkMini (n_dirs k) (n_byte k) (λ g, n_frefs k g + (if decide (g = f) then 1 else 0)) (n_irefs k));
  k_fileclose k f := Ret (mkMini (n_dirs k) (n_byte k) (λ g, n_frefs k g - (if decide (g = f) then 1 else 0)) (n_irefs k));
  k_idup k d := Ret (mkMini (n_dirs k) (n_byte k) (n_frefs k) (λ i, n_irefs k i + (if decide (i = d) then 1 else 0)));
  k_iput k d := Ret (mkMini (n_dirs k) (n_byte k) (n_frefs k) (λ i, n_irefs k i - (if decide (i = d) then 1 else 0)));
  k_namei_root k := Ret (Some O, k);
  k_createSwapFile k _ := Ret (0, Some O, k);
  k_removeSwapFile k _ := Ret (0, k);
  k_copy_parent_swapfile k _ cur := Ret (paging_meta cur, k);
  k_free_counts _ := (0, 0) }.

#[export] Instance mini_view : KernelView mini := { k_dirs := n_dirs; k_byte := n_byte; k_frefs := n_frefs; k_irefs := n_irefs }.

Lemma n_new_fresh k x : x ∈ n_dirs k → x < n_new k.
Proof. unfold n_new. induction (n_dirs k) as [|y l IH]; [by intros ?%elem_of_nil|]. intros [->|Hx%IH]%elem_of_cons; simpl; lia. Qed.

#[export] Instance mini_laws : KernelLaws mini.
Proof.
  split.
  - intros k. apply same_view_refl.
  - intros k p r k' [= _ <-]. apply same_view_refl.
  - intros k np p m k' [= _ <-]. apply same_view_refl.
  - by intros k f k' [= <-].
  - by intros k d k' [= <-].
  - intros k pgdir sz d k' [= <- <-] _. simpl. unfold n_copy. split_and!; try done.
    + intros Hin%n_new_fresh. lia.
    + intros va Hva _. by rewrite Z.eqb_refl, (proj2 (Z.ltb_lt va sz)) by lia.
    + intros d' va Hne. by rewrite (proj2 (Z.eqb_neq _ _) Hne).
Qed.



