(* ===== verification/Sleeplock.v ===== *)
(** * Sleep locks (sleeplock.c)

    A sleep lock as the process that runs sees it, and the processes that
    contend for one: the spin lock inside it makes each test of [locked], with
    the sleep or the taking that follows, one step. *)
From stdpp Require Import base list strings.
From Stdlib Require Import ZArith Lia.
From S2P Require Import Prelude.

(** [lk->lk] is held for the whole of each access; [name] serves debugging. *)
Record sleeplock := mkSleeplock { sl_locked : bool; sl_pid : Z }.

Definition initsleeplock : sleeplock := mkSleeplock false 0.

(** One turn of the loop of [acquiresleep]: [None] when the process must sleep. *)
Definition acquiresleep_try (lk : sleeplock) (pid : Z) : option sleeplock :=
  if sl_locked lk then None else Some (mkSleeplock true pid).

(** [acquiresleep] with no other process to release the lock. *)
Definition acquiresleep (lk : sleeplock) (pid : Z) : outcome sleeplock :=
  match acquiresleep_try lk pid with Some lk' => Ret lk' | None => Sleeps "sleep lock" end.

(** The fields [releasesleep] clears, which is all a process that runs alone sees of
    it: its [wakeup(lk)] finds no sleeper. *)
Definition clear_lock (lk : sleeplock) : sleeplock := mkSleeplock false 0.

Definition holdingsleep (lk : sleeplock) : bool := sl_locked lk.

(** ** Processes that contend for one lock *)

(** A process is outside, about to test [locked] in the loop, asleep on the
    lock, or the one that took it. *)
Inductive swhere := Outside | Testing | Asleep | Inside.
#[export] Instance swhere_eq_dec : EqDecision swhere.
Proof. solve_decision. Defined.

Record contend := mkContend { sl : sleeplock; at_ : Z → swhere }.

(** A turn of the loop of [acquiresleep] by [p]: it takes the lock, or sleeps on it. *)
Definition acquiresleep_turn (c : contend) (p : Z) : contend :=
  match acquiresleep_try (sl c) p with
  | Some lk => mkContend lk (upd (at_ c) p Inside)
  | None => mkContend (sl c) (upd (at_ c) p Asleep)
  end.

(** [wakeup(lk)]: every process asleep on the lock runs again, at its test. *)
Definition wake_sleepers (w : Z → swhere) : Z → swhere := λ q, match w q with Asleep => Testing | s => s end.

(** [releasesleep]: the fields, then the wakeup. *)
Definition releasesleep (c : contend) : contend := mkContend (clear_lock (sl c)) (wake_sleepers (at_ c)).

(** Process [p] returns from [releasesleep]. *)
Definition leave (c : contend) (p : Z) : contend := mkContend (sl c) (upd (at_ c) p Outside).

(** [cs_kill]: [kill()] makes a sleeping process runnable at any time. *)
Inductive cstep (c : contend) : contend → Prop :=
| cs_enter p : at_ c p = Outside → cstep c (mkContend (sl c) (upd (at_ c) p Testing))
| cs_test p : at_ c p = Testing → cstep c (acquiresleep_turn c p)
| cs_release p : at_ c p = Inside → cstep c (leave (releasesleep c) p)
| cs_kill p : at_ c p = Asleep → cstep c (mkContend (sl c) (upd (at_ c) p Testing)).

Inductive creach : contend → Prop :=
| creach_init : creach (mkContend initsleeplock (λ _, Outside))
| creach_step c c' : creach c → cstep c c' → creach c'.

(** The lock is taken exactly while one process is inside, and only then can
    others be asleep. *)
Definition sleep_inv (c : contend) : Prop :=
  if sl_locked (sl c)
  then at_ c (sl_pid (sl c)) = Inside ∧ ∀ p, at_ c p = Inside → p = sl_pid (sl c)
  else ∀ p, at_ c p ≠ Inside ∧ at_ c p ≠ Asleep.

(** Moves that neither enter nor leave the lock. *)
Lemma sleep_inv_move c p w :
  sleep_inv c → at_ c p ≠ Inside → w ≠ Inside → (w = Asleep → sl_locked (sl c) = true) →
  sleep_inv (mkContend (sl c) (upd (at_ c) p w)).
Proof.
  unfold sleep_inv. simpl. intros Hi Hp Hw Ha. destruct (sl_locked (sl c)).
  - destruct Hi as [Hin Hu]. split; [rewrite upd_ne; [done|congruence]|].
    intros q. unfold upd. case_decide; [done|]. apply Hu.
  - intros q. unfold upd. case_decide; [|apply Hi]. split; [done|]. intros Hq. by apply Ha in Hq.
Qed.

Lemma creach_inv c : creach c → sleep_inv c.
Proof.
  induction 1 as [|c c' _ IH Hs]; [done|]. destruct Hs as [p Hp|p Hp|p Hp|p Hp].
  - apply sleep_inv_move; [done|congruence|done|done].
  - unfold acquiresleep_turn, acquiresleep_try. destruct (sl_locked (sl c)) eqn:Hl.
    + apply sleep_inv_move; [done|congruence|done|done].
    + unfold sleep_inv in *. rewrite Hl in IH. simpl. rewrite upd_eq. split; [done|].
      intros q. unfold upd. case_decide; [done|]. intros Hq. by destruct (IH q).
  - unfold sleep_inv in *. simpl. intros q. destruct (sl_locked (sl c)).
    + destruct IH as [_ Hu]. unfold upd, wake_sleepers. case_decide; [done|].
      destruct (at_ c q) eqn:Hq; try done. apply Hu in Hq. apply Hu in Hp. congruence.
    + by destruct (IH p).
  - apply sleep_inv_move; [done|congruence|done|done].
Qed.

(** C40: However processes enter, test, sleep, are killed and release, at most
    one is inside a sleep lock at a time, and none sleeps on a lock that is
    free: when the holder leaves, every process that waits tests again. *)
Theorem sleeplock_exclusion c :
  creach c →
  (∀ p q, at_ c p = Inside → at_ c q = Inside → p = q) ∧
  (∀ p, at_ c p = Asleep → ∃ q, at_ c q = Inside ∧ q ≠ p).
Proof.
  intros Hr. apply creach_inv in Hr. unfold sleep_inv in Hr. destruct (sl_locked (sl c)).
  - destruct Hr as [Hin Hu]. split; [intros p q Hp Hq; by rewrite (Hu p), (Hu q)|].
    intros p Hp. exists (sl_pid (sl c)). split; [done|]. congruence.
  - split; [intros p q Hp; by destruct (Hr p)|]. intros p Hp. by destruct (Hr p).
Qed.

(** Process 4 holds the lock, process 7 sleeps on it. *)
Definition wit_enter (c : contend) (p : Z) : contend := mkContend (sl c) (upd (at_ c) p Testing).
Definition wit_contend : contend :=
  acquiresleep_turn (wit_enter (acquiresleep_turn (wit_enter (mkContend initsleeplock (λ _, Outside)) 4) 4) 7) 7.

Lemma wit_contend_reach : creach wit_contend.
Proof.
  eapply creach_step; [eapply creach_step; [eapply creach_step; [eapply creach_step; [apply creach_init|]|]|]|].
  - by apply (cs_enter _ 4).
  - by apply (cs_test _ 4).
  - by apply (cs_enter _ 7).
  - by apply (cs_test _ 7).
Qed.

Lemma sleeplock_exclusion_witness :
  creach wit_contend ∧ at_ wit_contend 7 = Asleep ∧ (∃ q, at_ wit_contend q = Inside ∧ q ≠ 7) ∧
  (∀ p, at_ wit_contend p = Inside → p = 4).
Proof.
  destruct (sleeplock_exclusion wit_contend wit_contend_reach) as [Hu Ha].
  split; [exact wit_contend_reach|]. split; [done|]. split; [by apply Ha|]. intros p Hp. by apply Hu.
Defined.
