(* ===== verification/Bio.v ===== *)
(** * Disk blocks and the buffer cache (buf.h, memide.c, bio.c)

    The disk as a function from block numbers to blocks, the synchronous driver
    of memide.c, and the cache of bio.c: [NBUF] buffers in a doubly linked list
    through [prev] and [next], most recently used first. *)
From stdpp Require Import base list list_numbers sets strings.
From Stdlib Require Import ZArith Lia FunctionalExtensionality.
From S2P Require Import Prelude Sleeplock.

Definition BSIZE : Z := 512.
Definition NBUF : Z := 30.

(** Little-endian words in the bytes of a block. *)
Definition byte_at (d : list Z) (i : Z) : Z := u8 (nth (Z.to_nat i) d 0).
Definition get32 (d : list Z) (o : Z) : Z :=
  byte_at d o + 2 ^ 8 * byte_at d (o + 1) + 2 ^ 16 * byte_at d (o + 2) + 2 ^ 24 * byte_at d (o + 3).
Definition put32 (d : list Z) (o v : Z) : list Z :=
  <[Z.to_nat (o + 3) := u8 (v / 2 ^ 24)]> (<[Z.to_nat (o + 2) := u8 (v / 2 ^ 16)]>
    (<[Z.to_nat (o + 1) := u8 (v / 2 ^ 8)]> (<[Z.to_nat o := u8 v]> d))).

(** ** Buffers *)

Definition B_VALID : Z := 0x2.
Definition B_DIRTY : Z := 0x4.

(** Pointers to buffers are indices into [bcache.buf]; the list head, declared
    after that array, has the index [NBUF]. *)
Record buf := mkBuf {
  b_flags : Z; b_dev : Z; b_blockno : Z; b_lock : sleeplock; b_refcnt : Z;
  b_prev : Z; b_next : Z; b_data : list Z }.
Definition HEAD : Z := NBUF.

Definition with_flags (v : Z) (b : buf) : buf :=
  mkBuf v (b_dev b) (b_blockno b) (b_lock b) (b_refcnt b) (b_prev b) (b_next b) (b_data b).
Definition with_block (dev blockno : Z) (b : buf) : buf :=
  mkBuf (b_flags b) dev blockno (b_lock b) (b_refcnt b) (b_prev b) (b_next b) (b_data b).
Definition with_lock (l : sleeplock) (b : buf) : buf :=
  mkBuf (b_flags b) (b_dev b) (b_blockno b) l (b_refcnt b) (b_prev b) (b_next b) (b_data b).
Definition with_refcnt (n : Z) (b : buf) : buf :=
  mkBuf (b_flags b) (b_dev b) (b_blockno b) (b_lock b) n (b_prev b) (b_next b) (b_data b).
Definition with_prev (p : Z) (b : buf) : buf :=
  mkBuf (b_flags b) (b_dev b) (b_blockno b) (b_lock b) (b_refcnt b) p (b_next b) (b_data b).
Definition with_next (n : Z) (b : buf) : buf :=
  mkBuf (b_flags b) (b_dev b) (b_blockno b) (b_lock b) (b_refcnt b) (b_prev b) n (b_data b).
Definition with_data (d : list Z) (b : buf) : buf :=
  mkBuf (b_flags b) (b_dev b) (b_blockno b) (b_lock b) (b_refcnt b) (b_prev b) (b_next b) d.

(** ** The disk (memide.c) *)

(** [past] records the contents the disk had before each write: the contents
    a loss of power may leave behind. *)
Record disk := mkDisk { blocks : Z → list Z; disksize : Z; past : list (Z → list Z) }.

Definition disk_write (d : disk) (bn : Z) (data : list Z) : disk :=
  mkDisk (upd (blocks d) bn data) (disksize d) (past d ++ [blocks d]).

Definition iderw (d : disk) (b : buf) : outcome (disk * buf) :=
  if negb (holdingsleep (b_lock b)) then Panic "iderw: buf not locked"
  else if Z.eqb (Z.land (b_flags b) (Z.lor B_VALID B_DIRTY)) B_VALID then Panic "iderw: nothing to do"
  else if negb (Z.eqb (b_dev b) 1) then Panic "iderw: request not for disk 1"
  else if Z.leb (disksize d) (b_blockno b) then Panic "iderw: block out of range"
  else
    let! (d', b') :=
      if negb (Z.eqb (Z.land (b_flags b) B_DIRTY) 0)
      then let b1 := with_flags (Z.land (b_flags b) (Z.lnot B_DIRTY)) b in
           Ret (disk_write d (b_blockno b) (b_data b1), b1)
      else Ret (d, with_data (blocks d (b_blockno b)) b) in
    Ret (d', with_flags (Z.lor (b_flags b') B_VALID) b').

(** ** The cache (bio.c) *)

(** [bcache.lock] is held for the whole of each access. *)
Record bio := mkBio { bufs : Z → buf; dk : disk }.

Definition set_buf (s : bio) (b : Z) (x : buf) : bio := mkBio (upd (bufs s) b x) (dk s).

(** [binit]: buffers are pushed to the front one by one. *)
Definition push_front (f : Z → buf) (b : Z) : Z → buf :=
  let f := upd f b (with_next (b_next (f HEAD)) (f b)) in
  let f := upd f b (with_prev HEAD (f b)) in
  let f := upd f (b_next (f HEAD)) (with_prev b (f (b_next (f HEAD)))) in
  upd f HEAD (with_next b (f HEAD)).

Fixpoint binit_loop (n : nat) (b : Z) (f : Z → buf) : Z → buf :=
  match n with
  | O => f
  | S k => binit_loop k (b + 1) (push_front (upd f b (with_lock initsleeplock (f b))) b)
  end.
Definition binit (f : Z → buf) : Z → buf :=
  let f := upd f HEAD (with_prev HEAD (f HEAD)) in
  let f := upd f HEAD (with_next HEAD (f HEAD)) in
  binit_loop (Z.to_nat NBUF) 0 f.

(** The two scans of [bget]: by [next] for the block, by [prev] for a buffer to
    recycle. *)
Fixpoint find_cached (n : nat) (f : Z → buf) (b dev blockno : Z) : outcome (option Z) :=
  match n with
  | O => NoFuel
  | S k =>
      if Z.eqb b HEAD then Ret None
      else if Z.eqb (b_dev (f b)) dev && Z.eqb (b_blockno (f b)) blockno then Ret (Some b)
      else find_cached k f (b_next (f b)) dev blockno
  end.

Fixpoint find_unused (n : nat) (f : Z → buf) (b : Z) : outcome (option Z) :=
  match n with
  | O => NoFuel
  | S k =>
      if Z.eqb b HEAD then Ret None
      else if Z.eqb (b_refcnt (f b)) 0 && Z.eqb (Z.land (b_flags (f b)) B_DIRTY) 0 then Ret (Some b)
      else find_unused k f (b_prev (f b))
  end.

(** The list has [NBUF] buffers and the head. *)
Definition SCAN : nat := S (Z.to_nat NBUF).

(** [pid] is that of the running process. *)
Definition bget (s : bio) (pid dev blockno : Z) : outcome (Z * bio) :=
  let! c := find_cached SCAN (bufs s) (b_next (bufs s HEAD)) dev blockno in
  match c with
  | Some b =>
      let x := with_refcnt (u32 (b_refcnt (bufs s b) + 1)) (bufs s b) in
      let! lk := acquiresleep (b_lock x) pid in
      Ret (b, set_buf s b (with_lock lk x))
  | None =>
      let! r := find_unused SCAN (bufs s) (b_prev (bufs s HEAD)) in
      match r with
      | Some b =>
          let x := with_refcnt 1 (with_flags 0 (with_block dev blockno (bufs s b))) in
          let! lk := acquiresleep (b_lock x) pid in
          Ret (b, set_buf s b (with_lock lk x))
      | None => Panic "bget: no buffers"
      end
  end.

Definition bread (s : bio) (pid dev blockno : Z) : outcome (Z * bio) :=
  let! (b, s1) := bget s pid dev blockno in
  if Z.eqb (Z.land (b_flags (bufs s1 b)) B_VALID) 0 then
    let! (d, x) := iderw (dk s1) (bufs s1 b) in
    Ret (b, mkBio (upd (bufs s1) b x) d)
  else Ret (b, s1).

Definition bwrite (s : bio) (b : Z) : outcome bio :=
  if negb (holdingsleep (b_lock (bufs s b))) then Panic "bwrite"
  else
    let! (d, x) := iderw (dk s) (with_flags (Z.lor (b_flags (bufs s b)) B_DIRTY) (bufs s b)) in
    Ret (mkBio (upd (bufs s) b x) d).

(** The unlinking of [brelse]. *)
Definition unlink (f : Z → buf) (b : Z) : Z → buf :=
  let f := upd f (b_next (f b)) (with_prev (b_prev (f b)) (f (b_next (f b)))) in
  upd f (b_prev (f b)) (with_next (b_next (f b)) (f (b_prev (f b)))).

Definition brelse (s : bio) (b : Z) : outcome bio :=
  if negb (holdingsleep (b_lock (bufs s b))) then Panic "brelse"
  else
    let f := upd (bufs s) b (with_lock (clear_lock (b_lock (bufs s b))) (bufs s b)) in
    let f := upd f b (with_refcnt (u32 (b_refcnt (f b) - 1)) (f b)) in
    if Z.eqb (b_refcnt (f b)) 0 then Ret (mkBio (push_front (unlink f b) b) (dk s))
    else Ret (mkBio f (dk s)).

(** A store to the bytes of a buffer. *)
Definition set_data (s : bio) (b : Z) (d : list Z) : bio := set_buf s b (with_data d (bufs s b)).

(** ** Words in blocks *)

Lemma upd_upd {A} (f : Z → A) n v w : upd (upd f n v) n w = upd f n w.
Proof. extensionality k. unfold upd. by case_decide. Qed.

Lemma length_put32 d o v : length (put32 d o v) = length d.
Proof. unfold put32. by rewrite !length_insert. Qed.

Lemma byte_at_insert_ne d i j v : 0 ≤ i → 0 ≤ j → i ≠ j → byte_at (<[Z.to_nat i := v]> d) j = byte_at d j.
Proof. intros. unfold byte_at. rewrite !nth_lookup, list_lookup_insert_ne by lia. done. Qed.

Lemma byte_at_insert d i j v :
  0 ≤ i < Z.of_nat (length d) → 0 ≤ j →
  byte_at (<[Z.to_nat i := v]> d) j = if decide (i = j) then u8 v else byte_at d j.
Proof.
  intros Hi Hj. case_decide as Heq; [subst j|by apply byte_at_insert_ne; lia].
  unfold byte_at. rewrite (nth_lookup_Some _ _ _ v); [done|]. apply list_lookup_insert_eq. lia.
Qed.

Lemma bytes_of_word v :
  0 ≤ v < 2 ^ 32 → u8 v + 2 ^ 8 * u8 (v / 2 ^ 8) + 2 ^ 16 * u8 (v / 2 ^ 16) + 2 ^ 24 * u8 (v / 2 ^ 24) = v.
Proof. intros Hv. unfold u8. Z.to_euclidean_division_equations. lia. Qed.

Lemma get32_put32_eq d o v :
  0 ≤ o → o + 4 ≤ Z.of_nat (length d) → 0 ≤ v < 2 ^ 32 → get32 (put32 d o v) o = v.
Proof.
  intros Ho Hl Hv. unfold get32, put32.
  rewrite !byte_at_insert by (rewrite ?length_insert; lia).
  repeat (case_decide as Hd; [try (exfalso; lia)|try (exfalso; lia)]; clear Hd).
  rewrite !u8_idem. by apply bytes_of_word.
Qed.

Lemma get32_put32_ne d o o' v :
  0 ≤ o → 0 ≤ o' → o + 4 ≤ o' ∨ o' + 4 ≤ o → get32 (put32 d o v) o' = get32 d o'.
Proof. intros. unfold get32, put32. rewrite !byte_at_insert_ne by lia. done. Qed.

(** ** The doubly linked list *)

(** Following [nx] from [a] passes through [l] to [z], and [pv] goes back. *)
Fixpoint links (nx pv : Z → Z) (a : Z) (l : list Z) (z : Z) : Prop :=
  match l with
  | [] => nx a = z ∧ pv z = a
  | x :: l' => nx a = x ∧ pv x = a ∧ links nx pv x l' z
  end.

Lemma links_app nx pv a l1 x l2 z :
  links nx pv a (l1 ++ x :: l2) z ↔ links nx pv a l1 x ∧ links nx pv x l2 z.
Proof. revert a. induction l1 as [|y l1 IH]; intros a; simpl; [tauto|]. rewrite IH. tauto. Qed.

Lemma links_ext nx pv nx' pv' a l z :
  (∀ x, x ∈ a :: l → nx' x = nx x) → (∀ x, x ∈ l ++ [z] → pv' x = pv x) →
  links nx pv a l z → links nx' pv' a l z.
Proof.
  revert a. induction l as [|y l IH]; intros a Hn Hp; simpl.
  - rewrite Hn, Hp by set_solver. done.
  - rewrite Hn, (Hp y) by set_solver. intros (? & ? & ?). split_and!; [done..|].
    apply IH; [set_solver..|done].
Qed.

Lemma last_cons_default (y a : Z) l : List.last (y :: l) a = List.last l y.
Proof.
  revert y a. induction l as [|w l IH]; intros y a; [done|].
  change (List.last (w :: l) a = List.last (w :: l) y). by rewrite !IH.
Qed.

Lemma links_last nx pv a l z : links nx pv a l z → pv z = List.last l a.
Proof.
  revert a. induction l as [|y l IH]; intros a; [simpl; tauto|]. intros (_ & _ & Hl).
  by rewrite (IH y Hl), last_cons_default.
Qed.

Lemma links_first nx pv a l z : links nx pv a l z → nx a = hd z l.
Proof. destruct l; simpl; tauto. Qed.

Lemma last_In (l : list Z) a : List.last l a ∈ a :: l.
Proof.
  revert a. induction l as [|x l IH]; intros a; [set_solver|].
  rewrite last_cons_default. specialize (IH x). set_solver.
Qed.

(** Taking [b] out of the list. *)
Lemma links_unlink nx pv a l1 b l2 z :
  NoDup (l1 ++ b :: l2) → a ∉ l1 ++ b :: l2 → z ∉ l1 ++ b :: l2 →
  links nx pv a (l1 ++ b :: l2) z →
  links (upd nx (pv b) (nx b)) (upd pv (nx b) (pv b)) a (l1 ++ l2) z.
Proof.
  intros Hnd Ha Hz (H1 & H2)%links_app.
  pose proof (links_last _ _ _ _ _ H1) as Hp. pose proof (links_first _ _ _ _ _ H2) as Hn.
  revert a Ha Hnd Hz H1 Hp. induction l1 as [|y l1 IH]; intros a Ha Hnd Hz H1 Hp.
  - simpl in *. destruct H1 as [Hna Hpb]. destruct l2 as [|x l2]; simpl in *.
    + rewrite Hn, Hpb, !upd_eq. done.
    + rewrite Hn, Hpb, !upd_eq. destruct H2 as (_ & _ & H2). split_and!; [done..|].
      apply NoDup_cons in Hnd as [_ Hnd]. apply NoDup_cons in Hnd as [Hx Hnd].
      revert H2. apply links_ext; intros w Hw; apply upd_ne; set_solver.
  - destruct H1 as (Hna & Hpy & H1). cbn [app] in *. apply NoDup_cons in Hnd as [Hy Hnd].
    assert (Hpv : pv b ∈ y :: l1).
    { rewrite Hp, last_cons_default. apply last_In. }
    assert (Hnx : nx b ∈ l2 ++ [z]) by (rewrite Hn; destruct l2; set_solver).
    assert (a ≠ pv b) by (clear -Ha Hpv; set_solver).
    assert (y ≠ nx b) by (clear -Hy Hz Hnx; set_solver).
    simpl. rewrite !upd_ne by done. split_and!; [done..|].
    apply IH; [done|done|clear -Hz; set_solver|done|].
    by rewrite (links_last _ _ _ _ _ H1).
Qed.

(** Putting [b] in front. *)
Lemma links_push nx pv a l b z :
  NoDup l → b ∉ l → b ≠ a → b ≠ z → z ∉ l → a ∉ l → links nx pv a l z →
  links (upd (upd nx b (nx a)) a b) (upd (upd pv b a) (nx a) b) a (b :: l) z.
Proof.
  intros Hnd Hb Hba Hbz Hz Ha Hl. simpl. rewrite upd_eq. destruct l as [|x l]; simpl in *.
  - destruct Hl as [-> _]. rewrite (upd_ne _ z) by done. rewrite !upd_eq, (upd_ne _ a), upd_eq by done. done.
  - destruct Hl as (-> & Hp & Hl). apply not_elem_of_cons in Hb as [Hbx Hb].
    apply NoDup_cons in Hnd as [Hnd _].
    rewrite (upd_ne _ x _ b) by done. rewrite !upd_eq, (upd_ne _ a), upd_eq by done. split_and!; [done..|].
    revert Hl. apply links_ext; intros w Hw.
    + assert (w ≠ a ∧ w ≠ b) as [??] by (clear -Hw Ha Hb Hbx; set_solver). by rewrite !upd_ne.
    + assert (w ≠ x ∧ w ≠ b) as [??] by (clear -Hw Hz Hb Hbx Hbz Hnd; set_solver). by rewrite !upd_ne.
Qed.

(** ** The state of the cache *)

(** The buffers in list order, most recently used first. *)
Definition ring (f : Z → buf) (l : list Z) : Prop :=
  NoDup l ∧ (∀ b, b ∈ l ↔ 0 ≤ b < NBUF) ∧
  links (λ b, b_next (f b)) (λ b, b_prev (f b)) HEAD l HEAD.

(** Buffer [b] caches block [bn] of the disk. *)
Definition caches (s : bio) (b bn : Z) : Prop :=
  0 ≤ b < NBUF ∧ b_dev (bufs s b) = 1 ∧ b_blockno (bufs s b) = bn.
#[global] Instance caches_dec s b bn : Decision (caches s b bn).
Proof. unfold caches. apply _. Defined.

(** The contents of block [bn] as readers of the cache see them. *)
Definition view (s : bio) (bn : Z) : list Z :=
  match List.find (λ b, bool_decide (caches s b bn)) (seqZ 0 NBUF) with
  | Some b => b_data (bufs s b)
  | None => blocks (dk s) bn
  end.

(** Between operations [held] lists the locked buffers and [pins] the blocks
    whose buffers are dirty: a buffer that is neither has the bytes of the disk. *)
Record bio_inv (s : bio) (l held pins : list Z) : Prop := mk_bio_inv {
  bi_ring : ring (bufs s) l;
  bi_held : NoDup held ∧ held ⊆ l;
  bi_flags b : b ∈ l → b_flags (bufs s b) ∈ [0; B_VALID; Z.lor B_VALID B_DIRTY];
  bi_free b : b ∈ l → b ∉ held → sl_locked (b_lock (bufs s b)) = false ∧ b_refcnt (bufs s b) = 0;
  bi_lock b : b ∈ held → sl_locked (b_lock (bufs s b)) = true ∧ b_refcnt (bufs s b) = 1 ∧ b_dev (bufs s b) = 1;
  bi_valid b : b ∈ l → b_dev (bufs s b) = 1 → b_flags (bufs s b) ≠ 0 ∧
    0 ≤ b_blockno (bufs s b) < disksize (dk s) ∧ length (b_data (bufs s b)) = Z.to_nat BSIZE;
  bi_uniq b b' bn : caches s b bn → caches s b' bn → b = b';
  bi_dirty b : b ∈ l → b_flags (bufs s b) = Z.lor B_VALID B_DIRTY →
    b_dev (bufs s b) = 1 ∧ b_blockno (bufs s b) ∈ pins;
  bi_pin k : k ∈ pins → ∃ b, caches s b k ∧ b_flags (bufs s b) = Z.lor B_VALID B_DIRTY;
  bi_clean b : b ∈ l → b ∉ held → b_dev (bufs s b) = 1 → b_flags (bufs s b) = B_VALID →
    b_data (bufs s b) = blocks (dk s) (b_blockno (bufs s b));
  bi_disk bn : 0 ≤ bn < disksize (dk s) → length (blocks (dk s) bn) = Z.to_nat BSIZE }.

Lemma ring_length f l : ring f l → length l = Z.to_nat NBUF.
Proof.
  intros (Hnd & Hin & _). rewrite <- (length_seqZ 0 NBUF). apply Permutation_length.
  apply NoDup_Permutation; [done|apply NoDup_seqZ|]. intros b. rewrite Hin, elem_of_seqZ. lia.
Qed.

Lemma view_cached s b bn :
  (∀ b b' bn, caches s b bn → caches s b' bn → b = b') → caches s b bn → view s bn = b_data (bufs s b).
Proof.
  intros Hu Hc. unfold view. destruct (List.find _ _) as [b'|] eqn:Hf.
  - apply find_some in Hf as [_ Hc']. apply bool_decide_eq_true in Hc'. by rewrite (Hu b b' bn).
  - exfalso. eapply find_none in Hf; [|apply list_elem_of_In, elem_of_seqZ; destruct Hc as [Hr _]; split; [apply Hr|lia]].
    apply bool_decide_eq_false in Hf. done.
Qed.

Lemma view_uncached s bn : (∀ b, ¬ caches s b bn) → view s bn = blocks (dk s) bn.
Proof.
  intros Hn. unfold view. destruct (List.find _ _) as [b'|] eqn:Hf; [|done].
  apply find_some in Hf as [_ Hc']. apply bool_decide_eq_true in Hc'. by apply Hn in Hc'.
Qed.

(** ** The scans *)

Definition is_block (f : Z → buf) (dev bn b : Z) : bool :=
  Z.eqb (b_dev (f b)) dev && Z.eqb (b_blockno (f b)) bn.
Definition is_unused (f : Z → buf) (b : Z) : bool :=
  Z.eqb (b_refcnt (f b)) 0 && Z.eqb (Z.land (b_flags (f b)) B_DIRTY) 0.

Lemma find_cached_spec f pv a l n dev bn :
  links (λ b, b_next (f b)) pv a l HEAD → HEAD ∉ l → (length l < n)%nat →
  find_cached n f (b_next (f a)) dev bn = Ret (List.find (is_block f dev bn) l).
Proof.
  revert a n. induction l as [|x l IH]; intros a n Hl Hh Hn; (destruct n as [|n]; [simpl in Hn; lia|]).
  - destruct Hl as [-> _]. done.
  - destruct Hl as (-> & _ & Hl). apply not_elem_of_cons in Hh as [Hx Hh]. simpl.
    rewrite (proj2 (Z.eqb_neq x HEAD)) by done. unfold is_block at 1.
    destruct (Z.eqb _ dev && _); [done|]. apply IH; [done|done|simpl in Hn; lia].
Qed.

Lemma find_unused_spec f nx z l n :
  links nx (λ b, b_prev (f b)) HEAD l z → HEAD ∉ l → (length l < n)%nat →
  find_unused n f (b_prev (f z)) = Ret (List.find (is_unused f) (rev l)).
Proof.
  revert z n. induction l as [|x l IH] using rev_ind; intros z n Hl Hh Hn;
    (destruct n as [|n]; [rewrite ?length_app in Hn; simpl in Hn; lia|]).
  - destruct Hl as [_ ->]. done.
  - apply links_app in Hl as [Hl [_ ->]]. apply not_elem_of_app in Hh as [Hh Hx].
    rewrite rev_app_distr. simpl. rewrite (proj2 (Z.eqb_neq x HEAD)) by set_solver.
    unfold is_unused at 1. destruct (Z.eqb _ 0 && _); [done|].
    apply IH; [done|done|]. rewrite length_app in Hn. simpl in Hn. lia.
Qed.

Lemma ring_head f l : ring f l → HEAD ∉ l.
Proof. intros (_ & Hin & _) Hh. apply Hin in Hh. unfold HEAD in Hh. lia. Qed.

Lemma ring_find_cached f l dev bn :
  ring f l → find_cached SCAN f (b_next (f HEAD)) dev bn = Ret (List.find (is_block f dev bn) l).
Proof.
  intros Hr. pose proof (ring_length f l Hr). pose proof (ring_head f l Hr). destruct Hr as (_ & _ & Hl).
  eapply find_cached_spec; [done|done|unfold SCAN; lia].
Qed.

Lemma ring_find_unused f l :
  ring f l → find_unused SCAN f (b_prev (f HEAD)) = Ret (List.find (is_unused f) (rev l)).
Proof.
  intros Hr. pose proof (ring_length f l Hr). pose proof (ring_head f l Hr). destruct Hr as (_ & _ & Hl).
  eapply find_unused_spec; [done|done|unfold SCAN; lia].
Qed.

(** With fewer held and pinned buffers than [NBUF] one can be recycled. *)
Lemma unused_exists s l held pins :
  bio_inv s l held pins → (length held + length pins < Z.to_nat NBUF)%nat →
  ∃ b, b ∈ l ∧ is_unused (bufs s) b = true.
Proof.
  intros Hi Hlen. set (D := filter (λ b, b_flags (bufs s b) = Z.lor B_VALID B_DIRTY) l).
  destruct (decide (Exists (λ b, b ∉ held ∧ b ∉ D) l)) as [(b & Hb & Hh & Hd)%Exists_exists|Hno].
  - exists b. split; [done|]. unfold is_unused.
    destruct (bi_free _ _ _ _ Hi b Hb Hh) as [_ ->].
    pose proof (bi_flags _ _ _ _ Hi b Hb) as Hf.
    assert (b_flags (bufs s b) ≠ Z.lor B_VALID B_DIRTY).
    { intros He. apply Hd, list_elem_of_filter. done. }
    rewrite !elem_of_cons in Hf. 
    destruct Hf as [Hf|[Hf|[Hf|Hf]]]; [by rewrite Hf|by rewrite Hf|done|by apply elem_of_nil in Hf].
  - exfalso. assert (Hsub : l ⊆ held ++ D).
    { intros b Hb. apply elem_of_app. destruct (decide (b ∈ held)); [by left|right].
      destruct (decide (b ∈ D)); [done|]. exfalso. apply Hno, Exists_exists. eauto. }
    pose proof (bi_ring _ _ _ _ Hi) as Hr. pose proof (ring_length _ _ Hr) as Hll.
    destruct Hr as (Hnd & Hin & _).
    assert (HD : (length D ≤ length pins)%nat).
    { rewrite <- (length_fmap (λ b, b_blockno (bufs s b)) D). apply submseteq_length, NoDup_submseteq.
      - apply NoDup_fmap_2_strong; [|by apply NoDup_filter].
        intros b b' [Hf Hb]%list_elem_of_filter [Hf' Hb']%list_elem_of_filter Heq.
        destruct (bi_dirty _ _ _ _ Hi b Hb Hf) as [Hd _]. destruct (bi_dirty _ _ _ _ Hi b' Hb' Hf') as [Hd' _].
        apply (bi_uniq _ _ _ _ Hi b b' (b_blockno (bufs s b))); split_and!; try done; by apply Hin.
      - intros bn (b & -> & [Hf Hb]%list_elem_of_filter)%list_elem_of_fmap. by apply (bi_dirty _ _ _ _ Hi b). }
    assert (length l ≤ length (held ++ D))%nat by (by apply submseteq_length, NoDup_submseteq).
    rewrite length_app in *. lia.
Qed.

(** ** Taking a buffer *)

Lemma ring_upd f l b x :
  b_prev x = b_prev (f b) → b_next x = b_next (f b) → ring f l → ring (upd f b x) l.
Proof.
  intros Hp Hn (Hnd & Hin & Hl). split_and!; [done..|].
  revert Hl. apply links_ext; intros y _; unfold upd; case_decide; by subst.
Qed.

Lemma caches_upd s b x b' bn :
  caches (mkBio (upd (bufs s) b x) (dk s)) b' bn ↔
  (b' = b ∧ 0 ≤ b < NBUF ∧ b_dev x = 1 ∧ b_blockno x = bn) ∨ (b' ≠ b ∧ caches s b' bn).
Proof. unfold caches, upd; simpl. case_decide; subst; naive_solver. Qed.

Lemma cached_dec s bn : (∃ b, caches s b bn) ∨ (∀ b, ¬ caches s b bn).
Proof.
  destruct (List.find (λ b, bool_decide (caches s b bn)) (seqZ 0 NBUF)) as [b|] eqn:Hf.
  - left. exists b. by apply find_some in Hf as [_ Hf%bool_decide_eq_true].
  - right. intros b Hc. eapply find_none in Hf.
    + by apply bool_decide_eq_false in Hf.
    + apply list_elem_of_In, elem_of_seqZ. destruct Hc as [? _]. lia.
Qed.

(** The buffer [x] that [bread] leaves at [b] for block [bn]: the one that
    cached it, or a clean one that no process uses. *)
Lemma take_buf s l held pins b bn x :
  bio_inv s l held pins → b ∈ l → b ∉ held → 0 ≤ bn < disksize (dk s) →
  caches s b bn ∨ ((∀ b', ¬ caches s b' bn) ∧ b_flags (bufs s b) ≠ Z.lor B_VALID B_DIRTY) →
  b_prev x = b_prev (bufs s b) → b_next x = b_next (bufs s b) →
  b_dev x = 1 → b_blockno x = bn → sl_locked (b_lock x) = true → b_refcnt x = 1 →
  b_flags x = B_VALID ∨ (b_flags x = Z.lor B_VALID B_DIRTY ∧ bn ∈ pins) →
  (caches s b bn → b_flags x = b_flags (bufs s b)) →
  b_data x = view s bn → length (view s bn) = Z.to_nat BSIZE →
  let s' := mkBio (upd (bufs s) b x) (dk s) in
  bio_inv s' l (b :: held) pins ∧ (∀ k, view s' k = view s k) ∧ caches s' b bn.
Proof.
  intros Hi Hb Hh Hbn Hc Hp Hn Hd Hbk Hlk Hrc Hfl Hsf Hdata Hlen s'.
  assert (Hrange : 0 ≤ b < NBUF) by by apply (bi_ring _ _ _ _ Hi).
  assert (Hu : ∀ b1 b2 k, caches s' b1 k → caches s' b2 k → b1 = b2).
  { intros b1 b2 k H1%caches_upd H2%caches_upd.
    assert (Hb' : ∀ b', b' ≠ b → caches s b' bn → False).
    { intros b' Hne Hc'. destruct Hc as [Hc|[Hc _]]; [|by eapply Hc].
      apply Hne. by apply (bi_uniq _ _ _ _ Hi b' b bn). }
    destruct H1 as [(-> & _ & _ & Hk1)|[Hne1 H1]], H2 as [(-> & _ & _ & Hk2)|[Hne2 H2]]; [done| | |].
    - exfalso. apply (Hb' b2); [done|congruence].
    - exfalso. apply (Hb' b1); [done|congruence].
    - by apply (bi_uniq _ _ _ _ Hi b1 b2 k). }
  assert (Hcb : caches s' b bn) by (apply caches_upd; left; done).
  split_and!; [|intros k|done].
  - pose proof Hi as [I1 [I2 I2'] I3 I4 I5 I6 I7 I8 IP I9 I10]. split; simpl; try done.
    + by apply ring_upd.
    + split; [by apply NoDup_cons|]. intros y Hy. apply elem_of_cons in Hy as [->|Hy]; [done|by apply I2'].
    + intros y Hy. unfold upd. case_decide; [|by apply I3]. destruct Hfl as [->|[-> _]]; set_solver.
    + intros y Hy [Hyb Hyh]%not_elem_of_cons. rewrite upd_ne by done. by apply I4.
    + intros y Hy. unfold upd. case_decide; [done|]. apply elem_of_cons in Hy as [->|Hy]; [done|by apply I5].
    + intros y Hy. unfold upd. case_decide; [|by apply I6]. intros _. rewrite Hbk, Hdata.
      split_and!; [|lia|lia|done]. by destruct Hfl as [->|[-> _]].
    + intros y Hy. unfold upd. case_decide; [|by apply I8]. rewrite Hbk. intros Hf. split; [done|].
      destruct Hfl as [Hf'|[_ ?]]; [|done]. by rewrite Hf in Hf'.
    + intros k Hk. destruct (IP k Hk) as (y & Hy & Hyf). exists y.
      destruct (decide (y = b)) as [->|Hyb].
      * destruct Hc as [Hc|[_ Hc]]; [|done]. simpl. rewrite upd_eq, Hsf by done. split; [|done].
        destruct Hc as (_ & _ & Hc), Hy as (_ & _ & Hy). apply caches_upd. left. split_and!; [done|lia|lia|done|congruence].
      * simpl. rewrite upd_ne by done. split; [|done]. apply caches_upd. by right.
    + intros y Hy [Hyb Hyh]%not_elem_of_cons. rewrite upd_ne by done. by apply I9.
  - destruct (decide (k = bn)) as [->|Hk].
    { rewrite (view_cached s' b bn Hu Hcb). simpl. by rewrite upd_eq. }
    destruct (cached_dec s' k) as [[b' Hb']|Hno].
    + rewrite (view_cached s' b' k Hu Hb'). apply caches_upd in Hb' as [(-> & _ & _ & He)|[Hne Hb']]; [congruence|].
      simpl. rewrite upd_ne by done. by rewrite (view_cached s b' k (bi_uniq _ _ _ _ Hi) Hb').
    + rewrite (view_uncached s' k Hno). simpl. destruct (cached_dec s k) as [[b' Hb']|Hno2]; [|by rewrite view_uncached].
      rewrite (view_cached s b' k (bi_uniq _ _ _ _ Hi) Hb').
      destruct (decide (b' = b)) as [->|Hne]; [|exfalso; apply (Hno b'), caches_upd; by right].
      destruct Hc as [(_ & _ & Hc)|[_ Hc]]; [destruct Hb' as (_ & _ & Hb'); congruence|].
      destruct Hb' as (_ & Hd' & <-). symmetry. apply (bi_clean _ _ _ _ Hi); try done.
      pose proof (bi_flags _ _ _ _ Hi b Hb) as Hf. rewrite !elem_of_cons in Hf.
      destruct (bi_valid _ _ _ _ Hi b Hb Hd') as [Hf0 _]. set_solver.
Qed.

(** The buffer [bget] picks: the one that has the block, else the least recently
    used of those that no process uses and that are not dirty. *)
Definition pick (f : Z → buf) (l : list Z) (dev bn : Z) : option Z :=
  match List.find (is_block f dev bn) l with
  | Some b => Some b
  | None => List.find (is_unused f) (rev l)
  end.

Lemma view_length s l held pins bn :
  bio_inv s l held pins → 0 ≤ bn < disksize (dk s) → length (view s bn) = Z.to_nat BSIZE.
Proof.
  intros Hi Hbn. destruct (cached_dec s bn) as [[b Hb]|Hno].
  - rewrite (view_cached s b bn (bi_uniq _ _ _ _ Hi) Hb). destruct Hb as (Hr & Hd & _).
    apply (bi_valid _ _ _ _ Hi b); [|done]. by apply (bi_ring _ _ _ _ Hi).
  - rewrite view_uncached by done. by apply (bi_disk _ _ _ _ Hi).
Qed.

Lemma find_block_caches s l b bn :
  ring (bufs s) l → List.find (is_block (bufs s) 1 bn) l = Some b → caches s b bn.
Proof.
  intros (_ & Hin & _) [Hb Hf]%find_some. apply andb_true_iff in Hf as [Hd%Z.eqb_eq Hk%Z.eqb_eq].
  split; [by apply Hin, list_elem_of_In|done].
Qed.

Lemma find_block_none s l bn :
  ring (bufs s) l → List.find (is_block (bufs s) 1 bn) l = None → ∀ b, ¬ caches s b bn.
Proof.
  intros (_ & Hin & _) Hf b (Hr & Hd & Hk). eapply find_none in Hf; [|apply list_elem_of_In, Hin; exact Hr].
  apply andb_false_iff in Hf as [Hf%Z.eqb_neq|Hf%Z.eqb_neq]; done.
Qed.

(** A buffer nobody holds can be locked. *)
Lemma acquire_free lk pid : sl_locked lk = false → acquiresleep lk pid = Ret (mkSleeplock true pid).
Proof. unfold acquiresleep, acquiresleep_try. by intros ->. Qed.

(** [bread] of a block that is cached. *)
Lemma bread_hit s l held pins pid bn b :
  bio_inv s l held pins → 0 ≤ bn < disksize (dk s) → caches s b bn → b ∈ l → b ∉ held →
  List.find (is_block (bufs s) 1 bn) l = Some b →
  ∃ x, bread s pid 1 bn = Ret (b, mkBio (upd (bufs s) b x) (dk s)) ∧
    b_prev x = b_prev (bufs s b) ∧ b_next x = b_next (bufs s b) ∧
    b_dev x = 1 ∧ b_blockno x = bn ∧ sl_locked (b_lock x) = true ∧ b_refcnt x = 1 ∧
    (b_flags x = B_VALID ∨ (b_flags x = Z.lor B_VALID B_DIRTY ∧ bn ∈ pins)) ∧
    b_flags x = b_flags (bufs s b) ∧ b_data x = view s bn.
Proof.
  intros Hi Hbn Hc Hb Hh Hf. destruct (bi_free _ _ _ _ Hi b Hb Hh) as [Hlk Hrc].
  pose proof (bi_ring _ _ _ _ Hi) as Hr. unfold bread, bget. rewrite (ring_find_cached _ l _ _ Hr), Hf.
  simpl. rewrite acquire_free by done. simpl. rewrite upd_eq. simpl.
  pose proof Hc as (_ & Hd & Hk). destruct (bi_valid _ _ _ _ Hi b Hb Hd) as [Hf0 _].
  pose proof (bi_flags _ _ _ _ Hi b Hb) as Hfl. rewrite !elem_of_cons, elem_of_nil in Hfl.
  assert (Hv : Z.eqb (Z.land (b_flags (bufs s b)) B_VALID) 0 = false)
    by (destruct Hfl as [?|[->|[->|?]]]; done).
  rewrite Hv. eexists. split; [reflexivity|]. simpl. rewrite Hrc. split_and!; try done.
  - destruct Hfl as [?|[->|[Hf6|?]]]; [done|by left| |done]. right. split; [done|].
    rewrite <- Hk. by apply (bi_dirty _ _ _ _ Hi b Hb).
  - by rewrite (view_cached s b bn (bi_uniq _ _ _ _ Hi) Hc).
Qed.

(** [bread] of a block that is not. *)
Lemma bread_miss s l held pins pid bn b :
  bio_inv s l held pins → 0 ≤ bn < disksize (dk s) → (∀ b', ¬ caches s b' bn) → b ∈ l → b ∉ held →
  List.find (is_unused (bufs s)) (rev l) = Some b →
  ∃ x, bread s pid 1 bn = Ret (b, mkBio (upd (bufs s) b x) (dk s)) ∧
    b_prev x = b_prev (bufs s b) ∧ b_next x = b_next (bufs s b) ∧
    b_dev x = 1 ∧ b_blockno x = bn ∧ sl_locked (b_lock x) = true ∧ b_refcnt x = 1 ∧
    b_flags x = B_VALID ∧ b_data x = view s bn.
Proof.
  intros Hi Hbn Hno Hb Hh Hf. destruct (bi_free _ _ _ _ Hi b Hb Hh) as [Hlk Hrc].
  pose proof (bi_ring _ _ _ _ Hi) as Hr. unfold bread, bget. rewrite (ring_find_cached _ l _ _ Hr).
  destruct (List.find (is_block _ _ _) l) as [b'|] eqn:Hfb.
  { exfalso. eapply Hno. by apply find_block_caches in Hfb. }
  cbn [obind]. rewrite (ring_find_unused _ l Hr), Hf. cbn [obind]. simpl b_lock.
  rewrite acquire_free by done. cbn [obind]. simpl. rewrite upd_eq. unfold iderw. simpl.
  rewrite (proj2 (Z.leb_gt _ _)) by lia. simpl. eexists. split.
  { by rewrite upd_upd. }
  simpl. split_and!; try done. by rewrite view_uncached.
Qed.

Lemma bread_ok s l held pins pid bn :
  bio_inv s l held pins → 0 ≤ bn < disksize (dk s) →
  (∀ h, h ∈ held → b_blockno (bufs s h) ≠ bn) →
  (∃ b, caches s b bn) ∨ (length held + length pins < Z.to_nat NBUF)%nat →
  ∃ b x, let s' := mkBio (upd (bufs s) b x) (dk s) in
    bread s pid 1 bn = Ret (b, s') ∧ pick (bufs s) l 1 bn = Some b ∧ b ∉ held ∧
    bio_inv s' l (b :: held) pins ∧ (∀ k, view s' k = view s k) ∧ caches s' b bn ∧ b_data x = view s bn.
Proof.
  intros Hi Hbn Hheld Hroom. pose proof (bi_ring _ _ _ _ Hi) as Hr.
  pose proof (view_length _ _ _ _ _ Hi Hbn) as Hlen. unfold pick.
  destruct (List.find (is_block (bufs s) 1 bn) l) as [b|] eqn:Hf.
  - pose proof (find_block_caches _ _ _ _ Hr Hf) as Hc. apply find_some in Hf as Hf'.
    destruct Hf' as [Hb%list_elem_of_In _].
    assert (Hh : b ∉ held) by (intros Hin; apply (Hheld b Hin); by destruct Hc as (_ & _ & ->)).
    destruct (bread_hit _ _ _ _ pid _ b Hi Hbn Hc Hb Hh Hf)
      as (x & He & Hp & Hn & Hd & Hk & Hl & Hrc & Hfl & Hsf & Hda).
    exists b, x. destruct (take_buf s l held pins b bn x) as (? & ? & ?); try done. by left.
  - pose proof (find_block_none _ _ _ Hr Hf) as Hno.
    destruct Hroom as [[b Hb]|Hroom]; [by apply Hno in Hb|].
    destruct (unused_exists _ _ _ _ Hi Hroom) as (b0 & Hb0 & Hu0).
    destruct (List.find (is_unused (bufs s)) (rev l)) as [b|] eqn:Hu.
    2:{ exfalso. eapply find_none in Hu; [|apply in_rev; rewrite rev_involutive; by apply list_elem_of_In].
        by rewrite Hu0 in Hu. }
    apply find_some in Hu as Hu'. destruct Hu' as [Hb Hun]. apply in_rev, list_elem_of_In in Hb.
    apply andb_true_iff in Hun as [Hrc0%Z.eqb_eq Hnd].
    assert (Hh : b ∉ held) by (intros Hin; destruct (bi_lock _ _ _ _ Hi b Hin) as (_ & ? & _); lia).
    destruct (bread_miss _ _ _ _ pid _ b Hi Hbn Hno Hb Hh Hu) as (x & He & Hp & Hn & Hd & Hk & Hl & Hrc & Hfl & Hda).
    exists b, x. destruct (take_buf s l held pins b bn x) as (? & ? & ?); try done.
    + right. split; [done|]. intros Hf6. by rewrite Hf6 in Hnd.
    + by left.
    + intros Hc. by apply Hno in Hc.
Qed.

(** ** Changing a buffer one holds *)

Lemma edit_buf s l held pins pins' b x d' bn :
  bio_inv s l held pins → b ∈ held → b_blockno (bufs s b) = bn →
  b_prev x = b_prev (bufs s b) → b_next x = b_next (bufs s b) → b_dev x = b_dev (bufs s b) →
  b_blockno x = bn → b_lock x = b_lock (bufs s b) → b_refcnt x = b_refcnt (bufs s b) →
  length (b_data x) = Z.to_nat BSIZE →
  b_flags x = B_VALID ∨ (b_flags x = Z.lor B_VALID B_DIRTY ∧ bn ∈ pins') →
  disksize d' = disksize (dk s) → (∀ k, k ≠ bn → blocks d' k = blocks (dk s) k) →
  length (blocks d' bn) = Z.to_nat BSIZE → (∀ k, k ≠ bn → k ∈ pins' ↔ k ∈ pins) →
  (bn ∈ pins' → b_flags x = Z.lor B_VALID B_DIRTY) →
  let s' := mkBio (upd (bufs s) b x) d' in
  bio_inv s' l held pins' ∧ (∀ k, view s' k = upd (view s) bn (b_data x) k) ∧
  (∀ b' k, caches s' b' k ↔ caches s b' k).
Proof.
  intros Hi Hb Hbn Hp Hn Hd Hk Hlk Hrc Hlen Hfl Hds Hdk Hdl Hpins Hpb s'.
  pose proof Hi as [I1 [I2 I2'] I3 I4 I5 I6 I7 I8 IP I9 I10].
  assert (Hbl : b ∈ l) by by apply I2'.
  destruct (I5 b Hb) as (_ & _ & Hdev).
  assert (Hc : ∀ b' k, caches s' b' k ↔ caches s b' k).
  { intros b' k. unfold caches, s'; simpl. unfold upd. case_decide; [subst b'|done]. by rewrite Hd, Hk, Hbn. }
  assert (Hu : ∀ b1 b2 k, caches s' b1 k → caches s' b2 k → b1 = b2).
  { intros b1 b2 k H1%Hc H2%Hc. by apply (I7 b1 b2 k). }
  assert (Hcb : caches s b bn) by (split_and!; [by apply I1|by apply I1|done..]).
  split_and!; [|intros k|done].
  - split; simpl; try done.
    + by apply ring_upd.
    + intros y Hy. unfold upd. case_decide; [|by apply I3]. destruct Hfl as [->|[-> _]]; set_solver.
    + intros y Hy Hyh. rewrite upd_ne by (by intros ->). by apply I4.
    + intros y Hy. unfold upd. case_decide; [|by apply I5]. subst y. rewrite Hlk, Hrc, Hd. by apply I5.
    + intros y Hy. unfold upd. rewrite Hds. case_decide; [|by apply I6]. subst y. intros _. rewrite Hk, <- Hbn.
      destruct (I6 b Hbl Hdev) as (_ & ? & _). split_and!; [|lia|lia|done]. by destruct Hfl as [->|[-> _]].
    + intros y Hy. unfold upd. case_decide as Hyb.
      * intros Hf. rewrite Hd, Hk. split; [done|]. destruct Hfl as [Hf'|[_ ?]]; [|done]. by rewrite Hf in Hf'.
      * intros Hf. destruct (I8 y Hy Hf) as [Hyd Hyp]. split; [done|]. apply Hpins; [|done]. intros He.
        assert (Hcy : caches s y bn) by (split_and!; [by apply I1|by apply I1|done..]).
        apply Hyb. by apply (I7 y b bn).
    + intros k Hk'. destruct (decide (k = bn)) as [->|Hne].
      * exists b. split; [by apply Hc|]. simpl. rewrite upd_eq. by apply Hpb.
      * destruct (IP k) as (y & Hy & Hyf); [by apply Hpins|]. exists y. split; [by apply Hc|]. simpl.
        rewrite upd_ne; [done|]. intros ->. destruct Hy as (_ & _ & Hy). congruence.
    + intros y Hy Hyh Hyd Hyf. rewrite upd_ne in * by (by intros ->). rewrite Hdk; [by apply I9|]. intros He.
      assert (Hcy : caches s y bn) by (split_and!; [by apply I1|by apply I1|done..]).
      by rewrite (I7 y b bn) in Hyh.
    + intros k Hkr. destruct (decide (k = bn)) as [->|Hne]; [done|]. rewrite Hdk by done. rewrite Hds in Hkr. by apply I10.
  - destruct (decide (k = bn)) as [->|Hne].
    { rewrite (view_cached s' b bn Hu) by (by apply Hc). simpl. by rewrite !upd_eq. }
    rewrite (upd_ne _ bn) by done. destruct (cached_dec s k) as [[b' Hb']|Hno].
    + rewrite (view_cached s b' k I7 Hb'), (view_cached s' b' k Hu) by (by apply Hc). simpl.
      rewrite upd_ne; [done|]. intros ->. destruct Hb' as (_ & _ & Hb'). congruence.
    + rewrite !view_uncached; [simpl; by apply Hdk|done|]. intros b' Hb'%Hc. by apply Hno in Hb'.
Qed.

Lemma set_data_ok s l held pins b bn d :
  bio_inv s l held pins → b ∈ held → caches s b bn → length d = Z.to_nat BSIZE →
  let s' := set_data s b d in
  bio_inv s' l held pins ∧ (∀ k, view s' k = upd (view s) bn d k) ∧ (∀ b' k, caches s' b' k ↔ caches s b' k).
Proof.
  intros Hi Hb Hc Hl. pose proof Hc as (_ & Hd & Hbn). unfold set_data, set_buf. pose proof Hi as [_ [_ Hs] Hfl _ _ Hv Hu Hdi Hpin _ Hdk].
  apply Hs in Hb as Hbl. destruct (Hv b Hbl Hd) as (Hf0 & Hr & _). specialize (Hfl b Hbl).
  eapply edit_buf; simpl; try done.
  - rewrite !elem_of_cons, elem_of_nil in Hfl. destruct Hfl as [?|[?|[Hf|?]]]; [done|by left| |done].
    right. split; [done|]. rewrite <- Hbn. by apply Hdi.
  - apply Hdk. by rewrite <- Hbn.
  - intros Hin. destruct (Hpin _ Hin) as (y & Hy & Hyf). by rewrite (Hu b y bn).
Qed.

Lemma bwrite_ok s l held pins b bn :
  bio_inv s l held pins → b ∈ held → caches s b bn →
  ∃ s', bwrite s b = Ret s' ∧ dk s' = disk_write (dk s) bn (b_data (bufs s b)) ∧
    bio_inv s' l held (filter (λ k, k ≠ bn) pins) ∧ (∀ k, view s' k = view s k) ∧
    (∀ b' k, caches s' b' k ↔ caches s b' k) ∧ (∀ b', b_data (bufs s' b') = b_data (bufs s b')).
Proof.
  intros Hi Hb (Hr & Hd & Hbn). pose proof Hi as [_ [_ Hs] Hfl _ Hlk Hv Hu _ _ _ Hdk].
  apply Hs in Hb as Hbl. destruct (Hv b Hbl Hd) as (Hf0 & Hrg & Hlen). specialize (Hfl b Hbl).
  destruct (Hlk b Hb) as (Hlocked & _ & _).
  assert (Hflags : b_flags (bufs s b) = B_VALID ∨ b_flags (bufs s b) = Z.lor B_VALID B_DIRTY).
  { rewrite !elem_of_cons, elem_of_nil in Hfl. naive_solver. }
  unfold bwrite, holdingsleep. rewrite Hlocked. cbn [negb].
  assert (He : iderw (dk s) (with_flags (Z.lor (b_flags (bufs s b)) B_DIRTY) (bufs s b)) =
    Ret (disk_write (dk s) bn (b_data (bufs s b)), with_flags B_VALID (bufs s b))).
  { unfold iderw, holdingsleep. simpl. rewrite Hlocked, Hd, Hbn in *. simpl.
    rewrite (proj2 (Z.leb_gt _ _)) by lia. by destruct Hflags as [-> | ->]. }
  rewrite He. cbn [obind]. eexists. split; [reflexivity|]. split; [done|].
  destruct (edit_buf s l held pins (filter (λ k, k ≠ bn) pins) b (with_flags B_VALID (bufs s b))
    (disk_write (dk s) bn (b_data (bufs s b))) bn) as (H1 & H2 & H3); simpl; try done.
  - by left.
  - intros k Hk. by apply upd_ne.
  - by rewrite upd_eq.
  - intros k Hne. rewrite list_elem_of_filter. naive_solver.
  - rewrite list_elem_of_filter. naive_solver.
  - split_and!; [done| |done|].
    + intros k. rewrite H2. unfold upd. case_decide; [subst k|done]. simpl.
      symmetry. by apply view_cached.
    + intros b'. simpl. unfold upd. case_decide; by subst.
Qed.

(** ** Releasing a buffer *)

(** What a buffer holds, its place in the list apart. *)
Definition core (b : buf) : Z * Z * Z * sleeplock * Z * list Z :=
  (b_flags b, b_dev b, b_blockno b, b_lock b, b_refcnt b, b_data b).

Lemma core_upd f b x k : core x = core (f b) → core (upd f b x k) = core (f k).
Proof. intros Hx. unfold upd. case_decide; by subst. Qed.

Lemma core_next f b v k : core (upd f b (with_next v (f b)) k) = core (f k).
Proof. by apply core_upd. Qed.
Lemma core_prev f b v k : core (upd f b (with_prev v (f b)) k) = core (f k).
Proof. by apply core_upd. Qed.

Lemma core_unlink f b k : core (unlink f b k) = core (f k).
Proof. unfold unlink. cbv zeta. by rewrite core_next, core_prev. Qed.
Lemma core_push f b k : core (push_front f b k) = core (f k).
Proof. unfold push_front. cbv zeta. by rewrite core_next, core_prev, core_prev, core_next. Qed.

Lemma unlink_ring f l1 b l2 :
  NoDup (l1 ++ b :: l2) → HEAD ∉ l1 ++ b :: l2 →
  links (λ k, b_next (f k)) (λ k, b_prev (f k)) HEAD (l1 ++ b :: l2) HEAD →
  links (λ k, b_next (unlink f b k)) (λ k, b_prev (unlink f b k)) HEAD (l1 ++ l2) HEAD.
Proof.
  intros Hnd Hh Hl.
  assert (Hnb : b_next (f b) ≠ b).
  { apply links_app in Hl as [_ Hl]. rewrite (links_first _ _ _ _ _ Hl).
    apply NoDup_app in Hnd as (_ & _ & Hnd). apply NoDup_cons in Hnd as [Hb _].
    destruct l2; simpl; set_solver. }
  eapply links_ext; [| |eapply links_unlink; [exact Hnd|exact Hh|exact Hh|exact Hl]]; intros x _; simpl.
  - unfold unlink. rewrite (upd_ne _ (b_next (f b)) _ b) by done. unfold upd. repeat case_decide; subst; done.
  - unfold unlink. rewrite (upd_ne _ (b_next (f b)) _ b) by done. unfold upd. repeat case_decide; subst; done.
Qed.

Lemma push_ring f l b :
  NoDup l → b ∉ l → b ≠ HEAD → HEAD ∉ l →
  links (λ k, b_next (f k)) (λ k, b_prev (f k)) HEAD l HEAD →
  links (λ k, b_next (push_front f b k)) (λ k, b_prev (push_front f b k)) HEAD (b :: l) HEAD.
Proof.
  intros Hnd Hb Hbh Hh Hl.
  eapply links_ext; [| |apply (links_push _ _ _ _ b _ Hnd Hb Hbh Hbh Hh Hh Hl)]; intros x _; simpl;
    unfold push_front; rewrite !(upd_ne _ b _ HEAD) by done; unfold upd; repeat case_decide; subst; simpl; congruence.
Qed.

(** Two caches that differ only in the order of the list. *)
Lemma bio_inv_core s s' l l' held pins :
  bio_inv s l held pins → dk s' = dk s → (∀ k, core (bufs s' k) = core (bufs s k)) →
  ring (bufs s') l' → (∀ b, b ∈ l' ↔ b ∈ l) → bio_inv s' l' held pins.
Proof.
  intros [I1 [I2 I2'] I3 I4 I5 I6 I7 I8 IP I9 I10] Hd Hc Hr Hl.
  assert (Hf : ∀ k, b_flags (bufs s' k) = b_flags (bufs s k) ∧ b_dev (bufs s' k) = b_dev (bufs s k) ∧
    b_blockno (bufs s' k) = b_blockno (bufs s k) ∧ b_lock (bufs s' k) = b_lock (bufs s k) ∧
    b_refcnt (bufs s' k) = b_refcnt (bufs s k) ∧ b_data (bufs s' k) = b_data (bufs s k)).
  { intros k. specialize (Hc k). unfold core in Hc. naive_solver. }
  split; rewrite ?Hd; [done|split; [done|intros x Hx; by apply Hl, I2']|..|done]; unfold caches;
    [intros b|intros b|intros b|intros b|intros b b'|intros b|intros k Hk; destruct (IP k Hk) as (b & Hb); exists b; revert Hb|intros b];
    rewrite ?Hl;
    destruct (Hf b) as (E1 & E2 & E3 & E4 & E5 & E6); rewrite ?E1, ?E2, ?E3, ?E4, ?E5, ?E6; auto.
  destruct (Hf b') as (_ & -> & -> & _). apply I7.
Qed.

Lemma view_same s s' k :
  (∀ b, b_dev (bufs s' b) = b_dev (bufs s b) ∧ b_blockno (bufs s' b) = b_blockno (bufs s b) ∧
    b_data (bufs s' b) = b_data (bufs s b)) → dk s' = dk s → view s' k = view s k.
Proof.
  intros Hf Hd.
  unfold view. rewrite Hd. induction (seqZ 0 NBUF) as [|b l IH]; simpl; [done|].
  destruct (Hf b) as (H1 & H2 & H3).
  rewrite (bool_decide_ext (caches s' b k) (caches s b k)) by (unfold caches; by rewrite H1, H2).
  case_bool_decide; [done|]. apply IH.
Qed.

Lemma filter_absent (l : list Z) b : b ∉ l → filter (λ k, k ≠ b) l = l.
Proof.
  induction l as [|x l IH]; [done|]. intros [Hx Hl]%not_elem_of_cons.
  rewrite filter_cons_True by done. by rewrite IH.
Qed.

(** Unlocking [b], whose bytes are on disk or will be. *)
Lemma unlock_inv s l held held' pins b x :
  bio_inv s l held pins → held ≡ₚ b :: held' →
  b_flags (bufs s b) = Z.lor B_VALID B_DIRTY ∨ b_data (bufs s b) = blocks (dk s) (b_blockno (bufs s b)) →
  x = with_refcnt 0 (with_lock (mkSleeplock false 0) (bufs s b)) →
  bio_inv (mkBio (upd (bufs s) b x) (dk s)) l held' pins.
Proof.
  intros [I1 [I2 I2'] I3 I4 I5 I6 I7 I8 IP I9 I10] Hp Hw ->. rewrite Hp in I2. apply NoDup_cons in I2 as [Hb Hnd].
  assert (Hh : ∀ y, y ∈ held ↔ y = b ∨ y ∈ held') by (intros y; by rewrite Hp, elem_of_cons).
  split; unfold caches; simpl; try done.
  - by apply ring_upd.
  - split; [done|]. intros y Hy. apply I2', Hh. by right.
  - intros y Hy. unfold upd. case_decide; [subst|]; by apply I3.
  - intros y Hy Hyh. unfold upd. case_decide; [done|]. apply I4; [done|]. rewrite Hh. naive_solver.
  - intros y Hy. rewrite upd_ne by (by intros ->). apply I5, Hh. by right.
  - intros y Hy. unfold upd. case_decide; [subst|]; by apply I6.
  - intros y y' bn. unfold upd. intros H1 H2. apply (I7 y y' bn); unfold caches;
      [destruct (decide (y = b))|destruct (decide (y' = b))]; subst; done.
  - intros y Hy. unfold upd. case_decide; [subst|]; by apply I8.
  - intros k Hk. destruct (IP k Hk) as (y & Hy). exists y. unfold upd. case_decide; by subst.
  - intros y Hy Hyh. unfold upd. case_decide as Hyb; [subst y; simpl|].
    + intros _ Hf. destruct Hw as [Hf'|]; [|done]. by rewrite Hf in Hf'.
    + apply I9; [done|]. rewrite Hh. naive_solver.
Qed.

Lemma brelse_ok s l held held' pins b :
  bio_inv s l held pins → held ≡ₚ b :: held' →
  b_flags (bufs s b) = Z.lor B_VALID B_DIRTY ∨ b_data (bufs s b) = blocks (dk s) (b_blockno (bufs s b)) →
  ∃ s', brelse s b = Ret s' ∧ dk s' = dk s ∧ bio_inv s' (b :: filter (λ k, k ≠ b) l) held' pins ∧
    (∀ k, view s' k = view s k) ∧ (∀ b' k, caches s' b' k ↔ caches s b' k) ∧
    (∀ b', b_data (bufs s' b') = b_data (bufs s b')) ∧ (∀ b', b_flags (bufs s' b') = b_flags (bufs s b')).
Proof.
  intros Hi Hp Hw. assert (Hb : b ∈ held) by (rewrite Hp; by left).
  destruct (bi_lock _ _ _ _ Hi b Hb) as (Hlk & Hrc & _).
  assert (Hbl : b ∈ l) by by apply (bi_held _ _ _ _ Hi).
  set (x := with_refcnt 0 (with_lock (mkSleeplock false 0) (bufs s b))).
  set (s1 := mkBio (upd (bufs s) b x) (dk s)).
  assert (Hi1 : bio_inv s1 l held' pins) by (eapply unlock_inv; done).
  set (s' := mkBio (push_front (unlink (bufs s1) b) b) (dk s)).
  assert (Hcore : ∀ k, core (bufs s' k) = core (bufs s1 k)) by (intros k; simpl; by rewrite core_push, core_unlink).
  assert (Hsame : ∀ k, b_dev (bufs s' k) = b_dev (bufs s k) ∧ b_blockno (bufs s' k) = b_blockno (bufs s k) ∧
    b_data (bufs s' k) = b_data (bufs s k) ∧ b_flags (bufs s' k) = b_flags (bufs s k)).
  { intros k. specialize (Hcore k). unfold core in Hcore. injection Hcore as E1 E2 E3 _ _ E4.
    unfold s', s1; cbn [bufs]. rewrite E1, E2, E3, E4. simpl. unfold upd. case_decide; by subst. }
  pose proof (bi_ring _ _ _ _ Hi1) as (Hnd & Hin & Hl).
  assert (HH : HEAD ∉ l) by (by eapply ring_head, Hi).
  exists s'. split.
  { unfold brelse, holdingsleep. rewrite Hlk. cbn [negb]. rewrite !upd_eq. simpl. rewrite Hrc. simpl.
    by rewrite upd_upd. }
  split; [done|]. split_and!.
  - eapply bio_inv_core; [exact Hi1|done|exact Hcore|split_and!|].
    + apply NoDup_cons. split; [|by apply NoDup_filter]. rewrite list_elem_of_filter. naive_solver.
    + intros y. rewrite elem_of_cons, list_elem_of_filter, <- Hin. destruct (decide (y = b)); naive_solver.
    + apply list_elem_of_split in Hbl as (l1 & l2 & ->).
      assert (Hfil : filter (λ k, k ≠ b) (l1 ++ b :: l2) = l1 ++ l2).
      { apply NoDup_app in Hnd as (_ & Hd1 & Hd2). apply NoDup_cons in Hd2 as [Hd2 _].
        rewrite filter_app, filter_cons_False by naive_solver.
        rewrite !filter_absent; [done|done|]. intros Hx. apply (Hd1 b Hx). by left. }
      rewrite Hfil. apply push_ring; [| | | |by apply unlink_ring].
      * apply (NoDup_Permutation_proper _ _ (Permutation_middle l1 l2 b)) in Hnd. by apply NoDup_cons in Hnd as [_ ?].
      * apply (NoDup_Permutation_proper _ _ (Permutation_middle l1 l2 b)) in Hnd. by apply NoDup_cons in Hnd as [? _].
      * intros ->. apply HH. set_solver.
      * set_solver.
    + intros y. rewrite elem_of_cons, list_elem_of_filter. destruct (decide (y = b)); naive_solver.
  - intros k. apply view_same; [|done]. intros y. by destruct (Hsame y) as (? & ? & ? & _).
  - intros b' k. unfold caches. by destruct (Hsame b') as (-> & -> & _).
  - intros b'. apply Hsame.
  - intros b'. apply Hsame.
Qed.

(** ** The cache after [binit] *)

Lemma links_locked f b lk a l z :
  links (λ k, b_next (f k)) (λ k, b_prev (f k)) a l z →
  links (λ k, b_next (upd f b (with_lock lk (f b)) k)) (λ k, b_prev (upd f b (with_lock lk (f b)) k)) a l z.
Proof. apply links_ext; intros x _; unfold upd; case_decide; by subst. Qed.

Lemma binit_loop_links n b f l :
  NoDup l → (∀ x, x ∈ l ↔ 0 ≤ x < b) → 0 ≤ b → b + Z.of_nat n ≤ NBUF →
  links (λ k, b_next (f k)) (λ k, b_prev (f k)) HEAD l HEAD →
  ∃ l', NoDup l' ∧ (∀ x, x ∈ l' ↔ 0 ≤ x < b + Z.of_nat n) ∧
    links (λ k, b_next (binit_loop n b f k)) (λ k, b_prev (binit_loop n b f k)) HEAD l' HEAD.
Proof.
  revert b f l. induction n as [|n IH]; intros b f l Hnd Hin Hb Hn Hl.
  { exists l. split_and!; [done| |done]. intros x. rewrite Hin. lia. }
  simpl. destruct (IH (b + 1) (push_front (upd f b (with_lock initsleeplock (f b))) b) (b :: l)) as (l' & H1 & H2 & H3).
  - apply NoDup_cons. split; [|done]. rewrite Hin. lia.
  - intros x. rewrite elem_of_cons, Hin. lia.
  - lia.
  - lia.
  - apply push_ring; [done| | | |by apply links_locked]; rewrite ?Hin; unfold HEAD; lia.
  - exists l'. split_and!; [done| |done]. intros x. rewrite H2. lia.
Qed.

(** No buffer is in use and none caches a block of disk 1. *)
Definition unused_buf (b : buf) : Prop :=
  b_flags b = 0 ∧ b_dev b = 0 ∧ sl_locked (b_lock b) = false ∧ b_refcnt b = 0.

Lemma unused_core b b' : core b' = core b → unused_buf b → unused_buf b'.
Proof. unfold core, unused_buf. intros [= -> -> _ -> -> _]. done. Qed.

Lemma binit_loop_unused n b f : (∀ k, unused_buf (f k)) → ∀ k, unused_buf (binit_loop n b f k).
Proof.
  revert b f. induction n as [|n IH]; intros b f Hf k; [apply Hf|]. apply IH. intros j.
  eapply unused_core; [apply core_push|]. unfold upd. case_decide; [|apply Hf]. by destruct (Hf b) as (? & ? & ? & ?).
Qed.

Lemma binit_inv f d :
  (∀ k, unused_buf (f k)) → (∀ bn, 0 ≤ bn < disksize d → length (blocks d bn) = Z.to_nat BSIZE) →
  ∃ l, bio_inv (mkBio (binit f) d) l [] [].
Proof.
  intros Hf Hd. unfold binit. cbv zeta.
  set (f2 := upd (upd f HEAD (with_prev HEAD (f HEAD))) HEAD
    (with_next HEAD (upd f HEAD (with_prev HEAD (f HEAD)) HEAD))).
  assert (Hf2 : ∀ k, unused_buf (f2 k)).
  { intros k. eapply unused_core; [|apply (Hf k)]. unfold f2. by rewrite core_next, core_prev. }
  destruct (binit_loop_links (Z.to_nat NBUF) 0 f2 []) as (l & Hnd & Hin & Hl).
  - apply NoDup_nil_2.
  - intros x. rewrite elem_of_nil. lia.
  - done.
  - done.
  - unfold f2. cbn [links]. by rewrite !upd_eq.
  - pose proof (binit_loop_unused (Z.to_nat NBUF) 0 f2 Hf2) as Hu. exists l. generalize dependent (binit_loop (Z.to_nat NBUF) 0 f2).
    intros g Hl Hu. split; simpl; try done; unfold caches; simpl.
    + split; [apply NoDup_nil_2|set_solver].
    + intros b _. destruct (Hu b) as (-> & _). set_solver.
    + intros b _ _. by destruct (Hu b) as (_ & _ & ? & ?).
    + intros b Hb. by apply elem_of_nil in Hb.
    + intros b _ Hdev. destruct (Hu b) as (_ & Hd0 & _). by rewrite Hd0 in Hdev.
    + intros b b' bn (_ & Hdev & _). destruct (Hu b) as (_ & Hd0 & _). by rewrite Hd0 in Hdev.
    + intros b _ Hf6. destruct (Hu b) as (Hf0 & _). by rewrite Hf0 in Hf6.
    + intros k Hk. by apply elem_of_nil in Hk.
    + intros b _ _ Hdev. destruct (Hu b) as (_ & Hd0 & _). by rewrite Hd0 in Hdev.
Qed.

(** A disk of 1000 blocks, each filled with its number, and the zeroed buffers. *)
Definition zero_buf : buf := mkBuf 0 0 0 (mkSleeplock false 0) 0 0 0 [].
Definition numbered_disk : disk := mkDisk (λ bn, replicate (Z.to_nat BSIZE) (u8 bn)) 1000 [].

(** C27: [bread] returns the block's latest bytes in a locked buffer: the buffer
    that caches it, or, when none does, the least recently used buffer that no
    process holds and the log has not pinned.  Neither the disk nor what the
    other blocks hold changes.  It finds a buffer whenever fewer than [NBUF]
    are held or pinned. *)
Theorem bread_spec s l held pins pid bn :
  bio_inv s l held pins → 0 ≤ bn < disksize (dk s) →
  (∀ h, h ∈ held → b_blockno (bufs s h) ≠ bn) →
  (∃ b, caches s b bn) ∨ (length held + length pins < Z.to_nat NBUF)%nat →
  ∃ b s', bread s pid 1 bn = Ret (b, s') ∧ pick (bufs s) l 1 bn = Some b ∧ b ∉ held ∧
    caches s' b bn ∧ b_data (bufs s' b) = view s bn ∧
    bio_inv s' l (b :: held) pins ∧ dk s' = dk s ∧ (∀ k, view s' k = view s k).
Proof.
  intros Hi Hbn Hh Hroom. destruct (bread_ok _ _ _ _ pid bn Hi Hbn Hh Hroom) as (b & x & He & Hp & Hb & Hi' & Hv & Hc & Hd).
  eexists b, _. split_and!; try done. simpl. by rewrite upd_eq.
Qed.

Lemma bread_spec_witness :
  ∃ b s', bread (mkBio (binit (λ _, zero_buf)) numbered_disk) 1 1 7 = Ret (b, s') ∧
    b_data (bufs s' b) = replicate (Z.to_nat BSIZE) 7.
Proof.
  destruct (binit_inv (λ _, zero_buf) numbered_disk) as [l Hl].
  - intros k. done.
  - intros bn _. apply length_replicate.
  - destruct (bread_spec _ l [] [] 1 7 Hl) as (b & s' & He & _ & _ & _ & Hd & _).
    + simpl. lia.
    + intros h Hh. exfalso. by apply elem_of_nil in Hh.
    + right. unfold NBUF. cbn [length]. lia.
    + exists b, s'. split; [exact He|]. rewrite Hd. vm_compute. reflexivity.
Defined.
