(* ===== verification/Log.v ===== *)
(** * The log of the file system (log.c)

    Writes of a group of system calls go to the log first, then to their home
    blocks; after a crash the log is replayed.  The definitions run over the
    buffer cache of Bio.v; the disk records the contents it had before each
    write, which are the contents a crash can leave. *)
From stdpp Require Import base list list_numbers sets strings.
From Stdlib Require Import ZArith Lia.
From S2P Require Import Prelude Sleeplock Bio.

Definition MAXOPBLOCKS : Z := 10.
Definition LOGSIZE : Z := MAXOPBLOCKS * 3.
Definition ROOTDEV : Z := 1.

(** ** The super block (fs.c) *)

Record superblock := mkSb {
  sb_size : Z; sb_nblocks : Z; sb_ninodes : Z; sb_nlog : Z; sb_logstart : Z;
  sb_inodestart : Z; sb_bmapstart : Z }.

Definition decode_sb (d : list Z) : superblock :=
  mkSb (get32 d 0) (get32 d 4) (get32 d 8) (get32 d 12) (get32 d 16) (get32 d 20) (get32 d 24).

Definition readsb (s : bio) (pid dev : Z) : outcome (superblock * bio) :=
  let! (b, s1) := bread s pid dev 1 in
  let sb := decode_sb (b_data (bufs s1 b)) in
  let! s2 := brelse s1 b in
  Ret (sb, s2).

(** ** The log *)

(** [lh_block] has [LOGSIZE] entries; [dev] is [ROOTDEV]. *)
Record log := mkLog {
  l_start : Z; l_size : Z; outstanding : Z; committing : bool; l_dev : Z; lh_n : Z; lh_block : list Z }.

Definition set_lh (g : log) (n : Z) (bl : list Z) : log :=
  mkLog (l_start g) (l_size g) (outstanding g) (committing g) (l_dev g) n bl.
Definition set_ops (g : log) (o : Z) (c : bool) : log :=
  mkLog (l_start g) (l_size g) o c (l_dev g) (lh_n g) (lh_block g).

(** [pid] is that of the process that runs the code. *)
Section log.
  Context (pid : Z).

(** The loop of [install_trans] from [tail], [k] blocks before its end. *)
Fixpoint install_loop (k : nat) (g : log) (tail : Z) (s : bio) : outcome bio :=
  match k with
  | O => Ret s
  | S k' =>
      let! (lbuf, s1) := bread s pid (l_dev g) (u32 (l_start g + tail + 1)) in
      let! blk := aget (lh_block g) tail "log.lh.block" in
      let! (dbuf, s2) := bread s1 pid (l_dev g) (u32 blk) in
      let s3 := set_data s2 dbuf (b_data (bufs s2 lbuf)) in
      let! s4 := bwrite s3 dbuf in
      let! s5 := brelse s4 lbuf in
      let! s6 := brelse s5 dbuf in
      install_loop k' g (tail + 1) s6
  end.
Definition install_trans (g : log) (s : bio) : outcome bio := install_loop (Z.to_nat (lh_n g)) g 0 s.

(** [struct logheader] in a block: [n], then the block numbers. *)
Fixpoint read_blocks (k : nat) (i : Z) (d bl : list Z) : outcome (list Z) :=
  match k with
  | O => Ret bl
  | S k' =>
      let! bl' := aset bl i (s32 (get32 d (4 + 4 * i))) "log.lh.block" in
      read_blocks k' (i + 1) d bl'
  end.

Definition read_head (g : log) (s : bio) : outcome (log * bio) :=
  let! (b, s1) := bread s pid (l_dev g) (u32 (l_start g)) in
  let d := b_data (bufs s1 b) in
  let n := s32 (get32 d 0) in
  let! bl := read_blocks (Z.to_nat n) 0 d (lh_block g) in
  let! s2 := brelse s1 b in
  Ret (set_lh g n bl, s2).

Fixpoint write_blocks (k : nat) (i : Z) (bl d : list Z) : outcome (list Z) :=
  match k with
  | O => Ret d
  | S k' =>
      let! blk := aget bl i "log.lh.block" in
      write_blocks k' (i + 1) bl (put32 d (4 + 4 * i) (u32 blk))
  end.

Definition write_head (g : log) (s : bio) : outcome bio :=
  let! (b, s1) := bread s pid (l_dev g) (u32 (l_start g)) in
  let d := put32 (b_data (bufs s1 b)) 0 (u32 (lh_n g)) in
  let! d' := write_blocks (Z.to_nat (lh_n g)) 0 (lh_block g) d in
  let! s2 := bwrite (set_data s1 b d') b in
  brelse s2 b.

Definition recover_from_log (g : log) (s : bio) : outcome (log * bio) :=
  let! (g1, s1) := read_head g s in
  let! s2 := install_trans g1 s1 in
  let g2 := set_lh g1 0 (lh_block g1) in
  let! s3 := write_head g2 s2 in
  Ret (g2, s3).

(** [sizeof(struct logheader)] is [4 + 4 * LOGSIZE]. *)
Definition initlog (g : log) (s : bio) (dev : Z) : outcome (log * bio) :=
  if Z.leb BSIZE (4 + 4 * LOGSIZE) then Panic "initlog: too big logheader"
  else
    let! (sb, s1) := readsb s pid (u32 dev) in
    recover_from_log (mkLog (s32 (sb_logstart sb)) (s32 (sb_nlog sb)) (outstanding g) (committing g)
                        dev (lh_n g) (lh_block g)) s1.

(** ** Transactions *)

Definition begin_op (g : log) : outcome log :=
  if committing g then Sleeps "log"
  else if Z.ltb LOGSIZE (lh_n g + (outstanding g + 1) * MAXOPBLOCKS) then Sleeps "log"
  else Ret (set_ops g (outstanding g + 1) (committing g)).

Fixpoint write_log_loop (k : nat) (g : log) (tail : Z) (s : bio) : outcome bio :=
  match k with
  | O => Ret s
  | S k' =>
      let! (to, s1) := bread s pid (l_dev g) (u32 (l_start g + tail + 1)) in
      let! blk := aget (lh_block g) tail "log.lh.block" in
      let! (from, s2) := bread s1 pid (l_dev g) (u32 blk) in
      let s3 := set_data s2 to (b_data (bufs s2 from)) in
      let! s4 := bwrite s3 to in
      let! s5 := brelse s4 from in
      let! s6 := brelse s5 to in
      write_log_loop k' g (tail + 1) s6
  end.
Definition write_log (g : log) (s : bio) : outcome bio := write_log_loop (Z.to_nat (lh_n g)) g 0 s.

Definition commit (g : log) (s : bio) : outcome (log * bio) :=
  if Z.gtb (lh_n g) 0 then
    let! s1 := write_log g s in
    let! s2 := write_head g s1 in
    let! s3 := install_trans g s2 in
    let g' := set_lh g 0 (lh_block g) in
    let! s4 := write_head g' s3 in
    Ret (g', s4)
  else Ret (g, s).

Definition end_op (g : log) (s : bio) : outcome (log * bio) :=
  let g1 := set_ops g (outstanding g - 1) (committing g) in
  if committing g1 then Panic "log.committing"
  else if Z.eqb (outstanding g1) 0 then
    let! (g2, s2) := commit (set_ops g1 0 true) s in
    Ret (set_ops g2 (outstanding g2) false, s2)
  else Ret (g1, s).

(** The index [log_write] stores at: the block's own entry, or the end. *)
Fixpoint absorb_index (k : nat) (i : Z) (bl : list Z) (blockno : Z) : outcome Z :=
  match k with
  | O => Ret i
  | S k' =>
      let! x := aget bl i "log.lh.block" in
      if Z.eqb (u32 x) blockno then Ret i else absorb_index k' (i + 1) bl blockno
  end.

(** The tests of [log_write], made before it takes [log.lock], and what it does
    with the lock held; other operations may run in between. *)
Definition log_write_checks (g : log) : outcome unit :=
  if Z.leb LOGSIZE (lh_n g) || Z.leb (l_size g - 1) (lh_n g) then Panic "too big a transaction"
  else if Z.ltb (outstanding g) 1 then Panic "log_write outside of trans"
  else Ret tt.
Definition log_write_locked (g : log) (s : bio) (b : Z) : outcome (log * bio) :=
  let blockno := b_blockno (bufs s b) in
  let! i := absorb_index (Z.to_nat (lh_n g)) 0 (lh_block g) blockno in
  let! bl := aset (lh_block g) i (s32 blockno) "log.lh.block" in
  Ret (set_lh g (if Z.eqb i (lh_n g) then lh_n g + 1 else lh_n g) bl,
       set_buf s b (with_flags (Z.lor (b_flags (bufs s b)) B_DIRTY) (bufs s b))).

(** The call, when nothing runs in between. *)
Definition log_write (g : log) (s : bio) (b : Z) : outcome (log * bio) :=
  let! _ := log_write_checks g in
  log_write_locked g s b.

End log.

(** ** Moving a block through the cache *)

Lemma view_unpinned s l held pins k :
  bio_inv s l held pins → k ∉ pins → (∀ h, h ∈ held → b_blockno (bufs s h) ≠ k) → view s k = blocks (dk s) k.
Proof.
  intros Hi Hk Hh. destruct (cached_dec s k) as [[b Hb]|Hno]; [|by apply view_uncached].
  rewrite (view_cached s b k (bi_uniq _ _ _ _ Hi) Hb). destruct Hb as (Hr & Hd & <-).
  assert (Hl : b ∈ l) by by apply (bi_ring _ _ _ _ Hi).
  apply (bi_clean _ _ _ _ Hi); [done|intros Hin; by apply (Hh b Hin)|done|].
  pose proof (bi_flags _ _ _ _ Hi b Hl) as Hf. rewrite !elem_of_cons, elem_of_nil in Hf.
  destruct Hf as [Hf|[Hf|[Hf|Hf]]]; [by apply (bi_valid _ _ _ _ Hi b Hl) in Hd as [? _]|done| |done].
  exfalso. by apply (bi_dirty _ _ _ _ Hi b Hl) in Hf as [_ ?].
Qed.

(** A held buffer can be released when its block is pinned or on disk. *)
Lemma releasable s l held pins b k :
  bio_inv s l held pins → caches s b k → k ∈ pins ∨ b_data (bufs s b) = blocks (dk s) k →
  b_flags (bufs s b) = Z.lor B_VALID B_DIRTY ∨ b_data (bufs s b) = blocks (dk s) (b_blockno (bufs s b)).
Proof.
  intros Hi Hc [Hk|Hk]; [left|right; by destruct Hc as (_ & _ & ->)].
  destruct (bi_pin _ _ _ _ Hi k Hk) as (y & Hy & Hf). by rewrite (bi_uniq _ _ _ _ Hi b y k).
Qed.

(** Two blocks read one after the other. *)
Lemma two_reads s l pins pid x1 x2 :
  bio_inv s l [] pins → 0 ≤ x1 < disksize (dk s) → 0 ≤ x2 < disksize (dk s) → x1 ≠ x2 →
  (length pins < Z.to_nat NBUF)%nat → x2 ∈ pins ∨ (S (length pins) < Z.to_nat NBUF)%nat →
  ∃ b1 s1 b2 s2, bread s pid 1 x1 = Ret (b1, s1) ∧ bread s1 pid 1 x2 = Ret (b2, s2) ∧
    bio_inv s2 l [b2; b1] pins ∧ caches s2 b1 x1 ∧ caches s2 b2 x2 ∧ dk s2 = dk s ∧
    (∀ k, view s2 k = view s k) ∧ b_data (bufs s2 b1) = view s x1 ∧ b_data (bufs s2 b2) = view s x2.
Proof.
  intros Hi H1 H2 Hne Hp Hp2.
  destruct (bread_ok s l [] pins pid x1 Hi H1) as (b1 & y1 & He1 & _ & _ & Hi1 & Hv1 & Hc1 & Hd1).
  { intros h Hh. by apply elem_of_nil in Hh. }
  { right. done. }
  set (s1 := mkBio (upd (bufs s) b1 y1) (dk s)) in *.
  destruct (bread_ok s1 l [b1] pins pid x2 Hi1 H2) as (b2 & y2 & He2 & _ & Hb2 & Hi2 & Hv2 & Hc2 & Hd2).
  { intros h ->%list_elem_of_singleton. destruct Hc1 as (_ & _ & ->). done. }
  { destruct Hp2 as [Hp2|Hp2]; [left|right; simpl; lia].
    destruct (bi_pin _ _ _ _ Hi1 x2 Hp2) as (b & Hb & _). by exists b. }
  exists b1, s1, b2, (mkBio (upd (bufs s1) b2 y2) (dk s)).
  assert (Hb12 : b1 ≠ b2) by (intros ->; apply Hb2; by left).
  split_and!; try done.
  - change (dk s) with (dk s1). apply caches_upd. by right.
  - intros k. change (dk s) with (dk s1). rewrite Hv2. apply Hv1.
  - simpl. rewrite upd_ne, upd_eq by done. done.
  - simpl. rewrite upd_eq, Hd2. apply Hv1.
Qed.

(** Block [xd], held in [bd], gets the bytes [d] on disk; then both buffers are
    released. *)
Lemma store_release s l pins bd xd bo xo d r1 r2 :
  bio_inv s l [r2; r1] pins ∨ bio_inv s l [r1; r2] pins → (bd = r1 ∧ bo = r2) ∨ (bd = r2 ∧ bo = r1) →
  caches s bd xd → caches s bo xo → xd ≠ xo → length d = Z.to_nat BSIZE →
  xo ∈ pins ∨ b_data (bufs s bo) = blocks (dk s) xo →
  ∃ s4 s5 s6 l', bwrite (set_data s bd d) bd = Ret s4 ∧ brelse s4 r1 = Ret s5 ∧ brelse s5 r2 = Ret s6 ∧
    bio_inv s6 l' [] (filter (λ k, k ≠ xd) pins) ∧ (∀ k, view s6 k = upd (view s) xd d k) ∧
    dk s6 = disk_write (dk s) xd d.
Proof.
  intros Hi Hr Hcd Hco Hne Hl Ho.
  assert (∃ held, bio_inv s l held pins ∧ held ≡ₚ [r1; r2]) as (held & Hi' & Hp).
  { destruct Hi; eexists; (split; [done|]); [by apply Permutation_swap|done]. }
  clear Hi. rename Hi' into Hi.
  assert (Hbd : bd ∈ held) by (rewrite Hp; set_solver).
  destruct (set_data_ok s l held pins bd xd d Hi Hbd Hcd Hl) as (Hi3 & Hv3 & Hc3).
  set (s3 := set_data s bd d) in *.
  destruct (bwrite_ok s3 l held pins bd xd Hi3 Hbd) as (s4 & He4 & Hd4 & Hi4 & Hv4 & Hc4 & Hb4); [by apply Hc3|].
  assert (Hbo : bo ≠ bd) by (intros ->; destruct Hcd as (_ & _ & ?), Hco as (_ & _ & ?); congruence).
  assert (Hdd : b_data (bufs s3 bd) = d) by (simpl; by rewrite upd_eq).
  assert (Hdo : b_data (bufs s3 bo) = b_data (bufs s bo)) by (simpl; by rewrite upd_ne).
  assert (Hdk3 : dk s3 = dk s) by done.
  assert (Hcd4 : caches s4 bd xd) by (by apply Hc4, Hc3).
  assert (Hco4 : caches s4 bo xo) by (by apply Hc4, Hc3).
  assert (Hrd : xd ∈ filter (λ k, k ≠ xd) pins ∨ b_data (bufs s4 bd) = blocks (dk s4) xd).
  { right. rewrite Hb4, Hd4, Hdd. simpl. by rewrite upd_eq. }
  assert (Hro : xo ∈ filter (λ k, k ≠ xd) pins ∨ b_data (bufs s4 bo) = blocks (dk s4) xo).
  { destruct Ho as [Ho|Ho]; [left; by apply list_elem_of_filter|right].
    rewrite Hb4, Hd4, Hdo, Ho. simpl. by rewrite upd_ne. }
  assert (∃ x1 x2, caches s4 r1 x1 ∧ caches s4 r2 x2 ∧
    (x1 ∈ filter (λ k, k ≠ xd) pins ∨ b_data (bufs s4 r1) = blocks (dk s4) x1) ∧
    (x2 ∈ filter (λ k, k ≠ xd) pins ∨ b_data (bufs s4 r2) = blocks (dk s4) x2)) as (x1 & x2 & Hx1 & Hx2 & H1 & H2).
  { destruct Hr as [[<- <-]|[<- <-]]; [exists xd, xo|exists xo, xd]; done. }
  destruct (brelse_ok s4 l held [r2] _ r1 Hi4 Hp (releasable _ _ _ _ _ x1 Hi4 Hx1 H1))
    as (s5 & He5 & Hd5 & Hi5 & Hv5 & Hc5 & Hb5 & _).
  destruct (brelse_ok s5 _ [r2] [] _ r2 Hi5 (reflexivity _)) as (s6 & He6 & Hd6 & Hi6 & Hv6 & _).
  { apply (releasable _ _ _ _ _ x2 Hi5); [by apply Hc5|]. by rewrite Hb5, Hd5. }
  exists s4, s5, s6. eexists. split_and!; [done..|exact Hi6| |].
  - intros k. by rewrite Hv6, Hv5, Hv4, Hv3.
  - by rewrite Hd6, Hd5, Hd4, Hdd, Hdk3.
Qed.

(** ** Sequences of block writes *)

Definition apply_writes (D : Z → list Z) (W : list (Z * list Z)) : Z → list Z :=
  fold_left (λ D w, upd D w.1 w.2) W D.
Definition disk_writes (d : disk) (W : list (Z * list Z)) : disk :=
  fold_left (λ d w, disk_write d w.1 w.2) W d.

Lemma apply_writes_app D W1 W2 : apply_writes D (W1 ++ W2) = apply_writes (apply_writes D W1) W2.
Proof. apply fold_left_app. Qed.
Lemma disk_writes_app d W1 W2 : disk_writes d (W1 ++ W2) = disk_writes (disk_writes d W1) W2.
Proof. apply fold_left_app. Qed.

Lemma apply_writes_ext D D' W k : (∀ x, D' x = D x) → apply_writes D' W k = apply_writes D W k.
Proof.
  revert D D'. induction W as [|[b v] W IH]; intros D D' Hd; [apply Hd|]. simpl. apply IH.
  intros x. unfold upd. by case_decide.
Qed.

Lemma apply_writes_other D W k : k ∉ W.*1 → apply_writes D W k = D k.
Proof.
  revert D. induction W as [|[b v] W IH]; intros D Hk; [done|]. apply not_elem_of_cons in Hk as [Hb Hk].
  simpl. rewrite IH by done. by apply upd_ne.
Qed.

(** The value at [k] depends on the start only where no write goes. *)
Lemma apply_writes_indep D D' W k : k ∈ W.*1 ∨ D' k = D k → apply_writes D' W k = apply_writes D W k.
Proof.
  revert D D'. induction W as [|[b v] W IH]; intros D D' Hk; [destruct Hk as [Hk|]; [by apply elem_of_nil in Hk|done]|].
  simpl. apply IH. destruct (decide (k = b)) as [->|Hb]; [right; by rewrite !upd_eq|].
  destruct Hk as [Hk|Hk]; [left; set_solver|right; by rewrite !upd_ne].
Qed.

Lemma disk_writes_blocks d W : blocks (disk_writes d W) = apply_writes (blocks d) W.
Proof. revert d. induction W as [|[b v] W IH]; intros d; [done|]. simpl. by rewrite IH. Qed.
Lemma disk_writes_size d W : disksize (disk_writes d W) = disksize d.
Proof. revert d. induction W as [|[b v] W IH]; intros d; [done|]. simpl. by rewrite IH. Qed.

(** The disks a crash can leave: those after a prefix of the writes. *)
Lemma disk_writes_past d W :
  past (disk_writes d W) = past d ++ map (λ j, apply_writes (blocks d) (take j W)) (seq 0 (length W)).
Proof.
  induction W as [|[b v] W IH] using rev_ind; [by rewrite app_nil_r|].
  rewrite disk_writes_app, length_app, seq_app, map_app. cbn [length seq map].
  rewrite app_assoc, Nat.add_0_l, take_app_length. change (past (disk_writes (disk_writes d W) [(b, v)]))
    with (past (disk_writes d W) ++ [blocks (disk_writes d W)]).
  rewrite disk_writes_blocks, IH. do 2 f_equal. apply map_ext_in.
  intros j Hj%in_seq. f_equal. rewrite take_app_le; [done|lia].
Qed.

(** ** The loops as sequences of writes *)

Definition in_log (g : log) (x : Z) : Prop := l_start g ≤ x < l_start g + l_size g.

(** The log of [g] fits the disk, its header blocks [i, i+k) are home blocks. *)
Record log_fits (g : log) (dsz : Z) : Prop := {
  lf_dev : l_dev g = 1;
  lf_start : 0 ≤ l_start g;
  lf_end : l_start g + l_size g ≤ dsz;
  lf_disk : dsz < 2 ^ 31 }.

Definition home_block (g : log) (dsz x : Z) : Prop := 0 ≤ x < dsz ∧ ¬ in_log g x.

(** Entry [i] of the header. *)
Definition entry (bl : list Z) (i : Z) : Z := nth (Z.to_nat i) bl 0.

Definition install_writes (g : log) (V : Z → list Z) (i : Z) (k : nat) : list (Z * list Z) :=
  map (λ j, (entry (lh_block g) j, V (l_start g + j + 1))) (seqZ i (Z.of_nat k)).
Definition log_writes (g : log) (V : Z → list Z) (i : Z) (k : nat) : list (Z * list Z) :=
  map (λ j, (l_start g + j + 1, V (entry (lh_block g) j))) (seqZ i (Z.of_nat k)).

Lemma aget_entry bl i w : 0 ≤ i < Z.of_nat (length bl) → aget bl i w = Ret (entry bl i).
Proof.
  intros Hi. apply aget_Ret. split; [lia|]. unfold entry.
  destruct (lookup_lt_is_Some_2 bl (Z.to_nat i)) as [x Hx]; [lia|]. rewrite Hx. by erewrite nth_lookup_Some.
Qed.

Lemma seqZ_S i k : seqZ i (Z.of_nat (S k)) = i :: seqZ (i + 1) (Z.of_nat k).
Proof. rewrite seqZ_cons by lia. repeat f_equal; lia. Qed.

Lemma filter_length_lt (l : list Z) x : x ∈ l → (length (filter (λ k, k ≠ x) l) < length l)%nat.
Proof.
  induction l as [|y l IH]; [by intros ?%elem_of_nil|]. rewrite elem_of_cons.
  pose proof (length_filter (λ k, k ≠ x) l) as Hle.
  destruct (decide (y = x)) as [->|Hy].
  - rewrite filter_cons_False by naive_solver. simpl. lia.
  - intros [?|Hx]; [congruence|]. rewrite filter_cons_True by done. simpl. specialize (IH Hx). lia.
Qed.

Section loops.
  Context (pid : Z) (g : log) (dsz : Z) (Hfits : log_fits g dsz).

  (** Header entries [i, i+k) name home blocks. *)
Definition entries_ok (i : Z) (k : nat) : Prop :=
  0 ≤ i ∧ i + Z.of_nat k ≤ Z.of_nat (length (lh_block g)) ∧ i + Z.of_nat k < l_size g ∧
  ∀ j, i ≤ j < i + Z.of_nat k → home_block g dsz (entry (lh_block g) j).

Lemma entries_ok_S i k :
  entries_ok i (S k) →
  entries_ok (i + 1) k ∧ 0 ≤ i < Z.of_nat (length (lh_block g)) ∧ in_log g (l_start g + i + 1) ∧
  home_block g dsz (entry (lh_block g) i) ∧
  u32 (l_start g + i + 1) = l_start g + i + 1 ∧ u32 (entry (lh_block g) i) = entry (lh_block g) i ∧
  0 ≤ l_start g + i + 1 < dsz.
Proof.
  destruct Hfits as [_ Hs He Hd]. intros (Hi & Hl & Hn & Hb). unfold entries_ok, in_log.
  assert (Hh : home_block g dsz (entry (lh_block g) i)) by (apply Hb; lia).
  split_and!; try lia; try done.
  - intros j Hj. apply Hb. lia.
  - apply u32_small. unfold is_u32. lia.
  - apply u32_small. destruct Hh as [Hh _]. unfold is_u32. lia.
Qed.

Lemma install_loop_ok k i s l pins :
  bio_inv s l [] pins → disksize (dk s) = dsz → entries_ok i k →
  (∀ x, x ∈ pins → ¬ in_log g x) → (length pins < Z.to_nat NBUF)%nat →
  entry (lh_block g) i ∈ pins ∨ (S (length pins) < Z.to_nat NBUF)%nat →
  let W := install_writes g (view s) i k in
  ∃ s' l' pins', install_loop pid k g i s = Ret s' ∧ bio_inv s' l' [] pins' ∧
    dk s' = disk_writes (dk s) W ∧ (∀ x, view s' x = apply_writes (view s) W x) ∧
    (∀ x, x ∈ pins' ↔ x ∈ pins ∧ x ∉ W.*1) ∧ (length pins' ≤ length pins)%nat.
Proof.
  revert i s l pins. induction k as [|k IH]; intros i s l pins Hi Hsz Hent Hpl Hlen Hroom W.
  { exists s, l, pins. split_and!; try done. intros x. simpl. set_solver. }
  destruct (entries_ok_S i k Hent) as (Hent' & Hir & Hlog & [Hhome Hhl] & Hu1 & Hu2 & Hb1).
  set (lblk := l_start g + i + 1) in *. set (dblk := entry (lh_block g) i) in *.
  assert (Hne : lblk ≠ dblk) by (intros He; apply Hhl; by rewrite <- He).
  assert (Hlp : lblk ∉ pins) by (intros Hin; by apply (Hpl _ Hin)).
  destruct (two_reads s l pins pid lblk dblk) as (b1 & s1 & b2 & s2 & He1 & He2 & Hi2 & Hc1 & Hc2 & Hd2 & Hv2 & Hx1 & Hx2);
    [done|lia|lia|done|done|done|].
  destruct (store_release s2 l pins b2 dblk b1 lblk (view s lblk) b1 b2)
    as (s4 & s5 & s6 & l6 & He4 & He5 & He6 & Hi6 & Hv6 & Hd6); try done; [by left|by right| | |].
  { apply (view_length _ _ _ _ _ Hi). lia. }
  { right. rewrite Hx1, Hd2. apply (view_unpinned _ _ _ _ _ Hi Hlp). intros h Hh. by apply elem_of_nil in Hh. }
  assert (Hvl : ∀ x, in_log g x → view s6 x = view s x).
  { intros x Hx. rewrite Hv6, upd_ne; [done|]. intros ->. by apply Hhl. }
  assert (HW : W = (dblk, view s lblk) :: install_writes g (view s6) (i + 1) k).
  { unfold W, install_writes. rewrite seqZ_S. simpl. f_equal. apply map_ext_in. intros j Hj.
    apply list_elem_of_In, elem_of_seqZ in Hj. rewrite Hvl; [done|]. destruct Hent' as (? & ? & ? & _). unfold in_log. lia. }
  destruct (IH (i + 1) s6 l6 (filter (λ x, x ≠ dblk) pins)) as (s' & l' & pins' & Hs' & Hi' & Hd' & Hv' & Hp' & Hlen').
  { done. }
  { by rewrite Hd6, Hd2. }
  { done. }
  { intros x [_ Hx]%list_elem_of_filter. by apply Hpl. }
  { pose proof (length_filter (λ k, k ≠ dblk) pins). lia. }
  { right. destruct Hroom as [Hroom|Hroom].
    - pose proof (filter_length_lt pins dblk Hroom). lia.
    - pose proof (length_filter (λ k, k ≠ dblk) pins). lia. }
  exists s', l', pins'. rewrite HW. split_and!.
  - cbn [install_loop]. destruct Hfits as [-> _ _ _]. fold lblk. rewrite Hu1, He1. cbn [obind].
    rewrite (aget_entry _ _ _ Hir). cbn [obind]. fold dblk. rewrite Hu2, He2. cbn [obind].
    rewrite Hx1, He4. cbn [obind]. rewrite He5. cbn [obind]. by rewrite He6.
  - done.
  - rewrite Hd', Hd6, Hd2. done.
  - intros x. rewrite Hv'. simpl. apply apply_writes_ext. intros y. rewrite Hv6. unfold upd. case_decide; [done|apply Hv2].
  - intros x. rewrite Hp', list_elem_of_filter. cbn [fmap list_fmap]. rewrite elem_of_cons. naive_solver.
  - pose proof (length_filter (λ k, k ≠ dblk) pins). lia.
Qed.

Lemma write_log_loop_ok k i s l pins :
  bio_inv s l [] pins → disksize (dk s) = dsz → entries_ok i k →
  (∀ x, x ∈ pins → ¬ in_log g x) → (length pins < Z.to_nat NBUF)%nat →
  (∀ j, i ≤ j < i + Z.of_nat k → entry (lh_block g) j ∈ pins) →
  let W := log_writes g (view s) i k in
  ∃ s' l', write_log_loop pid k g i s = Ret s' ∧ bio_inv s' l' [] pins ∧
    dk s' = disk_writes (dk s) W ∧ (∀ x, view s' x = apply_writes (view s) W x).
Proof.
  revert i s l. induction k as [|k IH]; intros i s l Hi Hsz Hent Hpl Hlen Hpin W; [by exists s, l|].
  destruct (entries_ok_S i k Hent) as (Hent' & Hir & Hlog & [Hhome Hhl] & Hu1 & Hu2 & Hb1).
  set (lblk := l_start g + i + 1) in *. set (dblk := entry (lh_block g) i) in *.
  assert (Hne : lblk ≠ dblk) by (intros He; apply Hhl; by rewrite <- He).
  assert (Hlp : lblk ∉ pins) by (intros Hin; by apply (Hpl _ Hin)).
  assert (Hdp : dblk ∈ pins) by (apply Hpin; lia).
  destruct (two_reads s l pins pid lblk dblk) as (b1 & s1 & b2 & s2 & He1 & He2 & Hi2 & Hc1 & Hc2 & Hd2 & Hv2 & Hx1 & Hx2);
    [done|lia|lia|done|done|by left|].
  destruct (store_release s2 l pins b1 lblk b2 dblk (view s dblk) b2 b1)
    as (s4 & s5 & s6 & l6 & He4 & He5 & He6 & Hi6 & Hv6 & Hd6); try done; [by right|by right| |by left|].
  { apply (view_length _ _ _ _ _ Hi). lia. }
  rewrite (filter_absent _ _ Hlp) in Hi6.
  assert (HW : W = (lblk, view s dblk) :: log_writes g (view s6) (i + 1) k).
  { unfold W, log_writes. rewrite seqZ_S. simpl. f_equal. apply map_ext_in. intros j Hj.
    apply list_elem_of_In, elem_of_seqZ in Hj. rewrite Hv6, upd_ne, Hv2; [done|]. intros He.
    destruct Hent' as (_ & _ & _ & Hent'). destruct (Hent' j) as [_ Hnl]; [lia|]. apply Hnl. by rewrite He. }
  destruct (IH (i + 1) s6 l6) as (s' & l' & Hs' & Hi' & Hd' & Hv'); [done|by rewrite Hd6, Hd2|done..|intros j Hj; apply Hpin; lia|].
  exists s', l'. rewrite HW. split_and!.
  - cbn [write_log_loop]. destruct Hfits as [-> _ _ _]. fold lblk. rewrite Hu1, He1. cbn [obind].
    rewrite (aget_entry _ _ _ Hir). cbn [obind]. fold dblk. rewrite Hu2, He2. cbn [obind].
    rewrite Hx2, He4. cbn [obind]. rewrite He5. cbn [obind]. by rewrite He6.
  - done.
  - rewrite Hd', Hd6, Hd2. done.
  - intros x. rewrite Hv'. simpl. apply apply_writes_ext. intros y. rewrite Hv6. unfold upd. case_decide; [done|apply Hv2].
Qed.

End loops.

(** ** The header block *)

Definition hdr_n (d : list Z) : Z := s32 (get32 d 0).
Definition hdr_block (d : list Z) (i : Z) : Z := s32 (get32 d (4 + 4 * i)).

Lemma s32_u32 x : - 2 ^ 31 ≤ x < 2 ^ 31 → s32 (u32 x) = x.
Proof.
  intros Hx. unfold s32, u32. rewrite Z.mod_mod by lia.
  destruct (Z.ltb_spec (x mod 2 ^ 32) (2 ^ 31)); Z.to_euclidean_division_equations; lia.
Qed.

Lemma write_blocks_ok k i bl d :
  0 ≤ i → i + Z.of_nat k ≤ Z.of_nat (length bl) → 4 + 4 * (i + Z.of_nat k) ≤ Z.of_nat (length d) →
  ∃ d', write_blocks k i bl d = Ret d' ∧ length d' = length d ∧
    (∀ j, i ≤ j < i + Z.of_nat k → get32 d' (4 + 4 * j) = u32 (entry bl j)) ∧
    (∀ o, 0 ≤ o ≤ 4 * i → get32 d' o = get32 d o).
Proof.
  revert i d. induction k as [|k IH]; intros i d Hi Hl Hd.
  { exists d. split_and!; try done. lia. }
  cbn [write_blocks]. rewrite aget_entry by lia. cbn [obind].
  destruct (IH (i + 1) (put32 d (4 + 4 * i) (u32 (entry bl i)))) as (d' & He & Hlen & Hb & Ho);
    [lia|lia|rewrite length_put32; lia|].
  rewrite length_put32 in Hlen. exists d'. split_and!; [done|done| |].
  - intros j Hj. destruct (decide (j = i)) as [->|Hne]; [|apply Hb; lia].
    rewrite Ho by lia. apply get32_put32_eq; [lia|lia|apply u32_range].
  - intros o Hor. rewrite Ho by lia. apply get32_put32_ne; lia.
Qed.

Lemma get32_range d o : 0 ≤ get32 d o < 2 ^ 32.
Proof.
  unfold get32, byte_at.
  pose proof (u8_range (nth (Z.to_nat o) d 0)). pose proof (u8_range (nth (Z.to_nat (o + 1)) d 0)).
  pose proof (u8_range (nth (Z.to_nat (o + 2)) d 0)). pose proof (u8_range (nth (Z.to_nat (o + 3)) d 0)). lia.
Qed.

Lemma read_blocks_ok k i d bl :
  0 ≤ i → i + Z.of_nat k ≤ Z.of_nat (length bl) →
  ∃ bl', read_blocks k i d bl = Ret bl' ∧ length bl' = length bl ∧
    (∀ j, i ≤ j < i + Z.of_nat k → entry bl' j = hdr_block d j) ∧
    (∀ j, 0 ≤ j < i → entry bl' j = entry bl j).
Proof.
  revert i bl. induction k as [|k IH]; intros i bl Hi Hl.
  { exists bl. split_and!; try done. lia. }
  cbn [read_blocks]. rewrite aset_Ret by lia. cbn [obind].
  destruct (IH (i + 1) (<[Z.to_nat i:=s32 (get32 d (4 + 4 * i))]> bl)) as (bl' & He & Hlen & Hb & Ho);
    [lia|rewrite length_insert; lia|].
  rewrite length_insert in Hlen. exists bl'. split_and!; [done|done| |].
  - intros j Hj. destruct (decide (j = i)) as [->|Hne]; [|apply Hb; lia].
    rewrite Ho by lia. unfold entry. erewrite nth_lookup_Some; [done|]. apply list_lookup_insert_eq. lia.
  - intros j Hj. rewrite Ho by lia. unfold entry. rewrite !nth_lookup, list_lookup_insert_ne by lia. done.
Qed.

(** A block one reads, changes, writes and releases. *)
Lemma rewrite_block s l pins pid x d :
  bio_inv s l [] pins → 0 ≤ x < disksize (dk s) → (length pins < Z.to_nat NBUF)%nat → x ∉ pins →
  length d = Z.to_nat BSIZE →
  ∃ b s1 s2 s3 l', bread s pid 1 x = Ret (b, s1) ∧ b_data (bufs s1 b) = view s x ∧
    bwrite (set_data s1 b d) b = Ret s2 ∧ brelse s2 b = Ret s3 ∧ bio_inv s3 l' [] pins ∧
    dk s3 = disk_writes (dk s) [(x, d)] ∧ (∀ k, view s3 k = apply_writes (view s) [(x, d)] k).
Proof.
  intros Hi Hx Hp Hnp Hl.
  destruct (bread_ok s l [] pins pid x Hi Hx) as (b & y & He1 & _ & _ & Hi1 & Hv1 & Hc1 & Hd1).
  { intros h Hh. by apply elem_of_nil in Hh. }
  { by right. }
  set (s1 := mkBio (upd (bufs s) b y) (dk s)) in *.
  destruct (set_data_ok s1 l [b] pins b x d Hi1) as (Hi2 & Hv2 & Hc2); [by left|done|done|].
  destruct (bwrite_ok _ l [b] pins b x Hi2) as (s2 & He2 & Hd2 & Hi3 & Hv3 & Hc3 & Hb3); [by left|by apply Hc2|].
  rewrite (filter_absent _ _ Hnp) in Hi3.
  destruct (brelse_ok s2 l [b] [] pins b Hi3 (reflexivity _)) as (s3 & He3 & Hd3 & Hi4 & Hv4 & _).
  { right. rewrite Hb3, Hd2. assert (caches s2 b x) as (_ & _ & ->) by (by apply Hc3, Hc2).
    simpl. by rewrite !upd_eq. }
  exists b, s1, s2, s3. eexists. split_and!; [done| |done|done|exact Hi4| |].
  - simpl. by rewrite upd_eq.
  - rewrite Hd3, Hd2. simpl. by rewrite upd_eq.
  - intros k. rewrite Hv4, Hv3, Hv2. simpl. unfold upd. case_decide; [done|apply Hv1].
Qed.

(** [write_head] writes one block, whose words are [n] and the entries. *)
Lemma write_head_ok s l pins pid g dsz :
  bio_inv s l [] pins → disksize (dk s) = dsz → log_fits g dsz → 0 < l_size g →
  (∀ x, x ∈ pins → ¬ in_log g x) → (length pins < Z.to_nat NBUF)%nat →
  0 ≤ lh_n g ≤ LOGSIZE → length (lh_block g) = Z.to_nat LOGSIZE →
  ∃ d s' l', write_head pid g s = Ret s' ∧ bio_inv s' l' [] pins ∧ length d = Z.to_nat BSIZE ∧
    hdr_n d = lh_n g ∧ (∀ j, 0 ≤ j < lh_n g → get32 d (4 + 4 * j) = u32 (entry (lh_block g) j)) ∧
    dk s' = disk_writes (dk s) [(l_start g, d)] ∧ (∀ k, view s' k = apply_writes (view s) [(l_start g, d)] k).
Proof.
  intros Hi Hsz [Hdev Hst Hend Hdisk] Hls Hpl Hlen Hn Hbl.
  assert (Hr : 0 ≤ l_start g < disksize (dk s)) by lia.
  assert (Hnp : l_start g ∉ pins) by (intros Hin; apply (Hpl _ Hin); unfold in_log; lia).
  pose proof (view_length _ _ _ _ _ Hi Hr) as Hvl.
  destruct (write_blocks_ok (Z.to_nat (lh_n g)) 0 (lh_block g) (put32 (view s (l_start g)) 0 (u32 (lh_n g))))
    as (d & He & Hld & Hb & Ho); [lia|unfold LOGSIZE, MAXOPBLOCKS in *; lia|
      rewrite length_put32, Hvl; unfold BSIZE, LOGSIZE, MAXOPBLOCKS in *; lia|].
  rewrite length_put32, Hvl in Hld.
  destruct (rewrite_block s l pins pid (l_start g) d) as (b & s1 & s2 & s3 & l' & E1 & Ed & E2 & E3 & Hi' & Hd' & Hv'); [done..|].
  exists d, s3, l'. split_and!; try done.
  - unfold write_head. rewrite Hdev, u32_small by (unfold is_u32; lia). rewrite E1. cbn [obind].
    rewrite Ed, He. cbn [obind]. by rewrite E2.
  - unfold hdr_n. rewrite Ho, get32_put32_eq by (rewrite ?Hvl; try apply u32_range; unfold BSIZE; lia).
    apply s32_u32. unfold LOGSIZE, MAXOPBLOCKS in Hn. lia.
  - intros j Hj. apply Hb. lia.
Qed.

(** ** Recovery *)

(** The writes the header of disk [D] asks for, and [D] after them. *)
Definition replay_writes (st : Z) (D : Z → list Z) : list (Z * list Z) :=
  map (λ j, (hdr_block (D st) j, D (st + j + 1))) (seqZ 0 (hdr_n (D st))).
Definition replay (st : Z) (D : Z → list Z) : Z → list Z := apply_writes D (replay_writes st D).

(** The header of [D] is one the log of [g] can have. *)
Record hdr_ok (g : log) (dsz : Z) (D : Z → list Z) : Prop := {
  ho_n : 0 ≤ hdr_n (D (l_start g)) ≤ LOGSIZE;
  ho_size : hdr_n (D (l_start g)) < l_size g;
  ho_home j : 0 ≤ j < hdr_n (D (l_start g)) → home_block g dsz (hdr_block (D (l_start g)) j) }.

Lemma read_head_ok s l pid g dsz :
  bio_inv s l [] [] → disksize (dk s) = dsz → log_fits g dsz → hdr_ok g dsz (blocks (dk s)) →
  length (lh_block g) = Z.to_nat LOGSIZE →
  ∃ bl s' l', read_head pid g s = Ret (set_lh g (hdr_n (blocks (dk s) (l_start g))) bl, s') ∧
    bio_inv s' l' [] [] ∧ dk s' = dk s ∧ length bl = Z.to_nat LOGSIZE ∧
    (∀ j, 0 ≤ j < hdr_n (blocks (dk s) (l_start g)) → entry bl j = hdr_block (blocks (dk s) (l_start g)) j).
Proof.
  intros Hi Hsz [Hdev Hst Hend Hdisk] [Hn Hsize _] Hbl.
  assert (Hr : 0 ≤ l_start g < disksize (dk s)) by lia.
  assert (Hview : view s (l_start g) = blocks (dk s) (l_start g)).
  { apply (view_unpinned _ _ _ _ _ Hi); [apply not_elem_of_nil|intros h Hh; by apply elem_of_nil in Hh]. }
  destruct (bread_ok s l [] [] pid (l_start g) Hi Hr) as (b & y & He1 & _ & _ & Hi1 & Hv1 & Hc1 & Hd1).
  { intros h Hh. by apply elem_of_nil in Hh. }
  { right. simpl. unfold NBUF. lia. }
  rewrite Hview in Hd1. set (D := blocks (dk s) (l_start g)) in *.
  destruct (read_blocks_ok (Z.to_nat (hdr_n D)) 0 D (lh_block g)) as (bl & Hrb & Hlen & Hent & _); [lia|lia|].
  destruct (brelse_ok _ l [b] [] [] b Hi1 (reflexivity _)) as (s' & He2 & Hd2 & Hi2 & _).
  { right. assert (b_blockno (bufs (mkBio (upd (bufs s) b y) (dk s)) b) = l_start g) as -> by apply Hc1.
    simpl. by rewrite upd_eq. }
  exists bl, s'. eexists. split_and!; [|exact Hi2|done|congruence|intros j Hj; apply Hent; lia].
  unfold read_head. rewrite Hdev, u32_small by (unfold is_u32; lia). rewrite He1. cbn [obind].
  simpl bufs. rewrite upd_eq, Hd1. fold (hdr_n D). rewrite Hrb. cbn [obind]. by rewrite He2.
Qed.

(** Recovery replays the log and clears it. *)
Lemma recover_ok s l pid g dsz :
  bio_inv s l [] [] → disksize (dk s) = dsz → log_fits g dsz → hdr_ok g dsz (blocks (dk s)) →
  length (lh_block g) = Z.to_nat LOGSIZE →
  ∃ bl d s' l', recover_from_log pid g s = Ret (set_lh g 0 bl, s') ∧ bio_inv s' l' [] [] ∧
    hdr_n d = 0 ∧
    dk s' = disk_writes (dk s) (replay_writes (l_start g) (blocks (dk s)) ++ [(l_start g, d)]).
Proof.
  intros Hi Hsz Hfits Hok Hbl. destruct (read_head_ok s l pid g dsz) as (bl & s1 & l1 & He1 & Hi1 & Hd1 & Hlbl & Hent); [done..|].
  set (n := hdr_n (blocks (dk s) (l_start g))) in *. set (g1 := set_lh g n bl) in *.
  pose proof Hok as [Hn Hsize Hhome].
  assert (Hfits1 : log_fits g1 dsz) by (destruct Hfits; by split).
  assert (Hview : ∀ x, view s1 x = blocks (dk s) x).
  { intros x. rewrite <- Hd1. apply (view_unpinned _ _ _ _ _ Hi1); [apply not_elem_of_nil|intros h Hh; by apply elem_of_nil in Hh]. }
  destruct (install_loop_ok pid g1 dsz Hfits1 (Z.to_nat n) 0 s1 l1 []) as (s2 & l2 & pins & He2 & Hi2 & Hd2 & Hv2 & Hp2 & _).
  { done. }
  { congruence. }
  { split_and!; simpl; [lia|rewrite Hlbl; unfold LOGSIZE, MAXOPBLOCKS in *; lia|fold n in Hsize; lia|].
    intros j Hj. rewrite Hent by lia. apply Hhome. fold n. lia. }
  { intros x Hx. by apply elem_of_nil in Hx. }
  { simpl. unfold NBUF. lia. }
  { right. simpl. unfold NBUF. lia. }
  assert (pins = []) as ->.
  { destruct pins as [|x pins]; [done|]. exfalso. destruct (Hp2 x) as [H _]. destruct H as [H _]; [by left|]. by apply elem_of_nil in H. }
  assert (HW : install_writes g1 (view s1) 0 (Z.to_nat n) = replay_writes (l_start g) (blocks (dk s))).
  { unfold install_writes, replay_writes. fold n. rewrite Z2Nat.id by lia. apply map_ext_in.
    intros j Hj. apply list_elem_of_In, elem_of_seqZ in Hj. simpl. by rewrite Hent, Hview by lia. }
  rewrite HW, Hd1 in Hd2.
  set (g2 := set_lh g1 0 bl).
  destruct (write_head_ok s2 l2 [] pid g2 dsz) as (d & s3 & l3 & He3 & Hi3 & Hld & Hdn & _ & Hd3 & _).
  { done. }
  { by rewrite Hd2, disk_writes_size. }
  { destruct Hfits; by split. }
  { simpl. fold n in Hsize. lia. }
  { intros x Hx. by apply elem_of_nil in Hx. }
  { simpl. unfold NBUF. lia. }
  { done. }
  { done. }
  exists bl, d, s3, l3. split_and!; [|done|done|by rewrite Hd3, Hd2, disk_writes_app].
  unfold recover_from_log. rewrite He1. cbn [obind]. unfold install_trans. simpl lh_n. rewrite He2. cbn [obind].
  simpl lh_block. fold g2. by rewrite He3.
Qed.

Lemma readsb_ok s l pid :
  bio_inv s l [] [] → 1 < disksize (dk s) →
  ∃ s' l', readsb s pid 1 = Ret (decode_sb (blocks (dk s) 1), s') ∧ bio_inv s' l' [] [] ∧ dk s' = dk s.
Proof.
  intros Hi Hsz.
  destruct (bread_ok s l [] [] pid 1 Hi) as (b & y & He1 & _ & _ & Hi1 & Hv1 & Hc1 & Hd1).
  { lia. }
  { intros h Hh. by apply elem_of_nil in Hh. }
  { right. simpl. unfold NBUF. lia. }
  rewrite (view_unpinned _ _ _ _ _ Hi) in Hd1; [|apply not_elem_of_nil|intros h Hh; by apply elem_of_nil in Hh].
  destruct (brelse_ok _ l [b] [] [] b Hi1 (reflexivity _)) as (s' & He2 & Hd2 & Hi2 & _).
  { right. assert (b_blockno (bufs (mkBio (upd (bufs s) b y) (dk s)) b) = 1) as -> by apply Hc1.
    simpl. by rewrite upd_eq. }
  exists s'. eexists. split_and!; [|exact Hi2|done].
  unfold readsb. rewrite He1. cbn [obind]. simpl bufs. rewrite upd_eq, Hd1, He2. done.
Qed.

(** The super block of [D] places the log where [g] has it. *)
Definition sb_places (g : log) (D : Z → list Z) : Prop :=
  s32 (sb_logstart (decode_sb (D 1))) = l_start g ∧ s32 (sb_nlog (decode_sb (D 1))) = l_size g.

(** Booting on disk [D]: the home blocks are those of the replayed disk. *)
Lemma boot_ok pid g g0 dsz D :
  log_fits g dsz → hdr_ok g dsz D → sb_places g D → 1 < dsz →
  (∀ bn, 0 ≤ bn < dsz → length (D bn) = Z.to_nat BSIZE) → length (lh_block g0) = Z.to_nat LOGSIZE →
  ∃ g' s' d, initlog pid g0 (mkBio (binit (λ _, zero_buf)) (mkDisk D dsz [])) ROOTDEV = Ret (g', s') ∧
    lh_n g' = 0 ∧ l_start g' = l_start g ∧ l_size g' = l_size g ∧ hdr_n d = 0 ∧
    dk s' = disk_writes (mkDisk D dsz []) (replay_writes (l_start g) D ++ [(l_start g, d)]).
Proof.
  intros Hfits Hok [Hs1 Hs2] Hsz Hlen Hg0.
  destruct (binit_inv (λ _, zero_buf) (mkDisk D dsz [])) as [l Hi]; [done|done|].
  set (s0 := mkBio (binit (λ _, zero_buf)) (mkDisk D dsz [])) in *.
  assert (Hd0 : blocks (dk s0) 1 = D 1) by reflexivity.
  destruct (readsb_ok s0 l pid Hi Hsz) as (s1 & l1 & He1 & Hi1 & Hd1).
  set (g1 := mkLog (l_start g) (l_size g) (outstanding g0) (committing g0) ROOTDEV (lh_n g0) (lh_block g0)).
  destruct (recover_ok s1 l1 pid g1 dsz) as (bl & d & s' & l' & He2 & Hi2 & Hd & Hdk).
  { done. }
  { by rewrite Hd1. }
  { destruct Hfits; by split. }
  { rewrite Hd1. destruct Hok as [H1 H2 H3]. by split. }
  { done. }
  rewrite Hd1 in Hdk. exists (set_lh g1 0 bl), s', d. split; [|by split_and!].
  clearbody s0. clear Hi. revert He2. clear -He1 Hs1 Hs2 Hd0. intros He2. unfold initlog. rewrite (proj2 (Z.leb_gt _ _)) by (unfold BSIZE, LOGSIZE, MAXOPBLOCKS; lia).
  change (u32 ROOTDEV) with 1. rewrite He1. cbn [obind]. rewrite Hd0, Hs1, Hs2. exact He2.
Qed.

(** ** Commit *)

(** The state at the end of a transaction: the blocks of the header are pinned
    in the cache, the log on disk is empty. *)
Record transaction (g : log) (s : bio) (l : list Z) : Prop := {
  tr_fits : log_fits g (disksize (dk s));
  tr_n : 0 < lh_n g ≤ LOGSIZE;
  tr_size : lh_n g < l_size g;
  tr_nbuf : lh_n g < NBUF;
  tr_block : length (lh_block g) = Z.to_nat LOGSIZE;
  tr_home j : 0 ≤ j < lh_n g → home_block g (disksize (dk s)) (entry (lh_block g) j);
  tr_cache : bio_inv s l [] (take (Z.to_nat (lh_n g)) (lh_block g));
  tr_clear : hdr_n (blocks (dk s) (l_start g)) = 0 }.

Definition new_writes (g : log) (V : Z → list Z) : list (Z * list Z) :=
  map (λ j, (entry (lh_block g) j, V (entry (lh_block g) j))) (seqZ 0 (lh_n g)).

Lemma apply_writes_const D W (F : Z → list Z) x :
  (∀ b v, (b, v) ∈ W → v = F b) → apply_writes D W x = if decide (x ∈ W.*1) then F x else D x.
Proof.
  revert D. induction W as [|[b v] W IH]; intros D HF; [done|]. simpl.
  rewrite IH by (intros b' v' Hin; apply HF; by right).
  destruct (decide (x ∈ W.*1)) as [Hx|Hx].
  - rewrite decide_True; [done|]. by right.
  - destruct (decide (x = b)) as [->|Hb].
    + rewrite upd_eq, decide_True by (by left). apply HF. by left.
    + rewrite upd_ne, decide_False; [done|set_solver|done].
Qed.

Lemma elem_of_take_entry (bl : list Z) n x :
  (Z.to_nat n ≤ length bl)%nat → x ∈ take (Z.to_nat n) bl ↔ ∃ j, 0 ≤ j < n ∧ x = entry bl j.
Proof.
  intros Hn. rewrite list_elem_of_lookup. unfold entry. split.
  - intros [i [Hi Hlt]%lookup_take_Some]. exists (Z.of_nat i). split; [lia|]. rewrite Nat2Z.id. by erewrite nth_lookup_Some.
  - intros (j & Hj & ->). exists (Z.to_nat j). apply lookup_take_Some. split; [|lia].
    destruct (lookup_lt_is_Some_2 bl (Z.to_nat j)) as [y Hy]; [lia|]. by erewrite nth_lookup_Some.
Qed.

Lemma commit_ok pid g s l :
  transaction g s l →
  ∃ d1 d0 s' l', commit pid g s = Ret (set_lh g 0 (lh_block g), s') ∧ bio_inv s' l' [] [] ∧
    length d1 = Z.to_nat BSIZE ∧ length d0 = Z.to_nat BSIZE ∧ hdr_n d1 = lh_n g ∧
    (∀ j, 0 ≤ j < lh_n g → hdr_block d1 j = entry (lh_block g) j) ∧ hdr_n d0 = 0 ∧
    dk s' = disk_writes (dk s) (log_writes g (view s) 0 (Z.to_nat (lh_n g)) ++ (l_start g, d1) ::
              new_writes g (view s) ++ [(l_start g, d0)]) ∧
    (∀ x, ¬ in_log g x → view s' x = view s x).
Proof.
  intros [Hfits Hn Hsize Hnb Hbl Hhome Hi Hclr]. set (pins := take (Z.to_nat (lh_n g)) (lh_block g)) in *.
  set (n := Z.to_nat (lh_n g)). set (dsz := disksize (dk s)) in *.
  assert (Hpins : ∀ x, x ∈ pins ↔ ∃ j, 0 ≤ j < lh_n g ∧ x = entry (lh_block g) j).
  { intros x. apply elem_of_take_entry. rewrite Hbl. lia. }
  assert (Hlen : (length pins < Z.to_nat NBUF)%nat) by (unfold pins; rewrite length_take; lia).
  assert (Hpl : ∀ x, x ∈ pins → ¬ in_log g x) by (intros x (j & Hj & ->)%Hpins; by apply Hhome).
  assert (Hent : entries_ok g dsz 0 n).
  { split_and!; [lia|rewrite Hbl; lia|lia|]. intros j Hj. apply Hhome. lia. }
  destruct (write_log_loop_ok pid g dsz Hfits n 0 s l pins) as (s1 & l1 & He1 & Hi1 & Hd1 & Hv1); [done..| |].
  { intros j Hj. apply Hpins. exists j. split; [lia|done]. }
  destruct (write_head_ok s1 l1 pins pid g dsz) as (d1 & s2 & l2 & He2 & Hi2 & Hl1 & Hn1 & Hb1 & Hd2 & Hv2);
    [done|by rewrite Hd1, disk_writes_size|done|lia|done|done|lia|done|].
  destruct (install_loop_ok pid g dsz Hfits n 0 s2 l2 pins) as (s3 & l3 & pins3 & He3 & Hi3 & Hd3 & Hv3 & Hp3 & Hlen3); [done| |done..| |].
  { by rewrite Hd2, Hd1, !disk_writes_size. }
  { left. apply Hpins. exists 0. split; [lia|done]. }
  assert (HWx : ∀ b v, (b, v) ∈ log_writes g (view s) 0 n → v = view s (entry (lh_block g) (b - l_start g - 1))).
  { intros b v Hin. apply list_elem_of_In, in_map_iff in Hin as (j & [= <- <-] & _).
    replace (l_start g + j + 1 - l_start g - 1) with j by lia. done. }
  assert (HW : install_writes g (view s2) 0 n = new_writes g (view s)).
  { unfold install_writes, new_writes, n. rewrite Z2Nat.id by lia. apply map_ext_in. intros j Hj.
    apply list_elem_of_In, elem_of_seqZ in Hj. rewrite Hv2. simpl. rewrite upd_ne by lia. rewrite Hv1.
    rewrite (apply_writes_const _ _ _ _ HWx), decide_True.
    - replace (l_start g + j + 1 - l_start g - 1) with j by lia. done.
    - apply list_elem_of_In. unfold log_writes. rewrite map_map. apply in_map_iff. exists j. split; [done|].
      apply list_elem_of_In, elem_of_seqZ. lia. }
  rewrite HW in Hd3, Hv3, Hp3.
  assert (pins3 = []) as ->.
  { destruct pins3 as [|x q]; [done|]. exfalso. destruct (Hp3 x) as [H _]. destruct H as [Hx Hno]; [by left|].
    apply Hno. apply Hpins in Hx as (j & Hj & ->). apply list_elem_of_In. unfold new_writes.
    rewrite map_map. apply in_map_iff. exists j. split; [done|]. apply list_elem_of_In, elem_of_seqZ. lia. }
  set (g' := set_lh g 0 (lh_block g)).
  destruct (write_head_ok s3 l3 [] pid g' dsz) as (d0 & s4 & l4 & He4 & Hi4 & Hl0 & Hn0 & _ & Hd4 & Hv4).
  { done. }
  { by rewrite Hd3, Hd2, Hd1, !disk_writes_size. }
  { destruct Hfits; by split. }
  { simpl. lia. }
  { intros x Hx. by apply elem_of_nil in Hx. }
  { simpl. unfold NBUF. lia. }
  { done. }
  { done. }
  exists d1, d0, s4, l4. split_and!; try done.
  - unfold commit. rewrite (proj2 (Z.gtb_lt _ _)) by lia. unfold write_log. fold n. rewrite He1. cbn [obind].
    rewrite He2. cbn [obind]. unfold install_trans. fold n. rewrite He3. cbn [obind]. fold g'. by rewrite He4.
  - intros j Hj. unfold hdr_block. rewrite Hb1 by done. apply s32_u32.
    destruct (Hhome j Hj) as [? _]. destruct Hfits as [_ _ _ ?]. lia.
  - rewrite Hd4, Hd3, Hd2, Hd1. cbn [l_start g' set_lh]. by rewrite <- !disk_writes_app, <- ?app_assoc.
  - intros x Hx. rewrite Hv4. simpl. rewrite upd_ne by (intros ->; apply Hx; unfold in_log; simpl; lia).
    rewrite Hv3, (apply_writes_const _ _ (view s)).
    + case_decide; [done|]. rewrite Hv2. simpl. rewrite upd_ne by (intros ->; apply Hx; unfold in_log; simpl; lia).
      rewrite Hv1. apply apply_writes_other. intros Hin. apply list_elem_of_In in Hin. unfold log_writes in Hin.
      rewrite map_map in Hin. apply in_map_iff in Hin as (j & Hj & Hin). apply list_elem_of_In, elem_of_seqZ in Hin.
      apply Hx. unfold in_log. simpl in Hj. lia.
    + intros b v Hin. apply list_elem_of_In, in_map_iff in Hin as (j & [= <- <-] & _). done.
Qed.

(** ** Crashes *)

Lemma replay_clear st D : hdr_n (D st) = 0 → replay st D = D.
Proof. intros Hn. unfold replay, replay_writes. by rewrite Hn. Qed.

Lemma in_log_writes g V i k x : x ∈ (log_writes g V i k).*1 → l_start g + i < x ≤ l_start g + i + Z.of_nat k.
Proof.
  intros Hin. apply list_elem_of_In in Hin. unfold log_writes in Hin. rewrite map_map in Hin.
  apply in_map_iff in Hin as (j & Hj & Hin). apply list_elem_of_In, elem_of_seqZ in Hin. simpl in Hj. lia.
Qed.

Lemma in_new_writes g V x : x ∈ (new_writes g V).*1 ↔ ∃ j, 0 ≤ j < lh_n g ∧ x = entry (lh_block g) j.
Proof.
  unfold new_writes. rewrite list_elem_of_In, map_map, in_map_iff. split.
  - intros (j & <- & Hj). apply list_elem_of_In, elem_of_seqZ in Hj. exists j. split; [lia|done].
  - intros (j & Hj & ->). exists j. split; [done|]. apply list_elem_of_In, elem_of_seqZ. lia.
Qed.

Lemma take_fst_sub {B} (W : list (Z * B)) m x : x ∈ (take m W).*1 → x ∈ W.*1.
Proof. intros Hx. apply list_elem_of_fmap in Hx as (w & -> & Hw). apply list_elem_of_fmap_2. by eapply elem_of_take in Hw as (? & ? & _); eapply list_elem_of_lookup_2. Qed.

Section crash.
  Context (g : log) (s : bio) (l : list Z) (d1 d0 : list Z) (Ht : transaction g s l).
  Context (Hn1 : hdr_n d1 = lh_n g) (Hb1 : ∀ j, 0 ≤ j < lh_n g → hdr_block d1 j = entry (lh_block g) j).
  Context (Hn0 : hdr_n d0 = 0).
Let st := l_start g.
Let D := blocks (dk s).
Let WL := log_writes g (view s) 0 (Z.to_nat (lh_n g)).
Let WN := new_writes g (view s).
Let W := WL ++ (st, d1) :: WN ++ [(st, d0)].

Lemma new_not_log x : x ∈ WN.*1 → ¬ in_log g x.
Proof. intros (j & Hj & ->)%in_new_writes. by apply (tr_home _ _ _ Ht). Qed.

Lemma WL_in_log x : x ∈ WL.*1 → in_log g x ∧ x ≠ st.
Proof.
  intros Hx%in_log_writes. pose proof (tr_n _ _ _ Ht). pose proof (tr_size _ _ _ Ht). unfold in_log, st. lia.
Qed.

(** Blocks outside the transaction are on disk. *)
Lemma view_unlogged x : x ∉ WN.*1 → view s x = D x.
Proof.
  intros Hx. apply (view_unpinned _ _ _ _ _ (tr_cache _ _ _ Ht)).
  - intros Hin. apply Hx, in_new_writes. apply (elem_of_take_entry _ (lh_n g)); [|done].
    rewrite (tr_block _ _ _ Ht). pose proof (tr_n _ _ _ Ht). lia.
  - intros h Hh. by apply elem_of_nil in Hh.
Qed.

Lemma apply_new D' x : apply_writes D' WN x = if decide (x ∈ WN.*1) then view s x else D' x.
Proof. apply apply_writes_const. intros b v Hin. apply list_elem_of_In, in_map_iff in Hin as (j & [= <- <-] & _). done. Qed.

(** Before the header is written nothing is lost. *)
Lemma crash_before j : (j ≤ length WL)%nat →
  let D' := apply_writes D (take j WL) in
  hdr_n (D' st) = 0 ∧ ∀ x, ¬ in_log g x → replay st D' x = D x.
Proof.
  intros Hj D'. assert (Hn : hdr_n (D' st) = 0).
  { unfold D'. rewrite apply_writes_other; [apply (tr_clear _ _ _ Ht)|]. intros Hin%take_fst_sub. by apply WL_in_log in Hin as [_ ?]. }
  split; [done|]. intros x Hx. rewrite replay_clear by done. unfold D'. apply apply_writes_other.
  intros Hin%take_fst_sub. by apply WL_in_log in Hin as [? _].
Qed.

(** The disk after the header and [m] of the home blocks. *)
Lemma crash_header m :
  let D' := apply_writes (upd (apply_writes D WL) st d1) (take m WN) in
  D' st = d1 ∧ replay_writes st D' = WN.
Proof.
  intros D'. assert (Hst : D' st = d1).
  { unfold D'. rewrite apply_writes_other; [by rewrite upd_eq|]. intros Hin%take_fst_sub. apply (new_not_log _ Hin).
    pose proof (tr_n _ _ _ Ht). pose proof (tr_size _ _ _ Ht). unfold in_log, st. lia. }
  split; [done|]. unfold replay_writes, WN, new_writes. rewrite Hst, Hn1. apply map_ext_in. intros j Hj.
  apply list_elem_of_In, elem_of_seqZ in Hj. pose proof (tr_size _ _ _ Ht) as Hsz.
  rewrite Hb1 by lia. f_equal. unfold D'. rewrite apply_writes_other.
  - rewrite upd_ne by lia. rewrite (apply_writes_const _ _ (λ b, view s (entry (lh_block g) (b - st - 1)))).
    + rewrite decide_True; [f_equal; f_equal; lia|]. apply list_elem_of_In. unfold WL, log_writes. rewrite map_map.
      apply in_map_iff. exists j. split; [done|]. apply list_elem_of_In, elem_of_seqZ. lia.
    + intros b v Hin. apply list_elem_of_In, in_map_iff in Hin as (i & [= <- <-] & _). f_equal. f_equal. unfold st. lia.
  - intros Hin%take_fst_sub. apply (new_not_log _ Hin). unfold in_log, st. lia.
Qed.

Lemma crash_after m :
  let D' := apply_writes (upd (apply_writes D WL) st d1) (take m WN) in
  ∀ x, ¬ in_log g x → replay st D' x = view s x.
Proof.
  intros D' x Hx. unfold replay. destruct (crash_header m) as [_ HW]. fold D' in HW. rewrite HW, apply_new.
  case_decide as Hd; [done|]. unfold D'. rewrite apply_writes_other by (by intros Hin%take_fst_sub).
  assert (x ≠ st).
  { intros ->. apply Hx. pose proof (tr_n _ _ _ Ht). pose proof (tr_size _ _ _ Ht). unfold in_log, st. lia. }
  rewrite upd_ne by done. rewrite apply_writes_other by (by intros [? _]%WL_in_log). by rewrite view_unlogged.
Qed.

Lemma crash_end : let D' := apply_writes D W in
  hdr_n (D' st) = 0 ∧ ∀ x, ¬ in_log g x → D' x = view s x.
Proof.
  intros D'. assert (HD : D' = upd (apply_writes (upd (apply_writes D WL) st d1) WN) st d0).
  { unfold D', W. rewrite apply_writes_app. cbn [apply_writes fold_left]. fold (apply_writes (upd (apply_writes D WL) st d1)).
    change (fold_left _ (WN ++ [(st, d0)]) _) with (apply_writes (upd (apply_writes D WL) st d1) (WN ++ [(st, d0)])).
    by rewrite apply_writes_app. }
  rewrite HD, upd_eq. split; [done|]. intros x Hx.
  assert (x ≠ st).
  { intros ->. apply Hx. pose proof (tr_n _ _ _ Ht). pose proof (tr_size _ _ _ Ht). unfold in_log, st. lia. }
  rewrite upd_ne by done. rewrite apply_new. case_decide as Hd; [done|]. rewrite upd_ne by done.
  rewrite apply_writes_other by (by intros [? _]%WL_in_log). by rewrite view_unlogged.
Qed.

(** Every prefix of the writes is one of these. *)
Lemma crash_prefix j : (j ≤ length W)%nat →
  (∃ i, (i ≤ length WL)%nat ∧ take j W = take i WL) ∨
  (∃ m, take j W = WL ++ (st, d1) :: take m WN) ∨ take j W = W.
Proof.
  intros Hj. unfold W in *. rewrite length_app in Hj. simpl in Hj. rewrite length_app in Hj. simpl in Hj.
  destruct (decide (j ≤ length WL)%nat) as [Hle|Hgt]; [left; exists j; by rewrite take_app_le|right].
  rewrite take_app_ge by lia. destruct (j - length WL)%nat as [|k] eqn:Hk; [lia|]. cbn [take].
  destruct (decide (k ≤ length WN)%nat) as [Hle2|Hgt2]; [left; exists k; by rewrite take_app_le|right].
  do 2 f_equal. rewrite take_ge; [done|]. rewrite length_app. simpl. lia.
Qed.

End crash.

Lemma apply_writes_length D W (dsz : Z) :
  (∀ b v, (b, v) ∈ W → length v = Z.to_nat BSIZE) →
  (∀ bn, 0 ≤ bn < dsz → length (D bn) = Z.to_nat BSIZE) →
  ∀ bn, 0 ≤ bn < dsz → length (apply_writes D W bn) = Z.to_nat BSIZE.
Proof.
  revert D. induction W as [|[b v] W IH]; intros D HW HD bn Hbn; [by apply HD|]. simpl. apply IH; [|intros x Hx|done].
  - intros b' v' Hin. apply (HW b'). by right.
  - unfold upd. case_decide; [|by apply HD]. apply (HW b). by left.
Qed.

(** What a crash leaves: a header one can recover from, and the old contents of
    the home blocks or the new. *)
Lemma crash_disk_ok g s l d1 d0 j :
  transaction g s l → hdr_n d1 = lh_n g → (∀ j, 0 ≤ j < lh_n g → hdr_block d1 j = entry (lh_block g) j) → hdr_n d0 = 0 →
  let W := log_writes g (view s) 0 (Z.to_nat (lh_n g)) ++ (l_start g, d1) :: new_writes g (view s) ++ [(l_start g, d0)] in
  (j ≤ length W)%nat → let D' := apply_writes (blocks (dk s)) (take j W) in
  hdr_ok g (disksize (dk s)) D' ∧
  ((∀ x, ¬ in_log g x → replay (l_start g) D' x = blocks (dk s) x) ∨
   (∀ x, ¬ in_log g x → replay (l_start g) D' x = view s x)).
Proof.
  intros Ht Hn1 Hb1 Hn0 W Hj D'. pose proof (tr_n _ _ _ Ht) as Hn. pose proof (tr_size _ _ _ Ht) as Hsz.
  destruct (crash_prefix g s d1 d0 j Hj) as [(i & Hi & He)|[(m & He)|He]]; unfold D', W; rewrite He; clear D' He.
  - destruct (crash_before g s l Ht i Hi) as [Hc Hx]. split; [|by left].
    split; rewrite Hc; unfold LOGSIZE, MAXOPBLOCKS; intros; lia.
  - rewrite apply_writes_app. cbn [apply_writes fold_left fst snd].
    destruct (crash_header g s l d1 Ht Hn1 Hb1 m) as [Hst _]. split; [|right; by apply (crash_after g s l d1)].
    split; unfold apply_writes in *; rewrite Hst, Hn1; [lia|lia|]. intros k Hk. rewrite Hb1 by done. by apply (tr_home _ _ _ Ht).
  - destruct (crash_end g s l d1 d0 Ht Hn0) as [Hc Hx].
    split; [split; rewrite Hc; unfold LOGSIZE, MAXOPBLOCKS; intros; lia|]. right. intros x Hin. rewrite replay_clear by done. by apply Hx.
Qed.

Lemma crash_lengths g s l d1 d0 :
  transaction g s l → length d1 = Z.to_nat BSIZE → length d0 = Z.to_nat BSIZE →
  ∀ b v, (b, v) ∈ log_writes g (view s) 0 (Z.to_nat (lh_n g)) ++ (l_start g, d1) :: new_writes g (view s) ++ [(l_start g, d0)] →
  length v = Z.to_nat BSIZE.
Proof.
  intros Ht H1 H0 b v Hin. pose proof (tr_n _ _ _ Ht) as Hn.
  assert (Hv : ∀ j, 0 ≤ j < lh_n g → length (view s (entry (lh_block g) j)) = Z.to_nat BSIZE).
  { intros j Hj. apply (view_length _ _ _ _ _ (tr_cache _ _ _ Ht)). by apply (tr_home _ _ _ Ht). }
  rewrite elem_of_app, elem_of_cons, elem_of_app, list_elem_of_singleton in Hin.
  destruct Hin as [Hin|[[= -> ->]|[Hin|[= -> ->]]]]; [|done| |done].
  - apply list_elem_of_In, in_map_iff in Hin as (j & [= <- <-] & Hj). apply list_elem_of_In, elem_of_seqZ in Hj. apply Hv. lia.
  - apply list_elem_of_In, in_map_iff in Hin as (j & [= <- <-] & Hj). apply list_elem_of_In, elem_of_seqZ in Hj. apply Hv. lia.
Qed.

(** C1: Commit is atomic under crashes.  A transaction commits, leaves its blocks
    on disk and the log empty; and if the power fails after any number of the
    disk writes of [commit], the next boot ends [initlog] with every home block
    as before the transaction, or every one as after it, never a mixture. *)
Theorem commit_crash_atomic pid g g0 s l :
  transaction g s l → sb_places g (blocks (dk s)) → home_block g (disksize (dk s)) 1 →
  (∀ j, 0 ≤ j < lh_n g → entry (lh_block g) j ≠ 1) → length (lh_block g0) = Z.to_nat LOGSIZE →
  ∃ s' W, commit pid g s = Ret (set_lh g 0 (lh_block g), s') ∧ dk s' = disk_writes (dk s) W ∧
    (∀ x, ¬ in_log g x → blocks (dk s') x = view s x ∧ view s' x = view s x) ∧
    ∀ j, (j ≤ length W)%nat →
      ∃ g2 s2, initlog pid g0 (mkBio (binit (λ _, zero_buf))
                 (mkDisk (apply_writes (blocks (dk s)) (take j W)) (disksize (dk s)) [])) ROOTDEV = Ret (g2, s2) ∧
        ((∀ x, ¬ in_log g x → blocks (dk s2) x = blocks (dk s) x) ∨
         (∀ x, ¬ in_log g x → blocks (dk s2) x = view s x)).
Proof.
  intros Ht Hsb [H1 H1l] Hb1 Hg0. destruct (commit_ok pid g s l Ht) as (d1 & d0 & s' & l' & He & Hi' & Hl1 & Hl0 & Hn1 & Hbk & Hn0 & Hd & Hv).
  set (W := log_writes g (view s) 0 (Z.to_nat (lh_n g)) ++ (l_start g, d1) :: new_writes g (view s) ++ [(l_start g, d0)]) in *.
  pose proof (tr_size _ _ _ Ht) as Hsz. pose proof (tr_n _ _ _ Ht) as Hn. pose proof (tr_fits _ _ _ Ht) as Hfits.
  exists s', W. split_and!; [done|done| |].
  { intros x Hx. split; [|by apply Hv]. rewrite Hd, disk_writes_blocks.
    by apply (proj2 (crash_end g s l d1 d0 Ht Hn0)). }
  intros j Hj. destruct (crash_disk_ok g s l d1 d0 j Ht Hn1 Hbk Hn0 Hj) as [Hok Hor]. fold W in Hok, Hor.
  set (D' := apply_writes (blocks (dk s)) (take j W)) in *.
  assert (HW : ∀ x, x ∈ W.*1 → x ≠ 1).
  { intros x Hx ->. unfold W in Hx. rewrite fmap_app, fmap_cons, fmap_app in Hx.
    change ([(l_start g, d0)].*1) with [l_start g] in Hx.
    rewrite elem_of_app, elem_of_cons, elem_of_app, list_elem_of_singleton in Hx.
    assert (l_start g ≠ 1) by (intros Hs; apply H1l; unfold in_log; lia).
    destruct Hx as [Hx|[Hx|[Hx|Hx]]]; [|simpl in *; congruence| |simpl in *; congruence].
    - apply (WL_in_log g s l Ht) in Hx as [? _]. done.
    - apply in_new_writes in Hx as (i & Hi & Hx). by apply (Hb1 i). }
  destruct (boot_ok pid g g0 (disksize (dk s)) D' Hfits Hok) as (g2 & s2 & d & He2 & _ & _ & _ & _ & Hd2); [|lia| |done|].
  { unfold sb_places, D'. rewrite apply_writes_other; [done|]. intros Hin%take_fst_sub. by apply (HW 1). }
  { apply apply_writes_length; [|apply (bi_disk _ _ _ _ (tr_cache _ _ _ Ht))].
    intros b v Hin. eapply elem_of_take in Hin as (i & Hin%list_elem_of_lookup_2 & _). apply (crash_lengths g s l d1 d0 Ht Hl1 Hl0 b v Hin). }
  exists g2, s2. split; [done|]. rewrite Hd2, disk_writes_blocks. rewrite apply_writes_app. cbn [blocks].
  assert (Hupd : ∀ x, ¬ in_log g x → apply_writes (apply_writes D' (replay_writes (l_start g) D')) [(l_start g, d)] x = replay (l_start g) D' x).
  { intros x Hx. simpl. apply upd_ne. intros ->. apply Hx. unfold in_log. lia. }
  destruct Hor as [Hor|Hor]; [left|right]; intros x Hx; rewrite Hupd by done; by apply Hor.
Qed.

(** ** [log_write] *)

Lemma absorb_index_ok k i bl x :
  0 ≤ i → i + Z.of_nat k ≤ Z.of_nat (length bl) →
  (∀ j, i ≤ j < i + Z.of_nat k → u32 (entry bl j) = entry bl j) →
  ∃ r, absorb_index k i bl x = Ret r ∧ i ≤ r ≤ i + Z.of_nat k ∧
    (∀ j, i ≤ j < r → entry bl j ≠ x) ∧ (r < i + Z.of_nat k → entry bl r = x).
Proof.
  revert i. induction k as [|k IH]; intros i Hi Hl Hu; [exists i; split_and!; [done|lia|lia|intros; lia|lia]|].
  cbn [absorb_index]. rewrite aget_entry by lia. cbn [obind]. rewrite Hu by lia.
  destruct (Z.eqb_spec (entry bl i) x) as [He|He].
  - exists i. split_and!; [done|lia|lia|intros; lia|done].
  - destruct (IH (i + 1)) as (r & Hr & Hrange & Hne & Heq); [lia|lia|intros; apply Hu; lia|].
    exists r. split_and!; [done|lia|lia| |intros; apply Heq; lia]. intros j Hj.
    destruct (decide (j = i)) as [->|]; [done|]. apply Hne. lia.
Qed.

Lemma take_insert_entries (bl : list Z) n i x :
  0 ≤ i → i ≤ n < Z.of_nat (length bl) → (i < n → entry bl i = x) →
  ∀ y, y ∈ take (Z.to_nat (if Z.eqb i n then n + 1 else n)) (<[Z.to_nat i := x]> bl) ↔ y = x ∨ y ∈ take (Z.to_nat n) bl.
Proof.
  intros Hi Hn Hx y.
  assert (Hent : ∀ j, 0 ≤ j → j ≠ i → entry (<[Z.to_nat i:=x]> bl) j = entry bl j).
  { intros j Hj Hne. unfold entry. rewrite !nth_lookup, list_lookup_insert_ne by lia. done. }
  assert (Hei : entry (<[Z.to_nat i:=x]> bl) i = x).
  { unfold entry. erewrite nth_lookup_Some; [done|]. apply list_lookup_insert_eq. lia. }
  rewrite !elem_of_take_entry by (rewrite ?length_insert; destruct (Z.eqb_spec i n); lia).
  destruct (Z.eqb_spec i n) as [->|Hne]; split.
  - intros (j & Hj & ->). destruct (decide (j = n)) as [->|]; [by left|right]. exists j. split; [lia|]. apply Hent; lia.
  - intros [->|(j & Hj & ->)]; [exists n; split; [lia|done]|]. exists j. split; [lia|]. symmetry. apply Hent; lia.
  - intros (j & Hj & ->). destruct (decide (j = i)) as [->|]; [by left|right]. exists j. split; [lia|]. apply Hent; lia.
  - intros [->|(j & Hj & ->)]; [exists i; split; [lia|done]|]. exists j. split; [lia|].
    destruct (decide (j = i)) as [->|]; [rewrite Hei; apply Hx; lia|]. symmetry. apply Hent; lia.
Qed.

Lemma log_write_checks_ok g :
  lh_n g < LOGSIZE → lh_n g < l_size g - 1 → 1 ≤ outstanding g → log_write_checks g = Ret tt.
Proof.
  intros Hn Hs Ho. unfold log_write_checks.
  by rewrite (proj2 (Z.leb_gt _ _)), (proj2 (Z.leb_gt _ _)), (proj2 (Z.ltb_ge _ _)) by lia.
Qed.

Lemma log_write_ok g s l held b x :
  bio_inv s l held (take (Z.to_nat (lh_n g)) (lh_block g)) → b ∈ held → caches s b x →
  disksize (dk s) < 2 ^ 31 → (∀ j, 0 ≤ j < lh_n g → 0 ≤ entry (lh_block g) j < disksize (dk s)) →
  length (lh_block g) = Z.to_nat LOGSIZE → 0 ≤ lh_n g < LOGSIZE → lh_n g < l_size g - 1 → 1 ≤ outstanding g →
  ∃ n' bl' s', log_write g s b = Ret (set_lh g n' bl', s') ∧ lh_n g ≤ n' ≤ lh_n g + 1 ∧ length bl' = length (lh_block g) ∧
    bio_inv s' l held (take (Z.to_nat n') bl') ∧
    (∀ y, y ∈ take (Z.to_nat n') bl' ↔ y = x ∨ y ∈ take (Z.to_nat (lh_n g)) (lh_block g)) ∧
    dk s' = dk s ∧ (∀ k, view s' k = view s k) ∧ (∀ b' k, caches s' b' k ↔ caches s b' k) ∧
    (∀ b', b_data (bufs s' b') = b_data (bufs s b')).
Proof.
  intros Hi Hb Hc Hdsz Hent Hbl Hn Hsz Hout. pose proof Hc as (Hr & Hdev & Hx).
  assert (Hbl' : b ∈ l) by by apply (bi_held _ _ _ _ Hi).
  destruct (bi_valid _ _ _ _ Hi b Hbl' Hdev) as (Hf0 & Hxr & Hld). rewrite Hx in Hxr.
  assert (Hlen : Z.of_nat (length (lh_block g)) = LOGSIZE) by (rewrite Hbl; unfold LOGSIZE, MAXOPBLOCKS; lia).
  destruct (absorb_index_ok (Z.to_nat (lh_n g)) 0 (lh_block g) x) as (i & He & Hir & Hne & Heq); [lia|lia| |].
  { intros j Hj. apply u32_small. unfold is_u32. specialize (Hent j). lia. }
  assert (Hs32 : s32 x = x).
  { rewrite <- (u32_small x) at 1 by (unfold is_u32; lia). apply s32_u32. lia. }
  pose proof (take_insert_entries (lh_block g) (lh_n g) i x) as Htk.
  set (n' := if Z.eqb i (lh_n g) then lh_n g + 1 else lh_n g) in *.
  set (bl' := <[Z.to_nat i := x]> (lh_block g)) in *.
  assert (Hpins : ∀ y, y ∈ take (Z.to_nat n') bl' ↔ y = x ∨ y ∈ take (Z.to_nat (lh_n g)) (lh_block g)).
  { apply Htk; [lia|lia|]. intros Hlt. apply Heq. lia. }
  assert (Hfl : Z.lor (b_flags (bufs s b)) B_DIRTY = Z.lor B_VALID B_DIRTY).
  { pose proof (bi_flags _ _ _ _ Hi b Hbl') as Hf. rewrite !elem_of_cons, elem_of_nil in Hf. by destruct Hf as [?|[->|[->|?]]]. }
  destruct (edit_buf s l held (take (Z.to_nat (lh_n g)) (lh_block g)) (take (Z.to_nat n') bl') b
    (with_flags (Z.lor (b_flags (bufs s b)) B_DIRTY) (bufs s b)) (dk s) x) as (Hi' & Hv' & Hc'); try done.
  { right. simpl. split; [done|]. apply Hpins. by left. }
  { apply (bi_disk _ _ _ _ Hi). lia. }
  { intros k Hk. rewrite Hpins. naive_solver. }
  exists n', bl', (set_buf s b (with_flags (Z.lor (b_flags (bufs s b)) B_DIRTY) (bufs s b))). split_and!; try done.
  - unfold log_write. rewrite log_write_checks_ok by lia. cbn [obind]. unfold log_write_locked.
    rewrite Hx, He. cbn [obind]. rewrite Hs32, aset_Ret by lia. done.
  - unfold n'. destruct (Z.eqb i (lh_n g)); lia.
  - unfold n'. destruct (Z.eqb i (lh_n g)); lia.
  - unfold bl'. by rewrite length_insert.
  - intros k. rewrite Hv'. unfold upd. case_decide; [subst k|done]. simpl. symmetry. by apply (view_cached s b x (bi_uniq _ _ _ _ Hi)).
  - intros b'. simpl. unfold upd. case_decide; by subst.
Qed.

(** ** Reservation of log space *)

(** A running operation: the [log_write]s it has made, and whether it is in one,
    past the tests and waiting for [log.lock]. *)
Record op := mkOp { op_writes : Z; op_waits : bool }.

(** The log with its running operations, each between two steps of its code.
    The cache is whatever the operations made of it. *)
Inductive rstep : log * list op → log * list op → Prop :=
| rs_begin g g' ops : begin_op g = Ret g' → rstep (g, ops) (g', ops ++ [mkOp 0 false])
| rs_check g ops i u : ops !! i = Some (mkOp u false) → u < MAXOPBLOCKS → log_write_checks g = Ret tt →
    rstep (g, ops) (g, <[i := mkOp u true]> ops)
| rs_write g g' s s' b ops i u : ops !! i = Some (mkOp u true) → log_write_locked g s b = Ret (g', s') →
    rstep (g, ops) (g', <[i := mkOp (u + 1) false]> ops)
| rs_end pid g g' s s' ops i u : ops !! i = Some (mkOp u false) → end_op pid g s = Ret (g', s') →
    rstep (g, ops) (g', delete i ops).

Inductive rreach (start size : Z) : log * list op → Prop :=
| rr_init dev bl : length bl = Z.to_nat LOGSIZE → rreach start size (mkLog start size 0 false dev 0 bl, [])
| rr_step st st' : rreach start size st → rstep st st' → rreach start size st'.

(** What the running operations may still write. *)
Definition quota (ops : list op) : Z := foldr (λ u q, MAXOPBLOCKS - op_writes u + q) 0 ops.

Lemma quota_app u1 u2 : quota (u1 ++ u2) = quota u1 + quota u2.
Proof. induction u1 as [|u u1 IH]; simpl; lia. Qed.

Lemma quota_split (ops : list op) i u :
  ops !! i = Some u → quota ops = MAXOPBLOCKS - op_writes u + quota (delete i ops).
Proof.
  revert i. induction ops as [|v ops IH]; intros [|i] Hi; simplify_eq/=; [done|]. rewrite (IH i Hi). lia.
Qed.

Lemma quota_insert (ops : list op) i u v :
  ops !! i = Some u → quota (<[i := v]> ops) = quota ops + op_writes u - op_writes v.
Proof.
  revert i. induction ops as [|w ops IH]; intros [|i] Hi; simplify_eq/=; [lia|]. rewrite (IH i Hi). lia.
Qed.

(** An operation within its share; one that is in a [log_write] has a block left. *)
Definition op_ok (u : op) : Prop :=
  0 ≤ op_writes u ≤ MAXOPBLOCKS ∧ (op_waits u = true → op_writes u < MAXOPBLOCKS).

Record res_inv (size : Z) (g : log) (ops : list op) : Prop := {
  ri_size : l_size g = size;
  ri_n : 0 ≤ lh_n g;
  ri_block : length (lh_block g) = Z.to_nat LOGSIZE;
  ri_out : outstanding g = Z.of_nat (length ops);
  ri_committing : committing g = false;
  ri_used : Forall op_ok ops;
  ri_room : lh_n g + quota ops ≤ LOGSIZE }.

Lemma quota_bound ops : Forall op_ok ops → 0 ≤ quota ops ≤ Z.of_nat (length ops) * MAXOPBLOCKS.
Proof. induction 1 as [|u ops [Hu _]]; simpl; lia. Qed.

Lemma log_write_shape g s b g' s' :
  log_write_locked g s b = Ret (g', s') →
  l_size g' = l_size g ∧ outstanding g' = outstanding g ∧ committing g' = committing g ∧
  length (lh_block g') = length (lh_block g) ∧ lh_n g ≤ lh_n g' ≤ lh_n g + 1.
Proof.
  unfold log_write_locked. intros H. outcome_inv. simpl.
  split_and!; try done; try (destruct (Z.eqb _ _); lia).
  match goal with H : aset _ _ _ _ = _ |- _ => unfold aset in H; case_decide; [injection H as <-|done] end.
  by rewrite length_insert.
Qed.

Lemma commit_shape pid g s g' s' :
  commit pid g s = Ret (g', s') → 0 ≤ lh_n g →
  l_size g' = l_size g ∧ outstanding g' = outstanding g ∧ lh_block g' = lh_block g ∧ lh_n g' = 0.
Proof.
  unfold commit. destruct (Z.gtb_spec (lh_n g) 0); intros H1 Hn; outcome_inv; split_and!; try done. lia.
Qed.

Lemma rreach_inv start size g ops : rreach start size (g, ops) → res_inv size g ops.
Proof.
  intros H. remember (g, ops) as st eqn:Hst. revert g ops Hst.
  induction H as [dev bl Hbl|st st' _ IH Hs]; intros g ops Hst.
  { injection Hst as <- <-. split; simpl; done. }
  subst st'. inversion Hs as [g0 g' u0 Hb|g0 u0 i u Hi Hu Hw|g0 g' s s' b u0 i u Hi Hw|pid g0 g' s s' u0 i u Hi He]; subst.
  - destruct (IH g0 u0 eq_refl) as [H1 H2 H3 H4 H5 H6 H7]. unfold begin_op in Hb. rewrite H5 in Hb.
    destruct (Z.ltb_spec LOGSIZE (lh_n g0 + (outstanding g0 + 1) * MAXOPBLOCKS)) as [|Hle]; [done|]. injection Hb as <-.
    pose proof (quota_bound _ H6) as Hq. split; simpl; try done.
    + rewrite length_app. simpl. lia.
    + apply Forall_app. split; [done|]. repeat constructor; simpl; unfold MAXOPBLOCKS; done || lia.
    + rewrite quota_app. simpl. rewrite H4 in Hle. lia.
  - destruct (IH g u0 eq_refl) as [H1 H2 H3 H4 H5 H6 H7].
    pose proof (Forall_lookup_1 _ _ _ _ H6 Hi) as [Hub _]. simpl in Hub. split; try done.
    + by rewrite length_insert.
    + by apply Forall_insert.
    + rewrite (quota_insert _ _ _ _ Hi). simpl. lia.
  - destruct (IH g0 u0 eq_refl) as [H1 H2 H3 H4 H5 H6 H7].
    destruct (log_write_shape _ _ _ _ _ Hw) as (W1 & W2 & W3 & W4 & W5).
    pose proof (Forall_lookup_1 _ _ _ _ H6 Hi) as [Hub Huw]. simpl in Hub, Huw. specialize (Huw eq_refl).
    split; try congruence; try lia.
    + rewrite length_insert. lia.
    + apply Forall_insert; [done|]. split; simpl; [lia|done].
    + rewrite (quota_insert _ _ _ _ Hi). simpl. lia.
  - destruct (IH g0 u0 eq_refl) as [H1 H2 H3 H4 H5 H6 H7].
    pose proof (Forall_lookup_1 _ _ _ _ H6 Hi) as [Hub _]. simpl in Hub.
    pose proof (quota_split _ _ _ Hi) as Hq. simpl in Hq. pose proof (Forall_delete _ u0 i H6) as H6'.
    pose proof (quota_bound _ H6') as Hqb. pose proof (length_delete _ _ (ex_intro _ _ Hi)) as Hld.
    apply lookup_lt_Some in Hi as Hil. unfold end_op in He. simpl in He. rewrite H5 in He.
    destruct (Z.eqb_spec (outstanding g0 - 1) 0) as [Hz|Hz].
    + outcome_inv. destruct x as [g2 s2]. outcome_inv.
      match goal with H : commit _ _ _ = _ |- _ => apply commit_shape in H as (C1 & C2 & C3 & C4); [|done] end.
      simpl in C1, C2, C3. split; simpl; try congruence; try lia.
    + outcome_inv. split; simpl; try done; lia.
Qed.

Lemma log_write_room g s b :
  0 ≤ lh_n g < LOGSIZE → length (lh_block g) = Z.to_nat LOGSIZE →
  ∃ g' s', log_write_locked g s b = Ret (g', s').
Proof.
  intros Hn Hb. unfold log_write_locked.
  assert (Hl : Z.of_nat (length (lh_block g)) = LOGSIZE) by (rewrite Hb; unfold LOGSIZE, MAXOPBLOCKS; lia).
  assert (Habs : ∀ k i x, 0 ≤ i → i + Z.of_nat k ≤ lh_n g →
    ∃ r, absorb_index k i (lh_block g) x = Ret r ∧ i ≤ r ≤ i + Z.of_nat k).
  { induction k as [|k IH]; intros i x Hi Hk; [exists i; split; [done|lia]|]. cbn [absorb_index].
    rewrite aget_entry by lia. cbn [obind]. destruct (Z.eqb _ _); [exists i; split; [done|lia]|].
    destruct (IH (i + 1) x) as (r & -> & Hr); [lia|lia|]. exists r. split; [done|lia]. }
  destruct (Habs (Z.to_nat (lh_n g)) 0 (b_blockno (bufs s b))) as (r & -> & Hr); [lia|lia|]. cbn [obind].
  rewrite aset_Ret by lia. eauto.
Qed.

(** C39: [begin_op] reserves enough of the log header: however operations begin,
    test, write and end, the tests of [log_write] being made without the lock,
    one that has made fewer than [MAXOPBLOCKS] writes finds fewer than [LOGSIZE]
    logged blocks.  So the locked part of its [log_write] stays inside the
    header, also when others wrote since its tests; and the whole call succeeds
    when the log has more than [LOGSIZE] blocks on disk. *)
Theorem log_reservation start size g ops i u :
  rreach start size (g, ops) → ops !! i = Some u → op_writes u < MAXOPBLOCKS ∨ op_waits u = true →
  lh_n g < LOGSIZE ∧ (∀ s b, ∃ g' s', log_write_locked g s b = Ret (g', s')) ∧
  (LOGSIZE < size → ∀ s b, ∃ g' s', log_write g s b = Ret (g', s')).
Proof.
  intros Hr Hi Hu. destruct (rreach_inv _ _ _ _ Hr) as [H1 H2 H3 H4 H5 H6 H7].
  pose proof (quota_split _ _ _ Hi) as Hq. pose proof (quota_bound _ (Forall_delete _ ops i H6)) as Hb.
  pose proof (Forall_lookup_1 _ _ _ _ H6 Hi) as [Hub Huw].
  assert (Hn : lh_n g < LOGSIZE) by (destruct Hu as [Hu|Hu]; [|specialize (Huw Hu)]; lia).
  apply lookup_lt_Some in Hi.
  assert (Hroom : ∀ s b, ∃ g' s', log_write_locked g s b = Ret (g', s')) by (intros s b; by apply log_write_room).
  split_and!; [done|done|]. intros Hs s b. unfold log_write. rewrite log_write_checks_ok by lia. apply Hroom.
Qed.

(** Two operations, the second past its tests. *)
Lemma log_reservation_witness :
  ∃ g', log_write_locked (mkLog 2 31 2 false 1 0 (replicate 30 0)) (mkBio (λ _, zero_buf) numbered_disk) 5 = Ret g'.
Proof.
  destruct (log_reservation 2 31 (mkLog 2 31 2 false 1 0 (replicate 30 0)) [mkOp 0 false; mkOp 0 true] 1 (mkOp 0 true)) as (_ & H & _).
  - eapply rr_step; [eapply rr_step; [eapply rr_step; [apply (rr_init 2 31 1 (replicate 30 0)); reflexivity|]|]|].
    + apply (rs_begin _ (mkLog 2 31 1 false 1 0 (replicate 30 0)) []). reflexivity.
    + apply (rs_begin _ (mkLog 2 31 2 false 1 0 (replicate 30 0)) [mkOp 0 false]). reflexivity.
    + apply (rs_check (mkLog 2 31 2 false 1 0 (replicate 30 0)) [mkOp 0 false; mkOp 0 false] 1); reflexivity.
  - reflexivity.
  - by right.
  - destruct (H (mkBio (λ _, zero_buf) numbered_disk) 5) as (g' & s' & He). by exists (g', s').
Defined.

(** Writes of distinct blocks by operation [i]: buffer [b] holds block [b]. *)
Definition plain_cache : bio := mkBio (λ b, with_block 1 b zero_buf) numbered_disk.
Fixpoint fill (acts : list (nat * Z)) (st : log * list op) : option (log * list op) :=
  match acts with
  | [] => Some st
  | (i, b) :: acts' =>
      match st.2 !! i, log_write_checks st.1, log_write_locked st.1 plain_cache b with
      | Some (mkOp u false), Ret tt, Ret (g', _) =>
          if decide (u < MAXOPBLOCKS) then fill acts' (g', <[i := mkOp (u + 1) false]> st.2) else None
      | _, _, _ => None
      end
  end.

Lemma fill_reach start size acts st st' : rreach start size st → fill acts st = Some st' → rreach start size st'.
Proof.
  revert st. induction acts as [|[i b] acts IH]; intros [g ops] Hr; simpl; [by intros [= <-]|].
  destruct (ops !! i) as [[u []]|] eqn:Hu; [done| |done].
  destruct (log_write_checks g) as [[]| | | |] eqn:Hk; try done.
  destruct (log_write_locked g plain_cache b) as [[g' s']| | | |] eqn:Hw; try done.
  case_decide; [|done]. apply IH. eapply rr_step; [eapply rr_step; [done|by eapply (rs_check _ _ i u)]|].
  replace (<[i:=mkOp (u + 1) false]> ops) with (<[i:=mkOp (u + 1) false]> (<[i:=mkOp u true]> ops)) by apply list_insert_insert_eq.
  eapply rs_write; [|done]. apply list_lookup_insert_eq. by eapply lookup_lt_Some.
Qed.

(** The log that mkfs makes is one block short of what [begin_op] promises:
    it has [LOGSIZE] blocks, the header included, so three operations that
    [begin_op] admitted can log 29 blocks, after which one that is within its
    share of [MAXOPBLOCKS] panics in [log_write]. *)
Theorem admitted_op_can_panic :
  ∃ g ops u, rreach 2 LOGSIZE (g, ops) ∧ ops !! 2%nat = Some (mkOp u false) ∧ u < MAXOPBLOCKS ∧
    log_write g plain_cache 100 = Panic "too big a transaction".
Proof.
  set (g0 := mkLog 2 LOGSIZE 3 false 1 0 (replicate 30 0)). set (o := λ u, mkOp u false).
  set (acts := map (λ k, (Z.to_nat ((k - 40) / 10), k)) (seqZ 40 29)).
  assert (∃ g ops, fill acts (g0, [o 0; o 0; o 0]) = Some (g, ops) ∧ ops = [o 10; o 10; o 9] ∧
    log_write g plain_cache 100 = Panic "too big a transaction") as (g & ops & Hf & -> & Hp).
  { eexists _, _. split_and!; [vm_compute; reflexivity|reflexivity|reflexivity]. }
  exists g, [o 10; o 10; o 9], 9. split_and!; [|done|done|done]. eapply fill_reach; [|exact Hf].
  set (lg := λ k, mkLog 2 LOGSIZE k false 1 0 (replicate 30 0)).
  assert (H0 : rreach 2 LOGSIZE (lg 0, [])) by (apply rr_init; reflexivity).
  assert (H1 : rreach 2 LOGSIZE (lg 1, [o 0])) by (eapply rr_step; [exact H0|]; by apply (rs_begin (lg 0) (lg 1) [])).
  assert (H2 : rreach 2 LOGSIZE (lg 2, [o 0; o 0])) by (eapply rr_step; [exact H1|]; by apply (rs_begin (lg 1) (lg 2) [o 0])).
  eapply rr_step; [exact H2|]. by apply (rs_begin (lg 2) g0 [o 0; o 0]).
Qed.

(** A disk of zeroed blocks whose super block places a log of 30 blocks at block
    2, and a transaction that fills block 40 with sevens. *)
Definition small_disk : disk :=
  mkDisk (upd (λ _, replicate (Z.to_nat BSIZE) 0) 1 (put32 (put32 (replicate (Z.to_nat BSIZE) 0) 12 30) 16 2)) 1000 [].
Definition sevens : list Z := replicate (Z.to_nat BSIZE) 7.
Definition open_log : log := mkLog 2 30 1 false 1 0 (replicate 30 0).
Definition sample_log : log := set_lh open_log 1 (<[0%nat := 40]> (replicate 30 0)).

Lemma sample_transaction :
  ∃ b s1 s2 s3 l, bread (mkBio (binit (λ _, zero_buf)) small_disk) 1 1 40 = Ret (b, s1) ∧
    log_write open_log (set_data s1 b sevens) b = Ret (sample_log, s2) ∧ brelse s2 b = Ret s3 ∧
    transaction sample_log s3 l ∧ dk s3 = small_disk ∧ view s3 40 = sevens.
Proof.
  destruct (binit_inv (λ _, zero_buf) small_disk) as [l Hi].
  { done. }
  { intros bn _. unfold small_disk. cbn [blocks]. unfold upd. case_decide; [|apply length_replicate]. by rewrite !length_put32, length_replicate. }
  generalize dependent (binit (λ _, zero_buf)). intros f0 Hi. set (s0 := mkBio f0 small_disk) in *.
  destruct (bread_ok s0 l [] [] 1 40 Hi) as (b & y & He1 & _ & _ & Hi1 & Hv1 & Hc1 & Hd1).
  { simpl. lia. }
  { intros h Hh. by apply elem_of_nil in Hh. }
  { right. simpl. unfold NBUF. lia. }
  set (s1 := mkBio (upd (bufs s0) b y) (dk s0)) in *.
  destruct (set_data_ok s1 l [b] [] b 40 sevens Hi1) as (Hi2 & Hv2 & Hc2); [by left|done|by apply length_replicate|].
  destruct (log_write_ok open_log (set_data s1 b sevens) l [b] b 40) as (n' & bl' & s2 & He2 & Hn & Hlen & Hi3 & Hp & Hd2 & Hv3 & Hc3 & Hb3).
  { done. }
  { by left. }
  { by apply Hc2. }
  { done. }
  { simpl. lia. }
  { done. }
  { done. }
  { simpl. lia. }
  { done. }
  assert (Hlog : set_lh open_log n' bl' = sample_log).
  { assert (Hbn : b_blockno (bufs (set_data s1 b sevens) b) = 40) by (by apply Hc2 in Hc1 as (_ & _ & ?)).
    unfold log_write, log_write_locked in He2. rewrite Hbn in He2. simpl in He2. injection He2 as <- <- _. reflexivity. }
  rewrite Hlog in He2. injection Hlog as -> ->.
  destruct (brelse_ok s2 l [b] [] _ b Hi3 (reflexivity _)) as (s3 & He3 & Hd3 & Hi4 & Hv4 & _).
  { eapply (releasable _ _ _ _ _ 40 Hi3); [by apply Hc3, Hc2|]. left. apply Hp. by left. }
  exists b, s1, s2, s3. eexists. split; [done|]. split; [done|]. split; [done|]. split; [|split].
  - assert (Hdk : dk s3 = small_disk) by (by rewrite Hd3, Hd2). split; rewrite ?Hdk; simpl; try (unfold LOGSIZE, MAXOPBLOCKS, NBUF; lia); try done.
    intros j Hj. assert (j = 0) as -> by lia. split; [by split|]. unfold in_log. simpl. by intros [_ ?].
  - by rewrite Hd3, Hd2.
  - rewrite Hv4, Hv3, Hv2. by rewrite upd_eq.
Qed.

(** After a crash during the commit of that transaction block 40 has its old
    bytes or the new ones. *)
Lemma commit_crash_atomic_witness :
  ∃ s s' W, view s 40 = sevens ∧ commit 1 sample_log s = Ret (set_lh sample_log 0 (lh_block sample_log), s') ∧
    ∀ j, (j ≤ length W)%nat →
      ∃ g2 s2, initlog 1 open_log (mkBio (binit (λ _, zero_buf))
        (mkDisk (apply_writes (blocks (dk s)) (take j W)) (disksize (dk s)) [])) ROOTDEV = Ret (g2, s2) ∧
        (blocks (dk s2) 40 = blocks small_disk 40 ∨ blocks (dk s2) 40 = sevens).
Proof.
  destruct sample_transaction as (b & s1 & s2 & s3 & l & _ & _ & _ & Ht & Hd & Hv).
  destruct (commit_crash_atomic 1 sample_log open_log s3 l Ht) as (s' & W & Hc & Hw & Hb & Hcr).
  - rewrite Hd. split; vm_compute; reflexivity.
  - rewrite Hd. split; [by split|]. unfold in_log. simpl. intros [H _]. by apply H.
  - intros j Hj. assert (Hj0 : j = 0) by (simpl in Hj; lia). rewrite Hj0. done.
  - reflexivity.
  - exists s3, s', W. split; [done|]. split; [done|]. intros j Hj.
    destruct (Hcr j Hj) as (g2 & s4 & He & Hor). exists g2, s4. split; [exact He|].
    assert (Hx : ¬ in_log sample_log 40) by (unfold in_log; simpl; by intros [_ ?]).
    rewrite <- Hv, <- Hd. destruct Hor as [Hor|Hor]; [left|right]; apply (Hor 40 Hx).
Defined.

(** ** Crashes during recovery *)

Lemma in_replay_writes g dsz D x : hdr_ok g dsz D → x ∈ (replay_writes (l_start g) D).*1 → home_block g dsz x.
Proof.
  intros [_ _ Hh] Hx. apply list_elem_of_In in Hx. unfold replay_writes in Hx. rewrite map_map in Hx.
  apply in_map_iff in Hx as (j & <- & Hj). apply list_elem_of_In, elem_of_seqZ in Hj. simpl. apply Hh. lia.
Qed.

(** A prefix of the replay leaves the log as it was. *)
Lemma replay_prefix g dsz D j :
  hdr_ok g dsz D → 0 < l_size g →
  let D' := apply_writes D (take j (replay_writes (l_start g) D)) in
  (∀ x, in_log g x → D' x = D x) ∧ replay_writes (l_start g) D' = replay_writes (l_start g) D.
Proof.
  intros Hok Hsz D'. assert (Hlog : ∀ x, in_log g x → D' x = D x).
  { intros x Hx. apply apply_writes_other. intros Hin%take_fst_sub. by apply (in_replay_writes g dsz D x Hok) in Hin as [_ ?]. }
  split; [done|]. unfold replay_writes. rewrite (Hlog (l_start g)) by (unfold in_log; lia). apply map_ext_in. intros k Hk.
  apply list_elem_of_In, elem_of_seqZ in Hk. f_equal. apply Hlog. destruct Hok as [_ Hs _]. unfold in_log. lia.
Qed.

(** C24: Recovery may itself be cut by a crash: after any number of its disk
    writes the disk still has a valid header and replays to the same home
    blocks, so running it again gives what the first run would have given. *)
Theorem recovery_restartable pid g s l :
  bio_inv s l [] [] → log_fits g (disksize (dk s)) → hdr_ok g (disksize (dk s)) (blocks (dk s)) →
  length (lh_block g) = Z.to_nat LOGSIZE →
  ∃ g' s' W, recover_from_log pid g s = Ret (g', s') ∧ lh_n g' = 0 ∧ dk s' = disk_writes (dk s) W ∧
    (∀ x, ¬ in_log g x → blocks (dk s') x = replay (l_start g) (blocks (dk s)) x) ∧
    ∀ j, (j ≤ length W)%nat → let D' := apply_writes (blocks (dk s)) (take j W) in
      hdr_ok g (disksize (dk s)) D' ∧
      ∀ x, ¬ in_log g x → replay (l_start g) D' x = replay (l_start g) (blocks (dk s)) x.
Proof.
  intros Hi Hf Hok Hb. destruct (recover_ok s l pid g _ Hi eq_refl Hf Hok Hb) as (bl & d & s' & l' & He & _ & Hd & Hw).
  set (D := blocks (dk s)) in *. set (RW := replay_writes (l_start g) D) in *.
  assert (Hsz : 0 < l_size g) by (destruct Hok; lia).
  assert (Hst : ∀ x, ¬ in_log g x → x ≠ l_start g) by (intros x Hx ->; apply Hx; unfold in_log; lia).
  assert (Hend : ∀ x, ¬ in_log g x → apply_writes D (RW ++ [(l_start g, d)]) x = replay (l_start g) D x).
  { intros x Hx. rewrite apply_writes_app. simpl. by rewrite upd_ne by by apply Hst. }
  exists (set_lh g 0 bl), s', (RW ++ [(l_start g, d)]). split_and!; [done|done|done| |].
  { intros x Hx. rewrite Hw, disk_writes_blocks. by apply Hend. }
  intros j Hj D'. rewrite length_app in Hj. simpl in Hj.
  destruct (decide (j ≤ length RW)%nat) as [Hle|Hgt].
  - assert (HD' : D' = apply_writes D (take j RW)) by (unfold D'; by rewrite take_app_le).
    destruct (replay_prefix g _ D j Hok Hsz) as [Hlog HR]. fold RW in Hlog, HR. rewrite <- HD' in Hlog, HR.
    assert (Hh : D' (l_start g) = D (l_start g)) by (apply Hlog; unfold in_log; lia).
    split; [destruct Hok as [H1 H2 H3]; split; rewrite Hh; done|].
    intros x Hx. unfold replay. rewrite HR. apply apply_writes_indep.
    destruct (decide (x ∈ RW.*1)) as [Hin|Hin]; [by left|right]. rewrite HD'. apply apply_writes_other. by intros ?%take_fst_sub.
  - assert (HD' : D' = apply_writes D (RW ++ [(l_start g, d)])).
    { unfold D'. rewrite take_ge; [done|]. rewrite length_app. simpl. lia. }
    assert (Hh : hdr_n (D' (l_start g)) = 0) by (rewrite HD', apply_writes_app; simpl; by rewrite upd_eq).
    split; [split; rewrite Hh; unfold LOGSIZE, MAXOPBLOCKS; intros; lia|].
    intros x Hx. rewrite replay_clear by done. rewrite HD'. by apply Hend.
Qed.

(** The disk after the header of the sample transaction was written. *)
Definition crashed_disk : disk :=
  mkDisk (upd (upd (blocks small_disk) 2 (put32 (put32 (replicate (Z.to_nat BSIZE) 0) 0 1) 4 40)) 3 sevens) 1000 [].

Lemma recovery_restartable_witness :
  ∃ s g' s', dk s = crashed_disk ∧ recover_from_log 1 open_log s = Ret (g', s') ∧ blocks (dk s') 40 = sevens.
Proof.
  destruct (binit_inv (λ _, zero_buf) crashed_disk) as [l Hi].
  - done.
  - intros bn _. unfold crashed_disk, small_disk. cbn [blocks]. unfold upd.
    repeat case_decide; rewrite ?length_put32; apply length_replicate.
  - destruct (recovery_restartable 1 open_log _ l Hi) as (g' & s' & W & He & _ & _ & Hb & _).
    + split; done.
    + split; [by vm_compute|by vm_compute|]. intros j Hj. change (0 ≤ j < hdr_n (blocks crashed_disk 2)) in Hj.
      assert (Hn : hdr_n (blocks crashed_disk 2) = 1) by (vm_compute; reflexivity).
      assert (Hj0 : j = 0) by lia. rewrite Hj0.
      split; [by vm_compute|]. vm_compute. by intros [_ ?].
    + reflexivity.
    + eexists _, g', s'. split; [|split; [exact He|]]; [reflexivity|].
      rewrite Hb by (unfold in_log; simpl; by intros [_ ?]). vm_compute. reflexivity.
Defined.
