(* ===== verification/Fs.v ===== *)
(** * The file system (fs.c)

    Block allocation, inodes, file contents, directories and path names, over
    the buffer cache and the log.  A buffer a caller passes in to be filled is
    returned as the list of its bytes; one it passes in to be written is such a
    list; names and paths are the bytes before their NUL. *)
From stdpp Require Import base list list_numbers sets strings.
From Stdlib Require Import ZArith Lia.
From S2P Require Import Prelude Sleeplock Bio Log.

Definition NDIRECT : Z := 12.
Definition NINDIRECT : Z := BSIZE / 4.
Definition MAXFILE : Z := NDIRECT + NINDIRECT.
Definition IPB : Z := BSIZE / 64.
Definition BPB : Z := BSIZE * 8.
Definition NINODE : Z := 50.
Definition NDEV : Z := 10.
Definition ROOTINO : Z := 1.
Definition DIRSIZ : Z := 14.
Definition T_DIR : Z := 1.
Definition T_FILE : Z := 2.
Definition T_DEV : Z := 3.

Definition IBLOCK (i : Z) (sb : superblock) : Z := u32 (i / IPB + sb_inodestart sb).
Definition BBLOCK (b : Z) (sb : superblock) : Z := u32 (b / BPB + sb_bmapstart sb).

(** 16-bit integers. *)
Definition u16 (x : Z) : Z := x mod 2 ^ 16.
Definition s16 (x : Z) : Z := if Z.ltb (u16 x) (2 ^ 15) then u16 x else u16 x - 2 ^ 16.
Definition get16 (d : list Z) (o : Z) : Z := byte_at d o + 2 ^ 8 * byte_at d (o + 1).
Definition put16 (d : list Z) (o v : Z) : list Z :=
  <[Z.to_nat (o + 1) := u8 (v / 2 ^ 8)]> (<[Z.to_nat o := u8 v]> d).

(** Bytes [o, o+n) of a block, and [memmove] of [src] to them. *)
Definition slice (d : list Z) (o n : Z) : list Z := take (Z.to_nat n) (drop (Z.to_nat o) d).
Definition splice (d : list Z) (o : Z) (src : list Z) : list Z :=
  take (Z.to_nat o) d ++ src ++ drop (Z.to_nat o + length src) d.

(** ** Inodes *)

Record inode := mkInode {
  i_dev : Z; i_inum : Z; i_ref : Z; i_lock : sleeplock; i_valid : bool;
  i_type : Z; i_major : Z; i_minor : Z; i_nlink : Z; i_size : Z; i_addrs : list Z }.

Definition with_ref (r : Z) (i : inode) : inode :=
  mkInode (i_dev i) (i_inum i) r (i_lock i) (i_valid i) (i_type i) (i_major i) (i_minor i) (i_nlink i) (i_size i) (i_addrs i).
Definition with_ilock (l : sleeplock) (i : inode) : inode :=
  mkInode (i_dev i) (i_inum i) (i_ref i) l (i_valid i) (i_type i) (i_major i) (i_minor i) (i_nlink i) (i_size i) (i_addrs i).
Definition with_valid (v : bool) (i : inode) : inode :=
  mkInode (i_dev i) (i_inum i) (i_ref i) (i_lock i) v (i_type i) (i_major i) (i_minor i) (i_nlink i) (i_size i) (i_addrs i).
Definition with_kind (t mj mn : Z) (i : inode) : inode :=
  mkInode (i_dev i) (i_inum i) (i_ref i) (i_lock i) (i_valid i) t mj mn (i_nlink i) (i_size i) (i_addrs i).
Definition with_nlink (n : Z) (i : inode) : inode :=
  mkInode (i_dev i) (i_inum i) (i_ref i) (i_lock i) (i_valid i) (i_type i) (i_major i) (i_minor i) n (i_size i) (i_addrs i).
Definition with_size (n : Z) (i : inode) : inode :=
  mkInode (i_dev i) (i_inum i) (i_ref i) (i_lock i) (i_valid i) (i_type i) (i_major i) (i_minor i) (i_nlink i) n (i_addrs i).
Definition with_addrs (a : list Z) (i : inode) : inode :=
  mkInode (i_dev i) (i_inum i) (i_ref i) (i_lock i) (i_valid i) (i_type i) (i_major i) (i_minor i) (i_nlink i) (i_size i) a.

(** [struct dinode] at offset [o] of a block: type, major, minor, nlink, size
    and [NDIRECT + 1] addresses. *)
Definition dinode_off (inum : Z) : Z := inum mod IPB * 64.
Definition read_addrs (d : list Z) (o : Z) : list Z := map (λ k, get32 d (o + 12 + 4 * k)) (seqZ 0 (NDIRECT + 1)).
Definition read_dinode (d : list Z) (o : Z) (i : inode) : inode :=
  mkInode (i_dev i) (i_inum i) (i_ref i) (i_lock i) (i_valid i) (s16 (get16 d o)) (s16 (get16 d (o + 2)))
    (s16 (get16 d (o + 4))) (s16 (get16 d (o + 6))) (get32 d (o + 8)) (read_addrs d o).

Fixpoint write_addrs (d : list Z) (o : Z) (a : list Z) : list Z :=
  match a with
  | [] => d
  | x :: a' => write_addrs (put32 d o x) (o + 4) a'
  end.
Definition write_dinode (d : list Z) (o : Z) (i : inode) : list Z :=
  let d := put16 d o (i_type i) in
  let d := put16 d (o + 2) (i_major i) in
  let d := put16 d (o + 4) (i_minor i) in
  let d := put16 d (o + 6) (i_nlink i) in
  let d := put32 d (o + 8) (i_size i) in
  write_addrs d (o + 12) (i_addrs i).

(** ** The state *)

(** Inode pointers are indices into [icache.inode], whose lock each access holds. *)
Record fs := mkFs { fs_log : log; fs_bio : bio; sb : superblock; icache : list inode }.

Definition set_bio (s : fs) (c : bio) : fs := mkFs (fs_log s) c (sb s) (icache s).
Definition set_icache (s : fs) (l : list inode) : fs := mkFs (fs_log s) (fs_bio s) (sb s) l.
Definition set_sb (s : fs) (x : superblock) : fs := mkFs (fs_log s) (fs_bio s) x (icache s).

Definition iptr (s : fs) (ip : nat) : outcome inode :=
  match icache s !! ip with Some i => Ret i | None => Undef "inode pointer" end.
Definition iset (s : fs) (ip : nat) (f : inode → inode) : fs := set_icache s (alter f ip (icache s)).

Section fs.
  Context (pid : Z).

(** The buffer operations on this state. *)
Definition getblk (s : fs) (dev bn : Z) : outcome (Z * fs) :=
  let! (b, c) := bread (fs_bio s) pid dev bn in Ret (b, set_bio s c).
Definition bdata (s : fs) (b : Z) : list Z := b_data (bufs (fs_bio s) b).
Definition bstore (s : fs) (b : Z) (d : list Z) : fs := set_bio s (set_data (fs_bio s) b d).
Definition blog (s : fs) (b : Z) : outcome fs :=
  let! (g, c) := log_write (fs_log s) (fs_bio s) b in Ret (mkFs g c (sb s) (icache s)).
Definition bput (s : fs) (b : Z) : outcome fs :=
  let! c := brelse (fs_bio s) b in Ret (set_bio s c).

(** ** Blocks *)

Definition bzero (s : fs) (dev bno : Z) : outcome fs :=
  let! (b, s1) := getblk s dev bno in
  let! s2 := blog (bstore s1 b (replicate (Z.to_nat BSIZE) 0)) b in
  bput s2 b.

Definition bit_of (bi : Z) : Z := Z.shiftl 1 (bi mod 8).
Definition bit_set (d : list Z) (bi : Z) : bool := negb (Z.eqb (Z.land (byte_at d (bi / 8)) (bit_of bi)) 0).
Definition set_bit (d : list Z) (bi : Z) : list Z :=
  <[Z.to_nat (bi / 8) := Z.lor (byte_at d (bi / 8)) (bit_of bi)]> d.
Definition clear_bit (d : list Z) (bi : Z) : list Z :=
  <[Z.to_nat (bi / 8) := Z.land (byte_at d (bi / 8)) (Z.lnot (bit_of bi))]> d.

(** The inner loop of [balloc], [k] bits before the end of the block. *)
Fixpoint find_clear (k : nat) (bi b size : Z) (d : list Z) : option Z :=
  match k with
  | O => None
  | S k' =>
      if Z.ltb (b + bi) size then
        if bit_set d bi then find_clear k' (bi + 1) b size d else Some bi
      else None
  end.

Fixpoint balloc_loop (n : nat) (s : fs) (dev b : Z) : outcome (Z * fs) :=
  match n with
  | O => NoFuel
  | S n' =>
      if Z.ltb b (sb_size (sb s)) then
        let! (bp, s1) := getblk s dev (BBLOCK b (sb s)) in
        match find_clear (Z.to_nat BPB) 0 b (sb_size (sb s)) (bdata s1 bp) with
        | Some bi =>
            let! s2 := blog (bstore s1 bp (set_bit (bdata s1 bp) bi)) bp in
            let! s3 := bput s2 bp in
            let! s4 := bzero s3 dev (b + bi) in
            Ret (b + bi, s4)
        | None =>
            let! s2 := bput s1 bp in
            balloc_loop n' s2 dev (b + BPB)
        end
      else Panic "balloc: out of blocks"
  end.
(** One turn per bitmap block and one to see the end. *)
Definition balloc (s : fs) (dev : Z) : outcome (Z * fs) :=
  balloc_loop (S (S (Z.to_nat (sb_size (sb s) / BPB)))) s dev 0.

Definition bfree (s : fs) (dev b : Z) : outcome fs :=
  let! (x, c) := readsb (fs_bio s) pid dev in
  let s := set_sb (set_bio s c) x in
  let! (bp, s1) := getblk s dev (BBLOCK b (sb s)) in
  let bi := b mod BPB in
  if negb (bit_set (bdata s1 bp) bi) then Panic "freeing free block"
  else
    let! s2 := blog (bstore s1 bp (clear_bit (bdata s1 bp) bi)) bp in
    bput s2 bp.

(** ** Inodes *)

(** [iinit] also prints the super block. *)
Definition iinit (s : fs) (dev : Z) : outcome fs :=
  let l := map (with_ilock initsleeplock) (icache s) in
  let! (x, c) := readsb (fs_bio s) pid dev in
  Ret (mkFs (fs_log s) c x l).

(** A cached entry with references, else the first free one. *)
Definition iget (s : fs) (dev inum : Z) : outcome (nat * fs) :=
  match list_find (λ i, 0 < i_ref i ∧ i_dev i = dev ∧ i_inum i = inum) (icache s) with
  | Some (ip, i) => Ret (ip, iset s ip (with_ref (i_ref i + 1)))
  | None =>
      match list_find (λ i, i_ref i = 0) (icache s) with
      | Some (ip, i) =>
          Ret (ip, iset s ip (λ i, mkInode dev inum 1 (i_lock i) false (i_type i) (i_major i) (i_minor i)
                                     (i_nlink i) (i_size i) (i_addrs i)))
      | None => Panic "iget: no inodes"
      end
  end.

Fixpoint ialloc_loop (k : nat) (s : fs) (dev inum type : Z) : outcome (nat * fs) :=
  match k with
  | O => Panic "ialloc: no inodes"
  | S k' =>
      let! (bp, s1) := getblk s dev (IBLOCK inum (sb s)) in
      let o := dinode_off inum in
      if Z.eqb (s16 (get16 (bdata s1 bp) o)) 0 then
        let d := splice (bdata s1 bp) o (replicate 64 0) in
        let! s2 := blog (bstore s1 bp (put16 d o type)) bp in
        let! s3 := bput s2 bp in
        iget s3 dev inum
      else
        let! s2 := bput s1 bp in
        ialloc_loop k' s2 dev (inum + 1) type
  end.
Definition ialloc (s : fs) (dev type : Z) : outcome (nat * fs) :=
  ialloc_loop (Z.to_nat (sb_ninodes (sb s) - 1)) s dev 1 type.

Definition iupdate (s : fs) (ip : nat) : outcome fs :=
  let! i := iptr s ip in
  let! (bp, s1) := getblk s (i_dev i) (IBLOCK (i_inum i) (sb s)) in
  let! s2 := blog (bstore s1 bp (write_dinode (bdata s1 bp) (dinode_off (i_inum i)) i)) bp in
  bput s2 bp.

Definition idup (s : fs) (ip : nat) : outcome fs :=
  let! i := iptr s ip in
  Ret (iset s ip (with_ref (i_ref i + 1))).

(** The null pointer is [None]. *)
Definition ilock (s : fs) (o : option nat) : outcome fs :=
  match o with
  | None => Panic "ilock"
  | Some ip =>
      let! i := iptr s ip in
      if Z.ltb (i_ref i) 1 then Panic "ilock"
      else
        let! lk := acquiresleep (i_lock i) pid in
        let s := iset s ip (with_ilock lk) in
        if i_valid i then Ret s
        else
          let! (bp, s1) := getblk s (i_dev i) (IBLOCK (i_inum i) (sb s)) in
          let s2 := iset s1 ip (read_dinode (bdata s1 bp) (dinode_off (i_inum i))) in
          let! s3 := bput s2 bp in
          let s4 := iset s3 ip (with_valid true) in
          let! i' := iptr s4 ip in
          if Z.eqb (i_type i') 0 then Panic "ilock: no type" else Ret s4
  end.

Definition iunlock (s : fs) (o : option nat) : outcome fs :=
  match o with
  | None => Panic "iunlock"
  | Some ip =>
      let! i := iptr s ip in
      if negb (holdingsleep (i_lock i)) || Z.ltb (i_ref i) 1 then Panic "iunlock"
      else Ret (iset s ip (with_ilock (clear_lock (i_lock i))))
  end.

(** ** Contents of inodes *)

Definition set_addr (ip : nat) (k a : Z) (s : fs) : fs :=
  iset s ip (λ i, with_addrs (<[Z.to_nat k := a]> (i_addrs i)) i).

Definition bmap (s : fs) (ip : nat) (bn : Z) : outcome (Z * fs) :=
  let! i := iptr s ip in
  if Z.ltb bn NDIRECT then
    let! addr := aget (i_addrs i) bn "ip->addrs" in
    if Z.eqb addr 0 then
      let! (a, s1) := balloc s (i_dev i) in
      Ret (a, set_addr ip bn a s1)
    else Ret (addr, s)
  else
    let bn := bn - NDIRECT in
    if Z.ltb bn NINDIRECT then
      let! addr := aget (i_addrs i) NDIRECT "ip->addrs" in
      let! (addr, s1) :=
        if Z.eqb addr 0 then
          let! (a, s1) := balloc s (i_dev i) in
          Ret (a, set_addr ip NDIRECT a s1)
        else Ret (addr, s) in
      let! (bp, s2) := getblk s1 (i_dev i) addr in
      let addr := get32 (bdata s2 bp) (4 * bn) in
      if Z.eqb addr 0 then
        let! (a, s3) := balloc s2 (i_dev i) in
        let! s4 := blog (bstore s3 bp (put32 (bdata s3 bp) (4 * bn) a)) bp in
        let! s5 := bput s4 bp in
        Ret (a, s5)
      else
        let! s3 := bput s2 bp in
        Ret (addr, s3)
    else Panic "bmap: out of range".

(** The two loops of [itrunc]. *)
Fixpoint trunc_direct (k : nat) (s : fs) (ip : nat) (j : Z) : outcome fs :=
  match k with
  | O => Ret s
  | S k' =>
      let! i := iptr s ip in
      let! a := aget (i_addrs i) j "ip->addrs" in
      if Z.eqb a 0 then trunc_direct k' s ip (j + 1)
      else
        let! s1 := bfree s (i_dev i) a in
        trunc_direct k' (set_addr ip j 0 s1) ip (j + 1)
  end.

Fixpoint trunc_indirect (k : nat) (s : fs) (dev bp j : Z) : outcome fs :=
  match k with
  | O => Ret s
  | S k' =>
      let a := get32 (bdata s bp) (4 * j) in
      if Z.eqb a 0 then trunc_indirect k' s dev bp (j + 1)
      else
        let! s1 := bfree s dev a in
        trunc_indirect k' s1 dev bp (j + 1)
  end.

Definition itrunc (s : fs) (ip : nat) : outcome fs :=
  let! s1 := trunc_direct (Z.to_nat NDIRECT) s ip 0 in
  let! i := iptr s1 ip in
  let! a := aget (i_addrs i) NDIRECT "ip->addrs" in
  let! s2 :=
    if Z.eqb a 0 then Ret s1
    else
      let! (bp, s2) := getblk s1 (i_dev i) a in
      let! s3 := trunc_indirect (Z.to_nat NINDIRECT) s2 (i_dev i) bp 0 in
      let! s4 := bput s3 bp in
      let! s5 := bfree s4 (i_dev i) a in
      Ret (set_addr ip NDIRECT 0 s5) in
  iupdate (iset s2 ip (with_size 0)) ip.

Definition iput (s : fs) (ip : nat) : outcome fs :=
  let! i := iptr s ip in
  let! lk := acquiresleep (i_lock i) pid in
  let s := iset s ip (with_ilock lk) in
  let! s1 :=
    if i_valid i && Z.eqb (i_nlink i) 0 && Z.eqb (i_ref i) 1 then
      let! s1 := itrunc s ip in
      let! s2 := iupdate (iset s1 ip (λ i, with_kind 0 (i_major i) (i_minor i) i)) ip in
      Ret (iset s2 ip (with_valid false))
    else Ret s in
  Ret (iset s1 ip (λ i, with_ref (i_ref i - 1) (with_ilock (clear_lock (i_lock i)) i))).

Definition iunlockput (s : fs) (ip : nat) : outcome fs :=
  let! s1 := iunlock s (Some ip) in
  iput s1 ip.

(** [struct stat]. *)
Record stat := mkStat { st_type : Z; st_dev : Z; st_ino : Z; st_nlink : Z; st_size : Z }.
Definition stati (i : inode) : stat := mkStat (i_type i) (s32 (i_dev i)) (i_inum i) (i_nlink i) (i_size i).

(** [devsw[major].read] and [.write]; [None] is a null function pointer. *)
Context (dev_read : Z → option (fs → nat → Z → outcome (Z * list Z * fs)))
        (dev_write : Z → option (fs → nat → list Z → outcome (Z * fs))).

(** The loop of [readi]: [left] is [n - tot], [acc] the bytes moved so far. *)
Fixpoint readi_loop (k : nat) (s : fs) (ip : nat) (dev off left : Z) (acc : list Z) : outcome (list Z * fs) :=
  match k with
  | O => NoFuel
  | S k' =>
      if Z.leb left 0 then Ret (acc, s)
      else
        let! (a, s1) := bmap s ip (off / BSIZE) in
        let! (bp, s2) := getblk s1 dev a in
        let m := Z.min left (BSIZE - off mod BSIZE) in
        let d := slice (bdata s2 bp) (off mod BSIZE) m in
        let! s3 := bput s2 bp in
        readi_loop k' s3 ip dev (off + m) (left - m) (acc ++ d)
  end.

(** A transfer of [n] bytes touches at most [n / BSIZE + 2] blocks. *)
Definition transfer_fuel (n : Z) : nat := S (S (S (Z.to_nat (n / BSIZE)))).

Definition readi (s : fs) (ip : nat) (off n : Z) : outcome (Z * list Z * fs) :=
  let! i := iptr s ip in
  if Z.eqb (i_type i) T_DEV then
    if Z.ltb (i_major i) 0 || Z.leb NDEV (i_major i) then Ret (-1, [], s)
    else match dev_read (i_major i) with
         | None => Ret (-1, [], s)
         | Some f => f s ip n
         end
  else if Z.ltb (i_size i) off || Z.ltb (u32 (off + n)) off then Ret (-1, [], s)
  else
    let n := if Z.ltb (i_size i) (u32 (off + n)) then i_size i - off else n in
    let! (d, s1) := readi_loop (transfer_fuel n) s ip (i_dev i) off n [] in
    Ret (n, d, s1).

Fixpoint writei_loop (k : nat) (s : fs) (ip : nat) (dev off : Z) (src : list Z) : outcome (Z * fs) :=
  match k with
  | O => NoFuel
  | S k' =>
      match src with
      | [] => Ret (off, s)
      | _ =>
          let! (a, s1) := bmap s ip (off / BSIZE) in
          let! (bp, s2) := getblk s1 dev a in
          let m := Z.min (Z.of_nat (length src)) (BSIZE - off mod BSIZE) in
          let d := splice (bdata s2 bp) (off mod BSIZE) (take (Z.to_nat m) src) in
          let! s3 := blog (bstore s2 bp d) bp in
          let! s4 := bput s3 bp in
          writei_loop k' s4 ip dev (off + m) (drop (Z.to_nat m) src)
      end
  end.

Definition writei (s : fs) (ip : nat) (src : list Z) (off : Z) : outcome (Z * fs) :=
  let! i := iptr s ip in
  let n := Z.of_nat (length src) in
  if Z.eqb (i_type i) T_DEV then
    if Z.ltb (i_major i) 0 || Z.leb NDEV (i_major i) then Ret (-1, s)
    else match dev_write (i_major i) with
         | None => Ret (-1, s)
         | Some f => f s ip src
         end
  else if Z.ltb (i_size i) off || Z.ltb (u32 (off + n)) off then Ret (-1, s)
  else if Z.ltb (MAXFILE * BSIZE) (u32 (off + n)) then Ret (-1, s)
  else
    let! (off', s1) := writei_loop (transfer_fuel n) s ip (i_dev i) off src in
    if Z.ltb 0 n && Z.ltb (i_size i) off' then
      let! s2 := iupdate (iset s1 ip (with_size off')) ip in
      Ret (n, s2)
    else Ret (n, s1).

(** ** Directories *)

(** [strncmp] on names of at most [n] bytes: bytes past the end of a list are
    its NUL. *)
Fixpoint name_strncmp (n : nat) (p q : list Z) : Z :=
  match n with
  | O => 0
  | S n' =>
      let a := nth 0 p 0 in
      let b := nth 0 q 0 in
      if Z.eqb a 0 || negb (Z.eqb a b) then u8 a - u8 b else name_strncmp n' (tail p) (tail q)
  end.
Definition namecmp (s t : list Z) : Z := name_strncmp (Z.to_nat DIRSIZ) s t.

(** [struct dirent]: [inum], then [DIRSIZ] bytes of name. *)
Definition DIRENT : Z := 16.
Definition de_inum (d : list Z) : Z := get16 d 0.
Definition de_name (d : list Z) : list Z := drop 2 d.

(** [strncpy(de.name, name, DIRSIZ)] and [de.inum = inum]. *)
Fixpoint name_strncpy (n : nat) (t : list Z) : list Z :=
  match n with
  | O => []
  | S n' => match t with
            | [] => replicate n 0
            | c :: t' => if Z.eqb c 0 then replicate n 0 else c :: name_strncpy n' t'
            end
  end.
Definition mk_dirent (inum : Z) (name : list Z) : list Z :=
  [u8 inum; u8 (inum / 2 ^ 8)] ++ name_strncpy (Z.to_nat DIRSIZ) name.

(** The scans of [dirlookup] and [dirlink]: each entry is read with [readi]. *)
Fixpoint lookup_loop (k : nat) (s : fs) (dp : nat) (name : list Z) (off : Z) : outcome (option (Z * Z) * fs) :=
  match k with
  | O => NoFuel
  | S k' =>
      let! i := iptr s dp in
      if Z.ltb off (i_size i) then
        let! (r, s1) := readi s dp off DIRENT in
        if negb (Z.eqb r.1 DIRENT) then Panic "dirlookup read"
        else if Z.eqb (de_inum r.2) 0 then lookup_loop k' s1 dp name (off + DIRENT)
        else if Z.eqb (namecmp name (de_name r.2)) 0 then Ret (Some (off, de_inum r.2), s1)
        else lookup_loop k' s1 dp name (off + DIRENT)
      else Ret (None, s)
  end.

Definition scan_fuel (size : Z) : nat := S (S (Z.to_nat (size / DIRENT))).

(** The inode, and the offset of its entry ([*poff]). *)
Definition dirlookup (s : fs) (dp : nat) (name : list Z) : outcome (option (nat * Z) * fs) :=
  let! i := iptr s dp in
  if negb (Z.eqb (i_type i) T_DIR) then Panic "dirlookup not DIR"
  else
    let! (r, s1) := lookup_loop (scan_fuel (i_size i)) s dp name 0 in
    match r with
    | Some (off, inum) =>
        let! (ip, s2) := iget s1 (i_dev i) inum in
        Ret (Some (ip, off), s2)
    | None => Ret (None, s1)
    end.

Fixpoint empty_loop (k : nat) (s : fs) (dp : nat) (off : Z) : outcome (Z * fs) :=
  match k with
  | O => NoFuel
  | S k' =>
      let! i := iptr s dp in
      if Z.ltb off (i_size i) then
        let! (r, s1) := readi s dp off DIRENT in
        if negb (Z.eqb r.1 DIRENT) then Panic "dirlink read"
        else if Z.eqb (de_inum r.2) 0 then Ret (off, s1)
        else empty_loop k' s1 dp (off + DIRENT)
      else Ret (off, s)
  end.

Definition dirlink (s : fs) (dp : nat) (name : list Z) (inum : Z) : outcome (Z * fs) :=
  let! (r, s1) := dirlookup s dp name in
  match r with
  | Some (ip, _) =>
      let! s2 := iput s1 ip in
      Ret (-1, s2)
  | None =>
      let! i := iptr s1 dp in
      let! (off, s2) := empty_loop (scan_fuel (i_size i)) s1 dp 0 in
      let! (n, s3) := writei s2 dp (mk_dirent inum name) off in
      if negb (Z.eqb n DIRENT) then Panic "dirlink" else Ret (0, s3)
  end.

(** ** Paths *)

Definition SLASH : Z := 47.

Fixpoint skip_slashes (path : list Z) : list Z :=
  match path with
  | c :: p => if Z.eqb c SLASH then skip_slashes p else path
  | [] => []
  end.
Fixpoint take_elem (path : list Z) : list Z * list Z :=
  match path with
  | c :: p => if Z.eqb c SLASH then ([], path) else let '(e, r) := take_elem p in (c :: e, r)
  | [] => ([], [])
  end.

(** The next element, cut to [DIRSIZ] bytes, and the rest of the path. *)
Definition skipelem (path : list Z) : option (list Z * list Z) :=
  match skip_slashes path with
  | [] => None
  | p =>
      let '(e, r) := take_elem p in
      let name := if Z.leb DIRSIZ (Z.of_nat (length e)) then take (Z.to_nat DIRSIZ) e else e in
      Some (name, skip_slashes r)
  end.

Fixpoint namex_loop (k : nat) (s : fs) (ip : nat) (path : list Z) (parent : bool) (name : list Z) :
  outcome (option nat * list Z * fs) :=
  match k with
  | O => NoFuel
  | S k' =>
      match skipelem path with
      | Some (name, path') =>
          let! s1 := ilock s (Some ip) in
          let! i := iptr s1 ip in
          if negb (Z.eqb (i_type i) T_DIR) then
            let! s2 := iunlockput s1 ip in Ret (None, name, s2)
          else if parent && bool_decide (path' = []) then
            let! s2 := iunlock s1 (Some ip) in Ret (Some ip, name, s2)
          else
            let! (r, s2) := dirlookup s1 ip name in
            match r with
            | None => let! s3 := iunlockput s2 ip in Ret (None, name, s3)
            | Some (next, _) =>
                let! s3 := iunlockput s2 ip in
                namex_loop k' s3 next path' parent name
            end
      | None =>
          if parent then let! s1 := iput s ip in Ret (None, name, s1)
          else Ret (Some ip, name, s)
      end
  end.

(** [cwd] is [myproc()->cwd].  Every turn but the last shortens the path. *)
Definition namex (s : fs) (cwd : nat) (path : list Z) (parent : bool) : outcome (option nat * list Z * fs) :=
  let! (ip, s1) :=
    if bool_decide (head path = Some SLASH) then iget s ROOTDEV ROOTINO
    else let! s1 := idup s cwd in Ret (cwd, s1) in
  namex_loop (S (length path)) s1 ip path parent [].

Definition namei (s : fs) (cwd : nat) (path : list Z) : outcome (option nat * fs) :=
  let! (r, s1) := namex s cwd path false in Ret (r.1, s1).
Definition nameiparent (s : fs) (cwd : nat) (path : list Z) : outcome (option nat * list Z * fs) :=
  namex s cwd path true.

End fs.

(** ** Decimal names of swap files *)

(** [++p] for each digit of [shifter]. *)
Fixpoint itoa_end (k : nat) (p shifter : Z) : Z :=
  match k with
  | O => p
  | S k' =>
      let shifter' := Z.quot shifter 10 in
      if Z.eqb shifter' 0 then p + 1 else itoa_end k' (p + 1) shifter'
  end.
(** [*--p = digit[i % 10]] from the last digit to the first. *)
Fixpoint itoa_digits (k : nat) (b : list Z) (p i : Z) : outcome (list Z) :=
  match k with
  | O => Ret b
  | S k' =>
      let r := Z.rem i 10 in
      if Z.ltb r 0 then Undef "digit[]"
      else
        let! b' := aset b (p - 1) (48 + r) "path" in
        let i' := Z.quot i 10 in
        if Z.eqb i' 0 then Ret b' else itoa_digits k' b' (p - 1) i'
  end.

(** The digits of [i] from index [p] of the buffer [b]; an [int] has at most 10. *)
Definition itoa (b : list Z) (p i : Z) : outcome (list Z) :=
  let! (b, p, i) :=
    if Z.ltb i 0 then
      let! b' := aset b p 45 "path" in Ret (b', p + 1, s32 (- i))
    else Ret (b, p, i) in
  let e := itoa_end 10 p i in
  let! b := aset b e 0 "path" in
  itoa_digits 10 b e i.

Definition DIGITS : Z := 14.
Definition swap_prefix : list Z := [47; 46; 115; 119; 97; 112].

(** The path of a process's swap file, in a buffer whose bytes were [junk]. *)
Definition swap_path (junk : list Z) (pid : Z) : outcome (list Z) := itoa (splice junk 0 swap_prefix) 6 pid.

(** The bytes before the NUL. *)
Fixpoint cstring (b : list Z) : list Z :=
  match b with
  | [] => []
  | c :: b' => if Z.eqb c 0 then [] else c :: cstring b'
  end.

(** ** Path elements *)

(** The components between slashes, empty ones included. *)
Fixpoint split_slash (path : list Z) : list (list Z) :=
  match path with
  | [] => [[]]
  | c :: p =>
      if Z.eqb c SLASH then [] :: split_slash p
      else match split_slash p with e :: l => (c :: e) :: l | [] => [[c]] end
  end.
Definition path_elems (path : list Z) : list (list Z) := filter (λ e, e ≠ []) (split_slash path).

Lemma path_elems_slash p : path_elems (SLASH :: p) = path_elems p.
Proof. unfold path_elems. simpl. by rewrite filter_cons_False by naive_solver. Qed.

Lemma path_elems_skip path : path_elems (skip_slashes path) = path_elems path.
Proof.
  induction path as [|c p IH]; [done|]. simpl. destruct (Z.eqb_spec c SLASH) as [->|Hc]; [|done].
  by rewrite IH, path_elems_slash.
Qed.

Lemma skip_slashes_head path c p : skip_slashes path = c :: p → c ≠ SLASH.
Proof.
  induction path as [|x q IH]; [done|]. simpl. destruct (Z.eqb_spec x SLASH); [apply IH|]. by intros [= -> ->].
Qed.
Lemma skip_slashes_length path : (length (skip_slashes path) ≤ length path)%nat.
Proof. induction path as [|c p IH]; simpl; [lia|]. destruct (Z.eqb _ _); simpl; lia. Qed.

Lemma take_elem_split path e r :
  take_elem path = (e, r) →
  path = e ++ r ∧ split_slash path = e :: match r with [] => [] | _ :: r' => split_slash r' end.
Proof.
  revert e r. induction path as [|c p IH]; intros e r; simpl.
  { by intros [= <- <-]. }
  destruct (Z.eqb_spec c SLASH) as [->|Hc]; [by intros [= <- <-]|].
  destruct (take_elem p) as [e' r'] eqn:Ht. intros [= <- <-]. destruct (IH e' r' eq_refl) as [-> Hs]. by rewrite Hs.
Qed.

Lemma take_elem_rest path e r : take_elem path = (e, r) → r = [] ∨ ∃ r', r = SLASH :: r'.
Proof.
  revert e r. induction path as [|c p IH]; intros e r; simpl; [intros [= _ <-]; by left|].
  destruct (Z.eqb_spec c SLASH) as [->|Hc]; [intros [= _ <-]; right; eauto|].
  destruct (take_elem p) as [e' r'] eqn:Ht. intros [= _ <-]. by eapply IH.
Qed.

(** [skipelem] takes path names apart as their components say: it gives the
    first non-empty component, cut to [DIRSIZ] bytes, and a shorter path without
    leading slashes whose components are the others; and it gives null exactly
    when there is none. *)
Theorem skipelem_spec path :
  match path_elems path with
  | [] => skipelem path = None
  | e :: es => ∃ rest, skipelem path = Some (take (Z.to_nat DIRSIZ) e, rest) ∧ path_elems rest = es ∧
      head rest ≠ Some SLASH ∧ (length rest < length path)%nat
  end.
Proof.
  rewrite <- (path_elems_skip path). pose proof (skip_slashes_length path) as Hlen. unfold skipelem.
  destruct (skip_slashes path) as [|c p] eqn:Hs; [done|]. apply skip_slashes_head in Hs as Hc.
  destruct (take_elem (c :: p)) as [e r] eqn:Ht. destruct (take_elem_split _ _ _ Ht) as [Happ Hsplit].
  assert (He : e ≠ []).
  { simpl in Ht. rewrite (proj2 (Z.eqb_neq _ _) Hc) in Ht. destruct (take_elem p). by injection Ht as <- _. }
  unfold path_elems. rewrite Hsplit, filter_cons_True by done. exists (skip_slashes r). split_and!.
  - do 2 f_equal. destruct (Z.leb_spec DIRSIZ (Z.of_nat (length e))); [done|]. rewrite take_ge; [done|lia].
  - fold (path_elems (skip_slashes r)). rewrite path_elems_skip. destruct (take_elem_rest _ _ _ Ht) as [->|[r' ->]]; [done|].
    apply path_elems_slash.
  - destruct (skip_slashes r) as [|x q] eqn:Hr; [done|]. simpl. apply skip_slashes_head in Hr. congruence.
  - pose proof (skip_slashes_length r). rewrite Happ, length_app in Hlen. destruct e; [done|]. simpl in Hlen. lia.
Qed.

(** ** Names of swap files *)

Definition dec_value (ds : list Z) : Z := foldl (λ v c, 10 * v + (c - 48)) 0 ds.

(** The digits of [i], most significant first. *)
Fixpoint digits (k : nat) (i : Z) : list Z :=
  match k with
  | O => []
  | S k' => if Z.eqb (Z.quot i 10) 0 then [48 + Z.rem i 10] else digits k' (Z.quot i 10) ++ [48 + Z.rem i 10]
  end.

Lemma itoa_end_digits k p i : itoa_end k p i = p + Z.of_nat (length (digits k i)).
Proof.
  revert p i. induction k as [|k IH]; intros p i; simpl; [lia|]. destruct (Z.eqb _ 0); simpl; [lia|].
  rewrite IH, length_app. simpl. lia.
Qed.

Lemma digits_value k i : 0 ≤ i < 10 ^ Z.of_nat k → dec_value (digits k i) = i.
Proof.
  revert i. induction k as [|k IH]; intros i Hi; [change (10 ^ Z.of_nat 0) with 1 in Hi; unfold dec_value; simpl; lia|].
  rewrite Nat2Z.inj_succ, Z.pow_succ_r in Hi by lia. simpl.
  rewrite (Z.quot_div_nonneg i 10), (Z.rem_mod_nonneg i 10) by lia.
  pose proof (Z.div_mod i 10 ltac:(lia)). pose proof (Z.mod_pos_bound i 10 ltac:(lia)).
  destruct (Z.eqb_spec (i / 10) 0) as [Hz|Hz].
  - unfold dec_value. simpl. lia.
  - unfold dec_value in *. rewrite foldl_app, IH by lia. simpl. lia.
Qed.

Lemma digits_digit k i : 0 ≤ i → Forall (λ c, 48 ≤ c ≤ 57) (digits k i).
Proof.
  revert i. induction k as [|k IH]; intros i Hi; [constructor|]. simpl.
  rewrite (Z.quot_div_nonneg i 10), (Z.rem_mod_nonneg i 10) by lia. pose proof (Z.mod_pos_bound i 10 ltac:(lia)).
  destruct (Z.eqb_spec (i / 10) 0); [repeat constructor; lia|].
  apply Forall_app. split; [apply IH; apply Z.div_pos; lia|]. repeat constructor; lia.
Qed.

Lemma digits_length k i m : 0 ≤ i < 10 ^ Z.of_nat m → (1 ≤ m)%nat → (length (digits k i) ≤ m)%nat.
Proof.
  revert i m. induction k as [|k IH]; intros i m Hi Hm; [simpl; lia|]. simpl.
  rewrite (Z.quot_div_nonneg i 10) by lia. destruct (Z.eqb_spec (i / 10) 0) as [|Hz]; [simpl; lia|].
  rewrite length_app. simpl. destruct m as [|[|m]]; [lia|change (10 ^ Z.of_nat 1) with 10 in Hi; exfalso; apply Hz; apply Z.div_small; lia|].
  rewrite Nat2Z.inj_succ, Z.pow_succ_r in Hi by lia.
  specialize (IH (i / 10) (S m)). assert (0 ≤ i / 10 < 10 ^ Z.of_nat (S m)); [|lia].
  split; [apply Z.div_pos; lia|]. apply Z.div_lt_upper_bound; lia.
Qed.

Lemma digits_long k i m : 10 ^ Z.of_nat m ≤ i < 10 ^ Z.of_nat k → (m < length (digits k i))%nat.
Proof.
  revert i m. induction k as [|k IH]; intros i m Hi.
  { assert (0 < 10 ^ Z.of_nat m) by (apply Z.pow_pos_nonneg; lia). change (10 ^ Z.of_nat 0) with 1 in Hi. lia. }
  assert (Hp : 0 < 10 ^ Z.of_nat m) by (apply Z.pow_pos_nonneg; lia).
  rewrite (Nat2Z.inj_succ k), Z.pow_succ_r in Hi by lia. simpl.
  rewrite (Z.quot_div_nonneg i 10) by lia.
  destruct m as [|m]; [destruct (Z.eqb _ 0); rewrite ?length_app; simpl; lia|].
  rewrite Nat2Z.inj_succ, Z.pow_succ_r in Hi by lia.
  assert (10 ^ Z.of_nat m ≤ i / 10 < 10 ^ Z.of_nat k).
  { split; [apply Z.div_le_lower_bound; lia|apply Z.div_lt_upper_bound; lia]. }
  assert (0 < 10 ^ Z.of_nat m) by (apply Z.pow_pos_nonneg; lia).
  destruct (Z.eqb_spec (i / 10) 0); [lia|]. rewrite length_app. simpl. specialize (IH (i / 10) m). lia.
Qed.

Lemma itoa_digits_ok k b p i :
  0 ≤ i → Z.of_nat (length (digits k i)) ≤ p ≤ Z.of_nat (length b) →
  itoa_digits k b p i = Ret (take (Z.to_nat p - length (digits k i)) b ++ digits k i ++ drop (Z.to_nat p) b).
Proof.
  revert b p i. induction k as [|k IH]; intros b p i Hi Hp.
  { simpl. by rewrite Nat.sub_0_r, take_drop. }
  simpl in *. rewrite (Z.rem_mod_nonneg i 10), (Z.quot_div_nonneg i 10) in * by lia.
  pose proof (Z.mod_pos_bound i 10 ltac:(lia)). rewrite (proj2 (Z.ltb_ge _ _)) by lia.
  set (c := 48 + i mod 10) in *.
  assert (Hpos : 1 ≤ p) by (destruct (Z.eqb _ 0); rewrite ?length_app in Hp; simpl in Hp; lia).
  assert (Hins : <[Z.to_nat (p - 1) := c]> b = take (Z.to_nat (p - 1)) b ++ c :: drop (Z.to_nat p) b).
  { rewrite insert_take_drop by lia. do 3 f_equal. lia. }
  rewrite aset_Ret by lia. cbn [obind]. destruct (Z.eqb_spec (i / 10) 0) as [Hz|Hz].
  - rewrite Hins. simpl. do 3 f_equal. lia.
  - rewrite length_app in Hp. simpl in Hp. rewrite IH; [|apply Z.div_pos; lia|rewrite length_insert; lia].
    rewrite Hins, length_app. simpl. rewrite <- app_assoc. simpl. do 2 f_equal.
    + rewrite take_app_le by (rewrite length_take; lia). rewrite take_take. f_equal. lia.
    + f_equal. rewrite drop_app_ge by (rewrite length_take; lia). rewrite length_take.
      replace (Z.to_nat (p - 1) - Z.to_nat (p - 1) `min` length b)%nat with 0%nat by lia. done.
Qed.

Lemma cstring_app l r : Forall (λ c, c ≠ 0) l → cstring (l ++ 0 :: r) = l.
Proof. induction 1 as [|c l Hc _ IH]; [done|]. simpl. rewrite (proj2 (Z.eqb_neq _ _) Hc). by rewrite IH. Qed.

(** The swap files of distinct processes have distinct names: for every pid
    below 10^7 the path fits its buffer and is /.swap followed by the decimal
    digits of the pid, short enough not to be cut in a directory entry; for a
    larger pid the digits overflow the buffer. *)
Theorem swap_path_spec junk pid :
  Z.of_nat (length junk) = DIGITS → 0 ≤ pid < 2 ^ 31 →
  if decide (pid < 10 ^ 7) then
    ∃ b ds, swap_path junk pid = Ret b ∧ cstring b = swap_prefix ++ ds ∧ Forall (λ c, 48 ≤ c ≤ 57) ds ∧
      dec_value ds = pid ∧ Z.of_nat (length (tail swap_prefix ++ ds)) < DIRSIZ
  else swap_path junk pid = Undef "path".
Proof.
  intros Hj Hp. unfold swap_path. set (b0 := splice junk 0 swap_prefix).
  assert (Hb0 : ∃ r, b0 = swap_prefix ++ r ∧ length r = 8%nat).
  { exists (drop 6 junk). split; [done|]. rewrite length_drop. unfold DIGITS in Hj. lia. }
  destruct Hb0 as (r & Hb0 & Hr). assert (Hl : length b0 = 14%nat) by (rewrite Hb0, length_app, Hr; done).
  unfold itoa. rewrite (proj2 (Z.ltb_ge pid 0)) by lia. cbn [obind]. rewrite itoa_end_digits.
  set (ds := digits 10 pid). case_decide as Hd.
  - assert (Hlen : (length ds ≤ 7)%nat) by (apply digits_length; [change (10 ^ Z.of_nat 7) with (10 ^ 7)|]; lia).
    assert (Hv : dec_value ds = pid) by (apply digits_value; change (10 ^ Z.of_nat 10) with (10 ^ 10); lia).
    pose proof (digits_digit 10 pid ltac:(lia)) as Hdig. fold ds in Hdig.
    rewrite aset_Ret by lia. cbn [obind]. rewrite itoa_digits_ok; [|lia|fold ds; rewrite length_insert; lia]. fold ds.
    eexists _, ds. split; [reflexivity|]. split_and!; [|done|done|rewrite length_app; simpl; unfold DIRSIZ; lia].
    replace (Z.to_nat (6 + Z.of_nat (length ds)) - length ds)%nat with 6%nat by lia.
    rewrite insert_take_drop by lia. rewrite drop_app_ge by (rewrite length_take; lia). rewrite length_take, Hl.
    replace (Z.to_nat (6 + Z.of_nat (length ds)) - Z.to_nat (6 + Z.of_nat (length ds)) `min` 14)%nat with 0%nat by lia.
    simpl drop. rewrite take_app_le by (rewrite length_take; lia). rewrite take_take, Nat.min_l by lia.
    rewrite Hb0. change (take 6 (swap_prefix ++ r)) with (swap_prefix ++ take 0 r). rewrite take_0, app_nil_r.
    rewrite app_assoc. apply cstring_app. apply Forall_app. split; [by repeat constructor|].
    eapply Forall_impl; [exact Hdig|]. simpl. lia.
  - assert (Hlen : (7 < length ds)%nat) by (apply digits_long; change (10 ^ Z.of_nat 7) with (10 ^ 7); change (10 ^ Z.of_nat 10) with (10 ^ 10); lia).
    unfold aset. rewrite decide_False; [done|]. lia.
Qed.

Lemma swap_path_spec_witness :
  ∃ b ds, swap_path (replicate 14 255) 1234 = Ret b ∧ cstring b = swap_prefix ++ ds ∧ dec_value ds = 1234.
Proof.
  pose proof (swap_path_spec (replicate 14 255) 1234 eq_refl ltac:(lia)) as H.
  rewrite decide_True in H by lia. destruct H as (b & ds & H1 & H2 & _ & H3 & _). by exists b, ds.
Defined.
