(* ===== verification/FileData.v ===== *)
(** * Contents of files (fs.c: balloc, bmap, readi, writei)

    Inside a transaction the buffer cache and the log behave as one array of
    blocks.  Over that array the allocation bitmap, the block map of an inode
    and the loops of [readi] and [writei] are shown to keep a file as an array
    of bytes, apart from every other file. *)
From stdpp Require Import base list list_numbers sets strings.
From Stdlib Require Import ZArith Lia FunctionalExtensionality.
From S2P Require Import Prelude Sleeplock Bio Log Fs.

(** ** Transactions as an array of blocks *)

(** The blocks as the running operation sees them. *)
Definition V (s : fs) : Z → list Z := view (fs_bio s).
Definition dsize (s : fs) : Z := disksize (dk (fs_bio s)).
Definition pinned (s : fs) : list Z := take (Z.to_nat (lh_n (fs_log s))) (lh_block (fs_log s)).

(** [LIM] leaves room for three held buffers among [NBUF], and fits the log. *)
Definition LIM : Z := 26.

(** The cache between two steps of a reader: [P] lists the pinned blocks, [H] the
    buffers held with their blocks, each pinned or as on disk. *)
Definition rx (P : list Z) (s : fs) (H : list (Z * Z)) : Prop :=
  ∃ l, bio_inv (fs_bio s) l H.*1 P ∧
    (∀ b x, (b, x) ∈ H → caches (fs_bio s) b x ∧ (x ∈ P ∨ bdata s b = blocks (dk (fs_bio s)) x)) ∧
    Z.of_nat (length P) ≤ LIM.

(** The log may still take [r] blocks of the running operation; no block of the
    log itself is logged. *)
Definition room (r : Z) (s : fs) : Prop :=
  0 ≤ r ∧ 0 ≤ lh_n (fs_log s) ∧ lh_n (fs_log s) + r ≤ LIM ∧ LIM < l_size (fs_log s) - 1 ∧
  length (lh_block (fs_log s)) = Z.to_nat LOGSIZE ∧ 1 ≤ outstanding (fs_log s) ∧ dsize s < 2 ^ 31 ∧
  ∀ y, y ∈ pinned s → sb_inodestart (sb s) ≤ y.

(** The state a transaction started from. *)
Record origin := mkOrigin { o_disk : disk; o_log : log }.
Existing Class origin.

(** The operation may still log [r] blocks; nothing has gone to the disk since
    [og], and of the log only the header has changed. *)
Definition txn (og : origin) (r : Z) (s : fs) (H : list (Z * Z)) : Prop :=
  rx (pinned s) s H ∧ room r s ∧ dk (fs_bio s) = o_disk og ∧ ∃ n bl, fs_log s = set_lh (o_log og) n bl.
Definition tx (r : Z) (s : fs) (H : list (Z * Z)) : Prop := ∃ og, txn og r s H.

(** What the block operations keep of the rest of the state. *)
Definition same_rest (s s' : fs) : Prop := sb s' = sb s ∧ icache s' = icache s ∧ dsize s' = dsize s.

Lemma same_rest_refl s : same_rest s s.
Proof. done. Qed.
Lemma same_rest_trans s1 s2 s3 : same_rest s1 s2 → same_rest s2 s3 → same_rest s1 s3.
Proof. intros (? & ? & ?) (? & ? & ?). split_and!; congruence. Qed.

(** What a reader keeps: everything but what is cached. *)
Definition untouched (s s' : fs) : Prop := V s' = V s ∧ same_rest s s' ∧ fs_log s' = fs_log s ∧ dk (fs_bio s') = dk (fs_bio s).

Lemma untouched_refl s : untouched s s.
Proof. done. Qed.
Lemma untouched_trans s1 s2 s3 : untouched s1 s2 → untouched s2 s3 → untouched s1 s3.
Proof. intros (? & ? & ? & ?) (? & ? & ? & ?). split_and!; try congruence. by eapply same_rest_trans. Qed.

Lemma rx_length P s H : rx P s H → ∀ x, 0 ≤ x < dsize s → length (V s x) = Z.to_nat BSIZE.
Proof. intros (l & Hi & _) x Hx. by eapply view_length. Qed.

Lemma rx_data P s H b x : rx P s H → (b, x) ∈ H → bdata s b = V s x.
Proof.
  intros (l & Hi & Hh & _) Hb. destruct (Hh b x Hb) as [Hc _]. symmetry.
  apply (view_cached _ _ _ (bi_uniq _ _ _ _ Hi) Hc).
Qed.

Section rx.
  Context (pid : Z).

Lemma getblk_rx P s H x :
  rx P s H → 0 ≤ x < dsize s → x ∉ H.*2 → (length H ≤ 2)%nat →
  ∃ b s', getblk pid s 1 x = Ret (b, s') ∧ rx P s' ((b, x) :: H) ∧ untouched s s'.
Proof.
  intros (l & Hi & Hh & HP) Hx Hnx HH.
  assert (Hheld : ∀ h, h ∈ H.*1 → b_blockno (bufs (fs_bio s) h) ≠ x).
  { intros h Hin. apply list_elem_of_fmap in Hin as ([h' y] & -> & Hin). destruct (Hh h' y Hin) as [(_ & _ & Hy) _]. simpl. rewrite Hy.
    intros ->. apply Hnx. apply list_elem_of_fmap. by exists (h', x). }
  destruct (bread_ok (fs_bio s) l H.*1 P pid x Hi Hx Hheld) as (b & y & He & _ & Hb & Hi' & Hv & Hc & Hdata).
  { right. rewrite length_fmap. unfold NBUF, LIM in *. lia. }
  exists b, (set_bio s (mkBio (upd (bufs (fs_bio s)) b y) (dk (fs_bio s)))). split_and!; try done.
  - unfold getblk. by rewrite He.
  - exists l. split_and!; try done. intros b' x' Hin. apply elem_of_cons in Hin as [[= -> ->]|Hin].
    + split; [done|]. unfold bdata. simpl. rewrite upd_eq, Hdata.
      destruct (decide (x ∈ P)) as [Hp|Hp]; [by left|right]. by apply (view_unpinned _ _ _ _ _ Hi Hp).
    + assert (b' ≠ b) by (intros ->; apply Hb; apply list_elem_of_fmap; by exists (b, x')).
      destruct (Hh b' x' Hin) as [Hc' Hcl]. split; [apply caches_upd; by right|].
      unfold bdata in *. simpl. by rewrite upd_ne.
  - split_and!; try done. extensionality k. apply Hv.
Qed.

Lemma bput_rx P s H b x :
  rx P s ((b, x) :: H) → ∃ s', bput s b = Ret s' ∧ rx P s' H ∧ untouched s s'.
Proof.
  intros (l & Hi & Hh & HP). destruct (Hh b x) as [Hc Hcl]; [by left|].
  destruct (brelse_ok (fs_bio s) l ((b, x) :: H).*1 H.*1 P b Hi (Permutation_refl _)
    (releasable _ _ _ _ _ x Hi Hc Hcl)) as (c' & He & Hdk & Hi' & Hv & Hc' & Hb' & _).
  exists (set_bio s c'). split; [unfold bput; by rewrite He|]. split; [|split; [|split; [|split; [done|done]]]].
  - eexists. split; [exact Hi'|]. unfold bdata in *. simpl. rewrite Hdk. split_and!; try done.
    intros b' x' Hin. destruct (Hh b' x') as [H1 H2]; [by right|]. split; [by apply Hc'|]. by rewrite Hb'.
  - extensionality k. apply Hv.
  - unfold same_rest, dsize. simpl. by rewrite Hdk.
Qed.

(** Reading a block changes nothing. *)
Lemma read_rx P s H x :
  rx P s H → 0 ≤ x < dsize s → x ∉ H.*2 → (length H ≤ 2)%nat →
  ∃ b s1 s', getblk pid s 1 x = Ret (b, s1) ∧ bdata s1 b = V s x ∧ bput s1 b = Ret s' ∧
    rx P s' H ∧ untouched s s' ∧ untouched s s1.
Proof.
  intros Ht Hx Hnx HH. destruct (getblk_rx P s H x Ht Hx Hnx HH) as (b & s1 & He & Ht1 & Hs1).
  destruct (bput_rx P s1 H b x Ht1) as (s' & He2 & Ht2 & Hs2).
  exists b, s1, s'. split_and!; try done.
  - rewrite (rx_data P s1 _ b x Ht1) by (by left). by destruct Hs1 as [-> _].
  - by eapply untouched_trans.
Qed.
End rx.

Section tx.
  Context (pid : Z) {og : origin}.
  Local Notation tx := (txn og).

Lemma tx_length r s H : tx r s H → ∀ x, 0 ≤ x < dsize s → length (V s x) = Z.to_nat BSIZE.
Proof. intros [Hx _]. by eapply rx_length. Qed.

Lemma tx_data r s H b x : tx r s H → (b, x) ∈ H → bdata s b = V s x.
Proof. intros [Hx _]. by eapply rx_data. Qed.

Lemma tx_weaken r r' s H : tx r s H → 0 ≤ r' ≤ r → tx r' s H.
Proof. intros (H1 & H2 & H3) Hr. split; [done|]. split; [|done]. unfold room in *. destruct_and?. split_and!; try done; lia. Qed.

(** A reader inside a transaction. *)
Lemma tx_untouched r s H s' H' : tx r s H → untouched s s' → rx (pinned s) s' H' → tx r s' H'.
Proof.
  intros (_ & H2 & H3 & H4) (_ & (U1 & U2 & U3) & U4 & U5) Hx.
  assert (Hp : pinned s' = pinned s) by (unfold pinned; by rewrite U4).
  unfold txn, room. rewrite Hp, U1, U3, U4, U5. done.
Qed.

Lemma getblk_tx r s H x :
  tx r s H → 0 ≤ x < dsize s → x ∉ H.*2 → (length H ≤ 2)%nat →
  ∃ b s', getblk pid s 1 x = Ret (b, s') ∧ tx r s' ((b, x) :: H) ∧ V s' = V s ∧ same_rest s s'.
Proof.
  intros Ht Hx Hnx HH. destruct (getblk_rx pid _ s H x (proj1 Ht) Hx Hnx HH) as (b & s' & He & Hr & Hu).
  exists b, s'. split_and!; try apply Hu; [done|]. by apply (tx_untouched _ s H).
Qed.

Lemma pinned_range s l held k : bio_inv (fs_bio s) l held (pinned s) → k ∈ pinned s → 0 ≤ k < dsize s.
Proof.
  intros Hi Hk. destruct (bi_pin _ _ _ _ Hi k Hk) as (b & (Hr & Hd & <-) & _).
  apply (bi_valid _ _ _ _ Hi b); [|done]. by apply (bi_ring _ _ _ _ Hi).
Qed.

Lemma blog_tx r s H b x d :
  tx (r + 1) s H → 0 ≤ r → (b, x) ∈ H → sb_inodestart (sb s) ≤ x → length d = Z.to_nat BSIZE →
  ∃ s', blog (bstore s b d) b = Ret s' ∧ tx r s' H ∧ V s' = upd (V s) x d ∧ same_rest s s'.
Proof.
  intros ((l & Hi & Hh & HP) & (Hr1 & Hn & Hlim & Hsz & Hbl & Hout & Hd & Hhome) & Hdk0 & Hlog) Hr Hb Hx Hlen.
  assert (Hbh : b ∈ H.*1) by (apply list_elem_of_fmap; by exists (b, x)).
  destruct (Hh b x Hb) as [Hc _].
  destruct (set_data_ok _ _ _ _ b x d Hi Hbh Hc Hlen) as (Hi1 & Hv1 & Hc1).
  destruct (log_write_ok (fs_log s) (set_data (fs_bio s) b d) l H.*1 b x) as (n' & bl' & c' & He & Hn' & Hlb & Hi2 & Hp & Hdk & Hv2 & Hc2 & Hb2).
  { done. }
  { done. }
  { by apply Hc1. }
  { done. }
  { intros j Hj. apply (pinned_range s l _ _ Hi). unfold pinned. apply elem_of_take_entry; [|eauto].
    rewrite Hbl. unfold LIM, LOGSIZE, MAXOPBLOCKS in *. lia. }
  { done. }
  { unfold LIM, LOGSIZE, MAXOPBLOCKS in *. lia. }
  { lia. }
  { done. }
  exists (mkFs (set_lh (fs_log s) n' bl') c' (sb s) (icache s)). split; [|split; [|split]].
  - unfold blog, bstore. simpl. by rewrite He.
  - unfold txn, room, pinned, dsize, bdata in *. simpl in *. rewrite Hdk. split; [exists l|].
    + split_and!; try done; [|rewrite length_take; lia]. simpl. rewrite Hdk. unfold bdata. simpl.
      intros b' x' Hin. destruct (Hh b' x' Hin) as [Hc' Hcl]. split; [by apply Hc2, Hc1|]. rewrite Hp, Hb2.
      destruct (decide (b' = b)) as [->|Hne].
      * left. left. destruct Hc as (_ & _ & <-), Hc' as (_ & _ & <-). done.
      * simpl. rewrite upd_ne by done. naive_solver.
    + split_and!; try done; try lia; try congruence.
      * intros y [->|Hy]%Hp; [done|by apply Hhome].
      * destruct Hlog as (n & bl & ->). by exists n', bl'.
  - extensionality k. unfold V. simpl. by rewrite Hv2, Hv1.
  - unfold same_rest, dsize. simpl. by rewrite Hdk.
Qed.

Lemma bput_tx r s H b x :
  tx r s ((b, x) :: H) →
  ∃ s', bput s b = Ret s' ∧ tx r s' H ∧ V s' = V s ∧ same_rest s s'.
Proof.
  intros Ht. destruct (bput_rx _ s H b x (proj1 Ht)) as (s' & He & Hr & Hu).
  exists s'. split_and!; try apply Hu; [done|]. by apply (tx_untouched _ s ((b, x) :: H)).
Qed.

(** Reading a block changes nothing. *)
Lemma read_tx r s H x :
  tx r s H → 0 ≤ x < dsize s → x ∉ H.*2 → (length H ≤ 2)%nat →
  ∃ b s1 s', getblk pid s 1 x = Ret (b, s1) ∧ bdata s1 b = V s x ∧ bput s1 b = Ret s' ∧
    tx r s' H ∧ V s' = V s ∧ same_rest s s' ∧ same_rest s s1.
Proof.
  intros Ht Hx Hnx HH. destruct (getblk_tx r s H x Ht Hx Hnx HH) as (b & s1 & He & Ht1 & Hv1 & Hs1).
  destruct (bput_tx r s1 H b x Ht1) as (s' & He2 & Ht2 & Hv2 & Hs2).
  exists b, s1, s'. split_and!; try done.
  - rewrite (tx_data r s1 _ b x Ht1); [by rewrite Hv1|by left].
  - congruence.
  - apply (same_rest_trans _ _ _ Hs1 Hs2).
Qed.

(** Changing one. *)
Lemma modify_tx r s H x (f : list Z → list Z) :
  tx (r + 1) s H → 0 ≤ r → sb_inodestart (sb s) ≤ x < dsize s → 0 ≤ x → x ∉ H.*2 → (length H ≤ 2)%nat →
  length (f (V s x)) = Z.to_nat BSIZE →
  ∃ b s1 s2 s', getblk pid s 1 x = Ret (b, s1) ∧ bdata s1 b = V s x ∧ sb s1 = sb s ∧
    blog (bstore s1 b (f (V s x))) b = Ret s2 ∧
    bput s2 b = Ret s' ∧ tx r s' H ∧ V s' = upd (V s) x (f (V s x)) ∧ same_rest s s'.
Proof.
  intros Ht Hr Hx Hx0 Hnx HH Hf. destruct (getblk_tx _ s H x Ht ltac:(lia) Hnx HH) as (b & s1 & He & Ht1 & Hv1 & Hs1).
  destruct (blog_tx r s1 _ b x (f (V s x)) Ht1 Hr) as (s2 & He2 & Ht2 & Hv2 & Hs2); [by left|by destruct Hs1 as [-> _]; apply Hx|done|].
  destruct (bput_tx r s2 H b x Ht2) as (s' & He3 & Ht3 & Hv3 & Hs3).
  exists b, s1, s2, s'. split_and!; try done.
  - rewrite (tx_data _ s1 _ b x Ht1); [by rewrite Hv1|by left].
  - apply Hs1.
  - congruence.
  - apply (same_rest_trans _ _ _ Hs1 (same_rest_trans _ _ _ Hs2 Hs3)).
Qed.

End tx.

(** ** Bits *)

Lemma bit_set_testbit d bi : 0 ≤ bi → bit_set d bi = Z.testbit (byte_at d (bi / 8)) (bi mod 8).
Proof.
  intros Hb. unfold bit_set, bit_of. pose proof (Z.mod_pos_bound bi 8 ltac:(lia)) as Hm.
  set (x := byte_at d (bi / 8)). set (k := bi mod 8) in *.
  destruct (Z.testbit x k) eqn:Ht.
  - apply negb_true_iff, Z.eqb_neq. intros H0. assert (Z.testbit (Z.land x (Z.shiftl 1 k)) k = false) as Hf by (rewrite H0; apply Z.testbit_0_l).
    rewrite Z.land_spec, Ht, Z.shiftl_spec, Z.sub_diag in Hf by lia. done.
  - apply negb_false_iff, Z.eqb_eq. apply Z.bits_inj'. intros n Hn. rewrite Z.land_spec, Z.testbit_0_l, Z.shiftl_spec by lia.
    destruct (decide (n = k)) as [->|Hne]; [by rewrite Ht|]. apply andb_false_iff. right.
    destruct (Z.ltb_spec (n - k) 0); [by apply Z.testbit_neg_r|]. change 1 with (2 ^ 0). apply Z.pow2_bits_false. lia.
Qed.

Lemma testbit_small x k : 0 ≤ x < 2 ^ 8 → 8 ≤ k → Z.testbit x k = false.
Proof.
  intros Hx Hk. destruct (Z.eq_dec x 0) as [->|Hx0]; [apply Z.testbit_0_l|].
  apply Z.bits_above_log2; [lia|]. apply Z.log2_lt_pow2; [lia|]. eapply Z.lt_le_trans; [apply Hx|]. apply Z.pow_le_mono_r; lia.
Qed.

Lemma byte_at_range d i : 0 ≤ byte_at d i < 2 ^ 8.
Proof. apply u8_range. Qed.

(** A byte whose bit [k] is set or cleared. *)
Lemma or_bit_byte x k : 0 ≤ x < 2 ^ 8 → 0 ≤ k < 8 →
  u8 (Z.lor x (Z.shiftl 1 k)) = Z.lor x (Z.shiftl 1 k) ∧
  ∀ j, 0 ≤ j → Z.testbit (Z.lor x (Z.shiftl 1 k)) j = Z.testbit x j || bool_decide (j = k).
Proof.
  intros Hx Hk. assert (Hbit : ∀ j, 0 ≤ j → Z.testbit (Z.lor x (Z.shiftl 1 k)) j = Z.testbit x j || bool_decide (j = k)).
  { intros j Hj. rewrite Z.lor_spec, Z.shiftl_spec by lia. f_equal. case_bool_decide as He; [subst; by rewrite Z.sub_diag|].
    destruct (Z.ltb_spec (j - k) 0); [by apply Z.testbit_neg_r|]. change 1 with (2 ^ 0). apply Z.pow2_bits_false. lia. }
  split; [|done]. unfold u8. rewrite <- Z.land_ones by lia. apply Z.bits_inj'. intros j Hj. rewrite Z.land_spec.
  destruct (Z.ltb_spec j 8); [rewrite Z.ones_spec_low, andb_true_r by lia; done|].
  rewrite Z.ones_spec_high, andb_false_r by lia. rewrite Hbit by lia. rewrite testbit_small by lia.
  rewrite bool_decide_eq_false_2 by lia. done.
Qed.

Lemma and_bit_byte x k : 0 ≤ x < 2 ^ 8 → 0 ≤ k < 8 →
  u8 (Z.land x (Z.lnot (Z.shiftl 1 k))) = Z.land x (Z.lnot (Z.shiftl 1 k)) ∧
  ∀ j, 0 ≤ j → Z.testbit (Z.land x (Z.lnot (Z.shiftl 1 k))) j = Z.testbit x j && negb (bool_decide (j = k)).
Proof.
  intros Hx Hk. assert (Hbit : ∀ j, 0 ≤ j →
    Z.testbit (Z.land x (Z.lnot (Z.shiftl 1 k))) j = Z.testbit x j && negb (bool_decide (j = k))).
  { intros j Hj. rewrite Z.land_spec, Z.lnot_spec, Z.shiftl_spec by lia. do 2 f_equal. case_bool_decide as He; [subst; by rewrite Z.sub_diag|].
    destruct (Z.ltb_spec (j - k) 0); [by apply Z.testbit_neg_r|]. change 1 with (2 ^ 0). apply Z.pow2_bits_false. lia. }
  split; [|done]. unfold u8. rewrite <- Z.land_ones by lia. apply Z.bits_inj'. intros j Hj. rewrite (Z.land_spec _ (Z.ones 8)).
  destruct (Z.ltb_spec j 8); [rewrite Z.ones_spec_low, andb_true_r by lia; done|].
  rewrite Z.ones_spec_high, andb_false_r by lia. rewrite Hbit by lia. rewrite testbit_small by lia. done.
Qed.

Lemma same_bit bi bj : 0 ≤ bi → 0 ≤ bj → bi / 8 = bj / 8 → bi mod 8 = bj mod 8 → bi = bj.
Proof. intros. rewrite (Z.div_mod bi 8), (Z.div_mod bj 8) by lia. congruence. Qed.

Lemma bit_set_set d bi bj :
  0 ≤ bi < 8 * Z.of_nat (length d) → 0 ≤ bj → bit_set (set_bit d bi) bj = bit_set d bj || bool_decide (bj = bi).
Proof.
  intros Hi Hj. rewrite !bit_set_testbit by done. unfold set_bit.
  pose proof (Z.mod_pos_bound bi 8 ltac:(lia)). pose proof (Z.mod_pos_bound bj 8 ltac:(lia)).
  assert (0 ≤ bi / 8 < Z.of_nat (length d)) by (split; [apply Z.div_pos; lia|apply Z.div_lt_upper_bound; lia]).
  destruct (or_bit_byte (byte_at d (bi / 8)) (bi mod 8) (byte_at_range _ _)) as [Hu Hb]; [lia|]. fold (bit_of bi) in Hu, Hb.
  rewrite byte_at_insert by (try lia; apply Z.div_pos; lia). case_decide as Hd.
  - rewrite Hu, Hb by lia. rewrite Hd. f_equal. apply bool_decide_ext. split; [intros He; symmetry; apply same_bit; [lia|lia|done|done]|by intros ->].
  - rewrite (bool_decide_eq_false_2 (bj = bi)), orb_false_r by (by intros ->). done.
Qed.

Lemma bit_set_clear d bi bj :
  0 ≤ bi < 8 * Z.of_nat (length d) → 0 ≤ bj → bit_set (clear_bit d bi) bj = bit_set d bj && negb (bool_decide (bj = bi)).
Proof.
  intros Hi Hj. rewrite !bit_set_testbit by done. unfold clear_bit.
  pose proof (Z.mod_pos_bound bi 8 ltac:(lia)). pose proof (Z.mod_pos_bound bj 8 ltac:(lia)).
  assert (0 ≤ bi / 8 < Z.of_nat (length d)) by (split; [apply Z.div_pos; lia|apply Z.div_lt_upper_bound; lia]).
  destruct (and_bit_byte (byte_at d (bi / 8)) (bi mod 8) (byte_at_range _ _)) as [Hu Hb]; [lia|]. fold (bit_of bi) in Hu, Hb.
  rewrite byte_at_insert by (try lia; apply Z.div_pos; lia). case_decide as Hd.
  - rewrite Hu, Hb by lia. rewrite Hd. do 2 f_equal. apply bool_decide_ext. split; [intros He; symmetry; apply same_bit; [lia|lia|done|done]|by intros ->].
  - rewrite (bool_decide_eq_false_2 (bj = bi)), andb_true_r by (by intros ->). done.
Qed.

Lemma find_clear_spec k bi b size d :
  match find_clear k bi b size d with
  | Some r => bi ≤ r < bi + Z.of_nat k ∧ b + r < size ∧ bit_set d r = false ∧ ∀ j, bi ≤ j < r → bit_set d j = true
  | None => ∀ j, bi ≤ j < bi + Z.of_nat k → b + j < size → bit_set d j = true
  end.
Proof.
  revert bi. induction k as [|k IH]; intros bi; cbn [find_clear]; [intros; lia|].
  destruct (Z.ltb_spec (b + bi) size); [|intros; lia].
  destruct (bit_set d bi) eqn:Hb; [|split_and!; try done; try lia; intros; lia].
  specialize (IH (bi + 1)). destruct (find_clear k (bi + 1) b size d) as [r|].
  - destruct IH as (? & ? & ? & Hall). split_and!; try done; try lia. intros j Hj.
    destruct (decide (j = bi)) as [->|]; [done|]. apply Hall. lia.
  - intros j Hj Hs. destruct (decide (j = bi)) as [->|]; [done|]. apply IH; lia.
Qed.

(** ** Block allocation *)

(** The parts of the disk as mkfs lays them out: inodes, bitmap, data. *)
Record layout (x : superblock) (dsz : Z) : Prop := {
  la_size : 0 < sb_size x ≤ dsz;
  la_disk : dsz < 2 ^ 31;
  la_inode : 2 ≤ sb_inodestart x;
  la_bmap : sb_inodestart x + sb_ninodes x / IPB < sb_bmapstart x;
  la_ninodes : 0 ≤ sb_ninodes x;
  la_data : sb_bmapstart x + sb_size x / BPB < sb_size x }.

Definition data_start (x : superblock) : Z := sb_bmapstart x + sb_size x / BPB + 1.

(** Block [b] is marked in the bitmap of [M]. *)
Definition used (x : superblock) (M : Z → list Z) (b : Z) : bool := bit_set (M (BBLOCK b x)) (b mod BPB).

(** Block [b] taken: marked and zeroed. *)
Definition zeros : list Z := replicate (Z.to_nat BSIZE) 0.
Definition mark (x : superblock) (M : Z → list Z) (b : Z) : Z → list Z :=
  upd M (BBLOCK b x) (set_bit (M (BBLOCK b x)) (b mod BPB)).
Definition take_block (x : superblock) (M : Z → list Z) (b : Z) : Z → list Z := upd (mark x M b) b zeros.

Lemma BPB_pos : 0 < BPB.
Proof. done. Qed.

Lemma BBLOCK_eq x dsz b :
  layout x dsz → 0 ≤ b < sb_size x → BBLOCK b x = b / BPB + sb_bmapstart x ∧ sb_bmapstart x ≤ BBLOCK b x < data_start x ∧
    2 ≤ sb_bmapstart x.
Proof.
  intros [H1 H2 H3 H4 H4' H5] Hb. pose proof BPB_pos. unfold BBLOCK, data_start.
  assert (0 ≤ b / BPB) by (apply Z.div_pos; lia). assert (b / BPB ≤ sb_size x / BPB) by (apply Z.div_le_mono; lia).
  assert (0 ≤ sb_ninodes x / IPB) by (by apply Z.div_pos).
  rewrite u32_small by (unfold is_u32; lia). lia.
Qed.

Lemma layout_data x dsz : layout x dsz → 0 ≤ sb_size x / BPB ∧ 2 < sb_bmapstart x ∧ sb_bmapstart x < data_start x.
Proof.
  intros [H1 H2 H3 H4 H4' H5]. unfold data_start. assert (0 ≤ sb_ninodes x / IPB) by (by apply Z.div_pos).
  assert (0 ≤ sb_size x / BPB) by (apply Z.div_pos; [lia|done]). lia.
Qed.

Lemma layout_start x dsz : layout x dsz → 2 ≤ sb_inodestart x < sb_bmapstart x ∧ sb_bmapstart x < data_start x.
Proof.
  intros Hl. destruct (layout_data x dsz Hl) as (_ & _ & ?). destruct Hl. assert (0 ≤ sb_ninodes x / IPB) by (by apply Z.div_pos). lia.
Qed.

Lemma length_set_bit d bi : length (set_bit d bi) = length d.
Proof. unfold set_bit. by rewrite length_insert. Qed.
Lemma length_clear_bit d bi : length (clear_bit d bi) = length d.
Proof. unfold clear_bit. by rewrite length_insert. Qed.

(** Blocks of one bitmap block differ in their bit. *)
Lemma BBLOCK_mod x dsz b c :
  layout x dsz → 0 ≤ b < sb_size x → 0 ≤ c < sb_size x → BBLOCK b x = BBLOCK c x → b mod BPB = c mod BPB → b = c.
Proof.
  intros Hl Hb Hc He Hm. destruct (BBLOCK_eq x dsz b Hl Hb) as [Eb _]. destruct (BBLOCK_eq x dsz c Hl Hc) as [Ec _].
  pose proof BPB_pos. rewrite (Z.div_mod b BPB), (Z.div_mod c BPB) by lia.
  assert (b / BPB = c / BPB) by lia. congruence.
Qed.

Lemma used_mark x dsz M b c :
  layout x dsz → 0 ≤ b < sb_size x → 0 ≤ c < sb_size x → length (M (BBLOCK b x)) = Z.to_nat BSIZE →
  used x (mark x M b) c = used x M c || bool_decide (c = b).
Proof.
  intros Hl Hb Hc Hlen. unfold used, mark. pose proof (Z.mod_pos_bound c BPB BPB_pos). pose proof (Z.mod_pos_bound b BPB BPB_pos).
  unfold upd. case_decide as He.
  - rewrite bit_set_set by (rewrite ?Hlen; unfold BPB, BSIZE in *; lia). rewrite He. f_equal. apply bool_decide_ext.
    split; [intros Hm; by apply (BBLOCK_mod x dsz)|by intros ->].
  - rewrite (bool_decide_eq_false_2 (c = b)), orb_false_r by (by intros ->). done.
Qed.

Lemma used_upd x dsz M a d c :
  layout x dsz → 0 ≤ c < sb_size x → data_start x ≤ a → used x (upd M a d) c = used x M c.
Proof.
  intros Hl Hc Ha. unfold used. rewrite upd_ne; [done|]. destruct (BBLOCK_eq x dsz c Hl Hc) as (_ & ? & _). lia.
Qed.

Section alloc.
  Context (pid : Z) {og : origin}.
  Local Notation tx := (txn og).

Lemma bzero_tx r s H a :
  tx (r + 1) s H → 0 ≤ r → sb_inodestart (sb s) ≤ a < dsize s → 0 ≤ a → a ∉ H.*2 → (length H ≤ 2)%nat →
  ∃ s', bzero pid s 1 a = Ret s' ∧ tx r s' H ∧ V s' = upd (V s) a zeros ∧ same_rest s s'.
Proof.
  intros Ht Hr Ha Ha0 Hn HH. destruct (modify_tx pid r s H a (λ _, zeros) Ht Hr Ha Ha0 Hn HH) as (b & s1 & s2 & s' & E1 & _ & _ & E2 & E3 & Ht' & Hv & Hs).
  { apply length_replicate. }
  exists s'. split; [|done]. unfold bzero. rewrite E1. cbn [obind]. fold zeros. rewrite E2. cbn [obind]. done.
Qed.

Lemma balloc_loop_tx n r s H b c :
  tx (r + 2) s H → 0 ≤ r → layout (sb s) (dsize s) → (length H ≤ 2)%nat →
  (∀ x, x ∈ H.*2 → data_start (sb s) ≤ x < sb_size (sb s) ∧ used (sb s) (V s) x = true) →
  0 ≤ b < sb_size (sb s) → sb_inodestart (sb s) ≤ b → used (sb s) (V s) b = false → (∀ j, 0 ≤ j < b → used (sb s) (V s) j = true) →
  0 ≤ c ≤ b → c mod BPB = 0 → (b - c) / BPB < Z.of_nat n →
  ∃ s', balloc_loop pid n s 1 c = Ret (b, s') ∧ tx r s' H ∧ V s' = take_block (sb s) (V s) b ∧ same_rest s s'.
Proof.
  revert s c. induction n as [|n IH]; intros s c Ht Hr Hl HH Hheld Hb Hbi0 Hfree Hall Hc Hmod Hn.
  { pose proof BPB_pos. assert (0 ≤ (b - c) / BPB) by (apply Z.div_pos; lia). lia. }
  pose proof BPB_pos as Hbp. cbn [balloc_loop]. rewrite (proj2 (Z.ltb_lt _ _)) by lia.
  destruct (BBLOCK_eq _ _ c Hl ltac:(lia)) as (Ec & Erc & _).
  destruct Hl as [L1 L2 L3 L4 L4' L5]. assert (Hl : layout (sb s) (dsize s)) by by split.
  assert (Hbit : ∀ j, 0 ≤ j < BPB → c + j < sb_size (sb s) → used (sb s) (V s) (c + j) = bit_set (V s (BBLOCK c (sb s))) j).
  { intros j Hj Hs. unfold used. destruct (BBLOCK_eq _ _ (c + j) Hl ltac:(lia)) as (Ej & _).
    rewrite Ej, Ec. rewrite (Z.add_mod c j), Hmod, Z.add_0_l, Z.mod_mod, Z.mod_small by lia.
    do 2 f_equal. f_equal. rewrite (Z.div_mod c BPB), Hmod, Z.add_0_r by lia. rewrite Z.mul_comm, Z.div_add_l by lia.
    rewrite (Z.div_small j) by lia. rewrite Z.div_mul by lia. lia. }
  assert (Hnh : BBLOCK c (sb s) ∉ H.*2) by (intros Hin%Hheld; unfold data_start in *; lia).
  assert (Hrange : 0 ≤ BBLOCK c (sb s) < dsize s ∧ sb_inodestart (sb s) ≤ BBLOCK c (sb s)).
  { assert (0 ≤ sb_ninodes (sb s) / IPB) by (by apply Z.div_pos). unfold data_start in *. lia. }
  destruct Hrange as [Hrange Hstart].
  pose proof (find_clear_spec (Z.to_nat BPB) 0 c (sb_size (sb s)) (V s (BBLOCK c (sb s)))) as Hf.
  assert (Hlen : length (V s (BBLOCK c (sb s))) = Z.to_nat BSIZE) by (by apply (tx_length _ _ _ Ht)).
  destruct (find_clear (Z.to_nat BPB) 0 c (sb_size (sb s)) (V s (BBLOCK c (sb s)))) as [bi|] eqn:Hfc.
  - destruct Hf as (Hbi & Hbs & Hclr & Hbefore).
    assert (b = c + bi) as ->.
    { destruct (Z.lt_trichotomy b (c + bi)) as [Hlt|[?|Hgt]]; [|done|].
      - specialize (Hbit (b - c) ltac:(lia) ltac:(lia)). replace (c + (b - c)) with b in Hbit by lia.
        rewrite Hfree, Hbefore in Hbit by lia. done.
      - specialize (Hbit bi ltac:(lia) ltac:(lia)). rewrite Hall, Hclr in Hbit by lia. done. }
    destruct (modify_tx pid (r + 1) s H (BBLOCK c (sb s)) (λ d, set_bit d bi)) as (bp & s1 & s2 & s3 & E1 & Ed & _ & E2 & E3 & Ht3 & Hv3 & Hs3);
      [by replace (r + 1 + 1) with (r + 2) by lia|lia|lia|lia|done|done|by rewrite length_set_bit|].
    destruct (bzero_tx r s3 H (c + bi)) as (s4 & E4 & Ht4 & Hv4 & Hs4); [done|done| |lia| |done|].
    { destruct Hs3 as (-> & _ & ->). lia. }
    { intros Hin%Hheld. destruct Hin as [_ Hin]. congruence. }
    exists s4. rewrite E1. cbn [obind]. rewrite Ed, Hfc, E2. cbn [obind]. rewrite E3. cbn [obind]. rewrite E4.
    split; [done|]. split; [done|]. split; [|by eapply same_rest_trans].
    rewrite Hv4, Hv3. unfold take_block, mark. f_equal.
    destruct (BBLOCK_eq _ _ (c + bi) Hl ltac:(lia)) as (Ej & _).
    assert (BBLOCK (c + bi) (sb s) = BBLOCK c (sb s)) as ->.
    { rewrite Ej, Ec. f_equal. rewrite (Z.div_mod c BPB), Hmod, Z.add_0_r by lia. rewrite Z.mul_comm, Z.div_add_l by lia.
      rewrite (Z.div_small bi) by lia. rewrite Z.div_mul by lia. lia. }
    rewrite (Z.add_mod c bi), Hmod, Z.add_0_l, Z.mod_mod, Z.mod_small by lia. done.
  - assert (Hge : c + BPB ≤ b).
    { destruct (Z.le_gt_cases (c + BPB) b) as [|Hlt]; [done|]. exfalso.
      specialize (Hbit (b - c) ltac:(lia) ltac:(lia)). replace (c + (b - c)) with b in Hbit by lia.
      rewrite Hfree, Hf in Hbit by lia. done. }
    destruct (read_tx pid (r + 2) s H (BBLOCK c (sb s)) Ht Hrange Hnh HH) as (bp & s1 & s2 & E1 & Ed & E2 & Ht2 & Hv2 & Hs2 & Hs1).
    destruct Hs2 as (Hs2a & Hs2b & Hs2c).
    destruct (IH s2 (c + BPB)) as (s' & E & Ht' & Hv' & Hs'); try (rewrite ?Hs2a, ?Hs2c, ?Hv2; done); try (rewrite ?Hs2a; lia).
    + rewrite Z.add_mod, Hmod, Z.mod_same by lia. done.
    + replace (b - (c + BPB)) with (b - c + (-1) * BPB) by lia. rewrite Z.div_add by lia. lia.
    + exists s'. rewrite E1. cbn [obind]. rewrite Ed, Hfc, E2. cbn [obind]. rewrite E. split; [done|]. split; [done|].
      split; [by rewrite Hv', Hv2, Hs2a|]. eapply same_rest_trans; [|done]. by split.
Qed.

Lemma balloc_tx r s H b :
  tx (r + 2) s H → 0 ≤ r → layout (sb s) (dsize s) → (length H ≤ 2)%nat →
  (∀ x, x ∈ H.*2 → data_start (sb s) ≤ x < sb_size (sb s) ∧ used (sb s) (V s) x = true) →
  0 ≤ b < sb_size (sb s) → sb_inodestart (sb s) ≤ b → used (sb s) (V s) b = false → (∀ j, 0 ≤ j < b → used (sb s) (V s) j = true) →
  ∃ s', balloc pid s 1 = Ret (b, s') ∧ tx r s' H ∧ V s' = take_block (sb s) (V s) b ∧ same_rest s s'.
Proof.
  intros Ht Hr Hl HH Hheld Hb Hb0 Hfree Hall. apply balloc_loop_tx; try done; [lia|].
  rewrite Z.sub_0_r. pose proof BPB_pos. assert (b / BPB ≤ sb_size (sb s) / BPB) by (apply Z.div_le_mono; lia).
  assert (0 ≤ b / BPB) by (apply Z.div_pos; lia). lia.
Qed.

End alloc.

(** ** Free blocks *)

Definition free_blocks (x : superblock) (M : Z → list Z) : list Z :=
  filter (λ b, used x M b = false) (seqZ 0 (sb_size x)).
Definition nfree (x : superblock) (M : Z → list Z) : nat := length (free_blocks x M).

Lemma elem_of_free x M b : b ∈ free_blocks x M ↔ 0 ≤ b < sb_size x ∧ used x M b = false.
Proof. unfold free_blocks. rewrite list_elem_of_filter, elem_of_seqZ. naive_solver lia. Qed.

(** The lowest free block. *)
Lemma least_free x M :
  (0 < nfree x M)%nat → ∃ b, 0 ≤ b < sb_size x ∧ used x M b = false ∧ ∀ j, 0 ≤ j < b → used x M j = true.
Proof.
  intros Hn. unfold nfree, free_blocks in Hn.
  assert (∃ b, 0 ≤ b < sb_size x ∧ used x M b = false) as (b & Hb & Hu).
  { destruct (filter (λ b, used x M b = false) (seqZ 0 (sb_size x))) as [|b l] eqn:He; [simpl in Hn; lia|].
    exists b. apply elem_of_free. unfold free_blocks. rewrite He. by left. }
  revert Hb Hu. induction b as [b IH] using (well_founded_induction (Z.lt_wf 0)). intros Hb Hu.
  destruct (decide (Exists (λ j, used x M j = false) (seqZ 0 b))) as [Hex|Hno].
  - apply Exists_exists in Hex as (j & Hj%elem_of_seqZ & Hju). apply (IH j); [lia|lia|done].
  - exists b. split_and!; [lia|lia|done|]. intros j Hj. destruct (used x M j) eqn:Hju; [done|].
    exfalso. apply Hno, Exists_exists. exists j. split; [apply elem_of_seqZ; lia|done].
Qed.

Lemma used_take x dsz M b c :
  layout x dsz → data_start x ≤ b < sb_size x → 0 ≤ c < sb_size x → length (M (BBLOCK b x)) = Z.to_nat BSIZE →
  used x (take_block x M b) c = used x M c || bool_decide (c = b).
Proof.
  intros Hl Hb Hc Hlen. unfold take_block. destruct (layout_data x dsz Hl) as (? & ? & ?).
  unfold data_start in Hb. rewrite (used_upd x dsz) by (done || (unfold data_start; lia)). apply (used_mark x dsz); try done; lia.
Qed.

Lemma nfree_take x dsz M b :
  layout x dsz → data_start x ≤ b < sb_size x → length (M (BBLOCK b x)) = Z.to_nat BSIZE → used x M b = false →
  (nfree x M ≤ S (nfree x (take_block x M b)))%nat.
Proof.
  intros Hl Hb Hlen Hu. destruct (layout_data x dsz Hl) as (? & ? & ?).
  change (S (nfree x (take_block x M b))) with (length (b :: free_blocks x (take_block x M b))). unfold nfree.
  apply submseteq_length, NoDup_submseteq; [apply NoDup_filter, NoDup_seqZ|].
  intros c [Hc Hcu]%elem_of_free. rewrite elem_of_cons, elem_of_free, (used_take x dsz) by done. rewrite Hcu. simpl.
  destruct (decide (c = b)); [by left|right]. split; [done|]. by apply bool_decide_eq_false.
Qed.

(** ** The block map of an inode *)

Definition indirect (a : list Z) : Z := nth 12 a 0.
Definition addr (M : Z → list Z) (a : list Z) (k : Z) : Z :=
  if Z.ltb k NDIRECT then nth (Z.to_nat k) a 0
  else if Z.eqb (indirect a) 0 then 0 else get32 (M (indirect a)) (4 * (k - NDIRECT)).

(** The blocks of the file. *)
Definition owns (M : Z → list Z) (a : list Z) (y : Z) : Prop :=
  y ≠ 0 ∧ (y = indirect a ∨ ∃ k, 0 ≤ k < MAXFILE ∧ addr M a k = y).

Record inode_ok (x : superblock) (M : Z → list Z) (a : list Z) : Prop := {
  io_length : length a = 13%nat;
  io_range y : owns M a y → data_start x ≤ y < sb_size x ∧ used x M y = true;
  io_inj k k' : 0 ≤ k < MAXFILE → 0 ≤ k' < MAXFILE → addr M a k ≠ 0 → addr M a k = addr M a k' → k = k';
  io_ind k : 0 ≤ k < MAXFILE → addr M a k ≠ 0 → addr M a k ≠ indirect a }.

(** How an operation on a file may change the blocks [M] and the addresses [a]:
    blocks of other files and the inodes keep their bytes, only free blocks are
    taken. *)
Record grow (x : superblock) (M : Z → list Z) (a : list Z) (M' : Z → list Z) (a' : list Z) : Prop := {
  g_ok : inode_ok x M' a';
  g_keep y : data_start x ≤ y < sb_size x → used x M y = true → ¬ owns M a y → M' y = M y;
  g_used y : 0 ≤ y < sb_size x → used x M y = true → used x M' y = true;
  g_own y : owns M' a' y → owns M a y ∨ used x M y = false;
  g_meta y : y < sb_bmapstart x → M' y = M y }.

Lemma grow_refl x M a : inode_ok x M a → grow x M a M a.
Proof. intros Hok. split; try done. by left. Qed.

Lemma grow_trans x dsz M0 a0 M1 a1 M2 a2 :
  layout x dsz → grow x M0 a0 M1 a1 → grow x M1 a1 M2 a2 → grow x M0 a0 M2 a2.
Proof.
  intros Hl [O1 K1 U1 W1 E1] [O2 K2 U2 W2 E2]. destruct (layout_data x dsz Hl) as (? & ? & ?).
  split; try done.
  - intros y Hy Hu Hno. assert (¬ owns M1 a1 y) by (intros Ho; destruct (W1 y Ho); congruence).
    rewrite K2, K1; try done. apply U1; [unfold data_start in Hy; lia|done].
  - intros y Hy Hu. by apply U2, U1.
  - intros y Ho. destruct (W2 y Ho) as [Ho1|Hf1]; [by apply W1|right].
    destruct (used x M0 y) eqn:Hu0; [|done]. exfalso. destruct (io_range _ _ _ O2 y Ho) as [Hr _].
    rewrite U1 in Hf1; [done| |done]. unfold data_start in Hr. lia.
  - intros y Hy. rewrite E2, E1; done.
Qed.

(** The bytes of a file: a block that is not there reads as zeros. *)
Definition content (M : Z → list Z) (a : list Z) (o : Z) : Z :=
  if Z.eqb (addr M a (o / BSIZE)) 0 then 0 else nth (Z.to_nat (o mod BSIZE)) (M (addr M a (o / BSIZE))) 0.

(** Other files keep their bytes. *)
Lemma grow_other x dsz M a M' a' b o :
  layout x dsz → grow x M a M' a' → inode_ok x M b → (∀ y, owns M a y → ¬ owns M b y) → 0 ≤ o < MAXFILE * BSIZE →
  content M' b o = content M b o.
Proof.
  intros Hl Hg Hb Hdis Ho.
  assert (Hk : ∀ y, owns M b y → M' y = M y).
  { intros y Hy. destruct (io_range _ _ _ Hb y Hy) as [Hr Hu]. apply (g_keep _ _ _ _ _ Hg); [done|done|]. intros Ha. by apply (Hdis y). }
  assert (Hadr : ∀ k, addr M' b k = addr M b k).
  { intros k. unfold addr. destruct (Z.ltb k NDIRECT); [done|]. destruct (Z.eqb_spec (indirect b) 0) as [|Hi]; [done|].
    rewrite Hk; [done|]. split; [done|by left]. }
  unfold content. rewrite Hadr. destruct (Z.eqb_spec (addr M b (o / BSIZE)) 0) as [|Hne]; [done|].
  rewrite Hk; [done|]. split; [done|]. right. exists (o / BSIZE). split; [|done].
  split; [apply Z.div_pos; [lia|done]|apply Z.div_lt_upper_bound; [done|lia]].
Qed.

(** A free block [b] is added to the file, at index [bn] or as its indirect block. *)
Lemma grow_new x dsz M a M' a' b bn :
  layout x dsz → inode_ok x M a → data_start x ≤ b < sb_size x → used x M b = false →
  (∀ c, 0 ≤ c < sb_size x → used x M' c = used x M c || bool_decide (c = b)) →
  (∀ y, y < sb_bmapstart x → M' y = M y) →
  (∀ y, data_start x ≤ y → y ≠ b → ¬ owns M a y → M' y = M y) →
  length a' = 13%nat →
  (∀ k, 0 ≤ k < MAXFILE → addr M' a' k = addr M a k ∨ (addr M' a' k = b ∧ k = bn)) →
  indirect a' = indirect a ∨ (indirect a' = b ∧ ∀ k, 0 ≤ k < MAXFILE → addr M' a' k = addr M a k) →
  grow x M a M' a'.
Proof.
  intros Hl Hok Hb Hfree Hused Hmeta Hkeep Hlen Haddr Hind. destruct (layout_data x dsz Hl) as (? & ? & ?).
  assert (Hnb : ¬ owns M a b) by (intros Ho; destruct (io_range _ _ _ Hok b Ho); congruence).
  assert (Hnk : ∀ k, 0 ≤ k < MAXFILE → addr M a k ≠ b).
  { intros k Hk He. apply Hnb. split; [lia|right; eauto]. }
  assert (Hni : indirect a ≠ b) by (intros He; apply Hnb; split; [lia|by left]).
  assert (Hown : ∀ y, owns M' a' y → owns M a y ∨ y = b).
  { intros y [Hy [->|(k & Hk & <-)]].
    - destruct Hind as [He|[He _]]; rewrite He in *; [left|by right]. split; [done|by left].
    - destruct (Haddr k Hk) as [He|[He _]]; rewrite He in *; [left|by right]. split; [done|right; eauto]. }
  split; try done.
  - split; try done.
    + intros y [Ho| ->]%Hown.
      * destruct (io_range _ _ _ Hok y Ho) as [Hr Hu]. split; [done|]. rewrite Hused, Hu by lia. done.
      * split; [done|]. rewrite Hused, bool_decide_eq_true_2, orb_true_r by (done || lia). done.
    + intros k k' Hk Hk' Hne He.
      destruct (Haddr k Hk) as [E|[E Ek]], (Haddr k' Hk') as [E'|[E' Ek']]; rewrite E, E' in *.
      * by apply (io_inj _ _ _ Hok).
      * exfalso. by apply (Hnk k Hk).
      * exfalso. by apply (Hnk k' Hk').
      * congruence.
    + intros k Hk Hne. destruct Hind as [Hi|[Hi Hall]].
      * rewrite Hi. destruct (Haddr k Hk) as [E|[E _]]; rewrite E in *; [by apply (io_ind _ _ _ Hok)|congruence].
      * rewrite Hi, Hall by done. by apply Hnk.
  - intros y Hy Hu Hno. apply Hkeep; [lia| |done]. intros ->. congruence.
  - intros y Hy Hu. by rewrite Hused, Hu.
  - intros y [Ho| ->]%Hown; [by left|by right].
Qed.

Lemma take_block_other x dsz M b y :
  layout x dsz → 0 ≤ b < sb_size x → y ≠ b → y < sb_bmapstart x ∨ data_start x ≤ y → take_block x M b y = M y.
Proof.
  intros Hl Hb Hne Hy. unfold take_block, mark. destruct (BBLOCK_eq x dsz b Hl Hb) as (_ & ? & _).
  rewrite !upd_ne by lia. done.
Qed.

Lemma nth_insert (a : list Z) i j v : nth i (<[j := v]> a) 0 = if decide (i = j ∧ (j < length a)%nat) then v else nth i a 0.
Proof.
  rewrite !nth_lookup. case_decide as Hd.
  - destruct Hd as [-> Hj]. by rewrite list_lookup_insert_eq.
  - destruct (decide (i = j)) as [->|Hne]; [|by rewrite list_lookup_insert_ne].
    rewrite !lookup_ge_None_2; [done|lia|rewrite length_insert; lia].
Qed.

(** A direct block. *)
Lemma grow_direct x dsz M a b bn :
  layout x dsz → inode_ok x M a → data_start x ≤ b < sb_size x → used x M b = false →
  length (M (BBLOCK b x)) = Z.to_nat BSIZE → 0 ≤ bn < NDIRECT → nth (Z.to_nat bn) a 0 = 0 →
  let a' := <[Z.to_nat bn := b]> a in let M' := take_block x M b in
  grow x M a M' a' ∧ (∀ k, 0 ≤ k < MAXFILE → addr M' a' k = if decide (k = bn) then b else addr M a k).
Proof.
  intros Hl Hok Hb Hfree Hlen Hbn Hz a' M'. destruct (layout_data x dsz Hl) as (? & ? & ?).
  pose proof (io_length _ _ _ Hok) as Ha. unfold NDIRECT in Hbn.
  assert (Hnb : ¬ owns M a b) by (intros Ho; destruct (io_range _ _ _ Hok b Ho); congruence).
  assert (Hi : indirect a' = indirect a).
  { unfold indirect, a'. rewrite nth_insert, decide_False by lia. done. }
  assert (HM : ∀ y, y ≠ b → y < sb_bmapstart x ∨ data_start x ≤ y → M' y = M y) by (intros; apply (take_block_other x dsz); [done|lia|done|done]).
  assert (Haddr : ∀ k, 0 ≤ k < MAXFILE → addr M' a' k = if decide (k = bn) then b else addr M a k).
  { intros k Hk. unfold addr. rewrite Hi. destruct (Z.ltb_spec k NDIRECT) as [Hlt|Hge].
    - unfold a'. rewrite nth_insert. repeat case_decide; subst; try done; lia.
    - unfold NDIRECT in Hge. rewrite decide_False by lia. destruct (Z.eqb_spec (indirect a) 0) as [|Hne]; [done|].
      assert (Ho : owns M a (indirect a)) by (split; [done|by left]). rewrite HM; [done|intros He; congruence|].
      right. by apply (io_range _ _ _ Hok). }
  split; [|done]. apply (grow_new x dsz M a M' a' b bn); try done.
  - intros c Hc. by apply (used_take x dsz).
  - intros y Hy. apply HM; [lia|by left].
  - intros y Hy Hne _. apply HM; [done|by right].
  - unfold a'. by rewrite length_insert.
  - intros k Hk. rewrite Haddr by done. case_decide; [right|left]; done.
  - by left.
Qed.

Lemma nth_zeros i : nth i zeros 0 = 0.
Proof. unfold zeros. rewrite nth_lookup. destruct (replicate _ _ !! i) eqn:He; [|done]. by apply lookup_replicate_1 in He as [-> _]. Qed.

Lemma get32_zeros o : get32 zeros o = 0.
Proof. unfold get32, byte_at. by rewrite !nth_zeros. Qed.

(** The indirect block. *)
Lemma grow_indirect x dsz M a b :
  layout x dsz → inode_ok x M a → data_start x ≤ b < sb_size x → used x M b = false →
  length (M (BBLOCK b x)) = Z.to_nat BSIZE → indirect a = 0 →
  let a' := <[12%nat := b]> a in let M' := take_block x M b in
  grow x M a M' a' ∧ (∀ k, 0 ≤ k < MAXFILE → addr M' a' k = addr M a k) ∧ indirect a' = b.
Proof.
  intros Hl Hok Hb Hfree Hlen Hz a' M'. destruct (layout_data x dsz Hl) as (? & ? & ?).
  pose proof (io_length _ _ _ Hok) as Ha.
  assert (Hi : indirect a' = b) by (unfold indirect, a'; rewrite nth_insert, decide_True by lia; done).
  assert (HM : ∀ y, y ≠ b → y < sb_bmapstart x ∨ data_start x ≤ y → M' y = M y) by (intros; apply (take_block_other x dsz); [done|lia|done|done]).
  assert (Haddr : ∀ k, 0 ≤ k < MAXFILE → addr M' a' k = addr M a k).
  { intros k Hk. unfold addr. rewrite Hi, Hz. destruct (Z.ltb_spec k NDIRECT) as [Hlt|Hge].
    - unfold a'. unfold NDIRECT in Hlt. rewrite nth_insert, decide_False by lia. done.
    - rewrite (proj2 (Z.eqb_neq b 0)) by lia. unfold M', take_block. rewrite upd_eq. simpl. apply get32_zeros. }
  split; [|done]. apply (grow_new x dsz M a M' a' b (-1)); try done.
  - intros c Hc. by apply (used_take x dsz).
  - intros y Hy. apply HM; [lia|by left].
  - intros y Hy Hne _. apply HM; [done|by right].
  - unfold a'. by rewrite length_insert.
  - intros k Hk. left. by apply Haddr.
  - by right.
Qed.

(** An entry of the indirect block. *)
Lemma grow_entry x dsz M a b bn :
  layout x dsz → inode_ok x M a → data_start x ≤ b < sb_size x → used x M b = false →
  length (M (BBLOCK b x)) = Z.to_nat BSIZE → NDIRECT ≤ bn < MAXFILE → indirect a ≠ 0 → addr M a bn = 0 →
  length (M (indirect a)) = Z.to_nat BSIZE →
  let M' := upd (take_block x M b) (indirect a) (put32 (M (indirect a)) (4 * (bn - NDIRECT)) b) in
  grow x M a M' a ∧ (∀ k, 0 ≤ k < MAXFILE → addr M' a k = if decide (k = bn) then b else addr M a k).
Proof.
  intros Hl Hok Hb Hfree Hlen Hbn Hne Hz Hil M'. destruct (layout_data x dsz Hl) as (? & ? & ?).
  assert (Hoi : owns M a (indirect a)) by (split; [done|by left]).
  destruct (io_range _ _ _ Hok _ Hoi) as [Hir Hiu]. pose proof Hl as [_ Hdsz _ _ _ _]. pose proof Hl as [Hsz _ _ _ _ _].
  assert (HM : ∀ y, y ≠ b → y ≠ indirect a → y < sb_bmapstart x ∨ data_start x ≤ y → M' y = M y).
  { intros y Hy1 Hy2 Hy3. unfold M'. rewrite upd_ne by done. apply (take_block_other x dsz); [done|lia|done|done]. }
  assert (HMAX : MAXFILE = 140) by reflexivity. unfold NDIRECT in Hbn.
  assert (Haddr : ∀ k, 0 ≤ k < MAXFILE → addr M' a k = if decide (k = bn) then b else addr M a k).
  { intros k Hk. unfold addr. destruct (Z.ltb_spec k NDIRECT) as [Hlt|Hge]; unfold NDIRECT in *; [rewrite decide_False by lia; done|].
    rewrite (proj2 (Z.eqb_neq _ _) Hne). unfold M'. rewrite upd_eq. case_decide as Hk'.
    - subst k. apply get32_put32_eq; [lia|rewrite Hil; unfold BSIZE; lia|]. lia.
    - apply get32_put32_ne; lia. }
  split; [|done]. apply (grow_new x dsz M a M' a b bn); try done.
  - intros c Hc. unfold M'. rewrite (used_upd x dsz) by (done || lia). by apply (used_take x dsz).
  - intros y Hy. apply HM; [lia|lia|by left].
  - intros y Hy Hyb Hno. apply HM; [done| |by right]. intros ->. done.
  - apply (io_length _ _ _ Hok).
  - intros k Hk. rewrite Haddr by done. case_decide; [right|left]; done.
  - by left.
Qed.

(** ** [bmap] *)

(** Inode [ip] is a file whose blocks are in order. *)
Record file_at (s : fs) (ip : nat) (i : inode) : Prop := {
  fa_ptr : icache s !! ip = Some i;
  fa_dev : i_dev i = 1;
  fa_ok : inode_ok (sb s) (V s) (i_addrs i);
  fa_layout : layout (sb s) (dsize s);
  fa_meta y : 0 ≤ y < data_start (sb s) → used (sb s) (V s) y = true }.

Lemma list_filter_iff' {A} (P Q : A → Prop) `{∀ x, Decision (P x), ∀ x, Decision (Q x)} (l : list A) :
  (∀ x, x ∈ l → P x ↔ Q x) → filter P l = filter Q l.
Proof.
  induction l as [|x l IH]; intros Hl; [done|].
  rewrite !filter_cons, IH by (intros y Hy; apply Hl; by right). specialize (Hl x ltac:(by left)).
  repeat case_decide; tauto.
Qed.

Section bmap.
  Context (pid : Z) {og : origin}.
  Local Notation tx := (txn og).

Lemma alloc_tx r s H :
  tx (r + 2) s H → 0 ≤ r → layout (sb s) (dsize s) → (length H ≤ 2)%nat →
  (∀ x, x ∈ H.*2 → data_start (sb s) ≤ x < sb_size (sb s) ∧ used (sb s) (V s) x = true) →
  (∀ y, 0 ≤ y < data_start (sb s) → used (sb s) (V s) y = true) → (0 < nfree (sb s) (V s))%nat →
  ∃ b s', balloc pid s 1 = Ret (b, s') ∧ tx r s' H ∧ V s' = take_block (sb s) (V s) b ∧ same_rest s s' ∧
    data_start (sb s) ≤ b < sb_size (sb s) ∧ used (sb s) (V s) b = false ∧ length (V s (BBLOCK b (sb s))) = Z.to_nat BSIZE ∧
    (nfree (sb s) (V s) ≤ S (nfree (sb s) (V s')))%nat.
Proof.
  intros Ht Hr Hl HH Hheld Hmeta Hn. destruct (least_free _ _ Hn) as (b & Hb & Hu & Hall).
  assert (Hd : data_start (sb s) ≤ b).
  { destruct (Z.le_gt_cases (data_start (sb s)) b); [done|]. rewrite Hmeta in Hu by lia. done. }
  pose proof (layout_start _ _ Hl) as Hst.
  destruct (balloc_tx pid r s H b Ht Hr Hl HH Hheld Hb ltac:(lia) Hu Hall) as (s' & He & Ht' & Hv & Hs).
  assert (Hlen : length (V s (BBLOCK b (sb s))) = Z.to_nat BSIZE).
  { apply (tx_length _ _ _ Ht). destruct (BBLOCK_eq _ _ b Hl Hb) as (_ & ? & ?). destruct Hl as [? ? ? ? ? ?]. unfold data_start in *. lia. }
  exists b, s'. split_and!; try done; try lia. rewrite Hv. apply (nfree_take _ (dsize s)); try done; lia.
Qed.

(** What [bmap] of block [bn] does: it may add blocks to the file, and gives the
    address of the block, new blocks being zeroed. *)
Record mapped (s : fs) (ip : nat) (i : inode) (bn a : Z) (s' : fs) (ad : list Z) : Prop := {
  mp_rest : sb s' = sb s ∧ dsize s' = dsize s;
  mp_icache : icache s' = <[ip := with_addrs ad i]> (icache s);
  mp_grow : grow (sb s) (V s) (i_addrs i) (V s') ad;
  mp_addr : addr (V s') ad bn = a ∧ a ≠ 0;
  mp_others k : 0 ≤ k < MAXFILE → k ≠ bn → addr (V s') ad k = addr (V s) (i_addrs i) k;
  mp_new : addr (V s) (i_addrs i) bn = a ∨ (addr (V s) (i_addrs i) bn = 0 ∧ V s' a = zeros);
  mp_data k : 0 ≤ k < MAXFILE → addr (V s) (i_addrs i) k ≠ 0 → V s' (addr (V s) (i_addrs i) k) = V s (addr (V s) (i_addrs i) k);
  mp_free : (nfree (sb s) (V s) ≤ nfree (sb s) (V s') + 2)%nat }.

Lemma with_addrs_same i : with_addrs (i_addrs i) i = i.
Proof. by destruct i. Qed.

(** The block is there. *)
Lemma mapped_present s ip i bn s' :
  file_at s ip i → 0 ≤ bn < MAXFILE → addr (V s) (i_addrs i) bn ≠ 0 → V s' = V s → same_rest s s' →
  mapped s ip i bn (addr (V s) (i_addrs i) bn) s' (i_addrs i).
Proof.
  intros [Hp _ Hok _ _] Hbn Hne HV (Hs1 & Hs2 & Hs3). split; rewrite ?HV; try done; try lia.
  - rewrite with_addrs_same, list_insert_id by done. done.
  - by apply grow_refl.
Qed.

(** Blocks of the file keep their bytes when a free block is taken. *)
Lemma take_owned x dsz M a b y :
  layout x dsz → inode_ok x M a → data_start x ≤ b < sb_size x → used x M b = false → owns M a y → take_block x M b y = M y.
Proof.
  intros Hl Hok Hb Hu Ho. destruct (layout_data x dsz Hl) as (? & ? & ?). destruct (io_range _ _ _ Hok y Ho) as [Hr Huy].
  apply (take_block_other x dsz); [done|lia|congruence|right; lia].
Qed.

Lemma iset_insert s s' ip i f : icache s !! ip = Some i → icache s' = icache s → icache (iset s' ip f) = <[ip := f i]> (icache s).
Proof. intros Hp He. unfold iset. simpl. rewrite He. apply list_eq. intros j. destruct (decide (j = ip)) as [->|Hne].
  - rewrite list_lookup_alter_eq, list_lookup_insert_eq by (by eapply lookup_lt_Some). by rewrite Hp.
  - by rewrite list_lookup_alter_ne, list_lookup_insert_ne.
Qed.

Lemma tx_iset r s H ip f : tx r (iset s ip f) H ↔ tx r s H.
Proof. done. Qed.
Lemma V_iset s ip f : V (iset s ip f) = V s.
Proof. done. Qed.

Lemma bmap_direct r s ip i bn :
  tx (r + 2) s [] → 0 ≤ r → file_at s ip i → 0 ≤ bn < NDIRECT → (0 < nfree (sb s) (V s))%nat →
  ∃ a s' ad, bmap pid s ip bn = Ret (a, s') ∧ tx r s' [] ∧ mapped s ip i bn a s' ad.
Proof.
  intros Ht Hr Hf Hbn Hn. pose proof Hf as [Hp Hdev Hok Hl Hmeta]. pose proof (io_length _ _ _ Hok) as Hlen.
  assert (HMAX : MAXFILE = 140) by reflexivity. unfold NDIRECT in Hbn.
  assert (Hnth : aget (i_addrs i) bn "ip->addrs" = Ret (nth (Z.to_nat bn) (i_addrs i) 0)) by (apply aget_entry; lia).
  assert (Haddr : addr (V s) (i_addrs i) bn = nth (Z.to_nat bn) (i_addrs i) 0).
  { unfold addr. rewrite (proj2 (Z.ltb_lt _ _)) by (unfold NDIRECT; lia). done. }
  unfold bmap, iptr. rewrite Hp. cbn [obind]. rewrite (proj2 (Z.ltb_lt _ _)) by (unfold NDIRECT; lia). rewrite Hnth. cbn [obind].
  destruct (Z.eqb_spec (nth (Z.to_nat bn) (i_addrs i) 0) 0) as [Hz|Hz].
  - destruct (alloc_tx r s [] Ht Hr Hl) as (b & s1 & He & Ht1 & Hv1 & (Hs1 & Hs2 & Hs3) & Hb & Hu & Hlb & Hfree);
      [simpl; lia|intros x Hx; by apply elem_of_nil in Hx|done|done|].
    rewrite Hdev, He. cbn [obind].
    destruct (grow_direct (sb s) (dsize s) (V s) (i_addrs i) b bn Hl Hok Hb Hu Hlb Hbn Hz) as [Hg Ha].
    destruct (layout_data _ _ Hl) as (? & ? & ?).
    exists b, (set_addr ip bn b s1), (<[Z.to_nat bn := b]> (i_addrs i)). split; [done|]. split; [done|].
    assert (HV : V (set_addr ip bn b s1) = take_block (sb s) (V s) b) by (unfold set_addr; by rewrite V_iset).
    split; rewrite ?HV; try done.
    + unfold set_addr. by rewrite (iset_insert s s1 ip i).
    + rewrite Ha, decide_True by lia. split; [done|lia].
    + intros k Hk Hkb. by rewrite Ha, decide_False.
    + right. rewrite Haddr. split; [done|]. unfold take_block. by rewrite upd_eq.
    + intros k Hk Hne. apply (take_owned _ (dsize s) _ (i_addrs i)); try done. split; [done|right; eauto].
    + rewrite <- Hv1. lia.
  - exists (nth (Z.to_nat bn) (i_addrs i) 0), s, (i_addrs i). split; [done|]. split; [apply (tx_weaken (r + 2)); [done|lia]|].
    rewrite <- Haddr. apply mapped_present; [done|lia|by rewrite Haddr|done|apply same_rest_refl].
Qed.

(** [bmap] from the read of the indirect block on. *)
Lemma bmap_entry r s ip i bn :
  tx (r + 3) s [] → 0 ≤ r → file_at s ip i → NDIRECT ≤ bn < MAXFILE → indirect (i_addrs i) ≠ 0 → (0 < nfree (sb s) (V s))%nat →
  ∃ a s',
    (let! (bp, s2) := getblk pid s (i_dev i) (indirect (i_addrs i)) in
     let addr := get32 (bdata s2 bp) (4 * (bn - NDIRECT)) in
     if Z.eqb addr 0 then
       let! (a, s3) := balloc pid s2 (i_dev i) in
       let! s4 := blog (bstore s3 bp (put32 (bdata s3 bp) (4 * (bn - NDIRECT)) a)) bp in
       let! s5 := bput s4 bp in
       Ret (a, s5)
     else
       let! s3 := bput s2 bp in
       Ret (addr, s3)) = Ret (a, s') ∧ tx r s' [] ∧ mapped s ip i bn a s' (i_addrs i) ∧
    (nfree (sb s) (V s) ≤ S (nfree (sb s) (V s')))%nat.
Proof.
  intros Ht Hr Hf Hbn Hind Hn. pose proof Hf as [Hp Hdev Hok Hl Hmeta]. pose proof (io_length _ _ _ Hok) as Hlen.
  assert (HMAX : MAXFILE = 140) by reflexivity. assert (HND : NDIRECT = 12) by reflexivity. destruct (layout_data _ _ Hl) as (? & ? & ?).
  set (ind := indirect (i_addrs i)) in *.
  assert (Hoi : owns (V s) (i_addrs i) ind) by (split; [done|by left]).
  destruct (io_range _ _ _ Hok _ Hoi) as [Hir Hiu]. pose proof Hl as [Hsz _ _ _ _ _].
  assert (Hadr : addr (V s) (i_addrs i) bn = get32 (V s ind) (4 * (bn - NDIRECT))).
  { unfold addr. rewrite (proj2 (Z.ltb_ge _ _)) by lia. fold ind. by rewrite (proj2 (Z.eqb_neq _ _) Hind). }
  destruct (getblk_tx pid (r + 3) s [] ind Ht) as (bp & s2 & E2 & Ht2 & Hv2 & Hs2); [lia|apply not_elem_of_nil|simpl; lia|].
  pose proof (tx_data _ _ _ bp ind Ht2 ltac:(by left)) as Hbd. rewrite Hv2 in Hbd.
  rewrite Hdev, E2. cbn [obind]. rewrite Hbd, <- Hadr.
  destruct (Z.eqb_spec (addr (V s) (i_addrs i) bn) 0) as [Hz|Hz].
  - destruct Hs2 as (Hs2a & Hs2b & Hs2c).
    destruct (alloc_tx (r + 1) s2 [(bp, ind)]) as (b & s3 & E3 & Ht3 & Hv3 & (Hs3a & Hs3b & Hs3c) & Hb & Hu & Hlb & Hfree);
      rewrite ?Hs2a, ?Hs2c, ?Hv2; try done; try lia.
    { by replace (r + 1 + 2) with (r + 3) by lia. }
    { simpl. lia. }
    { intros x Hx. simpl in Hx. apply list_elem_of_singleton in Hx as ->. done. }
    rewrite Hs2a in Hb, Hu, Hlb, Hfree, Hv3. rewrite Hv2 in Hu, Hlb, Hfree, Hv3. rewrite E3. cbn [obind].
    assert (Hib : ind ≠ b) by (intros ->; congruence).
    assert (Hbd3 : bdata s3 bp = V s ind).
    { rewrite (tx_data _ _ _ bp ind Ht3) by (by left). rewrite Hv3. by apply (take_owned _ (dsize s) _ (i_addrs i)). }
    rewrite Hbd3.
    assert (Hil : length (V s ind) = Z.to_nat BSIZE) by (apply (tx_length _ _ _ Ht); lia).
    destruct (blog_tx r s3 _ bp ind (put32 (V s ind) (4 * (bn - NDIRECT)) b) Ht3 Hr) as (s4 & E4 & Ht4 & Hv4 & Hs4);
      [by left|rewrite Hs3a, Hs2a; pose proof (layout_start _ _ Hl); lia|by rewrite length_put32|].
    rewrite E4. cbn [obind]. destruct (bput_tx r s4 [] bp ind Ht4) as (s5 & E5 & Ht5 & Hv5 & Hs5). rewrite E5. cbn [obind].
    destruct (grow_entry (sb s) (dsize s) (V s) (i_addrs i) b bn Hl Hok Hb Hu Hlb Hbn Hind Hz Hil) as [Hg Ha].
    fold ind in Hg, Ha. rewrite <- Hv3, <- Hv4, <- Hv5 in Hg, Ha.
    destruct (same_rest_trans _ _ _ Hs4 Hs5) as (Hs5a & Hs5b & Hs5c).
    assert (Hnf' : (nfree (sb s) (V s) ≤ S (nfree (sb s) (V s5)))%nat).
    { rewrite Hv3 in Hfree. rewrite Hv5, Hv4, Hv3.
      assert (Hnf : free_blocks (sb s) (upd (take_block (sb s) (V s) b) ind (put32 (V s ind) (4 * (bn - NDIRECT)) b)) =
        free_blocks (sb s) (take_block (sb s) (V s) b)).
      { unfold free_blocks. apply list_filter_iff'. intros c Hc%elem_of_seqZ. rewrite (used_upd _ (dsize s)); [done|done|lia|lia]. }
      unfold nfree in *. rewrite Hnf. lia. }
    exists b, s5. split; [done|]. split; [done|]. split; [|done]. split; try done; try lia.
    + split; congruence.
    + rewrite with_addrs_same, list_insert_id by done. congruence.
    + rewrite Ha, decide_True by lia. split; [done|lia].
    + intros k Hk Hkb. by rewrite Ha, decide_False.
    + right. split; [done|]. rewrite Hv5, Hv4, upd_ne by done. rewrite Hv3. unfold take_block. by rewrite upd_eq.
    + intros k Hk Hne. rewrite Hv5, Hv4, upd_ne by (by apply (io_ind _ _ _ Hok)). rewrite Hv3.
      apply (take_owned _ (dsize s) _ (i_addrs i)); try done. split; [done|right; eauto].
  - destruct (bput_tx _ s2 [] bp ind Ht2) as (s3 & E3 & Ht3 & Hv3 & Hs3). rewrite E3. cbn [obind].
    exists (addr (V s) (i_addrs i) bn), s3. split; [done|]. split; [apply (tx_weaken (r + 3)); [done|lia]|].
    assert (HV : V s3 = V s) by congruence.
    split; [apply mapped_present; [done|lia|done|done|by eapply same_rest_trans]|]. rewrite HV. lia.
Qed.

(** The file after a step that grew it. *)
Lemma file_grow s ip i s' ad :
  file_at s ip i → sb s' = sb s → dsize s' = dsize s → icache s' !! ip = Some (with_addrs ad i) →
  grow (sb s) (V s) (i_addrs i) (V s') ad → file_at s' ip (with_addrs ad i).
Proof.
  intros [Hp Hdev Hok Hl Hmeta] Hs1 Hs3 Hp' Hg. split; rewrite ?Hs1, ?Hs3; try done; [apply Hg|].
  intros y Hy. pose proof Hl as [? ? ? ? ? ?]. apply (g_used _ _ _ _ _ Hg); [unfold data_start in Hy; lia|by apply Hmeta].
Qed.

Lemma bmap_tx r s ip i bn :
  tx (r + 5) s [] → 0 ≤ r → file_at s ip i → 0 ≤ bn < MAXFILE → (2 ≤ nfree (sb s) (V s))%nat →
  ∃ a s' ad, bmap pid s ip bn = Ret (a, s') ∧ tx r s' [] ∧ mapped s ip i bn a s' ad.
Proof.
  intros Ht Hr Hf Hbn Hn. destruct (Z.lt_ge_cases bn NDIRECT) as [Hlt|Hge].
  { apply bmap_direct; [apply (tx_weaken (r + 5)); [done|lia]|lia|done|lia|lia]. }
  pose proof Hf as [Hp Hdev Hok Hl Hmeta]. pose proof (io_length _ _ _ Hok) as Hlen.
  assert (Hnth : aget (i_addrs i) NDIRECT "ip->addrs" = Ret (indirect (i_addrs i))) by (apply aget_entry; unfold NDIRECT; lia).
  unfold bmap, iptr. rewrite Hp. cbn [obind]. rewrite (proj2 (Z.ltb_ge bn _)) by lia.
  rewrite (proj2 (Z.ltb_lt _ _)) by (unfold MAXFILE, NDIRECT in *; lia). rewrite Hnth. cbn [obind].
  destruct (Z.eqb_spec (indirect (i_addrs i)) 0) as [Hz|Hz].
  - destruct (alloc_tx (r + 3) s []) as (b & s1 & E1 & Ht1 & Hv1 & (Hs1a & Hs1b & Hs1c) & Hb & Hu & Hlb & Hfree); try done;
      [by replace (r + 3 + 2) with (r + 5) by lia|lia|simpl; lia|intros x Hx; by apply elem_of_nil in Hx|lia|].
    destruct (grow_indirect (sb s) (dsize s) (V s) (i_addrs i) b Hl Hok Hb Hu Hlb Hz) as (Hg & Ha & Hi').
    set (a1 := <[12%nat := b]> (i_addrs i)) in *. set (s1' := set_addr ip NDIRECT b s1).
    rewrite <- Hv1 in Hg, Ha. change (V s1) with (V s1') in Hg, Ha.
    assert (Hic : icache s1' = <[ip := with_addrs a1 i]> (icache s)).
    { unfold s1', set_addr. by rewrite (iset_insert s s1 ip i). }
    assert (Hf1 : file_at s1' ip (with_addrs a1 i)).
    { apply (file_grow s ip i s1' a1); try done. rewrite Hic. apply list_lookup_insert_eq. by eapply lookup_lt_Some. }
    destruct (layout_data _ _ Hl) as (? & ? & ?). pose proof (g_ok _ _ _ _ _ Hg) as Hok1.
    destruct (bmap_entry r s1' ip (with_addrs a1 i) bn) as (a & s' & E & Ht' & [Mr Mi Mg Ma Mo Mn Md _] & Mf); try done.
    { lia. }
    { cbn [i_addrs with_addrs]. rewrite Hi'. lia. }
    { change (sb s1') with (sb s1). change (V s1') with (V s1). rewrite Hs1a. lia. }
    cbn [i_addrs with_addrs] in *. cbn [i_dev with_addrs] in E. rewrite Hi' in E.
    exists a, s', a1. rewrite Hdev, E1. cbn [obind]. fold s1'. rewrite Hdev in E. rewrite E. split; [done|]. split; [done|].
    change (sb s1') with (sb s1) in *. rewrite Hs1a in *.
    split; try done.
    + split; [by destruct Mr|]. destruct Mr as [_ ->]. done.
    + rewrite Mi, Hic. by rewrite list_insert_insert_eq.
    + by apply (grow_trans _ (dsize s) _ _ (V s1') a1).
    + intros k Hk Hkb. rewrite Mo by done. by apply Ha.
    + rewrite Ha in Mn by done. done.
    + intros k Hk Hne. rewrite <- (Ha k Hk) in Hne |- *. rewrite Md by done. rewrite Ha in Hne |- * by done.
      transitivity (V s1 (addr (V s) (i_addrs i) k)); [done|]. rewrite Hv1.
      apply (take_owned _ (dsize s) _ (i_addrs i)); try done. split; [done|right; eauto].
    + change (V s1') with (V s1) in Mf. lia.
  - cbn [obind]. destruct (bmap_entry r s ip i bn) as (a & s' & E & Ht' & Hm & _); try done.
    { apply (tx_weaken (r + 5)); [done|lia]. }
    { lia. }
    { lia. }
    exists a, s', (i_addrs i). split; [exact E|]. done.
Qed.

End bmap.

(** ** Bytes of blocks *)

Lemma length_splice d o src : 0 ≤ o → (Z.to_nat o + length src ≤ length d)%nat → length (splice d o src) = length d.
Proof. intros Ho Hl. unfold splice. rewrite !length_app, length_take, length_drop. lia. Qed.

Lemma nth_splice d o src j :
  0 ≤ o → (Z.to_nat o + length src ≤ length d)%nat →
  nth j (splice d o src) 0 = if decide ((Z.to_nat o ≤ j < Z.to_nat o + length src)%nat) then nth (j - Z.to_nat o) src 0 else nth j d 0.
Proof.
  intros Ho Hl. unfold splice. rewrite !nth_lookup. destruct (decide (j < Z.to_nat o)%nat) as [H1|H1].
  - rewrite decide_False by lia. rewrite lookup_app_l by (rewrite length_take; lia). rewrite lookup_take_lt by lia. done.
  - rewrite lookup_app_r by (rewrite length_take; lia). rewrite length_take, Nat.min_l by lia. case_decide as Hd.
    + rewrite lookup_app_l by lia. done.
    + rewrite lookup_app_r by lia. rewrite lookup_drop. do 2 f_equal. lia.
Qed.

Lemma slice_map d o n :
  0 ≤ o → 0 ≤ n → o + n ≤ Z.of_nat (length d) → slice d o n = map (λ j, nth (Z.to_nat (o + j)) d 0) (seqZ 0 n).
Proof.
  intros Ho Hn Hl. unfold slice. apply list_eq. intros j.
  change (map (λ j, nth (Z.to_nat (o + j)) d 0) (seqZ 0 n)) with ((λ j, nth (Z.to_nat (o + j)) d 0) <$> seqZ 0 n).
  rewrite list_lookup_fmap. destruct (decide (Z.of_nat j < n)) as [Hj|Hj].
  - rewrite lookup_take_lt by lia. rewrite lookup_drop, lookup_seqZ_lt by lia. simpl.
    destruct (lookup_lt_is_Some_2 d (Z.to_nat o + j)) as [v Hv]; [lia|]. rewrite Hv. f_equal. symmetry. apply nth_lookup_Some.
    rewrite <- Hv. f_equal. lia.
  - rewrite lookup_take_ge by lia. rewrite lookup_seqZ_ge by lia. done.
Qed.

(** ** One block of a transfer *)

Lemma off_block o : 0 ≤ o < MAXFILE * BSIZE → 0 ≤ o / BSIZE < MAXFILE ∧ 0 ≤ o mod BSIZE < BSIZE ∧ o = BSIZE * (o / BSIZE) + o mod BSIZE.
Proof.
  intros Ho. pose proof (Z.mod_pos_bound o BSIZE ltac:(done)). pose proof (Z.div_mod o BSIZE ltac:(done)).
  split_and!; try lia; [apply Z.div_pos; [lia|done]|apply Z.div_lt_upper_bound; [done|lia]].
Qed.

Lemma mapped_content s ip i bn a s' ad o :
  mapped s ip i bn a s' ad → 0 ≤ bn < MAXFILE → 0 ≤ o < MAXFILE * BSIZE → content (V s') ad o = content (V s) (i_addrs i) o.
Proof.
  intros [_ _ _ [Ha Hne] Mo Mn Md _] Hbn Ho. destruct (off_block o Ho) as (Hb & Hm & _). unfold content.
  destruct (decide (o / BSIZE = bn)) as [->|Hk].
  - rewrite Ha, (proj2 (Z.eqb_neq _ _) Hne). destruct Mn as [Mn|[Mn Mz]].
    + rewrite Mn, (proj2 (Z.eqb_neq _ _) Hne). rewrite <- Mn, Md; [done|done|congruence].
    + rewrite Mn, Mz. change (Z.eqb 0 0) with true. cbv iota. by rewrite nth_zeros.
  - rewrite Mo by done. destruct (Z.eqb_spec (addr (V s) (i_addrs i) (o / BSIZE)) 0); [done|]. by rewrite Md.
Qed.

(** A store to a data block of the file. *)
Lemma grow_write x dsz M a bn d :
  layout x dsz → inode_ok x M a → 0 ≤ bn < MAXFILE → addr M a bn ≠ 0 →
  let M' := upd M (addr M a bn) d in
  grow x M a M' a ∧ (∀ k, addr M' a k = addr M a k) ∧
  ∀ o, 0 ≤ o < MAXFILE * BSIZE →
    content M' a o = if decide (o / BSIZE = bn) then nth (Z.to_nat (o mod BSIZE)) d 0 else content M a o.
Proof.
  intros Hl Hok Hbn Hne M'. destruct (layout_data x dsz Hl) as (? & ? & ?).
  assert (Hoy : owns M a (addr M a bn)) by (split; [done|right; eauto]).
  destruct (io_range _ _ _ Hok _ Hoy) as [Hyr Hyu].
  assert (Haddr : ∀ k, addr M' a k = addr M a k).
  { intros k. assert (Hyi : indirect a ≠ addr M a bn) by (intros He; by apply (io_ind _ _ _ Hok bn)).
    unfold M'. set (y := addr M a bn) in *. unfold addr. destruct (Z.ltb k NDIRECT); [done|].
    destruct (Z.eqb_spec (indirect a) 0); [done|]. by rewrite upd_ne. }
  assert (Hown : ∀ y, owns M' a y ↔ owns M a y) by (intros y; unfold owns; by setoid_rewrite Haddr).
  split; [split|split; [done|]].
  - destruct Hok as [H1' H2' H3' H4']. split; try done; [|intros k k'|intros k]; rewrite ?Haddr; auto.
    intros y Ho%Hown. destruct (H2' y Ho) as [Hr Hu]. split; [done|]. unfold M'. rewrite (used_upd x dsz); [done|done|lia|lia].
  - intros y Hy Hu Hno. unfold M'. apply upd_ne. by intros ->.
  - intros y Hy Hu. unfold M'. rewrite (used_upd x dsz); [done|done|lia|lia].
  - intros y Ho%Hown. by left.
  - intros y Hy. unfold M'. apply upd_ne. lia.
  - intros o Ho. destruct (off_block o Ho) as (Hb & Hm & _). unfold content. rewrite Haddr. case_decide as Hk.
    + rewrite Hk, (proj2 (Z.eqb_neq _ _) Hne). unfold M'. by rewrite upd_eq.
    + destruct (Z.eqb_spec (addr M a (o / BSIZE)) 0) as [|Hz]; [done|]. unfold M'. rewrite upd_ne; [done|].
      intros He. apply Hk. by apply (io_inj _ _ _ Hok).
Qed.

(** No block of the file goes away, and those of [n] bytes from [off] are there. *)
Definition fills (M : Z → list Z) (a : list Z) (M' : Z → list Z) (a' : list Z) (off n : Z) : Prop :=
  (∀ k, 0 ≤ k < MAXFILE → addr M a k ≠ 0 → addr M' a' k ≠ 0) ∧
  ∀ o, off ≤ o < off + n → addr M' a' (o / BSIZE) ≠ 0.

Lemma mapped_fills s ip i bn a s' ad k :
  mapped s ip i bn a s' ad → 0 ≤ k < MAXFILE → addr (V s) (i_addrs i) k ≠ 0 → addr (V s') ad k ≠ 0.
Proof.
  intros [_ _ _ [Ha Hne] Mo _ _ _] Hk Hk0. destruct (decide (k = bn)) as [->|Hkb]; [congruence|]. by rewrite Mo.
Qed.

(** The file keeps its identity through a step. *)
Record file_step (s : fs) (ip : nat) (i : inode) (s' : fs) (ad : list Z) : Prop := {
  fp_rest : sb s' = sb s ∧ dsize s' = dsize s;
  fp_icache : icache s' = <[ip := with_addrs ad i]> (icache s);
  fp_grow : grow (sb s) (V s) (i_addrs i) (V s') ad }.

Lemma file_step_at s ip i s' ad : file_at s ip i → file_step s ip i s' ad → file_at s' ip (with_addrs ad i).
Proof.
  intros Hf [[Hs1 Hs2] Hic Hg]. apply (file_grow s ip i); try done. rewrite Hic. apply list_lookup_insert_eq.
  apply lookup_lt_Some with i. apply Hf.
Qed.

Lemma file_step_trans s ip i s1 a1 s2 a2 :
  file_at s ip i → file_step s ip i s1 a1 → file_step s1 ip (with_addrs a1 i) s2 a2 → file_step s ip i s2 a2.
Proof.
  intros Hf [[R1 R2] I1 G1] [[R3 R4] I2 G2]. split.
  - split; congruence.
  - rewrite I2, I1. by rewrite list_insert_insert_eq.
  - rewrite R1 in G2. apply (grow_trans _ (dsize s) _ _ (V s1) a1); [apply Hf|done|done].
Qed.

(** ** The loops of [readi] and [writei] *)

Section rw.
  Context (pid : Z) {og : origin}.
  Local Notation tx := (txn og).

Lemma mapped_step s ip i bn a s' ad : mapped s ip i bn a s' ad → file_step s ip i s' ad.
Proof. by intros [? ? ? _ _ _ _ _]. Qed.

(** [n] bytes from [off] lie in [K] blocks. *)
Definition in_blocks (off n : Z) (K : nat) : Prop := n = 0 ∨ off mod BSIZE + n ≤ Z.of_nat K * BSIZE.

Lemma in_blocks_next off n K :
  0 ≤ off → 0 < n → in_blocks off n (S K) → let m := Z.min n (BSIZE - off mod BSIZE) in
  0 < m ≤ n ∧ m ≤ BSIZE - off mod BSIZE ∧ in_blocks (off + m) (n - m) K.
Proof.
  intros Ho Hn Hb m. pose proof (Z.mod_pos_bound off BSIZE ltac:(done)) as Hm. split_and!; [lia|lia|lia|].
  destruct (Z.le_gt_cases n (BSIZE - off mod BSIZE)); [left; lia|right].
  assert (Hmod : (off + m) mod BSIZE = 0).
  { pose proof (Z.div_mod off BSIZE ltac:(done)). replace (off + m) with ((off / BSIZE + 1) * BSIZE) by lia. by apply Z.mod_mul. }
  rewrite Hmod. destruct Hb as [?|Hb]; lia.
Qed.

(** Offsets inside the block of [off] from [off] on. *)
Lemma same_block off m o :
  0 ≤ off → 0 < m ≤ BSIZE - off mod BSIZE → 0 ≤ o →
  (off ≤ o < off + m ↔ o / BSIZE = off / BSIZE ∧ off mod BSIZE ≤ o mod BSIZE < off mod BSIZE + m).
Proof.
  intros Ho Hm Hoo. pose proof (Z.mod_pos_bound off BSIZE ltac:(done)). pose proof (Z.mod_pos_bound o BSIZE ltac:(done)).
  pose proof (Z.div_mod off BSIZE ltac:(done)). pose proof (Z.div_mod o BSIZE ltac:(done)). unfold BSIZE in *. split.
  - intros Hr. assert (o / 512 = off / 512); [|lia]. symmetry. apply Z.div_unique with (o - 512 * (off / 512)); lia.
  - intros [He Hr]. lia.
Qed.

(** The bytes of one block followed by those of the next ones. *)
Lemma chunk_bytes M a off m n :
  addr M a (off / BSIZE) ≠ 0 → length (M (addr M a (off / BSIZE))) = Z.to_nat BSIZE →
  0 ≤ off → 0 < m ≤ n → m ≤ BSIZE - off mod BSIZE →
  slice (M (addr M a (off / BSIZE))) (off mod BSIZE) m ++ map (λ j, content M a (off + m + j)) (seqZ 0 (n - m)) =
    map (λ j, content M a (off + j)) (seqZ 0 n).
Proof.
  intros Hne Hlen Hoff Hm Hmb. pose proof (Z.mod_pos_bound off BSIZE ltac:(done)) as Hom.
  rewrite slice_map by (rewrite ?Hlen; lia).
  replace (seqZ 0 n) with (seqZ 0 m ++ seqZ (0 + m) (n - m)) by (rewrite <- seqZ_app by lia; f_equal; lia).
  rewrite map_app. f_equal.
  - apply map_ext_in. intros j Hj. apply list_elem_of_In, elem_of_seqZ in Hj. unfold content.
    destruct (proj1 (same_block off m (off + j) Hoff ltac:(lia) ltac:(lia))) as [Hd _]; [lia|].
    rewrite Hd, (proj2 (Z.eqb_neq _ _) Hne). do 2 f_equal.
    pose proof (Z.div_mod (off + j) BSIZE ltac:(done)). pose proof (Z.div_mod off BSIZE ltac:(done)). rewrite Hd in *. lia.
  - replace (seqZ (0 + m) (n - m)) with (map (Z.add m) (seqZ 0 (n - m))).
    2: { etransitivity; [apply (fmap_add_seqZ m 0)|]. f_equal. lia. }
    rewrite map_map. apply map_ext. intros j. f_equal. lia.
Qed.

(** A file none of whose blocks is missing, as [writei] leaves it. *)
Definition no_holes (M : Z → list Z) (i : inode) : Prop :=
  ∀ bn, 0 ≤ bn < MAXFILE → bn * BSIZE < i_size i → addr M (i_addrs i) bn ≠ 0.

Lemma file_at_untouched s ip i s' : file_at s ip i → untouched s s' → file_at s' ip i.
Proof. intros [F1 F2 F3 F4 F5] (U1 & (U2 & U3 & U4) & _). split; rewrite ?U1, ?U2, ?U3, ?U4; done. Qed.

(** A block that is there is found without touching the log. *)
Lemma bmap_rx P s ip i bn :
  rx P s [] → file_at s ip i → 0 ≤ bn < MAXFILE → addr (V s) (i_addrs i) bn ≠ 0 →
  ∃ s', bmap pid s ip bn = Ret (addr (V s) (i_addrs i) bn, s') ∧ rx P s' [] ∧ untouched s s'.
Proof.
  intros Hx Hf Hbn Hne. pose proof Hf as [Hp Hdev Hok Hl _]. pose proof (io_length _ _ _ Hok) as Hlen.
  unfold bmap, iptr. rewrite Hp. cbn [obind]. unfold addr in *. destruct (Z.ltb_spec bn NDIRECT) as [Hlt|Hge].
  - rewrite aget_entry by (unfold NDIRECT in *; lia). cbn [obind]. unfold entry.
    rewrite (proj2 (Z.eqb_neq _ _) Hne). by exists s.
  - rewrite (proj2 (Z.ltb_lt _ _)) by (unfold MAXFILE, NDIRECT in *; lia).
    rewrite aget_entry by (unfold NDIRECT; lia). cbn [obind]. change (entry (i_addrs i) NDIRECT) with (indirect (i_addrs i)).
    destruct (Z.eqb_spec (indirect (i_addrs i)) 0) as [|Hind]; [done|]. cbn [obind].
    destruct (io_range _ _ _ Hok (indirect (i_addrs i))) as [Hir _]; [split; [done|by left]|].
    pose proof (layout_start _ _ Hl). pose proof Hl as [? _ _ _ _ _].
    destruct (read_rx pid P s [] (indirect (i_addrs i)) Hx) as (bp & s1 & s' & E1 & Ed & E2 & Hx' & Hu & _);
      [lia|apply not_elem_of_nil|simpl; lia|].
    rewrite Hdev, E1. cbn [obind]. rewrite Ed, (proj2 (Z.eqb_neq _ _) Hne), E2. by exists s'.
Qed.

Lemma readi_loop_rx k K P s ip i off n acc :
  rx P s [] → file_at s ip i → no_holes (V s) i → 0 ≤ off → 0 ≤ n → off + n ≤ i_size i → i_size i ≤ MAXFILE * BSIZE →
  in_blocks off n K → (K < k)%nat →
  ∃ s', readi_loop pid k s ip 1 off n acc = Ret (acc ++ map (λ j, content (V s) (i_addrs i) (off + j)) (seqZ 0 n), s') ∧
    rx P s' [] ∧ untouched s s'.
Proof.
  revert k s off n acc. induction K as [|K IH]; intros k s off n acc Hx Hf Hh Hoff Hn Hsz Hmax Hb Hk;
    (destruct k as [|k]; [lia|]); cbn [readi_loop]; (destruct (Z.leb_spec n 0) as [Hle|Hpos];
    [assert (n = 0) as -> by lia; exists s; by rewrite app_nil_r|]).
  { pose proof (Z.mod_pos_bound off BSIZE ltac:(done)). destruct Hb; lia. }
  assert (Hor : 0 ≤ off < MAXFILE * BSIZE) by lia. destruct (off_block off Hor) as (Hbn & Hom & Hoe).
  assert (Hne : addr (V s) (i_addrs i) (off / BSIZE) ≠ 0) by (apply Hh; unfold BSIZE in *; lia).
  destruct (bmap_rx P s ip i (off / BSIZE) Hx Hf Hbn Hne) as (s1 & E1 & Hx1 & Hu1). rewrite E1. cbn [obind].
  set (a := addr (V s) (i_addrs i) (off / BSIZE)) in *.
  destruct (io_range _ _ _ (fa_ok _ _ _ Hf) a) as [Har _]; [split; [done|right; eauto]|].
  pose proof (fa_layout _ _ _ Hf) as Hl. pose proof (layout_start _ _ Hl). pose proof Hl as [? _ _ _ _ _].
  pose proof Hu1 as (V1 & (_ & _ & D1) & _).
  destruct (read_rx pid P s1 [] a Hx1) as (bp & s2 & s3 & E2 & Ed & E3 & Hx3 & Hu3 & _);
    [lia|apply not_elem_of_nil|simpl; lia|].
  rewrite E2. cbn [obind]. rewrite Ed, V1, E3. cbn [obind].
  destruct (in_blocks_next off n K Hoff Hpos Hb) as (Hmp & Hmb & Hb'). set (m := Z.min n (BSIZE - off mod BSIZE)) in *.
  pose proof (untouched_trans _ _ _ Hu1 Hu3) as Hu. pose proof Hu as (V3 & _).
  destruct (IH k s3 (off + m) (n - m) (acc ++ slice (V s a) (off mod BSIZE) m)) as (s' & E & Hx' & Hu');
    rewrite ?V3; try done; try lia; [by eapply file_at_untouched|].
  exists s'. rewrite E, V3, <- app_assoc. unfold a. rewrite chunk_bytes; try done; try lia; [|apply (rx_length _ _ _ Hx); fold a; lia].
  split; [done|]. split; [done|]. by eapply untouched_trans.
Qed.

Lemma readi_loop_tx k K r s ip i off n acc :
  tx (r + 5 * Z.of_nat K) s [] → 0 ≤ r → file_at s ip i → 0 ≤ off → 0 ≤ n → off + n ≤ MAXFILE * BSIZE →
  in_blocks off n K → (2 * K ≤ nfree (sb s) (V s))%nat → (K < k)%nat →
  ∃ s' ad, readi_loop pid k s ip 1 off n acc =
      Ret (acc ++ map (λ j, content (V s) (i_addrs i) (off + j)) (seqZ 0 n), s') ∧
    tx r s' [] ∧ file_step s ip i s' ad ∧
    (∀ o, 0 ≤ o < MAXFILE * BSIZE → content (V s') ad o = content (V s) (i_addrs i) o).
Proof.
  revert k s i off n acc. induction K as [|K IH]; intros k s i off n acc Ht Hr Hf Hoff Hn Hmax Hb Hfree Hk;
    (destruct k as [|k]; [lia|]); cbn [readi_loop].
  - assert (n = 0) as -> by (pose proof (Z.mod_pos_bound off BSIZE ltac:(done)); destruct Hb; lia).
    change (Z.leb 0 0) with true. cbv iota. exists s, (i_addrs i). split_and!; [by rewrite app_nil_r|by apply (tx_weaken (r + 5 * Z.of_nat 0)); [|lia]| |done].
    split; [done| |apply grow_refl; apply Hf]. rewrite with_addrs_same, list_insert_id by (apply Hf). done.
  - destruct (Z.leb_spec n 0) as [Hle|Hpos].
    { assert (n = 0) as -> by lia. exists s, (i_addrs i). split_and!; [by rewrite app_nil_r|apply (tx_weaken (r + 5 * Z.of_nat (S K))); [done|lia]| |done].
      split; [done| |apply grow_refl; apply Hf]. rewrite with_addrs_same, list_insert_id by (apply Hf). done. }
    assert (Hor : 0 ≤ off < MAXFILE * BSIZE) by lia. destruct (off_block off Hor) as (Hbn & Hom & Hoe).
    destruct (bmap_tx pid (r + 5 * Z.of_nat K) s ip i (off / BSIZE)) as (a & s1 & a1 & E1 & Ht1 & Hm1);
      [by replace (r + 5 * Z.of_nat K + 5) with (r + 5 * Z.of_nat (S K)) by lia|lia|done|done|lia|].
    pose proof (mapped_step _ _ _ _ _ _ _ Hm1) as Hst1. pose proof (file_step_at _ _ _ _ _ Hf Hst1) as Hf1.
    pose proof (λ o, mapped_content _ _ _ _ _ _ _ o Hm1 Hbn) as Hc1.
    destruct Hm1 as [[R1 R2] _ _ [Ha Hane] _ _ _ Hfr]. rewrite E1. cbn [obind].
    pose proof Hst1 as [_ I1 G1].
    assert (Hoa : owns (V s1) a1 a) by (split; [done|right; eauto]).
    destruct (io_range _ _ _ (g_ok _ _ _ _ _ G1) _ Hoa) as [Har _]. pose proof (fa_layout _ _ _ Hf) as [Hsz _ _ _ _ _].
    destruct (layout_data _ _ (fa_layout _ _ _ Hf)) as (? & ? & ?).
    destruct (read_tx pid _ s1 [] a Ht1) as (bp & s2 & s3 & E2 & Ed & E3 & Ht3 & Hv3 & (S1 & S2 & S3) & _);
      [lia|apply not_elem_of_nil|simpl; lia|].
    rewrite E2. cbn [obind]. rewrite Ed, E3. cbn [obind].
    destruct (in_blocks_next off n K Hoff Hpos Hb) as (Hmp & Hmb & Hb'). set (m := Z.min n (BSIZE - off mod BSIZE)) in *.
    assert (Hf3 : file_at s3 ip (with_addrs a1 i)).
    { destruct Hf1 as [F1 F2 F3 F4 F5]. split; rewrite ?S1, ?S2, ?S3, ?Hv3; done. }
    destruct (IH k s3 (with_addrs a1 i) (off + m) (n - m) (acc ++ slice (V s1 a) (off mod BSIZE) m)) as (s' & ad & E & Ht' & Hst & Hc);
      try done; try lia.
    { rewrite S1, Hv3, R1. lia. }
    exists s', ad. rewrite E. cbn [i_addrs with_addrs] in *. rewrite Hv3 in *. split; [|split; [done|split]].
    + do 2 f_equal. rewrite <- app_assoc. f_equal. rewrite <- Ha, chunk_bytes; try lia; [|apply (tx_length _ _ _ Ht1); lia].
      apply map_ext_in. intros j Hj. apply list_elem_of_In, elem_of_seqZ in Hj. apply Hc1. lia.
    + apply (file_step_trans s ip i s1 a1); [done| |].
      * by split.
      * destruct Hst as [[T1 T2] T3 T4]. split; [split; congruence|congruence|]. by rewrite <- S1, <- Hv3.
    + intros o Ho. rewrite Hc, Hc1 by done. done.
Qed.

Lemma writei_loop_tx k K r s ip i off src :
  tx (r + 6 * Z.of_nat K) s [] → 0 ≤ r → file_at s ip i → 0 ≤ off → off + Z.of_nat (length src) ≤ MAXFILE * BSIZE →
  in_blocks off (Z.of_nat (length src)) K → (2 * K ≤ nfree (sb s) (V s))%nat → (K < k)%nat →
  ∃ s' ad, writei_loop pid k s ip 1 off src = Ret (off + Z.of_nat (length src), s') ∧
    tx r s' [] ∧ file_step s ip i s' ad ∧
    (∀ o, 0 ≤ o < MAXFILE * BSIZE → content (V s') ad o =
       if decide (off ≤ o < off + Z.of_nat (length src)) then nth (Z.to_nat (o - off)) src 0
       else content (V s) (i_addrs i) o) ∧
    fills (V s) (i_addrs i) (V s') ad off (Z.of_nat (length src)) ∧
    (nfree (sb s) (V s) ≤ nfree (sb s) (V s') + 2 * K)%nat.
Proof.
  revert k s i off src. induction K as [|K IH]; intros k s i off src Ht Hr Hf Hoff Hmax Hb Hfree Hk;
    (destruct k as [|k]; [lia|]); cbn [writei_loop];
    (destruct src as [|c0 src0]; [|set (src := c0 :: src0) in *; assert (Hpos : 0 < Z.of_nat (length src)) by (simpl; lia); clearbody src]).
  1, 3: exists s, (i_addrs i); split_and!;
    [f_equal; f_equal; simpl; lia|eapply tx_weaken; [exact Ht|lia]|
     split; [done|by rewrite with_addrs_same, list_insert_id by (apply Hf)|apply grow_refl; apply Hf]|
     intros o Ho; rewrite decide_False by (simpl; lia); done|by split; [|intros o Ho; simpl in Ho; lia]|lia].
  { pose proof (Z.mod_pos_bound off BSIZE ltac:(done)). destruct Hb; lia. }
  assert (Hor : 0 ≤ off < MAXFILE * BSIZE) by lia. destruct (off_block off Hor) as (Hbn & Hom & Hoe).
  destruct (bmap_tx pid (r + 6 * Z.of_nat K + 1) s ip i (off / BSIZE)) as (a & s1 & a1 & E1 & Ht1 & Hm1);
    [by replace (r + 6 * Z.of_nat K + 1 + 5) with (r + 6 * Z.of_nat (S K)) by lia|lia|done|done|lia|].
  pose proof (mapped_step _ _ _ _ _ _ _ Hm1) as Hst1. pose proof (file_step_at _ _ _ _ _ Hf Hst1) as Hf1.
  pose proof (λ o, mapped_content _ _ _ _ _ _ _ o Hm1 Hbn) as Hc1.
  pose proof (λ k, mapped_fills _ _ _ _ _ _ _ k Hm1) as Hfl1.
  destruct Hm1 as [[R1 R2] _ _ [Ha Hane] _ _ _ Hfr]. rewrite E1. cbn [obind]. pose proof Hst1 as [_ I1 G1].
  assert (Hoa : owns (V s1) a1 a) by (split; [done|right; eauto]).
  destruct (io_range _ _ _ (g_ok _ _ _ _ _ G1) _ Hoa) as [Har _]. pose proof (fa_layout _ _ _ Hf) as [Hsz _ _ _ _ _].
  destruct (layout_data _ _ (fa_layout _ _ _ Hf)) as (? & ? & ?).
  destruct (in_blocks_next off (Z.of_nat (length src)) K Hoff Hpos Hb) as (Hmp & Hmb & Hb').
  set (m := Z.min (Z.of_nat (length src)) (BSIZE - off mod BSIZE)) in *.
  assert (Hla : length (V s1 a) = Z.to_nat BSIZE) by (apply (tx_length _ _ _ Ht1); lia).
  assert (Hlt : length (take (Z.to_nat m) src) = Z.to_nat m) by (rewrite length_take; lia).
  destruct (modify_tx pid (r + 6 * Z.of_nat K) s1 [] a (λ d, splice d (off mod BSIZE) (take (Z.to_nat m) src)))
    as (bp & s2 & s3 & s4 & E2 & Ed & _ & E3 & E4 & Ht4 & Hv4 & (S1 & S2 & S3)); [done|lia|pose proof (layout_start _ _ (fa_layout _ _ _ Hf)); rewrite R1; lia|lia|apply not_elem_of_nil|simpl; lia| |].
  { rewrite length_splice; [done|lia|rewrite Hlt, Hla; lia]. }
  rewrite E2. cbn [obind]. rewrite Ed, E3. cbn [obind]. rewrite E4. cbn [obind].
  set (d := splice (V s1 a) (off mod BSIZE) (take (Z.to_nat m) src)) in *.
  destruct (grow_write (sb s1) (dsize s1) (V s1) a1 (off / BSIZE) d (fa_layout _ _ _ Hf1) (fa_ok _ _ _ Hf1) Hbn) as (G4 & Ha4 & Hc4); [congruence|].
  rewrite Ha, <- Hv4 in G4, Ha4, Hc4.
  assert (Hst4 : file_step s1 ip (with_addrs a1 i) s4 a1).
  { split; [by split|rewrite S2, I1; by rewrite list_insert_insert_eq|done]. }
  pose proof (file_step_at _ _ _ _ _ Hf1 Hst4) as Hf4. change (with_addrs a1 (with_addrs a1 i)) with (with_addrs a1 i) in Hf4.
  assert (Hnf : (nfree (sb s) (V s) ≤ nfree (sb s4) (V s4) + 2)%nat).
  { rewrite S1, R1, Hv4. assert (Hfb : free_blocks (sb s) (upd (V s1) a d) = free_blocks (sb s) (V s1)).
    { unfold free_blocks. apply list_filter_iff'. intros c Hcc%elem_of_seqZ.
      rewrite (used_upd _ (dsize s)); [done|apply (fa_layout _ _ _ Hf)|lia|lia]. }
    unfold nfree in *. rewrite Hfb. lia. }
  assert (Hld : Z.of_nat (length (drop (Z.to_nat m) src)) = Z.of_nat (length src) - m) by (rewrite length_drop; lia).
  destruct (IH k s4 (with_addrs a1 i) (off + m) (drop (Z.to_nat m) src)) as (s' & ad & E & Ht' & Hst & Hc & [Hfl Hfl'] & Hnf'); try done; try lia.
  { by rewrite Hld. }
  exists s', ad. rewrite E. split; [do 2 f_equal; lia|]. split; [done|]. rewrite S1, R1 in *. split; [|split; [|split; [|lia]]].
  - apply (file_step_trans s ip i s1 a1); [done|done|]. by apply (file_step_trans s1 ip (with_addrs a1 i) s4 a1).
  - intros o Ho. rewrite Hc by done. cbn [i_addrs with_addrs]. rewrite Hc4 by done. rewrite Hc1 by done.
    pose proof (same_block off m o Hoff ltac:(lia) ltac:(lia)) as Hsb. destruct (off_block o Ho) as (_ & Hoo & Hoeo).
    rewrite Hld. destruct (decide (off + m ≤ o < off + m + (Z.of_nat (length src) - m))) as [Hin|Hout].
    { rewrite decide_True by lia. rewrite nth_lookup, lookup_drop, <- nth_lookup. f_equal. lia. }
    unfold d. rewrite nth_splice by (try lia; rewrite Hlt, Hla; lia). rewrite Hlt.
    destruct (decide (off ≤ o < off + m)) as [Hin2|Hout2].
    + rewrite (decide_True (P := off ≤ o < off + Z.of_nat (length src))) by lia. apply Hsb in Hin2 as [He Hr2].
      rewrite decide_True by done. rewrite decide_True by lia. rewrite !nth_lookup, lookup_take_lt by lia. do 2 f_equal. lia.
    + rewrite (decide_False (P := off ≤ o < off + Z.of_nat (length src))) by lia. destruct (decide (o / BSIZE = off / BSIZE)) as [He|He]; [|done].
      rewrite decide_False by (intros [? ?]; apply Hout2, Hsb; lia). rewrite <- He in Ha.
      rewrite <- Hc1 by done. unfold content. rewrite Ha, (proj2 (Z.eqb_neq _ _) Hane). done.
  - cbn [i_addrs with_addrs] in Hfl. split.
    + intros k' Hk' Hne. apply Hfl; [done|]. rewrite Ha4. by apply Hfl1.
    + intros o Ho. rewrite Hld in Hfl'. destruct (Z.lt_ge_cases o (off + m)); [|apply Hfl'; lia].
      destruct (proj1 (same_block off m o Hoff ltac:(lia) ltac:(lia))) as [-> _]; [lia|]. apply Hfl; [done|]. rewrite Ha4. congruence.
Qed.

End rw.

(** ** [iupdate], [readi] and [writei] *)

Lemma length_put16 d o v : length (put16 d o v) = length d.
Proof. unfold put16. by rewrite !length_insert. Qed.
Lemma length_write_addrs d o a : length (write_addrs d o a) = length d.
Proof. revert d o. induction a as [|x a IH]; intros d o; [done|]. simpl. by rewrite IH, length_put32. Qed.
Lemma length_write_dinode d o i : length (write_dinode d o i) = length d.
Proof. unfold write_dinode. by rewrite length_write_addrs, length_put32, !length_put16. Qed.

(** Inode numbers of the disk. *)
Definition inum_ok (s : fs) (i : inode) : Prop := 0 ≤ i_inum i < sb_ninodes (sb s).

Lemma IBLOCK_range x dsz n : layout x dsz → 0 ≤ n < sb_ninodes x → 2 ≤ sb_inodestart x ≤ IBLOCK n x ∧ IBLOCK n x < sb_bmapstart x.
Proof.
  intros Hl Hn. destruct (layout_data x dsz Hl) as (? & ? & ?). destruct Hl as [H1' H2' H3' H4' H5' H6']. unfold IBLOCK.
  assert (0 ≤ n / IPB) by (apply Z.div_pos; [lia|done]). assert (n / IPB ≤ sb_ninodes x / IPB) by (apply Z.div_le_mono; [done|lia]).
  unfold data_start in *. rewrite u32_small by (unfold is_u32; lia). lia.
Qed.

Section ops.
  Context (pid : Z) {og : origin}.
  Local Notation tx := (txn og).
  Context (dev_read : Z → option (fs → nat → Z → outcome (Z * list Z * fs)))
          (dev_write : Z → option (fs → nat → list Z → outcome (Z * fs))).

Lemma iupdate_tx r s ip i :
  tx (r + 1) s [] → 0 ≤ r → icache s !! ip = Some i → i_dev i = 1 → layout (sb s) (dsize s) → inum_ok s i →
  ∃ s', iupdate pid s ip = Ret s' ∧ tx r s' [] ∧ same_rest s s' ∧
    V s' = upd (V s) (IBLOCK (i_inum i) (sb s)) (write_dinode (V s (IBLOCK (i_inum i) (sb s))) (dinode_off (i_inum i)) i).
Proof.
  intros Ht Hr Hp Hdev Hl Hin. pose proof (IBLOCK_range _ _ _ Hl Hin) as Hb. destruct (layout_data _ _ Hl) as (? & ? & ?).
  pose proof Hl as [? ? ? ? ? ?]. unfold data_start in *.
  destruct (modify_tx pid r s [] (IBLOCK (i_inum i) (sb s)) (λ d, write_dinode d (dinode_off (i_inum i)) i))
    as (b & s1 & s2 & s' & E1 & Ed & _ & E2 & E3 & Ht' & Hv & Hs); [done|done|lia|lia|apply not_elem_of_nil|simpl; lia| |].
  { rewrite length_write_dinode. apply (tx_length _ _ _ Ht). lia. }
  exists s'. split; [|done]. unfold iupdate, iptr. rewrite Hp. cbn [obind]. rewrite Hdev, E1. cbn [obind].
  rewrite Ed, E2. cbn [obind]. done.
Qed.

(** A store below the bitmap leaves every file as it is. *)
Lemma meta_store x dsz M a y d :
  layout x dsz → inode_ok x M a → y < sb_bmapstart x → y ≠ 0 →
  (∀ b, 0 ≤ b < sb_size x → used x (upd M y d) b = used x M b) ∧
  (∀ k, addr (upd M y d) a k = addr M a k) ∧ inode_ok x (upd M y d) a ∧
  ∀ o, 0 ≤ o < MAXFILE * BSIZE → content (upd M y d) a o = content M a o.
Proof.
  intros Hl Hok Hy Hy0. destruct (layout_data x dsz Hl) as (? & ? & ?).
  assert (Hused : ∀ b, 0 ≤ b < sb_size x → used x (upd M y d) b = used x M b).
  { intros b Hb. unfold used. destruct (BBLOCK_eq x dsz b Hl Hb) as (_ & ? & _). by rewrite upd_ne by lia. }
  assert (Hkeep : ∀ z, owns M a z → upd M y d z = M z).
  { intros z Hz. destruct (io_range _ _ _ Hok z Hz) as [? _]. apply upd_ne. lia. }
  assert (Haddr : ∀ k, addr (upd M y d) a k = addr M a k).
  { intros k. unfold addr. destruct (Z.ltb k NDIRECT); [done|]. destruct (Z.eqb_spec (indirect a) 0); [done|].
    rewrite Hkeep; [done|]. split; [done|by left]. }
  assert (Hown : ∀ z, owns (upd M y d) a z ↔ owns M a z) by (intros z; unfold owns; by setoid_rewrite Haddr).
  split_and!; try done.
  - destruct Hok as [H1' H2' H3' H4']. split; try done; [|intros k k'|intros k]; rewrite ?Haddr; auto.
    intros z Hz%Hown. destruct (H2' z Hz) as [Hr Hu]. split; [done|]. rewrite Hused by lia. done.
  - intros o Ho. destruct (off_block o Ho) as (Hb & _). unfold content. rewrite Haddr.
    destruct (Z.eqb_spec (addr M a (o / BSIZE)) 0); [done|]. rewrite Hkeep; [done|]. split; [done|right; eauto].
Qed.

Lemma blocks_of_transfer off n :
  0 ≤ off → 0 ≤ n → in_blocks off n (Z.to_nat ((off mod BSIZE + n + BSIZE - 1) / BSIZE)).
Proof.
  intros Ho Hn. right. pose proof (Z.mod_pos_bound off BSIZE ltac:(done)). set (t := off mod BSIZE + n + BSIZE - 1).
  pose proof (Z.div_mod t BSIZE ltac:(done)). pose proof (Z.mod_pos_bound t BSIZE ltac:(done)).
  assert (0 ≤ t / BSIZE) by (apply Z.div_pos; [unfold BSIZE in *; lia|done]). rewrite Z2Nat.id by lia. unfold t in *. lia.
Qed.

Lemma transfer_fuel_enough off n K :
  0 ≤ off → 0 ≤ n → K = Z.to_nat ((off mod BSIZE + n + BSIZE - 1) / BSIZE) → (K < transfer_fuel n)%nat.
Proof.
  intros Ho Hn ->. unfold transfer_fuel. pose proof (Z.mod_pos_bound off BSIZE ltac:(done)).
  assert (Hle : (off mod BSIZE + n + BSIZE - 1) / BSIZE ≤ n / BSIZE + 2).
  { transitivity ((n + 2 * BSIZE) / BSIZE); [apply Z.div_le_mono; [done|lia]|]. rewrite Z.div_add by done. lia. }
  assert (0 ≤ n / BSIZE) by (apply Z.div_pos; [lia|done]). lia.
Qed.

(** The file of inode [b] shares no block with inode [i]. *)
Definition apart (s : fs) (i : inode) (b : list Z) : Prop :=
  inode_ok (sb s) (V s) b ∧ ∀ y, owns (V s) (i_addrs i) y → ¬ owns (V s) b y.

Lemma step_apart s ip i s' ad b o :
  file_at s ip i → file_step s ip i s' ad → apart s i b → 0 ≤ o < MAXFILE * BSIZE →
  content (V s') b o = content (V s) b o ∧ inode_ok (sb s) (V s') b.
Proof.
  intros Hf [_ _ Hg] [Hb Hdis] Ho. split; [apply (grow_other (sb s) (dsize s) _ (i_addrs i) _ ad); try done; apply Hf|].
  assert (Hk : ∀ y, owns (V s) b y → V s' y = V s y).
  { intros y Hy. destruct (io_range _ _ _ Hb y Hy) as [Hr Hu]. apply (g_keep _ _ _ _ _ Hg); [done|done|]. intros Ha. by apply (Hdis y). }
  assert (Hadr : ∀ k, addr (V s') b k = addr (V s) b k).
  { intros k. unfold addr. destruct (Z.ltb k NDIRECT); [done|]. destruct (Z.eqb_spec (indirect b) 0) as [|Hi]; [done|].
    rewrite Hk; [done|]. split; [done|by left]. }
  assert (Hown : ∀ z, owns (V s') b z ↔ owns (V s) b z) by (intros z; unfold owns; by setoid_rewrite Hadr).
  destruct (layout_data _ _ (fa_layout _ _ _ Hf)) as (? & ? & ?).
  destruct Hb as [H1' H2' H3' H4']. split; try done; [|intros k k'|intros k]; rewrite ?Hadr; auto.
  intros z Hz%Hown. destruct (H2' z Hz) as [Hr Hu]. split; [done|]. apply (g_used _ _ _ _ _ Hg); [lia|done].
Qed.

(** The clamp of [readi] to the size of the file. *)
Lemma readi_clamp s ip i off n :
  icache s !! ip = Some i → i_type i ≠ T_DEV → 0 ≤ off ≤ i_size i → 0 ≤ n → off + n < 2 ^ 32 →
  let n' := Z.min n (i_size i - off) in
  readi pid dev_read s ip off n =
    let! (d, s1) := readi_loop pid (transfer_fuel n') s ip (i_dev i) off n' [] in Ret (n', d, s1).
Proof.
  intros Hp Hty Hoff Hn Hw n'. unfold readi, iptr. rewrite Hp. cbn [obind].
  rewrite (proj2 (Z.eqb_neq _ _) Hty), u32_small by (unfold is_u32; lia).
  rewrite (proj2 (Z.ltb_ge _ _)), (proj2 (Z.ltb_ge _ _)) by lia. cbn [orb].
  assert (Hn' : (if Z.ltb (i_size i) (off + n) then i_size i - off else n) = n').
  { unfold n'. destruct (Z.ltb_spec (i_size i) (off + n)); lia. }
  by rewrite Hn'.
Qed.

(** Reading a file without holes needs no transaction. *)
Lemma readi_rx P s ip i off n :
  rx P s [] → file_at s ip i → no_holes (V s) i → i_type i ≠ T_DEV → i_size i ≤ MAXFILE * BSIZE →
  0 ≤ off ≤ i_size i → 0 ≤ n → off + n < 2 ^ 32 →
  let n' := Z.min n (i_size i - off) in
  ∃ s', readi pid dev_read s ip off n = Ret (n', map (λ j, content (V s) (i_addrs i) (off + j)) (seqZ 0 n'), s') ∧
    rx P s' [] ∧ untouched s s'.
Proof.
  intros Hx Hf Hh Hty Hsz Hoff Hn Hw n'. rewrite (readi_clamp s ip i) by (done || apply Hf). fold n'. rewrite (fa_dev _ _ _ Hf).
  assert (Hn0 : 0 ≤ n') by (unfold n'; lia).
  destruct (readi_loop_rx pid (transfer_fuel n') (Z.to_nat ((off mod BSIZE + n' + BSIZE - 1) / BSIZE)) P s ip i off n' [] Hx Hf Hh) as (s' & E & Hx' & Hu); try lia.
  { apply blocks_of_transfer; lia. }
  { apply (transfer_fuel_enough off); [lia|lia|done]. }
  exists s'. rewrite E. done.
Qed.

(** Inside a transaction holes are filled with zeroed blocks on the way. *)
Lemma readi_ok r s ip i off n K :
  tx (r + 5 * Z.of_nat K) s [] → 0 ≤ r → file_at s ip i → i_type i ≠ T_DEV → 0 ≤ i_size i ≤ MAXFILE * BSIZE →
  0 ≤ off ≤ i_size i → 0 ≤ n → off + n < 2 ^ 32 →
  let n' := Z.min n (i_size i - off) in
  K = Z.to_nat ((off mod BSIZE + n' + BSIZE - 1) / BSIZE) → (2 * K ≤ nfree (sb s) (V s))%nat →
  ∃ s' ad, readi pid dev_read s ip off n = Ret (n', map (λ j, content (V s) (i_addrs i) (off + j)) (seqZ 0 n'), s') ∧
    tx r s' [] ∧ file_step s ip i s' ad ∧
    (∀ o, 0 ≤ o < MAXFILE * BSIZE → content (V s') ad o = content (V s) (i_addrs i) o).
Proof.
  intros Ht Hr Hf Hty Hsz Hoff Hn Hw n' HK Hfree. rewrite (readi_clamp s ip i) by (done || apply Hf). fold n'.
  rewrite (fa_dev _ _ _ Hf). assert (Hn0 : 0 ≤ n') by (unfold n'; lia).
  destruct (readi_loop_tx pid (transfer_fuel n') K r s ip i off n' []) as (s' & ad & E & Ht' & Hst & Hc); try done; try lia.
  { rewrite HK. apply blocks_of_transfer; lia. }
  { apply (transfer_fuel_enough off); [lia|lia|done]. }
  exists s', ad. rewrite E. done.
Qed.

Lemma writei_ok r s ip i src off K :
  let n := Z.of_nat (length src) in
  tx (r + 1 + 6 * Z.of_nat K) s [] → 0 ≤ r → file_at s ip i → inum_ok s i → i_type i ≠ T_DEV →
  0 ≤ off ≤ i_size i → off + n ≤ MAXFILE * BSIZE →
  K = Z.to_nat ((off mod BSIZE + n + BSIZE - 1) / BSIZE) → (2 * K ≤ nfree (sb s) (V s))%nat →
  ∃ s' ad, let i' := with_size (Z.max (i_size i) (off + n)) (with_addrs ad i) in
    writei pid dev_write s ip src off = Ret (n, s') ∧ tx r s' [] ∧ sb s' = sb s ∧
    icache s' = <[ip := i']> (icache s) ∧ file_at s' ip i' ∧
    (∀ o, 0 ≤ o < MAXFILE * BSIZE → content (V s') ad o =
       if decide (off ≤ o < off + n) then nth (Z.to_nat (o - off)) src 0 else content (V s) (i_addrs i) o) ∧
    (∀ b o, apart s i b → 0 ≤ o < MAXFILE * BSIZE → content (V s') b o = content (V s) b o) ∧
    (no_holes (V s) i → no_holes (V s') i') ∧ (nfree (sb s) (V s) ≤ nfree (sb s) (V s') + 2 * K)%nat ∧ dsize s' = dsize s.
Proof.
  intros n Ht Hr Hf Hin Hty Hoff Hmax HK Hfree. assert (Hmf : MAXFILE * BSIZE = 71680) by reflexivity.
  unfold writei, iptr. rewrite (fa_ptr _ _ _ Hf). cbn [obind]. fold n.
  rewrite (proj2 (Z.eqb_neq _ _) Hty), u32_small by (unfold is_u32; lia).
  rewrite (proj2 (Z.ltb_ge (i_size i) off)), (proj2 (Z.ltb_ge (off + n) off)), (proj2 (Z.ltb_ge (MAXFILE * BSIZE) _)) by lia. cbn [orb].
  destruct (writei_loop_tx pid (transfer_fuel n) K (r + 1) s ip i off src) as (s1 & ad & E & Ht1 & Hst & Hc & Hfl & Hnf); try done; try lia.
  { rewrite HK. apply blocks_of_transfer; lia. }
  { apply (transfer_fuel_enough off); [lia|lia|done]. }
  assert (Hnh : ∀ M, (∀ k, addr M ad k = addr (V s1) ad k) → no_holes (V s) i →
    no_holes M (with_size (Z.max (i_size i) (off + n)) (with_addrs ad i))).
  { intros M HM Hno bn Hbn Hlt. cbn [i_size i_addrs with_size with_addrs] in *. rewrite HM. destruct Hfl as [Hf1 Hf2].
    fold n in Hf2. destruct (Z.lt_ge_cases (bn * BSIZE) (i_size i)) as [Hin'|Hout].
    - apply Hf1; [done|by apply Hno].
    - replace bn with (bn * BSIZE / BSIZE) by (by apply Z.div_mul). apply Hf2. lia. }
  fold n in E, Hc. rewrite (fa_dev _ _ _ Hf), E. cbn [obind]. pose proof (file_step_at _ _ _ _ _ Hf Hst) as Hf1.
  pose proof (λ b o, step_apart s ip i s1 ad b o Hf Hst) as Hap. destruct Hst as [[R1 R2] I1 G1].
  destruct (Z.ltb 0 n && Z.ltb (i_size i) (off + n)) eqn:Hgrow.
  - apply andb_true_iff in Hgrow as [Hn0%Z.ltb_lt Hgr%Z.ltb_lt]. set (i' := with_size (off + n) (with_addrs ad i)).
    assert (Hic : icache (iset s1 ip (with_size (off + n))) = <[ip := i']> (icache s)).
    { rewrite (iset_insert s1 s1 ip (with_addrs ad i)) by (done || apply Hf1). rewrite I1. by rewrite list_insert_insert_eq. }
    assert (Hlk : icache (iset s1 ip (with_size (off + n))) !! ip = Some i').
    { rewrite Hic. apply list_lookup_insert_eq. apply lookup_lt_Some with i. apply Hf. }
    pose proof (fa_layout _ _ _ Hf) as Hl. pose proof (IBLOCK_range _ _ _ Hl Hin) as Hib.
    destruct (iupdate_tx r (iset s1 ip (with_size (off + n))) ip i') as (s2 & E2 & Ht2 & (T1 & T2 & T3) & Hv2).
    { by replace (r + 1) with (r + 1) by lia. }
    { done. }
    { done. }
    { apply Hf. }
    { simpl. unfold dsize in *. simpl. rewrite R1, R2. done. }
    { unfold inum_ok in *. simpl. by rewrite R1. }
    change (sb (iset s1 ip (with_size (off + n)))) with (sb s1) in *. change (V (iset s1 ip (with_size (off + n)))) with (V s1) in Hv2.
    rewrite R1 in T1, Hv2. cbn [i_inum i' with_size with_addrs] in Hv2.
    set (y := IBLOCK (i_inum i) (sb s)) in *.
    assert (Hmeta : ∀ a, inode_ok (sb s) (V s1) a → _) by (intros a Ha; exact (meta_store (sb s) (dsize s) (V s1) a y
      (write_dinode (V s1 y) (dinode_off (i_inum i)) i') Hl Ha ltac:(lia) ltac:(lia))).
    destruct (Hmeta ad (g_ok _ _ _ _ _ G1)) as (M1 & M2 & M3 & M4). rewrite <- Hv2 in M1, M2, M3, M4.
    exists s2, ad. rewrite E2. rewrite Z.max_r by lia. split; [done|]. split; [done|]. split; [done|]. split; [by rewrite T2|]. split; [|split; [|split]].
    + split; rewrite ?T1, ?T2, ?T3; try done; [apply Hf|unfold dsize in *; simpl; by rewrite R2|].
      intros z Hz. destruct (layout_data _ _ Hl) as (? & ? & ?). pose proof Hl as [? ? ? ? ? ?].
      rewrite M1 by (unfold data_start in *; lia). rewrite <- R1. apply (fa_meta _ _ _ Hf1). by rewrite R1.
    + intros o Ho. rewrite M4 by done. by apply Hc.
    + intros b o Hb Ho. destruct (Hap b o Hb Ho) as [Hb1 Hb2]. destruct (Hmeta b Hb2) as (_ & _ & _ & M5).
      rewrite <- Hv2 in M5. by rewrite M5.
    + split_and!; [|replace (nfree (sb s) (V s2)) with (nfree (sb s) (V s1)); [done|]|by rewrite T3].
      * intros Hno. specialize (Hnh (V s2) M2 Hno). by rewrite Z.max_r in Hnh by lia.
      * unfold nfree, free_blocks. f_equal. apply list_filter_iff'. intros c Hcc%elem_of_seqZ. by rewrite M1 by lia.
  - assert (Hnog : Z.max (i_size i) (off + n) = i_size i) by (apply andb_false_iff in Hgrow as [H%Z.ltb_ge|H%Z.ltb_ge]; lia).
    exists s1, ad. rewrite Hnog.
    assert (Hi : with_size (i_size i) (with_addrs ad i) = with_addrs ad i) by done. rewrite Hi.
    split_and!; try done; [apply (tx_weaken (r + 1)); [done|lia]|intros b o Hb Ho; by apply Hap|].
    intros Hno. specialize (Hnh (V s1) (λ _, eq_refl) Hno). by rewrite Hnog in Hnh.
Qed.

End ops.

(** ** What the file system promises about contents *)

(** A transaction just begun on a fresh cache. *)
Lemma fresh_tx d g x ic :
  (∀ bn, 0 ≤ bn < disksize d → length (blocks d bn) = Z.to_nat BSIZE) → disksize d < 2 ^ 31 →
  lh_n g = 0 → LIM < l_size g - 1 → length (lh_block g) = Z.to_nat LOGSIZE → 1 ≤ outstanding g →
  let s := mkFs g (mkBio (binit (λ _, zero_buf)) d) x ic in tx LIM s [] ∧ V s = blocks d ∧ dsize s = disksize d.
Proof.
  intros Hd Hsz Hn Hl Hb Ho. destruct (binit_inv (λ _, zero_buf) d) as [l Hi]; [done|done|].
  generalize dependent (binit (λ _, zero_buf)). intros f Hi s.
  assert (Hp : pinned s = []) by (unfold pinned; simpl; by rewrite Hn).
  split_and!; [|extensionality k|done].
  - exists (mkOrigin d g). unfold txn, room. rewrite Hp. split; [exists l|].
    { split; [exact Hi|]. split; [intros b y Hin; by apply elem_of_nil in Hin|by vm_compute]. }
    unfold dsize. simpl. unfold LIM in *. split_and!; try done; try lia.
    + intros y Hy. by apply elem_of_nil in Hy.
    + exists (lh_n g), (lh_block g). by destruct g.
  - apply (view_unpinned _ _ _ _ _ Hi); [apply not_elem_of_nil|intros h Hh; by apply elem_of_nil in Hh].
Qed.

(** An empty disk as mkfs makes it: super block, bitmap with the first 59 blocks
    in use; and an empty file. *)
Definition sample_sb : superblock := mkSb 1000 941 200 30 2 32 58.
Definition bitmap_block : list Z := replicate 7 255 ++ [7] ++ replicate 504 0.
Definition mkfs_disk : disk := mkDisk (upd (λ _, zeros) 58 bitmap_block) 1000 [].
Definition empty_file : inode := mkInode 1 5 1 initsleeplock true T_FILE 0 0 1 0 (replicate 13 0).
Definition sample_fs : fs := mkFs open_log (mkBio (binit (λ _, zero_buf)) mkfs_disk) sample_sb [empty_file].

Lemma sample_layout : layout sample_sb 1000.
Proof. by split. Qed.

Lemma sample_V : tx LIM sample_fs [] ∧ V sample_fs = blocks mkfs_disk ∧ dsize sample_fs = 1000.
Proof.
  apply fresh_tx; try done.
  intros bn _. unfold mkfs_disk. cbn [blocks]. unfold upd. case_decide; [by vm_compute|apply length_replicate].
Qed.

Lemma no_blocks M k : addr M (replicate 13 0) k = 0.
Proof.
  unfold addr. destruct (Z.ltb_spec k NDIRECT); [|done]. rewrite nth_lookup.
  destruct (replicate 13 0 !! _) eqn:He; [|done]. by apply lookup_replicate_1 in He as [-> _].
Qed.

Lemma sample_file : file_at sample_fs 0 empty_file.
Proof.
  destruct sample_V as (_ & HV & Hsz). split; rewrite ?HV, ?Hsz; [done|done| |exact sample_layout|].
  - split; [done| | |]; unfold owns; cbn [i_addrs empty_file].
    + intros y [Hy [Hi|(k & _ & Hk)]]; [done|]. rewrite no_blocks in Hk. congruence.
    + intros k k' _ _ Hne. by rewrite no_blocks in Hne.
    + intros k _ Hne. by rewrite no_blocks in Hne.
  - intros y Hy. assert (Hall : Forall (λ y, used sample_sb (blocks mkfs_disk) y = true) (seqZ 0 59)).
    { apply (bool_decide_unpack _). vm_compute. done. }
    rewrite Forall_forall in Hall. apply Hall, elem_of_seqZ. change (data_start (sb sample_fs)) with 59 in Hy. lia.
Qed.

Lemma sample_free : (100 ≤ nfree (sb sample_fs) (V sample_fs))%nat.
Proof. destruct sample_V as (_ & -> & _). vm_compute. lia. Qed.

Section spec.
  Context (pid : Z).
  Context (dev_read : Z → option (fs → nat → Z → outcome (Z * list Z * fs)))
          (dev_write : Z → option (fs → nat → list Z → outcome (Z * fs))).

(** C3: [writei] keeps a file as an array of bytes: inside a transaction with
    room it writes all its bytes at its offset, allocating direct, indirect and
    data blocks as needed, grows the size to cover them, leaves every other byte
    of the file as it was and every byte of every other file, and leaves no hole
    in a file that had none.  Room means that the log still takes six blocks for
    each block written and one for the inode, and that two blocks are free for
    each. *)
Theorem writei_spec r s ip i src off K :
  let n := Z.of_nat (length src) in
  tx (r + 1 + 6 * Z.of_nat K) s [] → 0 ≤ r → file_at s ip i → inum_ok s i → i_type i ≠ T_DEV →
  0 ≤ off ≤ i_size i → off + n ≤ MAXFILE * BSIZE →
  K = Z.to_nat ((off mod BSIZE + n + BSIZE - 1) / BSIZE) → (2 * K ≤ nfree (sb s) (V s))%nat →
  ∃ s' ad, let i' := with_size (Z.max (i_size i) (off + n)) (with_addrs ad i) in
    writei pid dev_write s ip src off = Ret (n, s') ∧ tx r s' [] ∧ file_at s' ip i' ∧
    (∀ o, 0 ≤ o < MAXFILE * BSIZE → content (V s') ad o =
       if decide (off ≤ o < off + n) then nth (Z.to_nat (o - off)) src 0 else content (V s) (i_addrs i) o) ∧
    (∀ b o, apart s i b → 0 ≤ o < MAXFILE * BSIZE → content (V s') b o = content (V s) b o) ∧
    (no_holes (V s) i → no_holes (V s') i').
Proof.
  intros n [og Ht] Hr Hf Hin Hty Hoff Hmax HK Hfree.
  destruct (writei_ok pid dev_write r s ip i src off K Ht Hr Hf Hin Hty Hoff Hmax HK Hfree)
    as (s' & ad & E & Ht' & _ & _ & Hf' & Hc & Ho & Hh & _). exists s', ad. split_and!; try done. by exists og.
Qed.

(** C11: [readi], inside a transaction or outside any, as [fileread] calls it,
    returns the bytes of a file without holes from its offset, cut at its size,
    however many blocks they take, and leaves every block, the inodes, the log
    and the disk as they were. *)
Theorem readi_spec P s ip i off n :
  rx P s [] → file_at s ip i → no_holes (V s) i → i_type i ≠ T_DEV → i_size i ≤ MAXFILE * BSIZE →
  0 ≤ off ≤ i_size i → 0 ≤ n → off + n < 2 ^ 32 →
  let n' := Z.min n (i_size i - off) in
  ∃ s', readi pid dev_read s ip off n = Ret (n', map (λ j, content (V s) (i_addrs i) (off + j)) (seqZ 0 n'), s') ∧
    rx P s' [] ∧ untouched s s'.
Proof. apply readi_rx. Qed.

End spec.

(** Three bytes written to the empty file. *)
Lemma writei_spec_witness :
  ∃ s' ad, writei 1 (λ _, None) sample_fs 0 [65; 66; 67] 0 = Ret (3, s') ∧
    content (V s') ad 1 = 66 ∧ i_size <$> (icache s' !! 0%nat) = Some 3.
Proof.
  destruct (writei_spec 1 (λ _, None) 0 sample_fs 0 empty_file [65; 66; 67] 0 1) as (s' & ad & E & _ & Hf & Hc & _).
  - destruct sample_V as [[og Ht] _]. exists og. apply (tx_weaken LIM); [exact Ht|split; by vm_compute].
  - done.
  - apply sample_file.
  - by split.
  - done.
  - by split.
  - by vm_compute.
  - reflexivity.
  - pose proof sample_free. lia.
  - exists s', ad. split; [exact E|]. split; [rewrite Hc by (split; by vm_compute); reflexivity|].
    by rewrite (fa_ptr _ _ _ Hf).
Defined.

(** A file of one page in blocks 59 to 66, with no operation running. *)
Definition page_disk : disk :=
  mkDisk (λ b, if Z.leb 59 b && Z.leb b 66 then replicate 512 (b - 58)
               else if Z.eqb b 58 then replicate 8 255 ++ [7] ++ replicate 503 0 else zeros) 1000 [].
Definition page_file : inode := mkInode 1 5 1 initsleeplock true T_FILE 0 0 1 4096 (seqZ 59 8 ++ replicate 5 0).
Definition page_fs : fs :=
  mkFs (set_ops open_log 0 false) (mkBio (binit (λ _, zero_buf)) page_disk) sample_sb [page_file].

Lemma page_fs_V : rx [] page_fs [] ∧ V page_fs = blocks page_disk ∧ dsize page_fs = 1000.
Proof.
  destruct (binit_inv (λ _, zero_buf) page_disk) as [l Hi]; [done| |].
  { intros bn _. unfold page_disk. cbn [blocks]. destruct (_ && _); [by rewrite length_replicate|]. destruct (Z.eqb bn 58); by vm_compute. }
  unfold page_fs. generalize dependent (binit (λ _, zero_buf)). intros f Hi. split_and!; [|extensionality k|done].
  - exists l. split; [exact Hi|]. split; [intros b y Hin; by apply elem_of_nil in Hin|by vm_compute].
  - apply (view_unpinned _ _ _ _ _ Hi); [apply not_elem_of_nil|intros h Hh; by apply elem_of_nil in Hh].
Qed.

Lemma page_fs_addr k : 0 ≤ k → addr (blocks page_disk) (i_addrs page_file) k = if Z.ltb k 8 then 59 + k else 0.
Proof.
  intros Hk. unfold addr. destruct (Z.ltb_spec k NDIRECT) as [Hlt|Hge]; unfold NDIRECT in *.
  - assert (Hall : Forall (λ k, nth (Z.to_nat k) (i_addrs page_file) 0 = if Z.ltb k 8 then 59 + k else 0) (seqZ 0 12)).
    { apply (bool_decide_unpack _). vm_compute. done. }
    rewrite Forall_forall in Hall. apply Hall, elem_of_seqZ. lia.
  - by rewrite (proj2 (Z.ltb_ge k 8)) by lia.
Qed.

Lemma page_fs_used y : 0 ≤ y < 67 → used sample_sb (blocks page_disk) y = true.
Proof.
  intros Hy. assert (Hall : Forall (λ y, used sample_sb (blocks page_disk) y = true) (seqZ 0 67)).
  { apply (bool_decide_unpack _). vm_compute. done. }
  rewrite Forall_forall in Hall. apply Hall, elem_of_seqZ. lia.
Qed.

Lemma page_fs_at : file_at page_fs 0 page_file.
Proof.
  destruct page_fs_V as (_ & HV & Hsz). split; rewrite ?HV, ?Hsz; [done|done| |exact sample_layout|].
  - split; [done| | |]; unfold owns.
    + intros y [Hy [Hi|(k & [Hk _] & Hk')]]; [done|]. rewrite page_fs_addr in Hk' by done.
      destruct (Z.ltb_spec k 8); [|done]. change (data_start _) with 59. change (sb_size _) with 1000.
      split; [lia|]. apply page_fs_used. lia.
    + intros k k' [Hk _] [Hk' _]. rewrite !page_fs_addr by done. destruct (Z.ltb_spec k 8), (Z.ltb_spec k' 8); lia.
    + intros k [Hk _]. rewrite !page_fs_addr by done. change (indirect _) with 0. by destruct (Z.ltb k 8).
  - intros y Hy. change (data_start (sb page_fs)) with 59 in Hy. apply page_fs_used. lia.
Qed.

Lemma page_fs_holes : no_holes (V page_fs) page_file.
Proof.
  destruct page_fs_V as (_ & -> & _). intros bn Hbn Hlt. rewrite page_fs_addr by lia.
  rewrite (proj2 (Z.ltb_lt bn 8)) by (unfold BSIZE in *; simpl in Hlt; lia). lia.
Qed.

(** A page is asked for two bytes before the end of the first block, outside any
    transaction: the rest of the file comes back. *)
Lemma readi_spec_witness :
  ∃ s', readi 1 (λ _, None) page_fs 0 510 4096 =
      Ret (3586, [1; 1] ++ concat (map (replicate 512) (seqZ 2 7)), s') ∧ untouched page_fs s'.
Proof.
  destruct (readi_spec 1 (λ _, None) [] page_fs 0 page_file 510 4096) as (s' & E & _ & Hu).
  - apply page_fs_V.
  - apply page_fs_at.
  - apply page_fs_holes.
  - done.
  - by vm_compute.
  - by split.
  - done.
  - by vm_compute.
  - exists s'. split; [|exact Hu]. rewrite E. destruct page_fs_V as (_ & -> & _). vm_compute. reflexivity.
Defined.
