(* ===== verification/Grep.v ===== *)
(** * The pattern matcher of grep (grep.c)

    [match], [matchhere] and [matchstar] on C strings, and the loop of [grep]
    over the bytes its reads deliver.  Strings are the bytes before their NUL. *)
From stdpp Require Import base list strings.
From Stdlib Require Import ZArith Lia.
From S2P Require Import Prelude.

Definition CARET : Z := 94.
Definition DOLLAR : Z := 36.
Definition DOT : Z := 46.
Definition STAR : Z := 42.
Definition NEWLINE : Z := 10.

(** ** The matcher *)

(** The loop of [matchstar]: [here] is [matchhere(re, .)]. *)
Fixpoint matchstar (here : list Z → bool) (c : Z) (text : list Z) : bool :=
  if here text then true
  else match text with
       | [] => false
       | t :: text' => if Z.eqb t c || Z.eqb c DOT then matchstar here c text' else false
       end.

Fixpoint matchhere (re text : list Z) : bool :=
  match re with
  | [] => true
  | c :: re1 =>
      match re1 with
      | s :: re2 =>
          if Z.eqb s STAR then matchstar (matchhere re2) c text
          else match text with
               | t :: text' => if Z.eqb c DOT || Z.eqb c t then matchhere re1 text' else false
               | [] => false
               end
      | [] =>
          if Z.eqb c DOLLAR then match text with [] => true | _ => false end
          else match text with
               | t :: text' => if Z.eqb c DOT || Z.eqb c t then matchhere re1 text' else false
               | [] => false
               end
      end
  end.

(** [matchhere] at every suffix of [text], the empty one included. *)
Fixpoint match_anywhere (re text : list Z) : bool :=
  if matchhere re text then true
  else match text with [] => false | _ :: text' => match_anywhere re text' end.

Definition match_ (re text : list Z) : bool :=
  match re with
  | c :: re' => if Z.eqb c CARET then matchhere re' text else match_anywhere re text
  | [] => match_anywhere re text
  end.

(** ** The loop of [grep] *)

(** [sizeof(buf)]. *)
Definition GREPBUF : nat := 1024.

(** [strchr(p, '\n')], as the bytes before the newline and the ones after it;
    the search ends at a NUL. *)
Fixpoint strchr_nl (s : list Z) : option (list Z * list Z) :=
  match s with
  | [] => None
  | c :: s' =>
      if Z.eqb c 0 then None
      else if Z.eqb c NEWLINE then Some ([], s')
      else match strchr_nl s' with Some (l, r) => Some (c :: l, r) | None => None end
  end.

(** The inner loop from [p]: what is written, and the bytes from the last [p] on. *)
Fixpoint grep_lines (fuel : nat) (pattern p : list Z) : list Z * list Z :=
  match fuel with
  | O => ([], p)
  | S fuel =>
      match strchr_nl p with
      | None => ([], p)
      | Some (line, rest) =>
          let '(out, p') := grep_lines fuel pattern rest in
          ((if match_ pattern line then line ++ [NEWLINE] else []) ++ out, p')
      end
  end.

Section grep.
(** The open file: [read r k] is what a read of [k] bytes returns, and the file
    after it; an error or the end of the file is an empty result. *)
Context {R : Type} (read : R → nat → list Z * R).

(** The outer loop: [buf] is the [m] bytes kept from the last round. *)
Fixpoint grep_loop (fuel : nat) (pattern : list Z) (r : R) (buf : list Z) : outcome (list Z) :=
  match fuel with
  | O => NoFuel
  | S fuel =>
      let '(got, r') := read r (GREPBUF - length buf - 1)%nat in
      match got with
      | [] => Ret []
      | _ =>
          let buf1 := buf ++ got in
          let '(out, p) := grep_lines (length buf1) pattern buf1 in
          let buf2 := if Nat.eqb (length p) (length buf1) then [] else p in
          let! more := grep_loop fuel pattern r' buf2 in
          Ret (out ++ more)
      end
  end.

Definition grep (fuel : nat) (pattern : list Z) (r : R) : outcome (list Z) := grep_loop fuel pattern r [].

Definition CANNOT_OPEN : list Z := [103; 114; 101; 112; 58; 32; 99; 97; 110; 110; 111; 116; 32; 111; 112; 101; 110; 32].

(** [main] from its third argument on; [open] is the open system call. *)
Fixpoint grep_files (fuel : nat) (open : list Z → option R) (pattern : list Z) (files : list (list Z)) : outcome (list Z) :=
  match files with
  | [] => Ret []
  | f :: files' =>
      match open f with
      | None => Ret (CANNOT_OPEN ++ f ++ [NEWLINE])
      | Some r =>
          let! out := grep fuel pattern r in
          let! more := grep_files fuel open pattern files' in
          Ret (out ++ more)
      end
  end.

Definition USAGE : list Z :=
  [117; 115; 97; 103; 101; 58; 32; 103; 114; 101; 112; 32; 112; 97; 116; 116; 101; 114; 110; 32; 91; 102; 105; 108; 101; 32; 46; 46; 46; 93; 10].

(** [main]: what is written to descriptors 1 and 2; [args] is [argv] past [argv[0]]
    and [stdin] the file at descriptor 0. *)
Definition grep_main (fuel : nat) (open : list Z → option R) (stdin : R) (args : list (list Z)) : outcome (list Z * list Z) :=
  match args with
  | [] => Ret ([], USAGE)
  | [pattern] => let! out := grep fuel pattern stdin in Ret (out, [])
  | pattern :: files => let! out := grep_files fuel open pattern files in Ret (out, [])
  end.
End grep.

(** A source of bytes that come in pieces, as the lines typed at a console or the
    writes to a pipe do: a read returns what there is of the next piece, up to its
    count.  A file is a single piece. *)
Definition piece_read (r : list (list Z)) (k : nat) : list Z * list (list Z) :=
  match r with
  | [] => ([], [])
  | p :: r' => (take k p, match drop k p with [] => r' | p' => p' :: r' end)
  end.

(** ** What a pattern means *)

(** The characters the pattern character [c] stands for. *)
Definition stands_for (c t : Z) : Prop := c = DOT ∨ t = c.

(** [here re text]: pattern [re] matches at the start of [text]. *)
Inductive here : list Z → list Z → Prop :=
| here_nil text : here [] text
| here_star c re pre rest : Forall (stands_for c) pre → here re rest → here (c :: STAR :: re) (pre ++ rest)
| here_end : here [DOLLAR] []
| here_char c re t text : head re ≠ Some STAR → ¬ (c = DOLLAR ∧ re = []) → stands_for c t → here re text →
    here (c :: re) (t :: text).

(** A pattern in a text: at its start after a caret, else anywhere. *)
Definition found (re text : list Z) : Prop :=
  match re with
  | c :: re' => if decide (c = CARET) then here re' text else ∃ pre rest, text = pre ++ rest ∧ here re rest
  | [] => True
  end.

Lemma stands_for_eqb c t : Z.eqb c DOT || Z.eqb c t = true ↔ stands_for c t.
Proof. unfold stands_for. rewrite orb_true_iff, !Z.eqb_eq. naive_solver. Qed.

Lemma matchstar_spec (f : list Z → bool) c text :
  matchstar f c text = true ↔ ∃ pre rest, text = pre ++ rest ∧ Forall (stands_for c) pre ∧ f rest = true.
Proof.
  induction text as [|t text IH]; simpl.
  - destruct (f []) eqn:Hf; split; try done.
    + intros _. by exists [], [].
    + intros (pre & rest & He & _ & Hr). symmetry in He. apply app_eq_nil in He as [-> ->]. congruence.
  - destruct (f (t :: text)) eqn:Hf.
    { split; [|done]. intros _. by exists [], (t :: text). }
    destruct (Z.eqb t c || Z.eqb c DOT) eqn:Hc.
    + rewrite IH. assert (Hs : stands_for c t) by (unfold stands_for; apply orb_true_iff in Hc as [?%Z.eqb_eq|?%Z.eqb_eq]; auto).
      split.
      * intros (pre & rest & -> & Hpre & Hr). exists (t :: pre), rest. split_and!; [done|by constructor|done].
      * intros ([|t' pre] & rest & He & Hpre & Hr); simpl in He; [congruence|]. injection He as -> ->.
        exists pre, rest. by apply Forall_cons in Hpre as [_ ?].
    + split; [done|]. intros ([|t' pre] & rest & He & Hpre & Hr); simpl in He; [congruence|]. injection He as -> ->.
      apply Forall_cons in Hpre as [[->| ->] _]; apply orb_false_iff in Hc as [H1%Z.eqb_neq H2%Z.eqb_neq]; done.
Qed.

(** The plain-character case of [matchhere]. *)
Lemma here_cons_plain c re text :
  head re ≠ Some STAR → ¬ (c = DOLLAR ∧ re = []) →
  here (c :: re) text ↔ ∃ t text', text = t :: text' ∧ stands_for c t ∧ here re text'.
Proof.
  intros Hs Hd. split.
  - inversion 1; subst; simpl in *; [done|naive_solver|eauto].
  - intros (t & text' & -> & ? & ?). by apply here_char.
Qed.

Lemma matchhere_char c re text :
  (∀ t, matchhere re t = true ↔ here re t) → head re ≠ Some STAR → ¬ (c = DOLLAR ∧ re = []) →
  (match text with
   | t :: text' => if Z.eqb c DOT || Z.eqb c t then matchhere re text' else false
   | [] => false
   end = true) ↔ here (c :: re) text.
Proof.
  intros IH Hs Hd. rewrite here_cons_plain by done. destruct text as [|t text].
  - split; [done|]. by intros (t & text' & ? & _).
  - destruct (Z.eqb c DOT || Z.eqb c t) eqn:Hc.
    + rewrite IH. apply stands_for_eqb in Hc. split; [eauto|]. intros (t' & text' & [= <- <-] & _ & ?). done.
    + split; [done|]. intros (t' & text' & [= <- <-] & Hst & _). apply stands_for_eqb in Hst. congruence.
Qed.

Lemma matchhere_spec re text : matchhere re text = true ↔ here re text.
Proof.
  revert text. induction re as [re IH] using (induction_ltof1 _ (@length Z)). unfold ltof in IH. intros text.
  destruct re as [|c re1]; [split; [constructor|done]|].
  assert (IH1 : ∀ t, matchhere re1 t = true ↔ here re1 t) by (intros t; apply IH; simpl; lia).
  destruct re1 as [|s re2].
  - cbn [matchhere]. destruct (Z.eqb_spec c DOLLAR) as [->|Hc].
    + split; [destruct text; [constructor|done]|]. inversion 1; subst; [done|naive_solver].
    + apply (matchhere_char c []); [done|done|naive_solver].
  - cbn [matchhere]. destruct (Z.eqb_spec s STAR) as [->|Hs].
    + rewrite matchstar_spec. assert (IH2 : ∀ t, matchhere re2 t = true ↔ here re2 t) by (intros t; apply IH; simpl; lia). split.
      * intros (pre & rest & -> & Hpre & Hr). apply here_star; [done|]. by apply IH2.
      * inversion 1; subst; [|done]. eexists _, _. split_and!; [done|done|by apply IH2].
    + apply (matchhere_char c (s :: re2)); [done|simpl; congruence|naive_solver].
Qed.

Lemma match_anywhere_spec re text :
  match_anywhere re text = true ↔ ∃ pre rest, text = pre ++ rest ∧ here re rest.
Proof.
  induction text as [|t text IH]; simpl.
  - destruct (matchhere re []) eqn:Hm.
    + split; [|done]. intros _. exists [], []. split; [done|]. by apply matchhere_spec.
    + split; [done|]. intros (pre & rest & He & Hh). symmetry in He. apply app_eq_nil in He as [-> ->].
      apply matchhere_spec in Hh. congruence.
  - destruct (matchhere re (t :: text)) eqn:Hm.
    + split; [|done]. intros _. exists [], (t :: text). split; [done|]. by apply matchhere_spec.
    + rewrite IH. split.
      * intros (pre & rest & -> & Hh). by exists (t :: pre), rest.
      * intros ([|t' pre] & rest & He & Hh); simpl in He; [subst; apply matchhere_spec in Hh; congruence|].
        injection He as -> ->. by exists pre, rest.
Qed.

(** C34: [match] decides the meaning of patterns: it returns 1 exactly when the
    pattern, read as a sequence of characters, dots, starred characters and an
    optional final dollar, matches at the start of the text after a caret, or at
    some position of it without one. *)
Theorem match_equiv re text : match_ re text = true ↔ found re text.
Proof.
  unfold match_, found. destruct re as [|c re].
  - rewrite match_anywhere_spec. split; [done|]. intros _. exists [], text. split; [done|constructor].
  - destruct (Z.eqb_spec c CARET) as [->|Hc].
    + rewrite decide_True by done. apply matchhere_spec.
    + rewrite decide_False by done. apply match_anywhere_spec.
Qed.

(** ** The loop prints the matching lines *)

(** A line with its newline, printed when it matches. *)
Definition shown (pattern l : list Z) : list Z := if match_ pattern l then l ++ [NEWLINE] else [].

(** What grep should print of [cur ++ s], where [cur] is a line begun. *)
Fixpoint lines_out (pattern cur s : list Z) : list Z :=
  match s with
  | [] => []
  | c :: s' => if Z.eqb c NEWLINE then shown pattern cur ++ lines_out pattern [] s'
               else lines_out pattern (cur ++ [c]) s'
  end.

(** No line of [cur ++ s] that begins with [cur], terminated or not, exceeds the buffer. *)
Fixpoint fits (cur s : list Z) : Prop :=
  (length cur < GREPBUF - 1)%nat ∧
  match s with
  | [] => True
  | c :: s' => if Z.eqb c NEWLINE then fits [] s' else fits (cur ++ [c]) s'
  end.

Definition plain (s : list Z) : Prop := Forall (λ c, c ≠ 0 ∧ c ≠ NEWLINE) s.
Definition no_nul (s : list Z) : Prop := Forall (λ c, c ≠ 0) s.

Lemma plain_no_nul s : plain s → no_nul s.
Proof. intros H. eapply Forall_impl; [exact H|]. naive_solver. Qed.

Lemma strchr_nl_plain s : plain s → strchr_nl s = None.
Proof.
  induction 1 as [|c s [H0 H1] _ IH]; [done|]. simpl.
  by rewrite (proj2 (Z.eqb_neq _ _) H0), (proj2 (Z.eqb_neq _ _) H1), IH.
Qed.

Lemma strchr_nl_line l s : plain l → strchr_nl (l ++ NEWLINE :: s) = Some (l, s).
Proof.
  induction 1 as [|c l [H0 H1] _ IH]; [done|]. simpl.
  by rewrite (proj2 (Z.eqb_neq _ _) H0), (proj2 (Z.eqb_neq _ _) H1), IH.
Qed.

(** A text without NUL is plain or starts with a line. *)
Lemma plain_or_line s : no_nul s → plain s ∨ ∃ l r, s = l ++ NEWLINE :: r ∧ plain l.
Proof.
  induction 1 as [|c s Hc _ IH]; [left; constructor|].
  destruct (decide (c = NEWLINE)) as [->|Hn]; [right; exists [], s; split; [done|constructor]|].
  destruct IH as [IH|(l & r & -> & IH)].
  - left. by constructor.
  - right. exists (c :: l), r. split; [done|]. by constructor.
Qed.

Lemma lines_out_plain pattern cur l s : plain l → lines_out pattern cur (l ++ s) = lines_out pattern (cur ++ l) s.
Proof.
  intros Hl. revert cur. induction Hl as [|c l [_ H1] _ IH]; intros cur; [by rewrite app_nil_r|]. simpl.
  rewrite (proj2 (Z.eqb_neq _ _) H1), IH. by rewrite <-app_assoc.
Qed.

Lemma fits_plain cur l s : plain l → fits cur (l ++ s) → fits (cur ++ l) s.
Proof.
  intros Hl. revert cur. induction Hl as [|c l [_ H1] _ IH]; intros cur Hf; [by rewrite app_nil_r|]. simpl in Hf.
  rewrite (proj2 (Z.eqb_neq _ _) H1) in Hf. apply proj2, IH in Hf. by rewrite <-app_assoc in Hf.
Qed.

Lemma plain_fits l cur s : plain l → (length (cur ++ l) < GREPBUF - 1)%nat → fits (cur ++ l) s → fits cur (l ++ s).
Proof.
  intros Hl. revert cur. induction Hl as [|c l [_ H1] _ IH]; intros cur Hlen Hf; [by rewrite app_nil_r in Hf|].
  simpl. rewrite (proj2 (Z.eqb_neq _ _) H1). rewrite length_app in Hlen. simpl in Hlen. split; [lia|].
  apply IH; rewrite <-app_assoc; [rewrite length_app; simpl; lia|done].
Qed.

Lemma fits_length cur s : fits cur s → (length cur < GREPBUF - 1)%nat.
Proof. destruct s; simpl; tauto. Qed.

(** The inner loop, on a buffer that continues with [s]. *)
Lemma grep_lines_spec pattern fuel b s out p :
  no_nul b → (length b ≤ fuel)%nat → grep_lines fuel pattern b = (out, p) →
  plain p ∧ lines_out pattern [] (b ++ s) = out ++ lines_out pattern p s ∧
  (fits [] (b ++ s) → fits p s) ∧ (length p = length b → p = b ∧ out = []) ∧ (length p ≤ length b)%nat.
Proof.
  revert b out p. induction fuel as [|fuel IH]; intros b out p Hb Hl Hg.
  { destruct b; [|simpl in Hl; lia]. injection Hg as <- <-. split_and!; [constructor|done..]. }
  destruct (plain_or_line b Hb) as [Hp|(l & r & -> & Hp)]; simpl in Hg.
  - rewrite strchr_nl_plain in Hg by done. injection Hg as <- <-. split_and!; [done| |by apply (fits_plain [])|done|done].
    by rewrite lines_out_plain.
  - rewrite strchr_nl_line in Hg by done. destruct (grep_lines fuel pattern r) as [o p'] eqn:Hr. injection Hg as <- <-.
    apply Forall_app in Hb as [_ [_ Hb]%Forall_cons]. rewrite length_app in Hl; simpl in Hl.
    apply IH in Hr as (H1 & H2 & H3 & H4 & H5); [|done|lia].
    rewrite !length_app; simpl. split_and!; [done| | |lia|lia].
    + rewrite <-app_assoc, lines_out_plain by done. simpl. by rewrite H2, <-app_assoc.
    + rewrite <-app_assoc. intros Hf. apply (fits_plain []) in Hf; [|done]. simpl in Hf. tauto.
Qed.

(** Every piece but the last ends a line. *)
Fixpoint whole_lines (r : list (list Z)) : Prop :=
  match r with
  | [] => True
  | p :: r' => (r' ≠ [] → last p = Some NEWLINE) ∧ whole_lines r'
  end.

Lemma whole_lines_tail p r : whole_lines (p :: r) → whole_lines r.
Proof. by intros [_ H]. Qed.

(** What a read leaves. *)
Lemma piece_read_rest k p r :
  Forall (λ p, p ≠ []) (p :: r) → whole_lines (p :: r) →
  let r' := match drop k p with [] => r | p' => p' :: r end in
  Forall (λ p, p ≠ []) r' ∧ whole_lines r' ∧ concat r' = drop k p ++ concat r.
Proof.
  intros [Hp Hr]%Forall_cons Hw. destruct (drop k p) as [|c q] eqn:Hd; simpl.
  - split_and!; [done|by eapply whole_lines_tail|done].
  - split_and!; [by constructor| |by destruct Hw|done]. intros Hr0. destruct Hw as [Hl _]. specialize (Hl Hr0).
    rewrite <-(take_drop k p), Hd in Hl. by rewrite last_app_cons in Hl.
Qed.

Lemma plain_last p : plain p → last p ≠ Some NEWLINE.
Proof. intros Hp Hl%last_Some_elem_of. by destruct (proj1 (Forall_forall _ _) Hp _ Hl). Qed.

Lemma grep_loop_spec pattern fuel buf r :
  plain buf → no_nul (concat r) → Forall (λ p, p ≠ []) r → whole_lines r → fits buf (concat r) → (length (concat r) < fuel)%nat →
  grep_loop piece_read fuel pattern r buf = Ret (lines_out pattern buf (concat r)).
Proof.
  revert buf r. induction fuel as [|fuel IH]; intros buf r Hb Hr Hne Hw Hf Hl; [lia|]. cbn [grep_loop].
  destruct r as [|p r]; [done|]. cbn [piece_read].
  pose proof (fits_length _ _ Hf) as Hlen. set (k := (GREPBUF - length buf - 1)%nat). assert (Hk : (0 < k)%nat) by lia.
  destruct (piece_read_rest k p r Hne Hw) as (Hne' & Hw' & Hcat). set (r' := match drop k p with [] => r | p' => p' :: r end) in *.
  apply Forall_cons in Hne as [Hp0 _].
  destruct (take k p) as [|c got] eqn:Hgot; [destruct p; [done|by destruct k; [lia|]]|]. rewrite <-Hgot. clear Hgot c got.
  set (b1 := buf ++ take k p). destruct (grep_lines (length b1) pattern b1) as [out q] eqn:Hg.
  assert (Hall : b1 ++ concat r' = buf ++ concat (p :: r)) by (unfold b1; rewrite Hcat, <-app_assoc, (app_assoc (take k p)), take_drop; done).
  assert (Hnn : no_nul (b1 ++ concat r')) by (rewrite Hall; apply Forall_app; split; [by apply plain_no_nul|done]).
  apply Forall_app in Hnn as [Hn1 Hnr].
  destruct (grep_lines_spec pattern (length b1) b1 (concat r') out q Hn1 (le_n _) Hg) as (Hq & Ho & Hfit & Hsame & _).
  rewrite Hall in Ho, Hfit. rewrite lines_out_plain in Ho by done. simpl app in Ho.
  specialize (Hfit (plain_fits buf [] _ Hb Hlen Hf)).
  assert (Hdl : (length (concat r') < fuel)%nat).
  { rewrite Hcat, length_app, length_drop. cbn [concat] in Hl. rewrite length_app in Hl. destruct p; [done|simpl in *; lia]. }
  destruct (Nat.eqb_spec (length q) (length b1)) as [He|Hneq].
  - destruct (Hsame He) as [-> ->]. pose proof (fits_length _ _ Hfit) as Hl1.
    assert (Hshort : (length p ≤ k)%nat) by (unfold b1 in Hl1; rewrite length_app, length_take in Hl1; lia).
    assert (r = []) as ->.
    { destruct r; [done|]. exfalso. destruct Hw as [Hlast _]. apply (plain_last p); [|by apply Hlast].
      unfold b1 in Hq. rewrite take_ge in Hq by done. by apply Forall_app in Hq as [_ ?]. }
    assert (Hend : concat r' = []) by (rewrite Hcat, drop_ge by done; done). rewrite Hend in *.
    rewrite IH, Hend; [|constructor|by rewrite Hend|done|done| |by rewrite Hend]; rewrite ?Hend.
    + by rewrite Ho.
    + split; [unfold GREPBUF; simpl; lia|done].
  - rewrite IH by done. simpl obind. by rewrite Ho.
Qed.

Lemma lines_out_lines pattern ls tail :
  Forall plain ls → plain tail →
  lines_out pattern [] (concat ((λ l, l ++ [NEWLINE]) <$> ls) ++ tail) = concat (shown pattern <$> ls).
Proof.
  intros Hls Ht. induction Hls as [|l ls Hl _ IH]; simpl.
  - rewrite <-(app_nil_r tail), lines_out_plain by done. done.
  - rewrite <-!app_assoc, lines_out_plain by done. simpl. f_equal. exact IH.
Qed.

Lemma fits_lines ls tail :
  Forall (λ l, plain l ∧ (length l < GREPBUF - 1)%nat) ls → plain tail → (length tail < GREPBUF - 1)%nat →
  fits [] (concat ((λ l, l ++ [NEWLINE]) <$> ls) ++ tail).
Proof.
  intros Hls Ht Hlt. induction Hls as [|l ls [Hl Hll] _ IH]; simpl.
  - rewrite <-(app_nil_r tail). by apply (plain_fits tail []).
  - rewrite <-!app_assoc. apply (plain_fits l []); [done|done|]. simpl. split; [exact Hll|exact IH].
Qed.

(** C35: grep returns, and what it has written is exactly the newline-terminated
    lines of its input that match the pattern, in order, when the input has no NUL, each
    line fits the buffer, and each piece the input comes in, except the last, ends a
    line: a file, the lines of a console, a pipe whose writers write whole lines.  The
    buffer may cut a piece at any byte.  A last line without newline is not printed. *)
Theorem grep_spec pattern ls tail r :
  Forall (λ l, plain l ∧ (length l < GREPBUF - 1)%nat) ls → plain tail → (length tail < GREPBUF - 1)%nat →
  concat r = concat ((λ l, l ++ [NEWLINE]) <$> ls) ++ tail → Forall (λ p, p ≠ []) r → whole_lines r →
  grep piece_read (S (length (concat r))) pattern r = Ret (concat (shown pattern <$> ls)).
Proof.
  intros Hls Ht Hl Hr Hne Hw. assert (Hp : Forall plain ls) by (eapply Forall_impl; [done|]; naive_solver).
  unfold grep. rewrite grep_loop_spec; [|constructor| |done|done|rewrite Hr; by apply fits_lines|lia].
  - by rewrite Hr, lines_out_lines.
  - rewrite Hr. apply Forall_app. split; [|by apply plain_no_nul]. clear -Hp. induction Hp as [|l ls Hl _ IH]; [constructor|]. simpl.
    repeat (apply Forall_app; split); [by apply plain_no_nul|by repeat constructor|done].
Qed.

(** The lines ab and xc under the pattern a*b$ in one piece, the line b in another, then
    an unterminated b. *)
Lemma grep_spec_witness :
  grep piece_read 11 [97; STAR; 98; DOLLAR] [[97; 98; NEWLINE; 120; 99; NEWLINE]; [98; NEWLINE]; [98; 98]] =
    Ret [97; 98; NEWLINE; 98; NEWLINE].
Proof.
  apply (grep_spec [97; STAR; 98; DOLLAR] [[97; 98]; [120; 99]; [98]] [98; 98]
    [[97; 98; NEWLINE; 120; 99; NEWLINE]; [98; NEWLINE]; [98; 98]]).
  - repeat constructor; try (intros ?; discriminate); unfold GREPBUF; simpl; lia.
  - repeat constructor; intros ?; discriminate.
  - unfold GREPBUF. simpl. lia.
  - reflexivity.
  - repeat constructor; intros ?; discriminate.
  - cbn [whole_lines]. split_and!; try reflexivity; intros H; [reflexivity..|by destruct H].
Defined.

(** A line delivered by two reads is lost: the first read holds no newline, so
    the loop forgets it. *)
Lemma grep_forgets_partial :
  grep piece_read 9 [97] [[97]; [98; NEWLINE]] = Ret [].
Proof. reflexivity. Qed.
