(* ===== verification/Pipe.v ===== *)
(** * Pipes (pipe.c)

    The ring buffer of a pipe and the calls on it.  Each call runs in sections
    under the lock of the pipe, which end at a sleep or at the return; the
    processes that use one pipe interleave between these sections. *)
From stdpp Require Import base list strings.
From Stdlib Require Import ZArith Lia.
From S2P Require Import Prelude.

Definition PIPESIZE : Z := 512.

Record pipe := mkPipe { data : list Z; nread : Z; nwrite : Z; readopen : bool; writeopen : bool }.

(** What [pipealloc] stores in the page it got; the data is whatever was there. *)
Definition pipe_init (junk : list Z) : pipe := mkPipe junk 0 0 true true.

Definition full (p : pipe) : bool := Z.eqb (nwrite p) (u32 (nread p + PIPESIZE)).
Definition empty (p : pipe) : bool := Z.eqb (nread p) (nwrite p).

(** [p->data[p->nwrite++ % PIPESIZE] = c]. *)
Definition put (p : pipe) (c : Z) : pipe :=
  mkPipe (<[Z.to_nat (nwrite p mod PIPESIZE) := c]> (data p)) (nread p) (u32 (nwrite p + 1)) (readopen p) (writeopen p).

(** [p->data[p->nread++ % PIPESIZE]]. *)
Definition get (p : pipe) : Z * pipe :=
  (nth (Z.to_nat (nread p mod PIPESIZE)) (data p) 0, mkPipe (data p) (u32 (nread p + 1)) (nwrite p) (readopen p) (writeopen p)).

(** How a section of [pipewrite] under the lock ends: it returns the count, or
    -1, or it sleeps with the bytes it still has to write. *)
Inductive wresult := WDone (p : pipe) | WFailed (p : pipe) | WSleep (p : pipe) (rest : list Z).

(** The loop of [pipewrite] from the byte at [addr[i]] on. *)
Fixpoint pipewrite (p : pipe) (addr : list Z) (killed : bool) : wresult :=
  match addr with
  | [] => WDone p
  | c :: addr' =>
      if full p then if negb (readopen p) || killed then WFailed p else WSleep p addr
      else pipewrite (put p c) addr' killed
  end.

(** [for(i = 0; i < n; i++)] of [piperead]. *)
Fixpoint piperead_copy (p : pipe) (n : nat) : list Z * pipe :=
  match n with
  | O => ([], p)
  | S n => if empty p then ([], p)
           else let '(c, p1) := get p in let '(l, p2) := piperead_copy p1 n in (c :: l, p2)
  end.

Inductive rresult := RDone (l : list Z) (p : pipe) | RFailed | RSleep.

Definition piperead (p : pipe) (n : nat) (killed : bool) : rresult :=
  if empty p && writeopen p then if killed then RFailed else RSleep
  else let '(l, p') := piperead_copy p n in RDone l p'.

(** [pipeclose]: the pipe after it, and whether its page is freed. *)
Definition pipeclose (p : pipe) (writable : bool) : pipe * bool :=
  let p' := if writable then mkPipe (data p) (nread p) (nwrite p) (readopen p) false
            else mkPipe (data p) (nread p) (nwrite p) false (writeopen p) in
  (p', negb (readopen p') && negb (writeopen p')).

(** ** The queue a pipe holds *)

(** [rep p q]: pipe [p] holds the bytes [q], oldest first.  The counters wrap at
    2{^32}, a multiple of [PIPESIZE]. *)
Record rep (p : pipe) (q : list Z) : Prop := mk_rep {
  rep_data : length (data p) = Z.to_nat PIPESIZE;
  rep_nread : is_u32 (nread p);
  rep_nwrite : nwrite p = u32 (nread p + Z.of_nat (length q));
  rep_len : Z.of_nat (length q) ≤ PIPESIZE;
  rep_byte : ∀ j c, q !! j = Some c → data p !! Z.to_nat ((nread p + Z.of_nat j) mod PIPESIZE) = Some c }.

Lemma u32_mod_size x : u32 x mod PIPESIZE = x mod PIPESIZE.
Proof.
  unfold u32, PIPESIZE. symmetry. rewrite (Z.div_mod x (2 ^ 32)) at 1 by lia.
  replace (2 ^ 32 * (x / 2 ^ 32)) with ((2 ^ 23 * (x / 2 ^ 32)) * 512) by lia.
  rewrite Z.add_comm. apply Z_mod_plus_full.
Qed.

(** Counters at most [PIPESIZE] apart are told apart by their low 32 bits. *)
Lemma u32_near a k k' : 0 ≤ k ≤ PIPESIZE → 0 ≤ k' ≤ PIPESIZE → u32 (a + k) = u32 (a + k') → k = k'.
Proof.
  unfold u32, PIPESIZE. intros H H' He. pose proof (Z.div_mod (a + k) (2 ^ 32)). pose proof (Z.div_mod (a + k') (2 ^ 32)). lia.
Qed.

Lemma size_near a k k' : 0 ≤ k < PIPESIZE → 0 ≤ k' < PIPESIZE → (a + k) mod PIPESIZE = (a + k') mod PIPESIZE → k = k'.
Proof.
  unfold PIPESIZE. intros H H' He. pose proof (Z.div_mod (a + k) 512). pose proof (Z.div_mod (a + k') 512). lia.
Qed.

Lemma full_rep p q : rep p q → full p = true ↔ Z.of_nat (length q) = PIPESIZE.
Proof.
  intros [_ _ Hw Hl _]. unfold full. rewrite Z.eqb_eq, Hw. split; [|by intros ->].
  apply u32_near; unfold PIPESIZE in *; lia.
Qed.

Lemma empty_rep p q : rep p q → empty p = true ↔ q = [].
Proof.
  intros [_ Hr Hw Hl _]. unfold empty. rewrite Z.eqb_eq, Hw. split.
  - intros He. apply length_zero_iff_nil. cut (0 = Z.of_nat (length q)); [lia|].
    apply (u32_near (nread p)); [unfold PIPESIZE; lia|lia|]. rewrite Z.add_0_r, u32_small by done. done.
  - intros ->. simpl. by rewrite Z.add_0_r, u32_small.
Qed.

Lemma init_rep junk : length junk = Z.to_nat PIPESIZE → rep (pipe_init junk) [].
Proof. intros Hl. split; simpl; [done|unfold is_u32; lia|done|unfold PIPESIZE; lia|done]. Qed.

Lemma mod_size_lt x : (Z.to_nat (x mod PIPESIZE) < Z.to_nat PIPESIZE)%nat.
Proof. unfold PIPESIZE. pose proof (Z.mod_pos_bound x 512). lia. Qed.

Lemma put_rep p q c : rep p q → full p = false → rep (put p c) (q ++ [c]).
Proof.
  intros Hrep Hf. assert (Hl : Z.of_nat (length q) < PIPESIZE).
  { pose proof (rep_len _ _ Hrep). destruct (decide (Z.of_nat (length q) = PIPESIZE)) as [He|]; [|lia].
    apply (full_rep _ _ Hrep) in He. congruence. }
  destruct Hrep as [Hd Hr Hw _ Hb]. split; simpl.
  - by rewrite length_insert.
  - done.
  - rewrite Hw, length_app. simpl. unfold u32. rewrite Zplus_mod_idemp_l. f_equal. lia.
  - rewrite length_app. simpl. lia.
  - intros j x Hj. rewrite Hw, u32_mod_size. apply lookup_app_Some in Hj as [Hj|[Hge Hj]].
    + pose proof (lookup_lt_Some _ _ _ Hj). rewrite list_lookup_insert_ne; [by apply Hb|].
      intros He%Z2Nat.inj; try (unfold PIPESIZE; apply Z.mod_pos_bound; lia). apply size_near in He; lia.
    + apply list_lookup_singleton_Some in Hj as [Hj ->]. replace j with (length q) by lia.
      apply list_lookup_insert_eq. rewrite Hd. apply mod_size_lt.
Qed.

Lemma get_rep p c q : rep p (c :: q) → (get p).1 = c ∧ rep (get p).2 q.
Proof.
  intros [Hd Hr Hw Hl Hb]. simpl in *. split.
  - specialize (Hb 0%nat c eq_refl). rewrite Z.add_0_r in Hb. by apply nth_lookup_Some.
  - split; simpl; [done|by apply u32_range| |lia|].
    + rewrite Hw. unfold u32. rewrite Zplus_mod_idemp_l. f_equal. lia.
    + intros j x Hj. specialize (Hb (S j) x Hj). rewrite <-Hb. do 2 f_equal.
      rewrite <-Zplus_mod_idemp_l, u32_mod_size, Zplus_mod_idemp_l. f_equal. lia.
Qed.

(** The result of a section of [pipewrite]: a prefix of the bytes has joined the
    queue, all of them when it returns, and it stops early only at a full pipe. *)
Lemma pipewrite_rep p q addr killed :
  rep p q →
  match pipewrite p addr killed with
  | WDone p' => rep p' (q ++ addr) ∧ readopen p' = readopen p ∧ writeopen p' = writeopen p
  | WFailed p' => ∃ pre rest, addr = pre ++ rest ∧ rep p' (q ++ pre) ∧ readopen p' = readopen p ∧ writeopen p' = writeopen p ∧
                              (readopen p = false ∨ killed = true)
  | WSleep p' rest => ∃ pre, addr = pre ++ rest ∧ rep p' (q ++ pre) ∧ readopen p' = true ∧ readopen p = true ∧ writeopen p' = writeopen p ∧
                             full p' = true
  end.
Proof.
  revert p q. induction addr as [|c addr IH]; intros p q Hrep; simpl; [by rewrite app_nil_r|].
  destruct (full p) eqn:Hf.
  - destruct (readopen p) eqn:Hro; simpl; [destruct killed|].
    + exists [], (c :: addr). rewrite app_nil_r. split_and!; auto.
    + exists []. rewrite app_nil_r. split_and!; auto.
    + exists [], (c :: addr). rewrite app_nil_r. split_and!; auto.
  - specialize (IH (put p c) (q ++ [c]) (put_rep p q c Hrep Hf)).
    destruct (pipewrite (put p c) addr killed); simpl in IH.
    + by rewrite <-app_assoc in IH.
    + destruct IH as (pre & rest & -> & ? & ? & ? & ?). exists (c :: pre), rest. rewrite <-app_assoc in *. split_and!; auto.
    + destruct IH as (pre & -> & ? & ? & ? & ? & ?). exists (c :: pre). rewrite <-app_assoc in *. split_and!; auto.
Qed.

Lemma piperead_copy_rep p q n :
  rep p q → (piperead_copy p n).1 = take n q ∧ rep (piperead_copy p n).2 (drop n q) ∧
            readopen (piperead_copy p n).2 = readopen p ∧ writeopen (piperead_copy p n).2 = writeopen p.
Proof.
  revert p q. induction n as [|n IH]; intros p q Hrep; [done|]. cbn [piperead_copy].
  destruct (empty p) eqn:He.
  - apply (empty_rep _ _ Hrep) in He as ->. by destruct n.
  - destruct q as [|c q]; [by rewrite (proj2 (empty_rep _ _ Hrep) eq_refl) in He|].
    destruct (get_rep _ _ _ Hrep) as [Hc Hrep']. specialize (IH _ _ Hrep'). destruct (get p) as [c' p1] eqn:Hg. simpl in *.
    assert (Ho : readopen p1 = readopen p ∧ writeopen p1 = writeopen p) by (by injection Hg as _ <-).
    destruct (piperead_copy p1 n) as [l p2]; simpl in *. destruct IH as (-> & ? & ? & ?). subst c'. intuition congruence.
Qed.

(** ** The processes on one pipe *)

(** A process is elsewhere, at the start of a section of [pipewrite] or
    [piperead], or asleep in one. *)
Inductive pwhere := Away | Writing (rest : list Z) | WriteAsleep (rest : list Z) | Reading (n : nat) | ReadAsleep (n : nat).

(** The pipe, its processes, and the bytes that went in and came out so far. *)
Record psys := mkPsys { pp : pipe; procs : Z → pwhere; sent : list Z; received : list Z }.

(** [wakeup(&p->nwrite)] and [wakeup(&p->nread)]. *)
Definition wake_writer (w : pwhere) : pwhere := match w with WriteAsleep r => Writing r | _ => w end.
Definition wake_reader (w : pwhere) : pwhere := match w with ReadAsleep n => Reading n | _ => w end.
Definition wakeup_nwrite (f : Z → pwhere) : Z → pwhere := λ i, wake_writer (f i).
Definition wakeup_nread (f : Z → pwhere) : Z → pwhere := λ i, wake_reader (f i).

(** The bytes of [addr] that left a writer that has [rest] to write. *)
Definition gone (addr rest : list Z) : list Z := take (length addr - length rest) addr.

(** The bytes a failing section of [pipewrite] had put before it gave up. *)
Fixpoint put_before_failing (p : pipe) (addr : list Z) : list Z :=
  match addr with
  | [] => []
  | c :: addr' => if full p then [] else c :: put_before_failing (put p c) addr'
  end.

(** A section of a writer: the wakeups are those before the sleep and before the
    return of the count; the return of -1 has none. *)
Definition write_section (s : psys) (i : Z) (addr : list Z) (killed : bool) : psys :=
  match pipewrite (pp s) addr killed with
  | WDone p => mkPsys p (upd (wakeup_nread (procs s)) i Away) (sent s ++ addr) (received s)
  | WSleep p rest => mkPsys p (upd (wakeup_nread (procs s)) i (WriteAsleep rest)) (sent s ++ gone addr rest) (received s)
  | WFailed p => mkPsys p (upd (procs s) i Away) (sent s ++ put_before_failing (pp s) addr) (received s)
  end.

Definition read_section (s : psys) (i : Z) (n : nat) (killed : bool) : psys :=
  match piperead (pp s) n killed with
  | RDone l p => mkPsys p (upd (wakeup_nwrite (procs s)) i Away) (sent s) (received s ++ l)
  | RFailed => mkPsys (pp s) (upd (procs s) i Away) (sent s) (received s)
  | RSleep => mkPsys (pp s) (upd (procs s) i (ReadAsleep n)) (sent s) (received s)
  end.

Definition close_section (s : psys) (writable : bool) : psys :=
  mkPsys (pipeclose (pp s) writable).1 (if writable then wakeup_nread (procs s) else wakeup_nwrite (procs s)) (sent s) (received s).

Definition reads (w : pwhere) : Prop := match w with Reading _ | ReadAsleep _ => True | _ => False end.
Definition writes (w : pwhere) : Prop := match w with Writing _ | WriteAsleep _ => True | _ => False end.

(** The steps.  [kills] says whether writers may find themselves killed.  A
    process inside [piperead] or [pipewrite] holds a reference to its end of the
    pipe, so that end is open and is not closed under it. *)
Inductive pstep (kills : bool) (s : psys) : psys → Prop :=
| step_call_write i addr : procs s i = Away → writeopen (pp s) = true →
    pstep kills s (mkPsys (pp s) (upd (procs s) i (Writing addr)) (sent s) (received s))
| step_call_read i n : procs s i = Away → readopen (pp s) = true →
    pstep kills s (mkPsys (pp s) (upd (procs s) i (Reading n)) (sent s) (received s))
| step_write i addr killed : procs s i = Writing addr → (killed = true → kills = true) → pstep kills s (write_section s i addr killed)
| step_read i n killed : procs s i = Reading n → pstep kills s (read_section s i n killed)
| step_wake i : pstep kills s (mkPsys (pp s) (upd (procs s) i (wake_reader (wake_writer (procs s i)))) (sent s) (received s))
| step_close_write : (∀ i, ¬ writes (procs s i)) → pstep kills s (close_section s true)
| step_close_read : (∀ i, ¬ reads (procs s i)) → pstep kills s (close_section s false).

Inductive preach (kills : bool) (junk : list Z) : psys → Prop :=
| preach_init : preach kills junk (mkPsys (pipe_init junk) (λ _, Away) [] [])
| preach_step s s' : preach kills junk s → pstep kills s s' → preach kills junk s'.

(** ** What they see is a bounded queue *)

Definition fifo (s : psys) : Prop := ∃ q, rep (pp s) q ∧ sent s = received s ++ q.

Lemma put_before_failing_spec p q addr killed p' :
  rep p q → pipewrite p addr killed = WFailed p' → rep p' (q ++ put_before_failing p addr).
Proof.
  revert p q. induction addr as [|c addr IH]; intros p q Hrep; simpl; [done|]. destruct (full p) eqn:Hf.
  - destruct (negb (readopen p) || killed); [|done]. intros [= <-]. by rewrite app_nil_r.
  - intros Hp. apply (IH _ (q ++ [c])) in Hp; [|by apply put_rep]. by rewrite <-app_assoc in Hp.
Qed.

Lemma gone_app pre rest : gone (pre ++ rest) rest = pre.
Proof. unfold gone. rewrite length_app. replace (_ - _)%nat with (length pre) by lia. by rewrite take_app_length. Qed.

Lemma rep_ext p p' q : data p' = data p → nread p' = nread p → nwrite p' = nwrite p → rep p q → rep p' q.
Proof. destruct p, p'; simpl. intros -> -> -> [H1 H2 H3 H4 H5]. by split. Qed.

Lemma write_section_fifo s i addr killed : fifo s → fifo (write_section s i addr killed).
Proof.
  intros (q & Hrep & Hs). pose proof (pipewrite_rep _ _ addr killed Hrep) as H. unfold write_section.
  destruct (pipewrite (pp s) addr killed) as [p|p|p rest] eqn:Hw; simpl.
  - destruct H as (H & _). exists (q ++ addr). by rewrite Hs, app_assoc.
  - exists (q ++ put_before_failing (pp s) addr). rewrite Hs, app_assoc. split; [|done]. by eapply put_before_failing_spec.
  - destruct H as (pre & -> & H & _). exists (q ++ pre). by rewrite gone_app, Hs, app_assoc.
Qed.

Lemma read_section_fifo s i n killed : fifo s → fifo (read_section s i n killed).
Proof.
  intros (q & Hrep & Hs). unfold read_section, piperead.
  destruct (empty (pp s) && writeopen (pp s)); [destruct killed; by exists q|].
  destruct (piperead_copy_rep _ _ n Hrep) as (H1 & H2 & _). destruct (piperead_copy (pp s) n) as [l p]. simpl in *. subst l.
  exists (drop n q). split; [done|]. simpl. by rewrite <-app_assoc, take_drop.
Qed.

Lemma close_section_fifo s w : fifo s → fifo (close_section s w).
Proof. intros (q & Hrep & Hs). exists q. split; [|done]. destruct w; by apply (rep_ext (pp s)). Qed.

Lemma preach_fifo kills junk s : length junk = Z.to_nat PIPESIZE → preach kills junk s → fifo s.
Proof.
  intros Hj. induction 1 as [|s s' _ IH Hst]; [exists []; split; [by apply init_rep|done]|].
  destruct Hst; auto using write_section_fifo, read_section_fifo, close_section_fifo.
Qed.

(** C15: whatever the interleaving of writers, readers, wakeups, kills and closes,
    the bytes received from a pipe followed by the ones it holds are the bytes
    sent, in order, and it holds at most [PIPESIZE]; the 32-bit counters may wrap. *)
Theorem pipe_fifo kills junk s :
  length junk = Z.to_nat PIPESIZE → preach kills junk s →
  ∃ q, rep (pp s) q ∧ sent s = received s ++ q ∧ Z.of_nat (length q) ≤ PIPESIZE.
Proof.
  intros Hj Hr. destruct (preach_fifo _ _ _ Hj Hr) as (q & Hrep & Hs). exists q. split_and!; [done..|by eapply rep_len].
Qed.

(** ** Wakeups are not lost *)

Definition waits_ok (s : psys) (w : pwhere) : Prop :=
  match w with
  | Away => True
  | Writing _ => writeopen (pp s) = true
  | WriteAsleep _ => writeopen (pp s) = true ∧ full (pp s) = true ∧ readopen (pp s) = true
  | Reading _ => readopen (pp s) = true
  | ReadAsleep _ => readopen (pp s) = true ∧ empty (pp s) = true ∧ writeopen (pp s) = true
  end.

Definition no_lost_wakeup (s : psys) : Prop := ∀ i, waits_ok s (procs s i).

Lemma waits_upd p f i w a b :
  (∀ j, waits_ok (mkPsys p f a b) (f j)) → waits_ok (mkPsys p f a b) w → no_lost_wakeup (mkPsys p (upd f i w) a b).
Proof.
  intros Hf Hw j. simpl. destruct (decide (j = i)) as [->|]; [rewrite upd_eq|rewrite upd_ne by done].
  - by destruct w.
  - specialize (Hf j). by destruct (f j).
Qed.

(** Nobody asleep: the processes after the wakeups of both kinds are fine at any
    pipe with the same open ends. *)
Lemma waits_nread s p a b :
  no_lost_wakeup s → readopen p = readopen (pp s) → writeopen p = writeopen (pp s) → (full (pp s) = true → full p = true) →
  ∀ j, waits_ok (mkPsys p (wakeup_nread (procs s)) a b) (wakeup_nread (procs s) j).
Proof.
  intros Hi Hr Hw Hf j. specialize (Hi j). unfold wakeup_nread. destruct (procs s j); simpl in *; intuition congruence.
Qed.

Lemma waits_nwrite s p a b :
  no_lost_wakeup s → readopen p = readopen (pp s) → writeopen p = writeopen (pp s) → (empty (pp s) = true → empty p = true) →
  ∀ j, waits_ok (mkPsys p (wakeup_nwrite (procs s)) a b) (wakeup_nwrite (procs s) j).
Proof.
  intros Hi Hr Hw Hf j. specialize (Hi j). unfold wakeup_nwrite. destruct (procs s j); simpl in *; intuition congruence.
Qed.

(** A full pipe takes no byte. *)
Lemma pipewrite_full p addr killed :
  full p = true → match pipewrite p addr killed with WDone p' | WFailed p' | WSleep p' _ => p' = p end.
Proof. destruct addr as [|c addr]; simpl; [done|]. intros ->. by destruct (negb (readopen p) || killed). Qed.

Lemma piperead_copy_empty p n : empty p = true → (piperead_copy p n).2 = p.
Proof. destruct n; simpl; [done|]. by intros ->. Qed.

Lemma write_section_waits s i addr killed :
  fifo s → no_lost_wakeup s → procs s i = Writing addr → killed = false → no_lost_wakeup (write_section s i addr killed).
Proof.
  intros (q & Hrep & _) Hi Hp ->. pose proof (pipewrite_rep _ _ addr false Hrep) as H.
  pose proof (pipewrite_full (pp s) addr false) as Hfull. pose proof (Hi i) as Hme. rewrite Hp in Hme. unfold write_section.
  destruct (pipewrite (pp s) addr false) as [p|p|p rest].
  - destruct H as (_ & Hr & Hw). apply waits_upd; [|done]. apply waits_nread; [done..|]. intros H1. by rewrite (Hfull H1).
  - destruct H as (pre & rest & _ & _ & Hr & Hw & [Hcl|?]); [|done]. apply waits_upd; [|done].
    intros j. specialize (Hi j). destruct (procs s j); simpl in *; intuition congruence.
  - destruct H as (pre & _ & _ & Hr & Hr0 & Hw & Hf). apply waits_upd; [|simpl in *; intuition congruence].
    apply waits_nread; [done|congruence|done|]. intros H1. by rewrite (Hfull H1).
Qed.

Lemma read_section_waits s i n killed :
  fifo s → no_lost_wakeup s → procs s i = Reading n → no_lost_wakeup (read_section s i n killed).
Proof.
  intros (q & Hrep & _) Hi Hp. pose proof (Hi i) as Hme. rewrite Hp in Hme. unfold read_section, piperead.
  destruct (empty (pp s) && writeopen (pp s)) eqn:He.
  - apply andb_true_iff in He as [He Hw]. destruct killed; (apply waits_upd; [exact Hi|done]).
  - destruct (piperead_copy_rep _ _ n Hrep) as (_ & _ & Hr & Hw). pose proof (piperead_copy_empty (pp s) n) as Hem.
    destruct (piperead_copy (pp s) n) as [l p]. simpl in *. apply waits_upd; [|done]. apply waits_nwrite; [done..|]. intros H1. by rewrite (Hem H1).
Qed.

Lemma close_section_waits s (w : bool) :
  no_lost_wakeup s → (∀ i : Z, ¬ (if w then writes (procs s i) else reads (procs s i))) → no_lost_wakeup (close_section s w).
Proof.
  intros Hi Hno j. specialize (Hi j). specialize (Hno j). unfold close_section. simpl.
  destruct w; unfold wakeup_nread, wakeup_nwrite; destruct (procs s j); simpl in *; tauto.
Qed.

Lemma preach_waits junk s : length junk = Z.to_nat PIPESIZE → preach false junk s → no_lost_wakeup s.
Proof.
  intros Hj. induction 1 as [|s s' Hr IH Hst]; [by intros i|]. pose proof (preach_fifo _ _ _ Hj Hr) as Hf.
  destruct Hst as [i addr| i n|i addr killed Hp Hk|i n killed| i | |].
  - by apply waits_upd.
  - by apply waits_upd.
  - apply write_section_waits; [done..|]. destruct killed; [|done]. by specialize (Hk eq_refl).
  - by apply read_section_waits.
  - apply waits_upd; [exact IH|]. specialize (IH i). destruct (procs s i); simpl in *; tauto.
  - by apply (close_section_waits s true).
  - by apply (close_section_waits s false).
Qed.

(** C17: no wakeup is lost on a pipe whose writers are not killed: a reader sleeps
    only while the pipe is empty and its write end open, a writer only while the
    pipe is full and its read end open. *)
Theorem pipe_no_lost_wakeup junk s i :
  length junk = Z.to_nat PIPESIZE → preach false junk s →
  match procs s i with
  | ReadAsleep _ => empty (pp s) = true ∧ writeopen (pp s) = true
  | WriteAsleep _ => full (pp s) = true ∧ readopen (pp s) = true
  | _ => True
  end.
Proof. intros Hj Hr. pose proof (preach_waits _ _ Hj Hr i) as H. destruct (procs s i); simpl in H; tauto. Qed.

(** One process writes three bytes and another reads two of them. *)
Definition sample_junk : list Z := replicate (Z.to_nat PIPESIZE) 0.
Definition sample_pipe : psys :=
  let s0 := mkPsys (pipe_init sample_junk) (λ _, Away) [] [] in
  let s1 := mkPsys (pp s0) (upd (procs s0) 1 (Writing [7; 8; 9])) (sent s0) (received s0) in
  let s2 := write_section s1 1 [7; 8; 9] false in
  let s3 := mkPsys (pp s2) (upd (procs s2) 2 (Reading 2)) (sent s2) (received s2) in
  read_section s3 2 2 false.

Lemma sample_pipe_reach : preach false sample_junk sample_pipe.
Proof.
  unfold sample_pipe. repeat (eapply preach_step; [|first [by apply (step_call_write _ _ 1)|by apply (step_call_read _ _ 2)|by apply step_write|by apply step_read]]).
  apply preach_init.
Qed.

Lemma pipe_fifo_witness : ∃ q, rep (pp sample_pipe) q ∧ [7; 8; 9] = [7; 8] ++ q ∧ Z.of_nat (length q) ≤ PIPESIZE.
Proof.
  pose proof (pipe_fifo false sample_junk sample_pipe eq_refl sample_pipe_reach) as (q & Hr & Hs & Hl).
  exists q. split; [exact Hr|]. split; [exact Hs|exact Hl].
Defined.

(** A reader that came first, and sleeps. *)
Definition sample_wait : psys :=
  let s0 := mkPsys (pipe_init sample_junk) (λ _, Away) [] [] in
  let s1 := mkPsys (pp s0) (upd (procs s0) 2 (Reading 2)) (sent s0) (received s0) in
  read_section s1 2 2 false.

Lemma sample_wait_reach kills : preach kills sample_junk sample_wait.
Proof.
  unfold sample_wait. eapply preach_step; [|by apply step_read]. eapply preach_step; [|by apply (step_call_read _ _ 2)]. apply preach_init.
Qed.

Lemma pipe_no_lost_wakeup_witness : procs sample_wait 2 = ReadAsleep 2 ∧ empty (pp sample_wait) = true ∧ writeopen (pp sample_wait) = true.
Proof. split; [reflexivity|]. exact (pipe_no_lost_wakeup sample_junk sample_wait 2 eq_refl (sample_wait_reach false)). Defined.

(** A killed writer that fills the pipe returns without a wakeup: the reader of
    [sample_wait] stays asleep beside a full pipe. *)
Definition killed_writer : psys :=
  let big := replicate 513 65 in
  let s1 := mkPsys (pp sample_wait) (upd (procs sample_wait) 1 (Writing big)) (sent sample_wait) (received sample_wait) in
  write_section s1 1 big true.

Lemma killed_writer_reach : preach true sample_junk killed_writer.
Proof.
  unfold killed_writer. eapply preach_step; [|by apply step_write]. eapply preach_step; [|by apply (step_call_write _ _ 1)].
  apply sample_wait_reach.
Qed.

(** a killed writer can lose the wakeup of a reader: it fills the pipe, returns
    -1 without waking anyone, and a reader that waited for data stays asleep beside
    a full pipe whose write end is still open. *)
Lemma killed_writer_loses_wakeup :
  ∃ s, preach true sample_junk s ∧ procs s 2 = ReadAsleep 2 ∧ procs s 1 = Away ∧ full (pp s) = true ∧ writeopen (pp s) = true.
Proof. exists killed_writer. split; [exact killed_writer_reach|]. by vm_compute. Qed.
