(* ===== verification/File.v ===== *)
(** * The file table (file.c) and the life of a pipe (pipe.c)

    Open files over the inode layer, the pipes and the page allocator: the
    operations of file.c, and [pipealloc] and [pipeclose] with the pages they
    take and free. *)
From stdpp Require Import base list strings.
From Stdlib Require Import ZArith Lia.
From S2P Require Import Prelude Mmu Memory Kalloc Bio Log Fs.
From S2P Require Pipe.

Definition NFILE : Z := 100.

(** [enum { FD_NONE, FD_PIPE, FD_INODE }]. *)
Inductive ftype := FD_NONE | FD_PIPE | FD_INODE.
#[global] Instance ftype_eq_dec : EqDecision ftype.
Proof. solve_decision. Defined.

(** [struct file]: the pipe is the address of its page, the inode its index in
    the inode cache. *)
Record file := mkFile {
  f_type : ftype; f_ref : Z; f_readable : bool; f_writable : bool; f_pipe : Z; f_ip : nat; f_off : Z }.

Definition with_fref (r : Z) (f : file) : file :=
  mkFile (f_type f) r (f_readable f) (f_writable f) (f_pipe f) (f_ip f) (f_off f).
Definition with_ftype (t : ftype) (f : file) : file :=
  mkFile t (f_ref f) (f_readable f) (f_writable f) (f_pipe f) (f_ip f) (f_off f).
Definition with_off (o : Z) (f : file) : file :=
  mkFile (f_type f) (f_ref f) (f_readable f) (f_writable f) (f_pipe f) (f_ip f) o.
Definition as_pipe (r w : bool) (p : Z) (f : file) : file := mkFile FD_PIPE (f_ref f) r w p (f_ip f) (f_off f).
Definition as_inode (r w : bool) (ip : nat) (f : file) : file := mkFile FD_INODE (f_ref f) r w (f_pipe f) ip 0.

(** The kernel's file state: the table, the file system, the page allocator and
    the pipes at the pages that hold one. *)
Record fkern := mkFkern { ftable : list file; kfs : fs; kmem : kstate; pipes : Z → Pipe.pipe }.

Definition set_ftable (k : fkern) (t : list file) : fkern := mkFkern t (kfs k) (kmem k) (pipes k).
Definition set_fs (k : fkern) (s : fs) : fkern := mkFkern (ftable k) s (kmem k) (pipes k).
Definition set_kmem (k : fkern) (m : kstate) : fkern := mkFkern (ftable k) (kfs k) m (pipes k).
Definition set_pipe (k : fkern) (p : Z) (x : Pipe.pipe) : fkern := mkFkern (ftable k) (kfs k) (kmem k) (upd (pipes k) p x).

Definition fptr (k : fkern) (f : nat) : outcome file :=
  match ftable k !! f with Some x => Ret x | None => Undef "file pointer" end.
Definition fset (k : fkern) (f : nat) (g : file → file) : fkern := set_ftable k (alter g f (ftable k)).

(** The boot state of [ftable]: zeroed. *)
Definition fileinit : list file := replicate (Z.to_nat NFILE) (mkFile FD_NONE 0 false false 0 0 0).

(** How a call on an open file ends: it returns a value, with the bytes it
    delivers, or sleeps in a pipe with the bytes still to write. *)
Inductive fresult := FRet (r : Z) (l : list Z) (k : fkern) | FSleep (k : fkern) (rest : list Z).

Section file.
  Context (kend pid : Z).
  Context (dev_read : Z → option (fs → nat → Z → outcome (Z * list Z * fs)))
          (dev_write : Z → option (fs → nat → list Z → outcome (Z * fs))).

(** [begin_op] and [end_op] on this state. *)
Definition fbegin_op (s : fs) : outcome fs :=
  let! g := begin_op (fs_log s) in Ret (mkFs g (fs_bio s) (sb s) (icache s)).
Definition fend_op (s : fs) : outcome fs :=
  let! (g, c) := end_op pid (fs_log s) (fs_bio s) in Ret (mkFs g c (sb s) (icache s)).

(** [None] is the null pointer. *)
Definition filealloc (k : fkern) : option nat * fkern :=
  match list_find (λ f, f_ref f = 0) (ftable k) with
  | Some (f, _) => (Some f, fset k f (with_fref 1))
  | None => (None, k)
  end.

Definition filedup (k : fkern) (f : nat) : outcome fkern :=
  let! x := fptr k f in
  if Z.ltb (f_ref x) 1 then Panic "filedup"
  else Ret (fset k f (with_fref (f_ref x + 1))).

Definition pipeclose (k : fkern) (p : Z) (writable : bool) : outcome fkern :=
  let '(x, free) := Pipe.pipeclose (pipes k p) writable in
  let k1 := set_pipe k p x in
  if free then let! m := kfree kend (kmem k1) p in Ret (set_kmem k1 m)
  else Ret k1.

Definition fileclose (k : fkern) (f : nat) : outcome fkern :=
  let! x := fptr k f in
  if Z.ltb (f_ref x) 1 then Panic "fileclose"
  else if Z.gtb (f_ref x - 1) 0 then Ret (fset k f (with_fref (f_ref x - 1)))
  else
    let k1 := fset k f (λ y, with_ftype FD_NONE (with_fref 0 y)) in
    match f_type x with
    | FD_PIPE => pipeclose k1 (f_pipe x) (f_writable x)
    | FD_INODE =>
        let! s1 := fbegin_op (kfs k1) in
        let! s2 := iput pid s1 (f_ip x) in
        let! s3 := fend_op s2 in
        Ret (set_fs k1 s3)
    | FD_NONE => Ret k1
    end.

Definition filestat (k : fkern) (f : nat) : outcome (Z * option stat * fkern) :=
  let! x := fptr k f in
  match f_type x with
  | FD_INODE =>
      let! s1 := ilock pid (kfs k) (Some (f_ip x)) in
      let! i := iptr s1 (f_ip x) in
      let! s2 := iunlock s1 (Some (f_ip x)) in
      Ret (0, Some (stati i), set_fs k s2)
  | _ => Ret (-1, None, k)
  end.

(** [killed] is [myproc()->killed]. *)
Definition fileread (k : fkern) (f : nat) (n : Z) (killed : bool) : outcome fresult :=
  let! x := fptr k f in
  if negb (f_readable x) then Ret (FRet (-1) [] k)
  else match f_type x with
  | FD_PIPE =>
      match Pipe.piperead (pipes k (f_pipe x)) (Z.to_nat n) killed with
      | Pipe.RDone l p => Ret (FRet (Z.of_nat (length l)) l (set_pipe k (f_pipe x) p))
      | Pipe.RFailed => Ret (FRet (-1) [] k)
      | Pipe.RSleep => Ret (FSleep k [])
      end
  | FD_INODE =>
      let! s1 := ilock pid (kfs k) (Some (f_ip x)) in
      let! (r, s2) := readi pid dev_read s1 (f_ip x) (f_off x) (u32 n) in
      let k1 := set_fs k s2 in
      let k2 := if Z.gtb (s32 r.1) 0 then fset k1 f (with_off (u32 (f_off x + r.1))) else k1 in
      let! s3 := iunlock (kfs k2) (Some (f_ip x)) in
      Ret (FRet (s32 r.1) r.2 (set_fs k2 s3))
  | FD_NONE => Panic "fileread"
  end.

(** [((MAXOPBLOCKS-1-1-2) / 2) * 512]. *)
Definition write_max : Z := (MAXOPBLOCKS - 1 - 1 - 2) / 2 * 512.

(** The loop of [filewrite] on an inode: [addr] holds the bytes from [addr + i]
    on; the result is whether [i == n] at its end. *)
Fixpoint filewrite_loop (fuel : nat) (k : fkern) (f : nat) (addr : list Z) : outcome (bool * fkern) :=
  match fuel with
  | O => NoFuel
  | S fuel =>
      match addr with
      | [] => Ret (true, k)
      | _ =>
          let! x := fptr k f in
          let n1 := Z.min (Z.of_nat (length addr)) write_max in
          let! s1 := fbegin_op (kfs k) in
          let! s2 := ilock pid s1 (Some (f_ip x)) in
          let! (r, s3) := writei pid dev_write s2 (f_ip x) (take (Z.to_nat n1) addr) (f_off x) in
          let k1 := set_fs k s3 in
          let k2 := if Z.gtb r 0 then fset k1 f (with_off (u32 (f_off x + r))) else k1 in
          let! s4 := iunlock (kfs k2) (Some (f_ip x)) in
          let! s5 := fend_op s4 in
          let k3 := set_fs k2 s5 in
          if Z.ltb r 0 then Ret (false, k3)
          else if negb (Z.eqb r n1) then Panic "short filewrite"
          else filewrite_loop fuel k3 f (drop (Z.to_nat r) addr)
      end
  end.

(** A turn for each byte is enough: a turn that does not end the loop writes. *)
Definition filewrite (k : fkern) (f : nat) (addr : list Z) (killed : bool) : outcome fresult :=
  let! x := fptr k f in
  if negb (f_writable x) then Ret (FRet (-1) [] k)
  else match f_type x with
  | FD_PIPE =>
      match Pipe.pipewrite (pipes k (f_pipe x)) addr killed with
      | Pipe.WDone p => Ret (FRet (Z.of_nat (length addr)) [] (set_pipe k (f_pipe x) p))
      | Pipe.WFailed p => Ret (FRet (-1) [] (set_pipe k (f_pipe x) p))
      | Pipe.WSleep p rest => Ret (FSleep (set_pipe k (f_pipe x) p) rest)
      end
  | FD_INODE =>
      let! (done, k1) := filewrite_loop (S (length addr)) k f addr in
      Ret (FRet (if done then Z.of_nat (length addr) else -1) [] k1)
  | FD_NONE => Panic "filewrite"
  end.

(** The data of a [struct pipe] follows its spinlock, 52 bytes. *)
Definition pipe_junk (m : mem) (p : Z) : list Z := map (λ j, load8 m (p + 52 + j)) (seqZ 0 Pipe.PIPESIZE).

(** The files at the read and the write end; [None] stands for the result -1. *)
Definition pipealloc (k : fkern) : outcome (option (nat * nat) * fkern) :=
  let '(o0, k1) := filealloc k in
  match o0 with
  | None => Ret (None, k1)
  | Some f0 =>
      let '(o1, k2) := filealloc k1 in
      match o1 with
      | None => let! k3 := fileclose k2 f0 in Ret (None, k3)
      | Some f1 =>
          let '(p, m) := kalloc (kmem k2) in
          let k3 := set_kmem k2 m in
          if Z.eqb p 0 then
            let! k4 := fileclose k3 f0 in
            let! k5 := fileclose k4 f1 in
            Ret (None, k5)
          else
            let k4 := set_pipe k3 p (Pipe.pipe_init (pipe_junk (memory m) p)) in
            Ret (Some (f0, f1), fset (fset k4 f0 (as_pipe true false p)) f1 (as_pipe false true p))
      end
  end.
End file.
