(* ===== verification/Syscall.v ===== *)
(** * System call arguments and dispatch (syscall.c)

    The arguments of a system call lie in user memory above the saved stack
    pointer; the kernel checks them against the size of the process. *)
From stdpp Require Import base list strings.
From Stdlib Require Import ZArith Lia.
From S2P Require Import Prelude Mmu Memory Proc.

Section args.
  (** [myproc()] and the bytes of its address space. *)
  Context (me : proc) (um : mem).

(** [None] is the result -1. *)
Definition fetchint (addr : Z) : option Z :=
  if Z.leb (p_sz me) addr || Z.ltb (p_sz me) (u32 (addr + 4)) then None
  else Some (s32 (load32 um addr)).

(** The scan for the NUL from [s] to the end [ep]: the bytes before it. *)
Fixpoint fetchstr_loop (k : nat) (s ep : Z) : option (list Z) :=
  match k with
  | O => None
  | S k =>
      if Z.ltb s ep then
        if Z.eqb (load8 um s) 0 then Some []
        else match fetchstr_loop k (s + 1) ep with Some l => Some (load8 um s :: l) | None => None end
      else None
  end.
(** A turn per byte up to the end of the process, and the one that leaves. *)
Definition fetchstr (addr : Z) : option (list Z) :=
  if Z.leb (p_sz me) addr then None
  else fetchstr_loop (S (Z.to_nat (p_sz me - addr))) addr (p_sz me).

Definition argint (n : Z) : option Z := fetchint (u32 (tf_esp (p_tf me) + 4 + 4 * n)).

Definition argptr (n size : Z) : option Z :=
  match argint n with
  | None => None
  | Some i =>
      if Z.ltb size 0 || Z.leb (p_sz me) (u32 i) || Z.ltb (p_sz me) (u32 (u32 i + size)) then None
      else Some (u32 i)
  end.

Definition argstr (n : Z) : option (list Z) :=
  match argint n with None => None | Some addr => fetchstr (u32 addr) end.
End args.

(** The numbers of syscall.h with an entry in [syscalls]; the handlers run on
    the state [S], whose current process [get_me] and [set_me] reach. *)
Definition NSYSCALLS : Z := 23.

Section dispatch.
  Context {S : Type} (get_me : S → proc) (set_me : proc → S → S).
  Context (syscalls : Z → option (S → outcome (Z * S))).

Definition with_eax (v : Z) (p : proc) : proc :=
  with_tf (tf_set_eax (u32 v) (p_tf p)) p.

(** The message of an unknown call is not part of the result. *)
Definition syscall (s : S) : outcome S :=
  let num := s32 (tf_eax (p_tf (get_me s))) in
  match (if Z.ltb 0 num && Z.ltb num NSYSCALLS then syscalls num else None) with
  | Some h => let! (r, s1) := h s in Ret (set_me (with_eax r (get_me s1)) s1)
  | None => Ret (set_me (with_eax (-1) (get_me s)) s)
  end.
End dispatch.

(** ** What the checks guarantee *)

Section checks.
  Context (me : proc) (um : mem) (Hsz : 0 ≤ p_sz me ≤ KERNBASE).

Lemma fetchint_spec a v : is_u32 a → fetchint me um a = Some v ↔ a + 4 ≤ p_sz me ∧ v = s32 (load32 um a).
Proof.
  intros Ha. unfold fetchint, KERNBASE, is_u32 in *. destruct (Z.leb_spec (p_sz me) a); simpl; [split; [done|lia]|].
  unfold u32. rewrite Z.mod_small by lia. destruct (Z.ltb_spec (p_sz me) (a + 4)); split; try done; try lia.
  - intros [= <-]. split; [lia|done].
  - by intros [_ ->].
Qed.

Lemma fetchstr_loop_spec k s l :
  (Z.to_nat (p_sz me - s) < k)%nat →
  fetchstr_loop um k s (p_sz me) = Some l ↔
  s + Z.of_nat (length l) < p_sz me ∧ load8 um (s + Z.of_nat (length l)) = 0 ∧
  (∀ j c, l !! j = Some c → c ≠ 0 ∧ load8 um (s + Z.of_nat j) = c).
Proof.
  revert s l. induction k as [|k IH]; intros s l Hk; [lia|]. cbn [fetchstr_loop].
  destruct (Z.ltb_spec s (p_sz me)) as [Hs|Hs]; [|split; [done|lia]].
  destruct (Z.eqb_spec (load8 um s) 0) as [H0|H0].
  - split.
    + intros [= <-]. simpl. rewrite Z.add_0_r. split_and!; [lia|done|done].
    + intros (_ & _ & Hl). destruct l as [|c l]; [done|]. destruct (Hl 0%nat c eq_refl) as [Hc He].
      rewrite Z.add_0_r in He. congruence.
  - destruct l as [|c l].
    { split; [destruct (fetchstr_loop um k (s + 1) (p_sz me)); done|]. intros (_ & He & _). simpl in He. by rewrite Z.add_0_r in He. }
    transitivity (load8 um s = c ∧ fetchstr_loop um k (s + 1) (p_sz me) = Some l).
    { destruct (fetchstr_loop um k (s + 1) (p_sz me)); naive_solver. }
    rewrite IH by lia. simpl. replace (s + 1 + Z.of_nat (length l)) with (s + Z.of_nat (S (length l))) by lia. split.
    + intros (Hc & H1 & H2 & H3). split_and!; [done|done|]. intros [|j] x Hj; simpl in Hj.
      * injection Hj as <-. rewrite Z.add_0_r. split; congruence.
      * destruct (H3 j x Hj) as [? H4]. split; [done|]. rewrite <-H4. f_equal. lia.
    + intros (H1 & H2 & H3). split_and!; [|done|done|].
      * destruct (H3 0%nat c eq_refl) as [_ H4]. by rewrite Z.add_0_r in H4.
      * intros j x Hj. destruct (H3 (S j) x Hj) as [? H4]. split; [done|]. rewrite <-H4. f_equal. lia.
Qed.

Lemma argptr_spec n size p :
  size < 2 ^ 31 →
  argptr me um n size = Some p ↔
  ∃ i, argint me um n = Some i ∧ p = u32 i ∧ 0 ≤ size ∧ p < p_sz me ∧ p + size ≤ p_sz me.
Proof.
  intros Hsize. unfold argptr. destruct (argint me um n) as [i|]; [|split; [done|naive_solver]].
  pose proof (u32_range i) as Hi. unfold is_u32 in Hi. unfold KERNBASE in *.
  destruct (Z.ltb_spec size 0); simpl; [split; [done|]; intros (? & [= <-] & ?); lia|].
  destruct (Z.leb_spec (p_sz me) (u32 i)); simpl; [split; [done|]; intros (? & [= <-] & ?); lia|].
  rewrite (u32_small (u32 i + size)) by (unfold is_u32; lia).
  destruct (Z.ltb_spec (p_sz me) (u32 i + size)); [split; [done|]; intros (? & [= <-] & ?); lia|].
  split; [intros [= <-]; exists i; split_and!; try done; lia|]. by intros (? & [= <-] & -> & _).
Qed.
End checks.

(** C36: the argument checks are exact: for a process of at most [KERNBASE] bytes,
    [argptr] accepts a block exactly when it lies inside the process, without
    wrap-around, and [argstr] gives a string exactly when its bytes and its NUL
    lie inside the process. *)
Theorem args_checked (me : proc) (um : mem) (n size : Z) :
  0 ≤ p_sz me ≤ KERNBASE → size < 2 ^ 31 →
  (∀ p, argptr me um n size = Some p ↔
        ∃ i, argint me um n = Some i ∧ p = u32 i ∧ 0 ≤ size ∧ p < p_sz me ∧ p + size ≤ p_sz me) ∧
  (∀ l, argstr me um n = Some l ↔
        ∃ i, argint me um n = Some i ∧ u32 i + Z.of_nat (length l) < p_sz me ∧
             load8 um (u32 i + Z.of_nat (length l)) = 0 ∧
             (∀ j c, l !! j = Some c → c ≠ 0 ∧ load8 um (u32 i + Z.of_nat j) = c)).
Proof.
  intros Hsz Hsize. split; [intros p; by apply argptr_spec|]. intros l. unfold argstr.
  destruct (argint me um n) as [i|]; [|split; [done|naive_solver]]. unfold fetchstr.
  destruct (Z.leb_spec (p_sz me) (u32 i)) as [Hle|Hlt].
  - split; [done|]. intros (? & [= <-] & ? & _). lia.
  - rewrite fetchstr_loop_spec by lia. split; [intros H; by exists i|]. by intros (? & [= <-] & H).
Qed.

(** A process of 4096 bytes whose first argument is 64, a block and a string. *)
Definition arg_mem : mem := λ a, if Z.eqb a 4 then 64 else if Z.eqb a 64 then 104 else if Z.eqb a 65 then 105 else 0.
Lemma args_checked_witness :
  argptr (with_mem 4096 0 no_proc) arg_mem 0 4032 = Some 64 ∧ argstr (with_mem 4096 0 no_proc) arg_mem 0 = Some [104; 105].
Proof.
  destruct (args_checked (with_mem 4096 0 no_proc) arg_mem 0 4032) as [Hp Hs]; [simpl; unfold KERNBASE; lia|lia|].
  split.
  - apply Hp. exists 64. split_and!; try reflexivity; simpl; lia.
  - apply Hs. exists 64. split_and!; try reflexivity.
    intros [|[|j]] c Hj; simpl in Hj; [injection Hj as <-; by split..|discriminate].
Defined.
