(* ===== verification/Sysfile.v ===== *)
(** * The file system calls (sysfile.c)

    Each call reads its arguments from the caller's memory, works on the file
    state of the kernel, and updates the caller's descriptors and memory. *)
From stdpp Require Import base list strings.
From Stdlib Require Import ZArith Lia.
From S2P Require Import Prelude Mmu Memory Kalloc Bio Log Fs File Proc Syscall.

Definition O_RDONLY : Z := 0x000.
Definition O_WRONLY : Z := 0x001.
Definition O_RDWR : Z := 0x002.
Definition O_CREATE : Z := 0x200.

(** The file state, [myproc()] and its memory. *)
Record sys := mkSys { sk : fkern; sme : proc; sum : mem }.
Definition set_sk (s : sys) (k : fkern) : sys := mkSys k (sme s) (sum s).
Definition set_sfs (s : sys) (x : fs) : sys := set_sk s (set_fs (sk s) x).
Definition set_ofile (s : sys) (o : list (option nat)) : sys :=
  mkSys (sk s) (with_files o (p_cwd (sme s)) (sme s)) (sum s).
Definition set_sum (s : sys) (m : mem) : sys := mkSys (sk s) (sme s) m.

(** Bytes stored one after the other from [a]. *)
Fixpoint store_bytes (m : mem) (a : Z) (l : list Z) : mem :=
  match l with [] => m | c :: l' => store_bytes (store8 m a c) (a + 1) l' end.
Definition load_bytes (m : mem) (a n : Z) : list Z := map (λ j, load8 m (a + j)) (seqZ 0 n).

(** ** Descriptors *)

(** The descriptor and its file. *)
Definition argfd (s : sys) (n : Z) : option (Z * nat) :=
  match argint (sme s) (sum s) n with
  | None => None
  | Some fd =>
      if Z.ltb fd 0 || Z.leb (Z.of_nat NOFILE) fd then None
      else match p_ofile (sme s) !! Z.to_nat fd with
           | Some (Some f) => Some (fd, f)
           | _ => None
           end
  end.

(** The lowest free descriptor takes [f]. *)
Definition fdalloc (s : sys) (f : nat) : Z * sys :=
  match list_find (λ o, o = None) (p_ofile (sme s)) with
  | Some (fd, _) => (Z.of_nat fd, set_ofile s (<[fd := Some f]> (p_ofile (sme s))))
  | None => (-1, s)
  end.

Definition sys_dup (s : sys) : outcome (Z * sys) :=
  match argfd s 0 with
  | None => Ret (-1, s)
  | Some (_, f) =>
      let '(fd, s1) := fdalloc s f in
      if Z.ltb fd 0 then Ret (-1, s1)
      else let! k := filedup (sk s1) f in Ret (fd, set_sk s1 k)
  end.

(** A call that returns, or sleeps in a pipe with the bytes still to write. *)
Inductive sresult := SRet (r : Z) (s : sys) | SSleep (s : sys) (rest : list Z).

Section sysfile.
  Context (kend : Z).
  Context (dev_read : Z → option (fs → nat → Z → outcome (Z * list Z * fs)))
          (dev_write : Z → option (fs → nat → list Z → outcome (Z * fs))).

Definition killed (s : sys) : bool := negb (Z.eqb (p_killed (sme s)) 0).

Definition sys_read (s : sys) : outcome sresult :=
  match argfd s 0 with
  | None => Ret (SRet (-1) s)
  | Some (_, f) =>
      match argint (sme s) (sum s) 2 with
      | None => Ret (SRet (-1) s)
      | Some n =>
          match argptr (sme s) (sum s) 1 n with
          | None => Ret (SRet (-1) s)
          | Some p =>
              let! r := fileread (p_pid (sme s)) dev_read (sk s) f n (killed s) in
              match r with
              | FRet v l k => Ret (SRet v (set_sum (set_sk s k) (store_bytes (sum s) p l)))
              | FSleep k rest => Ret (SSleep (set_sk s k) rest)
              end
          end
      end
  end.

Definition sys_write (s : sys) : outcome sresult :=
  match argfd s 0 with
  | None => Ret (SRet (-1) s)
  | Some (_, f) =>
      match argint (sme s) (sum s) 2 with
      | None => Ret (SRet (-1) s)
      | Some n =>
          match argptr (sme s) (sum s) 1 n with
          | None => Ret (SRet (-1) s)
          | Some p =>
              let! r := filewrite (p_pid (sme s)) dev_write (sk s) f (load_bytes (sum s) p n) (killed s) in
              match r with
              | FRet v _ k => Ret (SRet v (set_sk s k))
              | FSleep k rest => Ret (SSleep (set_sk s k) rest)
              end
          end
      end
  end.

Definition sys_close (s : sys) : outcome (Z * sys) :=
  match argfd s 0 with
  | None => Ret (-1, s)
  | Some (fd, f) =>
      let s1 := set_ofile s (<[Z.to_nat fd := None]> (p_ofile (sme s))) in
      let! k := fileclose kend (p_pid (sme s)) (sk s1) f in
      Ret (0, set_sk s1 k)
  end.

(** [struct stat] in user memory: type at 0, dev at 4, ino at 8, nlink at 12,
    size at 16. *)
Definition store_stat (m : mem) (a : Z) (st : stat) : mem :=
  let m1 := store8 (store8 m a (st_type st)) (a + 1) (st_type st / 2 ^ 8) in
  let m2 := store32 (store32 m1 (a + 4) (st_dev st)) (a + 8) (st_ino st) in
  let m3 := store8 (store8 m2 (a + 12) (st_nlink st)) (a + 13) (st_nlink st / 2 ^ 8) in
  store32 m3 (a + 16) (st_size st).

Definition sys_fstat (s : sys) : outcome (Z * sys) :=
  match argfd s 0 with
  | None => Ret (-1, s)
  | Some (_, f) =>
      match argptr (sme s) (sum s) 1 20 with
      | None => Ret (-1, s)
      | Some a =>
          let! (r, k) := filestat (p_pid (sme s)) (sk s) f in
          let s1 := set_sk s k in
          Ret (r.1, match r.2 with Some st => set_sum s1 (store_stat (sum s1) a st) | None => s1 end)
      end
  end.

(** ** Links *)

Section paths.
  Context (pid : Z) (cwd : nat).

Definition nlink_add (d : Z) (i : inode) : inode := with_nlink (s16 (i_nlink i + d)) i.

(** The [bad] exit of [sys_link]. *)
Definition link_bad (s : fs) (ip : nat) : outcome (Z * fs) :=
  let! s1 := ilock pid s (Some ip) in
  let! s2 := iupdate pid (iset s1 ip (nlink_add (-1))) ip in
  let! s3 := iunlockput pid s2 ip in
  let! s4 := fend_op pid s3 in
  Ret (-1, s4).

Definition link_paths (s : fs) (old new : list Z) : outcome (Z * fs) :=
  let! s1 := fbegin_op s in
  let! (o, s2) := namei pid dev_read s1 cwd old in
  match o with
  | None => let! s3 := fend_op pid s2 in Ret (-1, s3)
  | Some ip =>
      let! s3 := ilock pid s2 (Some ip) in
      let! i := iptr s3 ip in
      if Z.eqb (i_type i) T_DIR then
        let! s4 := iunlockput pid s3 ip in
        let! s5 := fend_op pid s4 in
        Ret (-1, s5)
      else
        let! s4 := iupdate pid (iset s3 ip (nlink_add 1)) ip in
        let! s5 := iunlock s4 (Some ip) in
        let! (od, s6) := nameiparent pid dev_read s5 cwd new in
        match od.1 with
        | None => link_bad s6 ip
        | Some dp =>
            let! s7 := ilock pid s6 (Some dp) in
            let! d := iptr s7 dp in
            let! i := iptr s7 ip in
            let! (r, s8) :=
              if negb (Z.eqb (i_dev d) (i_dev i)) then Ret (-1, s7)
              else dirlink pid dev_read dev_write s7 dp od.2 (i_inum i) in
            if Z.ltb r 0 then let! s9 := iunlockput pid s8 dp in link_bad s9 ip
            else
              let! s9 := iunlockput pid s8 dp in
              let! s10 := iput pid s9 ip in
              let! s11 := fend_op pid s10 in
              Ret (0, s11)
        end
  end.

Fixpoint isdirempty_loop (k : nat) (s : fs) (dp : nat) (off : Z) : outcome (bool * fs) :=
  match k with
  | O => NoFuel
  | S k =>
      let! d := iptr s dp in
      if Z.ltb off (i_size d) then
        let! (r, s1) := readi pid dev_read s dp off DIRENT in
        if negb (Z.eqb r.1 DIRENT) then Panic "isdirempty: readi"
        else if negb (Z.eqb (de_inum r.2) 0) then Ret (false, s1)
        else isdirempty_loop k s1 dp (off + DIRENT)
      else Ret (true, s)
  end.
Definition isdirempty (s : fs) (dp : nat) : outcome (bool * fs) :=
  let! d := iptr s dp in
  isdirempty_loop (scan_fuel (i_size d)) s dp (2 * DIRENT).

(** The names of the entries a directory is born with. *)
Definition dot : list Z := [46].
Definition dotdot : list Z := [46; 46].

Definition unlink_bad (s : fs) (dp : nat) : outcome (Z * fs) :=
  let! s1 := iunlockput pid s dp in
  let! s2 := fend_op pid s1 in
  Ret (-1, s2).

Definition unlink_path (s : fs) (path : list Z) : outcome (Z * fs) :=
  let! s1 := fbegin_op s in
  let! (od, s2) := nameiparent pid dev_read s1 cwd path in
  match od.1 with
  | None => let! s3 := fend_op pid s2 in Ret (-1, s3)
  | Some dp =>
      let! s3 := ilock pid s2 (Some dp) in
      if Z.eqb (namecmp od.2 dot) 0 || Z.eqb (namecmp od.2 dotdot) 0 then unlink_bad s3 dp
      else
        let! (e, s4) := dirlookup pid dev_read s3 dp od.2 in
        match e with
        | None => unlink_bad s4 dp
        | Some (ip, off) =>
            let! s5 := ilock pid s4 (Some ip) in
            let! i := iptr s5 ip in
            if Z.ltb (i_nlink i) 1 then Panic "unlink: nlink < 1"
            else
              let! (empty, s6) := if Z.eqb (i_type i) T_DIR then isdirempty s5 ip else Ret (true, s5) in
              if negb empty then
                let! s7 := iunlockput pid s6 ip in unlink_bad s7 dp
              else
                let! (r, s7) := writei pid dev_write s6 dp (replicate (Z.to_nat DIRENT) 0) off in
                if negb (Z.eqb r DIRENT) then Panic "unlink: writei"
                else
                  let! s8 := if Z.eqb (i_type i) T_DIR then iupdate pid (iset s7 dp (nlink_add (-1))) dp else Ret s7 in
                  let! s9 := iunlockput pid s8 dp in
                  let! s10 := iupdate pid (iset s9 ip (nlink_add (-1))) ip in
                  let! s11 := iunlockput pid s10 ip in
                  let! s12 := fend_op pid s11 in
                  Ret (0, s12)
        end
  end.

(** [create]: the locked inode, or the null pointer. *)
Definition create (s : fs) (path : list Z) (type major minor : Z) : outcome (option nat * fs) :=
  let! (od, s1) := nameiparent pid dev_read s cwd path in
  match od.1 with
  | None => Ret (None, s1)
  | Some dp =>
      let! s2 := ilock pid s1 (Some dp) in
      let! (e, s3) := dirlookup pid dev_read s2 dp od.2 in
      match e with
      | Some (ip, _) =>
          let! s4 := iunlockput pid s3 dp in
          let! s5 := ilock pid s4 (Some ip) in
          let! i := iptr s5 ip in
          if Z.eqb type T_FILE && Z.eqb (i_type i) T_FILE then Ret (Some ip, s5)
          else let! s6 := iunlockput pid s5 ip in Ret (None, s6)
      | None =>
          let! d := iptr s3 dp in
          let! (ip, s4) := ialloc pid s3 (i_dev d) type in
          let! s5 := ilock pid s4 (Some ip) in
          let s6 := iset s5 ip (λ i, with_nlink 1 (with_kind (i_type i) (s16 major) (s16 minor) i)) in
          let! s7 := iupdate pid s6 ip in
          let! i := iptr s7 ip in
          let! s8 :=
            if Z.eqb type T_DIR then
              let! s8 := iupdate pid (iset s7 dp (nlink_add 1)) dp in
              let! (r1, s9) := dirlink pid dev_read dev_write s8 ip dot (i_inum i) in
              if Z.ltb r1 0 then Panic "create dots"
              else
                let! (r2, s10) := dirlink pid dev_read dev_write s9 ip dotdot (i_inum d) in
                if Z.ltb r2 0 then Panic "create dots" else Ret s10
            else Ret s7 in
          let! (r, s9) := dirlink pid dev_read dev_write s8 dp od.2 (i_inum i) in
          if Z.ltb r 0 then Panic "create: dirlink"
          else
            let! s10 := iunlockput pid s9 dp in
            Ret (Some ip, s10)
      end
  end.
End paths.

(** [myproc()->cwd], which a process that makes system calls has. *)
Definition my_cwd (s : sys) : outcome nat :=
  match p_cwd (sme s) with Some c => Ret c | None => Undef "cwd" end.

Definition sys_link (s : sys) : outcome (Z * sys) :=
  match argstr (sme s) (sum s) 0, argstr (sme s) (sum s) 1 with
  | Some old, Some new =>
      let! cwd := my_cwd s in
      let! (r, x) := link_paths (p_pid (sme s)) cwd (kfs (sk s)) old new in
      Ret (r, set_sfs s x)
  | _, _ => Ret (-1, s)
  end.

Definition sys_unlink (s : sys) : outcome (Z * sys) :=
  match argstr (sme s) (sum s) 0 with
  | Some path =>
      let! cwd := my_cwd s in
      let! (r, x) := unlink_path (p_pid (sme s)) cwd (kfs (sk s)) path in
      Ret (r, set_sfs s x)
  | None => Ret (-1, s)
  end.

(** The inode [sys_open] opens, locked. *)
Definition open_inode (pid : Z) (cwd : nat) (x : fs) (path : list Z) (omode : Z) : outcome (option nat * fs) :=
  if negb (Z.eqb (Z.land omode O_CREATE) 0) then create pid cwd x path T_FILE 0 0
  else
    let! (o, x1) := namei pid dev_read x cwd path in
    match o with
    | None => Ret (None, x1)
    | Some ip =>
        let! x2 := ilock pid x1 (Some ip) in
        let! i := iptr x2 ip in
        if Z.eqb (i_type i) T_DIR && negb (Z.eqb omode O_RDONLY) then
          let! x3 := iunlockput pid x2 ip in Ret (None, x3)
        else Ret (Some ip, x2)
    end.

Definition sys_open (s : sys) : outcome (Z * sys) :=
  match argstr (sme s) (sum s) 0, argint (sme s) (sum s) 1 with
  | Some path, Some omode =>
      let pid := p_pid (sme s) in
      let! cwd := my_cwd s in
      let! x1 := fbegin_op (kfs (sk s)) in
      let! (o, x2) := open_inode pid cwd x1 path omode in
      match o with
      | None => let! x3 := fend_op pid x2 in Ret (-1, set_sfs s x3)
      | Some ip =>
          let s2 := set_sfs s x2 in
          let '(fo, k) := filealloc (sk s2) in
          let s3 := set_sk s2 k in
          match fo with
          | None =>
              let! x3 := iunlockput pid (kfs (sk s3)) ip in
              let! x4 := fend_op pid x3 in
              Ret (-1, set_sfs s3 x4)
          | Some f =>
              let '(fd, s4) := fdalloc s3 f in
              if Z.ltb fd 0 then
                let! k1 := fileclose kend pid (sk s4) f in
                let! x3 := iunlockput pid (kfs k1) ip in
                let! x4 := fend_op pid x3 in
                Ret (-1, set_sfs (set_sk s4 k1) x4)
              else
                let! x3 := iunlock (kfs (sk s4)) (Some ip) in
                let! x4 := fend_op pid x3 in
                let s5 := set_sfs s4 x4 in
                let r := Z.eqb (Z.land omode O_WRONLY) 0 in
                let w := negb (Z.eqb (Z.land omode O_WRONLY) 0) || negb (Z.eqb (Z.land omode O_RDWR) 0) in
                Ret (fd, set_sk s5 (fset (sk s5) f (as_inode r w ip)))
          end
      end
  | _, _ => Ret (-1, s)
  end.

(** The shared body of [sys_mkdir] and [sys_mknod] after their arguments. *)
Definition make_path (s : sys) (x1 : fs) (path : list Z) (type major minor : Z) : outcome (Z * sys) :=
  let pid := p_pid (sme s) in
  let! cwd := my_cwd s in
  let! (o, x2) := create pid cwd x1 path type major minor in
  match o with
  | None => let! x3 := fend_op pid x2 in Ret (-1, set_sfs s x3)
  | Some ip =>
      let! x3 := iunlockput pid x2 ip in
      let! x4 := fend_op pid x3 in
      Ret (0, set_sfs s x4)
  end.

Definition sys_mkdir (s : sys) : outcome (Z * sys) :=
  let! x1 := fbegin_op (kfs (sk s)) in
  match argstr (sme s) (sum s) 0 with
  | Some path => make_path s x1 path T_DIR 0 0
  | None => let! x2 := fend_op (p_pid (sme s)) x1 in Ret (-1, set_sfs s x2)
  end.

Definition sys_mknod (s : sys) : outcome (Z * sys) :=
  let! x1 := fbegin_op (kfs (sk s)) in
  match argstr (sme s) (sum s) 0, argint (sme s) (sum s) 1, argint (sme s) (sum s) 2 with
  | Some path, Some major, Some minor => make_path s x1 path T_DEV major minor
  | _, _, _ => let! x2 := fend_op (p_pid (sme s)) x1 in Ret (-1, set_sfs s x2)
  end.

Definition sys_chdir (s : sys) : outcome (Z * sys) :=
  let pid := p_pid (sme s) in
  let! x1 := fbegin_op (kfs (sk s)) in
  match argstr (sme s) (sum s) 0 with
  | None => let! x2 := fend_op pid x1 in Ret (-1, set_sfs s x2)
  | Some path =>
      let! cwd := my_cwd s in
      let! (o, x2) := namei pid dev_read x1 cwd path in
      match o with
      | None => let! x3 := fend_op pid x2 in Ret (-1, set_sfs s x3)
      | Some ip =>
          let! x3 := ilock pid x2 (Some ip) in
          let! i := iptr x3 ip in
          if negb (Z.eqb (i_type i) T_DIR) then
            let! x4 := iunlockput pid x3 ip in
            let! x5 := fend_op pid x4 in
            Ret (-1, set_sfs s x5)
          else
            let! x4 := iunlock x3 (Some ip) in
            let! x5 := iput pid x4 cwd in
            let! x6 := fend_op pid x5 in
            let s1 := set_sfs s x6 in
            Ret (0, mkSys (sk s1) (with_files (p_ofile (sme s1)) (Some ip) (sme s1)) (sum s1))
      end
  end.

(** The descriptors go to the two words at [fd]. *)
Definition sys_pipe (s : sys) : outcome (Z * sys) :=
  match argptr (sme s) (sum s) 0 8 with
  | None => Ret (-1, s)
  | Some fd =>
      let pid := p_pid (sme s) in
      let! (o, k) := pipealloc kend pid (sk s) in
      let s1 := set_sk s k in
      match o with
      | None => Ret (-1, s1)
      | Some (rf, wf) =>
          let fail s2 :=
            let! k1 := fileclose kend pid (sk s2) rf in
            let! k2 := fileclose kend pid k1 wf in
            Ret (-1, set_sk s2 k2) in
          let '(fd0, s2) := fdalloc s1 rf in
          if Z.ltb fd0 0 then fail s2
          else
            let '(fd1, s3) := fdalloc s2 wf in
            if Z.ltb fd1 0 then fail (set_ofile s3 (<[Z.to_nat fd0 := None]> (p_ofile (sme s3))))
            else Ret (0, set_sum s3 (store32 (store32 (sum s3) fd fd0) (fd + 4) fd1))
      end
  end.
End sysfile.
