(* ===== verification/FileInv.v ===== *)
(** * Reference counts and pipe ends

    The invariant of the file table: a file's count is the number of
    descriptors that name it, its type says whether it is in use, every end of
    a pipe belongs to one file, and the page of a pipe in use is not free.  The
    system calls on descriptors preserve it. *)
From stdpp Require Import base list strings.
From Stdlib Require Import ZArith Lia.
From S2P Require Import Prelude Mmu Memory Kalloc Bio Log Fs File Proc Syscall Sysfile.
From S2P Require Pipe.

(** ** Pipe ends *)

(** File [f] of the table is the read ([w = false]) or write end of the pipe at [p]. *)
Definition is_end (t : list file) (f : nat) (p : Z) (w : bool) : Prop :=
  ∃ x, t !! f = Some x ∧ f_type x = FD_PIPE ∧ f_pipe x = p ∧ f_writable x = w.
Definition end_open (x : Pipe.pipe) (w : bool) : bool := if w then Pipe.writeopen x else Pipe.readopen x.

Record pipes_ok (t : list file) (P : Z → Pipe.pipe) : Prop := mk_pipes_ok {
  po_open : ∀ f p w, is_end t f p w → end_open (P p) w = true;
  po_uniq : ∀ f g p w, is_end t f p w → is_end t g p w → f = g;
  po_peer : ∀ f p w, is_end t f p w → end_open (P p) (negb w) = true → ∃ g, is_end t g p (negb w) }.

(** The pages of the pipes are allocated ones. *)
Definition pages_ok (kend : Z) (t : list file) (m : kstate) : Prop :=
  ∃ l, free_rep kend m l ∧ ∀ f p w, is_end t f p w → valid_page kend p ∧ p ∉ l.

(** ** The table *)

(** [refs] counts the descriptors of each file; [pend] are the files allocated
    and not given a type yet. *)
Record files_ok (kend : Z) (refs : nat → Z) (pend : list nat) (k : fkern) : Prop := mk_files_ok {
  fo_len : length (ftable k) = Z.to_nat NFILE;
  fo_ref : ∀ f x, ftable k !! f = Some x → f_ref x = refs f;
  fo_nonneg : ∀ f, 0 ≤ refs f;
  fo_range : ∀ f, refs f ≠ 0 → (f < Z.to_nat NFILE)%nat;
  fo_type : ∀ f x, ftable k !! f = Some x → f_type x = FD_NONE ↔ refs f = 0 ∨ f ∈ pend;
  fo_pipes : pipes_ok (ftable k) (pipes k);
  fo_pages : pages_ok kend (ftable k) (kmem k) }.

(** One more or one less reference. *)
Definition bump (refs : nat → Z) (f : nat) (d : Z) : nat → Z := λ g, if decide (g = f) then refs g + d else refs g.

Lemma files_ok_ext kend refs refs' pend k : (∀ f, refs f = refs' f) → files_ok kend refs pend k → files_ok kend refs' pend k.
Proof.
  intros He [H1 H2 H3 H4 H5 H6 H7]. split; try done; intros f; rewrite <-?He; auto.
Qed.

Lemma files_ok_fs kend refs pend k s : files_ok kend refs pend k → files_ok kend refs pend (set_fs k s).
Proof. intros []. by split. Qed.

(** ** Tables that differ at one file *)

Lemma lookup_alter_cases (h : file → file) f (t : list file) g y :
  alter h f t !! g = Some y ↔ ∃ x, t !! g = Some x ∧ y = if decide (g = f) then h x else x.
Proof.
  destruct (decide (g = f)) as [->|Hne].
  - rewrite list_lookup_alter_eq. destruct (t !! f); simpl; naive_solver.
  - rewrite list_lookup_alter_ne by done. naive_solver.
Qed.

(** Updates that keep what makes a file the end of a pipe. *)
Definition keeps_end (h : file → file) : Prop :=
  ∀ x, f_type (h x) = f_type x ∧ f_pipe (h x) = f_pipe x ∧ f_writable (h x) = f_writable x.

Lemma is_end_keep h f t g p w : keeps_end h → is_end (alter h f t) g p w ↔ is_end t g p w.
Proof.
  intros Hk. unfold is_end. split.
  - intros (y & (x & Hx & ->)%lookup_alter_cases & Ht & Hp & Hw). exists x. split; [done|].
    destruct (decide (g = f)); [|done]. destruct (Hk x) as (? & ? & ?). split_and!; congruence.
  - intros (x & Hx & Ht & Hp & Hw). eexists. split; [apply lookup_alter_cases; eauto|].
    destruct (decide (g = f)); [|done]. destruct (Hk x) as (? & ? & ?). split_and!; congruence.
Qed.

Lemma is_end_drop h f t g p w :
  (∀ x, f_type (h x) ≠ FD_PIPE) → is_end (alter h f t) g p w ↔ g ≠ f ∧ is_end t g p w.
Proof.
  intros Hk. unfold is_end. split.
  - intros (y & (x & Hx & ->)%lookup_alter_cases & Ht & Hp & Hw). destruct (decide (g = f)); [by apply Hk in Ht|]. eauto 10.
  - intros (Hne & x & Hx & Ht & Hp & Hw). exists x. split; [|done]. apply lookup_alter_cases. exists x. by rewrite decide_False.
Qed.

Lemma pipes_ok_iff t t' P : (∀ f p w, is_end t' f p w ↔ is_end t f p w) → pipes_ok t P → pipes_ok t' P.
Proof.
  intros He [H1 H2 H3]. split.
  - intros f p w Hf%He. by eapply H1.
  - intros f g p w Hf%He Hg%He. by eapply H2.
  - intros f p w Hf%He Ho. destruct (H3 _ _ _ Hf Ho) as [g Hg]. exists g. by apply He.
Qed.

Lemma pages_ok_iff kend t t' m : (∀ f p w, is_end t' f p w → is_end t f p w) → pages_ok kend t m → pages_ok kend t' m.
Proof. intros He (l & Hl & H). exists l. split; [done|]. intros f p w Hf%He. by eapply H. Qed.

Lemma files_ok_alter kend refs refs' pend pend' k f h :
  files_ok kend refs pend k → keeps_end h →
  (∀ x, ftable k !! f = Some x → f_ref (h x) = refs' f ∧ (f_type (h x) = FD_NONE ↔ refs' f = 0 ∨ f ∈ pend')) →
  (∀ g, g ≠ f → refs' g = refs g) → (∀ g, g ≠ f → g ∈ pend' ↔ g ∈ pend) → 0 ≤ refs' f → (refs' f ≠ 0 → (f < Z.to_nat NFILE)%nat) →
  files_ok kend refs' pend' (fset k f h).
Proof.
  intros [H1 H2 H3 H4 H5 H6 H7] Hk Hf Hr Hp Hnn Hrg. split; simpl.
  - by rewrite length_alter.
  - intros g y (x & Hx & ->)%lookup_alter_cases. case_decide as Hg; [subst; by apply Hf|]. rewrite Hr by done. auto.
  - intros g. destruct (decide (g = f)) as [->|]; [done|]. rewrite Hr by done. auto.
  - intros g. destruct (decide (g = f)) as [->|]; [done|]. rewrite Hr by done. auto.
  - intros g y (x & Hx & ->)%lookup_alter_cases. case_decide as Hg; [subst; by apply Hf|].
    rewrite Hr, Hp by done. auto.
  - eapply pipes_ok_iff; [|done]. intros. by apply is_end_keep.
  - eapply pages_ok_iff; [|done]. intros g p w. by apply is_end_keep.
Qed.

Lemma bump_eq refs f d : bump refs f d f = refs f + d.
Proof. unfold bump. by rewrite decide_True. Qed.
Lemma bump_ne refs f d g : g ≠ f → bump refs f d g = refs g.
Proof. intros. unfold bump. by rewrite decide_False. Qed.

(** ** The operations of file.c *)

Lemma filealloc_files kend refs pend k :
  files_ok kend refs pend k →
  match filealloc k with
  | (Some f, k') => refs f = 0 ∧ (f < Z.to_nat NFILE)%nat ∧ files_ok kend (bump refs f 1) (f :: pend) k' ∧ kmem k' = kmem k ∧ kfs k' = kfs k
  | (None, k') => k' = k
  end.
Proof.
  intros Hok. unfold filealloc. destruct (list_find _ _) as [[f x]|] eqn:E; [|done].
  apply list_find_Some in E as (Hx & H0 & _). pose proof (fo_ref _ _ _ _ Hok f x Hx) as Hr.
  pose proof (lookup_lt_Some _ _ _ Hx) as Hlt. rewrite (fo_len _ _ _ _ Hok) in Hlt.
  split_and!; [lia|done| |done|done]. eapply files_ok_alter; [done|by intros y| |by apply bump_ne| | |done].
  - intros y Hy. rewrite Hx in Hy. injection Hy as <-. rewrite bump_eq. simpl. split; [lia|]. split; [right; left|].
    intros _. apply (fo_type _ _ _ _ Hok f x Hx). left. lia.
  - intros g Hg. rewrite elem_of_cons. naive_solver.
  - rewrite bump_eq. lia.
Qed.

Lemma filedup_files kend refs pend k f :
  files_ok kend refs pend k → 0 < refs f → f ∉ pend →
  ∃ k', filedup k f = Ret k' ∧ files_ok kend (bump refs f 1) pend k' ∧ kmem k' = kmem k ∧ kfs k' = kfs k.
Proof.
  intros Hok Hp Hnp. pose proof (fo_range _ _ _ _ Hok f) as Hlt. specialize (Hlt ltac:(lia)).
  unfold filedup, fptr. rewrite <-(fo_len _ _ _ _ Hok) in Hlt. apply lookup_lt_is_Some_2 in Hlt as [x Hx]. rewrite Hx. simpl.
  rewrite (fo_ref _ _ _ _ Hok f x Hx). destruct (Z.ltb_spec (refs f) 1); [lia|]. eexists. split_and!; [done| |done|done].
  eapply files_ok_alter; [done|by intros y| |by apply bump_ne|done| |].
  - intros y Hy. rewrite Hx in Hy. injection Hy as <-. rewrite bump_eq. simpl. split; [lia|].
    rewrite (fo_type _ _ _ _ Hok f x Hx). split; intros [?|?]; [lia|done|lia|done].
  - rewrite bump_eq. lia.
  - intros _. apply (fo_range _ _ _ _ Hok). lia.
Qed.

(** ** Closing *)

Lemma pipeclose_ends x w :
  end_open (Pipe.pipeclose x w).1 w = false ∧ end_open (Pipe.pipeclose x w).1 (negb w) = end_open x (negb w) ∧
  (Pipe.pipeclose x w).2 = negb (end_open x (negb w)).
Proof. destruct w; simpl; rewrite ?andb_true_r, ?andb_true_l; auto. Qed.

Section close.
  Context (kend : Z) (kend_kernel : KERNBASE + EXTMEM ≤ kend).

(** The pipe loses the end [f]; with it goes the page when it was the last. *)
Lemma pipeclose_files k t0 f p w :
  pipes_ok t0 (pipes k) → pages_ok kend t0 (kmem k) → is_end t0 f p w →
  (∀ g q v, is_end (ftable k) g q v ↔ g ≠ f ∧ is_end t0 g q v) →
  ∃ k', pipeclose kend k p w = Ret k' ∧ ftable k' = ftable k ∧ kfs k' = kfs k ∧
        pipes_ok (ftable k) (pipes k') ∧ pages_ok kend (ftable k) (kmem k').
Proof.
  intros [Ho Hu Hp] (l & Hl & Hpg) Hend Ht. unfold pipeclose.
  destruct (pipeclose_ends (pipes k p) w) as (E1 & E2 & E3). destruct (Pipe.pipeclose (pipes k p) w) as [x free]. simpl in *.
  assert (Hpipes : pipes_ok (ftable k) (upd (pipes k) p x)).
  { assert (Hopen : ∀ g q v, is_end (ftable k) g q v → end_open (upd (pipes k) p x q) v = true).
    { intros g q v [Hne Hg]%Ht. destruct (decide (q = p)) as [->|]; [rewrite upd_eq|rewrite upd_ne by done; by eapply Ho].
      destruct (decide (v = w)) as [->|Hv]; [by destruct (Hne (Hu _ _ _ _ Hg Hend))|].
      assert (v = negb w) as -> by (by destruct v, w). rewrite E2. by eapply Ho. }
    split; [done| |].
    - intros g g' q v [_ Hg]%Ht [_ Hg']%Ht. by eapply Hu.
    - intros g q v Hg' Hop. pose proof Hg' as [Hne Hg]%Ht. destruct (decide (q = p)) as [->|Hq].
      + rewrite upd_eq in Hop. destruct (decide (v = w)) as [->|Hv]; [by destruct (Hne (Hu _ _ _ _ Hg Hend))|].
        assert (v = negb w) as -> by (by destruct v, w). rewrite negb_involutive in Hop. congruence.
      + rewrite upd_ne in Hop by done. destruct (Hp _ _ _ Hg Hop) as [g' Hg'']. exists g'. apply Ht. split; [|done].
        intros ->. destruct Hg'' as (y & Hy & _ & <- & _). destruct Hend as (y' & Hy' & _ & <- & _). congruence. }
  destruct free.
  - destruct (Hpg _ _ _ Hend) as [Hv Hni]. destruct (kfree_spec kend kend_kernel (kmem k) l p Hl Hv Hni) as (m & Hm & Hfr & _).
    rewrite Hm. simpl. eexists. split_and!; [done..|]. exists (p :: l). split; [done|].
    intros g q v Hg'. pose proof Hg' as [Hne Hg]%Ht. destruct (Hpg _ _ _ Hg) as [Hvq Hq]. split; [done|].
    apply not_elem_of_cons. split; [|done]. intros ->.
    pose proof (po_open _ _ Hpipes _ _ _ Hg') as Hop. rewrite upd_eq in Hop.
    destruct (decide (v = w)) as [->|Hvw]; [congruence|]. assert (v = negb w) as -> by (by destruct v, w).
    rewrite E2 in Hop. by rewrite Hop in E3.
  - eexists. split_and!; [done..|]. exists l. split; [done|]. intros g q v [_ Hg]%Ht. eauto.
Qed.

(** The table after the last close of [f], before the pipe or inode is let go. *)
Lemma last_close_table refs pend (pend' : list nat) k f x :
  files_ok kend refs pend k → ftable k !! f = Some x → refs f = 1 → (∀ g, g ≠ f → g ∈ pend' ↔ g ∈ pend) → 
  let k1 := fset k f (λ y, with_ftype FD_NONE (with_fref 0 y)) in
  (∀ g y, ftable k1 !! g = Some y → f_ref y = bump refs f (-1) g ∧ (f_type y = FD_NONE ↔ bump refs f (-1) g = 0 ∨ g ∈ pend')) ∧
  (∀ g q v, is_end (ftable k1) g q v ↔ g ≠ f ∧ is_end (ftable k) g q v).
Proof.
  intros Hok Hx H1 Hp k1. split.
  - intros g y (z & Hz & ->)%lookup_alter_cases. destruct (decide (g = f)) as [->|Hg].
    + rewrite bump_eq, H1. simpl. tauto.
    + rewrite bump_ne, Hp by done. split; [by eapply fo_ref|by eapply fo_type].
  - intros g q v. by apply is_end_drop.
Qed.

Lemma files_ok_last refs (pend' : list nat) k t P m :
  length t = Z.to_nat NFILE → (∀ g, 0 ≤ refs g) → (∀ g, refs g ≠ 0 → (g < Z.to_nat NFILE)%nat) →
  (∀ g y, t !! g = Some y → f_ref y = refs g ∧ (f_type y = FD_NONE ↔ refs g = 0 ∨ g ∈ pend')) →
  pipes_ok t P → pages_ok kend t m → ftable k = t → pipes k = P → kmem k = m → files_ok kend refs pend' k.
Proof. intros ? ? ? Ht ? ? <- <- <-. split; try done; intros g y Hg; by apply Ht. Qed.

Lemma fileclose_files pid refs pend (pend' : list nat) k k' f :
  files_ok kend refs pend k → 0 < refs f →
  (∀ g, g ≠ f → g ∈ pend' ↔ g ∈ pend) → (refs f ≠ 1 → f ∈ pend' ↔ f ∈ pend) →
  fileclose kend pid k f = Ret k' → files_ok kend (bump refs f (-1)) pend' k'.
Proof.
  intros Hok Hp Hpend Hpend1 E. unfold fileclose, fptr in E. destruct (ftable k !! f) as [x|] eqn:Hx; [|done]. simpl in E.
  pose proof (fo_ref _ _ _ _ Hok f x Hx) as Hr. destruct (Z.ltb_spec (f_ref x) 1); [lia|].
  assert (Hnn : ∀ g, 0 ≤ bump refs f (-1) g).
  { intros g. pose proof (fo_nonneg _ _ _ _ Hok g). unfold bump. case_decide; [subst|]; lia. }
  assert (Hrg : ∀ g, bump refs f (-1) g ≠ 0 → (g < Z.to_nat NFILE)%nat).
  { intros g Hg. apply (fo_range _ _ _ _ Hok). unfold bump in Hg. case_decide; [subst|]; lia. }
  destruct (Z.gtb_spec (f_ref x - 1) 0).
  - injection E as <-. eapply files_ok_alter; [done|by intros y| |by apply bump_ne|done|done|apply Hrg].
    intros y Hy. rewrite Hx in Hy. injection Hy as <-. rewrite bump_eq, Hpend1 by lia. simpl. split; [lia|].
    rewrite (fo_type _ _ _ _ Hok f x Hx). intuition lia.
  - assert (H1 : refs f = 1) by lia. destruct (last_close_table _ _ pend' _ _ _ Hok Hx H1 Hpend) as [Htab Hend].
    set (k1 := fset k f (λ y, with_ftype FD_NONE (with_fref 0 y))) in *.
    assert (Hlen : length (ftable k1) = Z.to_nat NFILE) by (simpl; rewrite length_alter; apply Hok).
    assert (Hsame : (∀ g q v, is_end (ftable k1) g q v ↔ is_end (ftable k) g q v) → files_ok kend (bump refs f (-1)) pend' k1).
    { intros He. eapply files_ok_last; try done.
      - eapply pipes_ok_iff; [apply He|apply Hok].
      - eapply pages_ok_iff; [intros g q v; apply He|apply Hok]. }
    destruct (f_type x) eqn:Ht.
    + injection E as <-. apply Hsame. intros g q v. rewrite Hend. split; [tauto|]. intros Hg. split; [|done].
      intros ->. destruct Hg as (y & Hy & Hty & _). congruence.
    + destruct (pipeclose_files k1 (ftable k) f (f_pipe x) (f_writable x)) as (k2 & Hc & Hft & _ & Hpo & Hpa);
        [apply Hok|apply Hok|by exists x|done|].
      rewrite Hc in E. injection E as <-. by eapply files_ok_last.
    + outcome_inv. apply files_ok_fs, Hsame. intros g q v. rewrite Hend. split; [tauto|]. intros Hg. split; [|done].
      intros ->. destruct Hg as (y & Hy & Hty & _). congruence.
Qed.
End close.

(** ** Files get their type *)

Lemma not_end_pending kend refs pend k f p w : files_ok kend refs pend k → f ∈ pend → ¬ is_end (ftable k) f p w.
Proof. intros Hok Hf (x & Hx & Ht & _). rewrite (proj2 (fo_type _ _ _ _ Hok f x Hx)) in Ht; [done|by right]. Qed.

Lemma files_ok_inode kend refs pend k f r w ip :
  files_ok kend refs (f :: pend) k → f ∉ pend → refs f ≠ 0 → files_ok kend refs pend (fset k f (as_inode r w ip)).
Proof.
  intros Hok Hni Hr.
  assert (He : ∀ g q v, is_end (alter (as_inode r w ip) f (ftable k)) g q v ↔ is_end (ftable k) g q v).
  { intros g q v. rewrite is_end_drop by done. split; [tauto|]. intros Hg. split; [|done].
    intros ->. eapply not_end_pending; [done| |done]. left. }
  destruct Hok as [H1 H2 H3 H4 H5 H6 H7]. split; simpl; try done.
  - by rewrite length_alter.
  - intros g y (x & Hx & ->)%lookup_alter_cases. case_decide; [subst; simpl|]; auto.
  - intros g y (x & Hx & ->)%lookup_alter_cases. case_decide as Hg.
    + subst. simpl. split; [done|]. tauto.
    + rewrite (H5 g x Hx), elem_of_cons. tauto.
  - by eapply pipes_ok_iff.
  - eapply pages_ok_iff; [|done]. intros g q v. apply He.
Qed.

(** The table of a new pipe at [p] with ends [f0] and [f1]. *)
Section new_pipe.
  Context (kend : Z) (refs : nat → Z) (pend : list nat) (k : fkern) (f0 f1 : nat) (p : Z) (junk : list Z).
  Context (Hok : files_ok kend refs (f1 :: f0 :: pend) k) (Hne : f0 ≠ f1) (H0 : f0 ∉ pend) (H1 : f1 ∉ pend)
          (Hr0 : refs f0 ≠ 0) (Hr1 : refs f1 ≠ 0).

Definition new_table : list file := alter (as_pipe false true p) f1 (alter (as_pipe true false p) f0 (ftable k)).

Lemma new_table_lookup g y :
  new_table !! g = Some y ↔
  ∃ x, ftable k !! g = Some x ∧
       y = if decide (g = f1) then as_pipe false true p x else if decide (g = f0) then as_pipe true false p x else x.
Proof.
  unfold new_table. rewrite lookup_alter_cases. setoid_rewrite lookup_alter_cases. split.
  - intros (z & (x & Hx & ->) & ->). exists x. split; [done|]. repeat case_decide; by subst.
  - intros (x & Hx & ->). eexists. split; [by exists x|]. repeat case_decide; by subst.
Qed.

Lemma new_table_ends g q v :
  is_end new_table g q v ↔ is_end (ftable k) g q v ∨ (q = p ∧ ((g = f0 ∧ v = false) ∨ (g = f1 ∧ v = true))).
Proof.
  assert (Hsome : ∀ f, refs f ≠ 0 → ∃ x, ftable k !! f = Some x).
  { intros f Hf%(fo_range _ _ _ _ Hok). apply lookup_lt_is_Some_2. by rewrite (fo_len _ _ _ _ Hok). }
  assert (Hno : ∀ f q' v', f = f0 ∨ f = f1 → ¬ is_end (ftable k) f q' v').
  { intros f q' v' Hf. eapply not_end_pending; [done|]. rewrite !elem_of_cons. tauto. }
  split.
  - intros (y & (x & Hx & ->)%new_table_lookup & Ht & Hq & Hv). repeat case_decide; simpl in *; subst; [auto 10..|].
    left. by exists x.
  - intros [Hg|[-> [[-> ->]|[-> ->]]]].
    + assert (g ≠ f0) by (intros ->; by eapply Hno; [left|]). assert (g ≠ f1) by (intros ->; by eapply Hno; [right|]).
      destruct Hg as (x & Hx & Hg). exists x. split; [|done]. apply new_table_lookup. exists x. by rewrite !decide_False.
    + destruct (Hsome f0 Hr0) as [x Hx]. exists (as_pipe true false p x). split; [|done]. apply new_table_lookup. exists x.
      by rewrite decide_False, decide_True.
    + destruct (Hsome f1 Hr1) as [x Hx]. exists (as_pipe false true p x). split; [|done]. apply new_table_lookup. exists x.
      by rewrite decide_True.
Qed.

Lemma new_pipe_files m l :
  free_rep kend m l → valid_page kend p → p ∉ l →
  (∀ f q v, is_end (ftable k) f q v → valid_page kend q ∧ q ∉ p :: l) →
  files_ok kend refs pend (mkFkern new_table (kfs k) m (upd (pipes k) p (Pipe.pipe_init junk))).
Proof.
  intros Hl Hv Hni Hpg.
  assert (Hfresh : ∀ f q v, is_end (ftable k) f q v → q ≠ p) by (intros f q v [_ [? _]%not_elem_of_cons]%Hpg; done).
  pose proof Hok as [K1 K2 K3 K4 K5 [Ko Ku Kp] _]. split; simpl; try done.
  - unfold new_table. by rewrite !length_alter.
  - intros g y (x & Hx & ->)%new_table_lookup. repeat case_decide; subst; simpl; auto.
  - intros g y (x & Hx & ->)%new_table_lookup. repeat case_decide; subst; simpl; try (split; [done|tauto]).
    rewrite (K5 g x Hx), !elem_of_cons. tauto.
  - split.
    + intros g q v [Hg|[-> Hg]]%new_table_ends; [rewrite upd_ne by (by eapply Hfresh); by eapply Ko|].
      rewrite upd_eq. by destruct v.
    + intros g g' q v [Hg|[-> Hg]]%new_table_ends [Hg'|[Heq Hg']]%new_table_ends.
      * by eapply Ku.
      * by destruct (Hfresh _ _ _ Hg).
      * by destruct (Hfresh _ _ _ Hg').
      * destruct Hg as [[-> ->]|[-> ->]], Hg' as [[-> ?]|[-> ?]]; done.
    + intros g q v [Hg|[-> Hg]]%new_table_ends.
      * rewrite upd_ne by (by eapply Hfresh). intros Ho. destruct (Kp _ _ _ Hg Ho) as [g' Hg']. exists g'. apply new_table_ends. by left.
      * intros _. destruct Hg as [[-> ->]|[-> ->]]; [exists f1|exists f0]; apply new_table_ends; right; simpl; auto.
  - exists l. split; [done|]. intros g q v [Hg|[-> _]]%new_table_ends; [|done].
    by apply Hpg in Hg as [? [_ ?]%not_elem_of_cons].
Qed.
End new_pipe.

Section pipealloc.
  Context (kend pid : Z) (kend_kernel : KERNBASE + EXTMEM ≤ kend).

Lemma bump_bump refs f d g : bump (bump refs f d) f (- d) g = refs g.
Proof. unfold bump. case_decide; lia. Qed.

Lemma kalloc_files refs pend k p m :
  files_ok kend refs pend k → kalloc (kmem k) = (p, m) →
  (p = 0 ∧ m = kmem k) ∨
  (p ≠ 0 ∧ valid_page kend p ∧ ∃ l, free_rep kend m l ∧ p ∉ l ∧ ∀ f q v, is_end (ftable k) f q v → valid_page kend q ∧ q ∉ p :: l).
Proof.
  intros Hok Hk. destruct (fo_pages _ _ _ _ Hok) as (l & Hl & Hpg). pose proof (kalloc_spec kend kend_kernel _ _ Hl) as H.
  destruct l as [|a l]; [left; by rewrite H in Hk; simplify_eq|]. right. destruct H as (s' & Hs & _ & Hfr & Hv & Hni).
  rewrite Hs in Hk. injection Hk as <- <-. split; [by apply (valid_page_nonzero kend kend_kernel)|]. split; [done|]. by exists l.
Qed.

(** A file that was just allocated goes back. *)
Lemma fileclose_untyped pend (pend' : list nat) refs k k' f :
  fileclose kend pid k f = Ret k' → files_ok kend refs pend k → refs f = 1 → (∀ g, g ≠ f → g ∈ pend' ↔ g ∈ pend) →
  files_ok kend (bump refs f (-1)) pend' k'.
Proof. intros E Hok Hr Hp. eapply fileclose_files; [done|exact Hok|lia|done|lia|exact E]. Qed.

Lemma pipealloc_files refs pend k o k' :
  files_ok kend refs pend k → (∀ f, f ∈ pend → refs f ≠ 0) → pipealloc kend pid k = Ret (o, k') →
  match o with
  | Some (f0, f1) => f0 ≠ f1 ∧ refs f0 = 0 ∧ refs f1 = 0 ∧ files_ok kend (bump (bump refs f0 1) f1 1) pend k'
  | None => files_ok kend refs pend k'
  end.
Proof.
  intros Hok Hpend E. unfold pipealloc in E. pose proof (filealloc_files _ _ _ _ Hok) as A0.
  destruct (filealloc k) as [[f0|] k1]; [|by simplify_eq]. destruct A0 as (R0 & _ & Hok1 & _ & _).
  pose proof (filealloc_files _ _ _ _ Hok1) as A1.
  assert (N0 : f0 ∉ pend) by (intros ?%Hpend; done).
  destruct (filealloc k1) as [[f1|] k2].
  - destruct A1 as (R1 & _ & Hok2 & _ & _).
    assert (Hne : f0 ≠ f1) by (intros ->; rewrite bump_eq in R1; lia). rewrite bump_ne in R1 by done.
    assert (N1 : f1 ∉ pend) by (intros ?%Hpend; done).
    destruct (kalloc (kmem k2)) as [p m] eqn:Hk. destruct (kalloc_files _ _ _ _ _ Hok2 Hk) as [[-> ->]|(Hp & Hv & l & Hl & Hni & Hpg)].
    + simpl in E. outcome_inv. assert (Hok3 : files_ok kend (bump (bump refs f0 1) f1 1) (f1 :: f0 :: pend) (set_kmem k2 (kmem k2))) by (by destruct k2).
      eapply (fileclose_untyped _ (f1 :: pend)) in H as Hok4; [|done|by rewrite bump_ne, bump_eq by done; rewrite R0|].
      2: { intros g Hg. rewrite !elem_of_cons. tauto. }
      eapply (fileclose_untyped _ pend) in H0 as Hok5; [|done|by rewrite bump_ne, bump_eq, bump_ne by done; rewrite R1|].
      2: { intros g Hg. rewrite !elem_of_cons. tauto. }
      eapply files_ok_ext; [|exact Hok5]. intros g. unfold bump. repeat case_decide; subst; try done; lia.
    + rewrite (proj2 (Z.eqb_neq p 0)) in E by done. injection E as <- <-. split_and!; [done..|].
      apply (new_pipe_files kend _ pend k2 f0 f1 p _ Hok2 Hne N0 N1) with (l := l); try done.
      * rewrite bump_ne, bump_eq by done. lia.
      * rewrite bump_eq, bump_ne by done. lia.
  - subst k2. outcome_inv. eapply (fileclose_untyped _ pend) in H as Hok2; [|done|by rewrite bump_eq, R0|].
    + eapply files_ok_ext; [|exact Hok2]. intros g. apply bump_bump.
    + intros g Hg. rewrite elem_of_cons. tauto.
Qed.
End pipealloc.

(** ** Reading and writing *)

Definition fres_state (r : fresult) : fkern := match r with FRet _ _ k => k | FSleep k _ => k end.

Lemma files_ok_pipe kend refs pend k p x :
  (∀ w, end_open x w = end_open (pipes k p) w) → files_ok kend refs pend k → files_ok kend refs pend (set_pipe k p x).
Proof.
  intros Hx [H1 H2 H3 H4 H5 [Ho Hu Hp] H7].
  assert (He : ∀ q w, end_open (upd (pipes k) p x q) w = end_open (pipes k q) w).
  { intros q w. destruct (decide (q = p)) as [->|]; [by rewrite upd_eq|by rewrite upd_ne]. }
  split; try done. split; simpl.
  - intros f q w Hf. rewrite He. by eapply Ho.
  - done.
  - intros f q w Hf. rewrite He. by eapply Hp.
Qed.

Lemma files_ok_off kend refs pend k f o : files_ok kend refs pend k → files_ok kend refs pend (fset k f (with_off o)).
Proof.
  intros Hok. eapply files_ok_alter; [done|by intros x| |done|done|apply Hok|apply Hok].
  intros x Hx. split; [exact (fo_ref _ _ _ _ Hok f x Hx)|exact (fo_type _ _ _ _ Hok f x Hx)].
Qed.

Lemma pipewrite_open p addr killed w :
  match Pipe.pipewrite p addr killed with Pipe.WDone p' | Pipe.WFailed p' | Pipe.WSleep p' _ => end_open p' w = end_open p w end.
Proof.
  revert p. induction addr as [|c addr IH]; intros p; simpl; [done|].
  destruct (Pipe.full p); [by destruct (Pipe.readopen p), killed|].
  specialize (IH (Pipe.put p c)). destruct (Pipe.pipewrite (Pipe.put p c) addr killed); rewrite IH; by destruct w.
Qed.

Lemma piperead_open p n w : end_open (Pipe.piperead_copy p n).2 w = end_open p w.
Proof.
  revert p. induction n as [|n IH]; intros p; [done|]. cbn [Pipe.piperead_copy]. destruct (Pipe.empty p); [done|].
  destruct (Pipe.get p) as [c p1] eqn:E. specialize (IH p1). destruct (Pipe.piperead_copy p1 n) as [l p2]. simpl in *.
  rewrite IH. injection E as _ <-. by destruct w.
Qed.

Section rw.
  Context (kend pid : Z).
  Context (dev_read : Z → option (fs → nat → Z → outcome (Z * list Z * fs)))
          (dev_write : Z → option (fs → nat → list Z → outcome (Z * fs))).
  Context (refs : nat → Z) (pend : list nat).

Lemma fileread_files k f n killed r :
  files_ok kend refs pend k → fileread pid dev_read k f n killed = Ret r → files_ok kend refs pend (fres_state r).
Proof.
  intros Hok E. unfold fileread in E. outcome_inv. destruct (f_readable x) eqn:Hr; simpl in E; [|by injection E as <-].
  destruct (f_type x) eqn:Ht; [done| |].
  - unfold Pipe.piperead in E. destruct (Pipe.empty _ && Pipe.writeopen _).
    + destruct killed; by injection E as <-.
    + pose proof (λ w, piperead_open (pipes k (f_pipe x)) (Z.to_nat n) w) as Ho.
      destruct (Pipe.piperead_copy _ _) as [l p]. injection E as <-. by apply files_ok_pipe.
  - apply obind_Ret_inv in E as (s1 & _ & E). apply obind_Ret_inv in E as ([v s2] & _ & E).
    apply obind_Ret_inv in E as (s3 & _ & E). injection E as <-. simpl. apply files_ok_fs.
    destruct (Z.gtb (s32 v.1) 0); [apply files_ok_off|]; by apply files_ok_fs.
Qed.

Lemma filewrite_loop_files fuel k f addr b k' :
  files_ok kend refs pend k → filewrite_loop pid dev_write fuel k f addr = Ret (b, k') → files_ok kend refs pend k'.
Proof.
  revert k addr. induction fuel as [|fuel IH]; intros k addr Hok E; [done|]. cbn [filewrite_loop] in E.
  destruct addr as [|c addr]; [by injection E as <- <-|].
  apply obind_Ret_inv in E as (x & _ & E). apply obind_Ret_inv in E as (s1 & _ & E). apply obind_Ret_inv in E as (s2 & _ & E).
  apply obind_Ret_inv in E as ([r s3] & _ & E). apply obind_Ret_inv in E as (s4 & _ & E). apply obind_Ret_inv in E as (s5 & _ & E).
  match type of E with context [set_fs ?k2 s5] => assert (Hok3 : files_ok kend refs pend (set_fs k2 s5)) end.
  { apply files_ok_fs. destruct (Z.gtb r 0); [apply files_ok_off|]; by apply files_ok_fs. }
  destruct (Z.ltb r 0); [by injection E as <- <-|]. destruct (negb _); [done|]. by eapply IH.
Qed.

Lemma filewrite_files k f addr killed r :
  files_ok kend refs pend k → filewrite pid dev_write k f addr killed = Ret r → files_ok kend refs pend (fres_state r).
Proof.
  intros Hok E. unfold filewrite in E. apply obind_Ret_inv in E as (x & _ & E).
  destruct (f_writable x) eqn:Hr; simpl in E; [|by injection E as <-]. destruct (f_type x) eqn:Ht; [done| |].
  - pose proof (λ w, pipewrite_open (pipes k (f_pipe x)) addr killed w) as Ho.
    destruct (Pipe.pipewrite _ _ _); injection E as <-; (apply files_ok_pipe; [exact Ho|exact Hok]).
  - apply obind_Ret_inv in E as ([b k1] & E1 & E). injection E as <-. exact (filewrite_loop_files (S (length addr)) k f addr b k1 Hok E1).
Qed.
End rw.

(** ** Descriptors *)

(** How many of the descriptors [o] name file [f]. *)
Definition held (o : list (option nat)) (f : nat) : Z := Z.of_nat (length (filter (λ x, x = Some f) o)).

(** The caller's descriptors and those of the [others] account for every reference. *)
Record sys_ok (kend : Z) (others : nat → Z) (s : sys) : Prop := mk_sys_ok {
  so_len : length (p_ofile (sme s)) = NOFILE;
  so_others : ∀ f, 0 ≤ others f;
  so_files : files_ok kend (λ f, others f + held (p_ofile (sme s)) f) [] (sk s) }.

Lemma held_cons a o g : held (a :: o) g = (if decide (a = Some g) then 1 else 0) + held o g.
Proof. unfold held. rewrite filter_cons. case_decide; simpl; lia. Qed.

Lemma held_insert o i a b g :
  o !! i = Some a →
  held (<[i := b]> o) g = held o g - (if decide (a = Some g) then 1 else 0) + (if decide (b = Some g) then 1 else 0).
Proof.
  revert i. induction o as [|c o IH]; intros [|i] Hi; simpl in Hi; simplify_eq; simpl; rewrite !held_cons; [lia|].
  rewrite (IH i Hi). lia.
Qed.

Lemma held_some o i f : o !! i = Some (Some f) → 0 < held o f.
Proof.
  revert i. induction o as [|c o IH]; intros [|i] Hi; simpl in Hi; simplify_eq; rewrite held_cons.
  - rewrite decide_True by done. unfold held. lia.
  - specialize (IH i Hi). case_decide; lia.
Qed.

(** Descriptor [i] goes from [a] to [b]. *)
Lemma refs_insert kend others o i a b k refs' pend :
  o !! i = Some a →
  (∀ f, refs' f = others f + held o f - (if decide (a = Some f) then 1 else 0) + (if decide (b = Some f) then 1 else 0)) →
  files_ok kend refs' pend k → files_ok kend (λ f, others f + held (<[i := b]> o) f) pend k.
Proof. intros Hi Hr. apply files_ok_ext. intros f. rewrite Hr, (held_insert _ _ _ _ _ Hi). lia. Qed.

Lemma argfd_held s n fd f : argfd s n = Some (fd, f) → 0 ≤ fd ∧ p_ofile (sme s) !! Z.to_nat fd = Some (Some f).
Proof.
  unfold argfd. destruct (argint _ _ _) as [v|]; [|done]. destruct (Z.ltb_spec v 0); simpl; [done|].
  destruct (Z.leb _ v); [done|]. destruct (p_ofile (sme s) !! Z.to_nat v) as [[g|]|] eqn:E; [|done..]. intros [= <- <-]. done.
Qed.

Lemma fdalloc_cases s f :
  (fdalloc s f = (-1, s)) ∨
  ∃ fd, p_ofile (sme s) !! fd = Some None ∧ fdalloc s f = (Z.of_nat fd, set_ofile s (<[fd := Some f]> (p_ofile (sme s)))).
Proof.
  unfold fdalloc. destruct (list_find _ _) as [[fd x]|] eqn:E; [right|by left].
  apply list_find_Some in E as (Hx & -> & _). by exists fd.
Qed.

(** ** The system calls *)

Lemma sys_ok_fs kend others s x : sys_ok kend others s → sys_ok kend others (set_sfs s x).
Proof. intros [H1 H2 H3]. split; [done|done|]. by apply files_ok_fs. Qed.

Lemma sys_ok_sum kend others s m : sys_ok kend others s → sys_ok kend others (set_sum s m).
Proof. intros []. by split. Qed.

(** A new descriptor for a file that has the reference already. *)
Lemma fdalloc_ok kend others s f fd pend :
  length (p_ofile (sme s)) = NOFILE → (∀ g, 0 ≤ others g) → p_ofile (sme s) !! fd = Some None →
  files_ok kend (bump (λ g, others g + held (p_ofile (sme s)) g) f 1) pend (sk s) →
  length (<[fd := Some f]> (p_ofile (sme s))) = NOFILE ∧
  files_ok kend (λ g, others g + held (<[fd := Some f]> (p_ofile (sme s))) g) pend (sk s).
Proof.
  intros Hl Ho Hn Hok. split; [by rewrite length_insert|]. eapply refs_insert; [done| |exact Hok].
  intros g. unfold bump. repeat case_decide; simplify_eq; lia.
Qed.

Lemma dup_ok kend others s : sys_ok kend others s → ∃ r s', sys_dup s = Ret (r, s') ∧ sys_ok kend others s'.
Proof.
  intros [H1 H2 H3]. unfold sys_dup. destruct (argfd s 0) as [[fd f]|] eqn:E; [|by eexists _, _].
  apply argfd_held in E as [_ Hf]. destruct (fdalloc_cases s f) as [->|(n & Hn & ->)]; [by eexists _, _|].
  destruct (Z.ltb_spec (Z.of_nat n) 0); [lia|]. pose proof (held_some _ _ _ Hf). pose proof (H2 f).
  destruct (filedup_files kend _ [] (sk s) f H3) as (k' & Hk & Hok & _); [lia|apply not_elem_of_nil|]. simpl. rewrite Hk. simpl. eexists _, _. split; [done|].
  pose proof (fdalloc_ok kend others (set_sk s k') f n [] H1 H2 Hn Hok) as [? ?]. by split.
Qed.

Section calls.
  Context (kend : Z) (kend_kernel : KERNBASE + EXTMEM ≤ kend).
  Context (dev_read : Z → option (fs → nat → Z → outcome (Z * list Z * fs)))
          (dev_write : Z → option (fs → nat → list Z → outcome (Z * fs))).
  Context (others : nat → Z).

Lemma close_ok s r s' : sys_ok kend others s → sys_close kend s = Ret (r, s') → sys_ok kend others s'.
Proof.
  intros [H1 H2 H3] E. unfold sys_close in E. destruct (argfd s 0) as [[fd f]|] eqn:Ea; [|by injection E as <- <-].
  apply argfd_held in Ea as [_ Hf]. pose proof (held_some _ _ _ Hf). pose proof (H2 f).
  apply obind_Ret_inv in E as (k & Hk & E). injection E as <- <-.
  eapply (fileclose_files kend kend_kernel _ _ [] []) in Hk; [|exact H3|lia|done|done]. split; [simpl; by rewrite length_insert|done|].
  simpl. eapply refs_insert; [done| |exact Hk]. intros g. unfold bump. repeat case_decide; simplify_eq; lia.
Qed.

Lemma open_ok s r s' : sys_ok kend others s → sys_open kend dev_read dev_write s = Ret (r, s') → sys_ok kend others s'.
Proof.
  intros Hs E. unfold sys_open in E. destruct (argstr _ _ 0) as [path|]; [|by injection E as <- <-].
  destruct (argint _ _ 1) as [omode|]; [|by injection E as <- <-].
  apply obind_Ret_inv in E as (cwd & _ & E). apply obind_Ret_inv in E as (x1 & _ & E). apply obind_Ret_inv in E as ([o x2] & _ & E).
  destruct o as [ip|]; [|apply obind_Ret_inv in E as (x3 & _ & E); injection E as <- <-; by apply sys_ok_fs].
  apply (sys_ok_fs _ _ _ x2) in Hs. set (s2 := set_sfs s x2) in *. destruct Hs as [H1 H2 H3].
  pose proof (filealloc_files _ _ _ _ H3) as A. destruct (filealloc (sk s2)) as [[f|] k].
  - destruct A as (R0 & _ & Hok & _). destruct (fdalloc_cases (set_sk s2 k) f) as [Hfd|(n & Hn & Hfd)]; rewrite Hfd in E.
    + simpl in E. apply obind_Ret_inv in E as (k1 & Hk1 & E). apply obind_Ret_inv in E as (x3 & _ & E).
      apply obind_Ret_inv in E as (x4 & _ & E). injection E as <- <-.
      eapply (fileclose_untyped kend _ kend_kernel _ []) in Hk1; [|exact Hok|by rewrite bump_eq, R0|].
      * apply sys_ok_fs. split; [done|done|]. eapply files_ok_ext; [|exact Hk1]. intros g. apply bump_bump.
      * intros g Hg. rewrite elem_of_cons. tauto.
    + destruct (Z.ltb_spec (Z.of_nat n) 0); [lia|]. apply obind_Ret_inv in E as (x3 & _ & E).
      apply obind_Ret_inv in E as (x4 & _ & E). injection E as <- <-.
      destruct (fdalloc_ok kend others (set_sk s2 k) f n [f] H1 H2 Hn Hok) as [Hl Hf]. split; [exact Hl|done|].
      apply files_ok_inode; [by apply files_ok_fs|apply not_elem_of_nil|]. simpl in *. rewrite (held_insert _ _ _ _ _ Hn).
      rewrite decide_False, decide_True by done. simpl in R0. lia.
  - subst k. apply obind_Ret_inv in E as (x3 & _ & E). apply obind_Ret_inv in E as (x4 & _ & E). injection E as <- <-.
    apply sys_ok_fs. by split.
Qed.

(** Two files whose descriptors could not be had are closed again. *)
Lemma pipe_fail_ok s f0 f1 pid k1 k2 :
  length (p_ofile (sme s)) = NOFILE → (∀ f, 0 ≤ others f) → f0 ≠ f1 →
  (λ g, others g + held (p_ofile (sme s)) g) f0 = 0 → (λ g, others g + held (p_ofile (sme s)) g) f1 = 0 →
  files_ok kend (bump (bump (λ g, others g + held (p_ofile (sme s)) g) f0 1) f1 1) [] (sk s) →
  fileclose kend pid (sk s) f0 = Ret k1 → fileclose kend pid k1 f1 = Ret k2 → sys_ok kend others (set_sk s k2).
Proof.
  intros Hl Ho Hne R0 R1 Hok E1 E2. split; [done|done|].
  eapply (fileclose_untyped kend _ kend_kernel _ []) in E1; [|exact Hok|by rewrite bump_ne, bump_eq, R0|done].
  eapply (fileclose_untyped kend _ kend_kernel _ []) in E2; [|exact E1|by rewrite bump_ne, bump_eq, bump_ne, R1|done].
  eapply files_ok_ext; [|exact E2]. intros g. unfold bump. simpl. repeat case_decide; subst; try done; lia.
Qed.

Lemma pipe_ok s r s' : sys_ok kend others s → sys_pipe kend s = Ret (r, s') → sys_ok kend others s'.
Proof.
  intros [H1 H2 H3] E. unfold sys_pipe in E. destruct (argptr _ _ 0 8) as [fd|]; [|by injection E as <- <-].
  apply obind_Ret_inv in E as ([o k] & Hp & E).
  apply (pipealloc_files kend _ kend_kernel _ _ _ _ _ H3) in Hp; [|by intros f ?%elem_of_nil].
  destruct o as [[rf wf]|]; [|injection E as <- <-; by split]. destruct Hp as (Hne & R0 & R1 & Hok).
  destruct (fdalloc_cases (set_sk s k) rf) as [Hfd|(n & Hn & Hfd)]; rewrite Hfd in E.
  { simpl in E. apply obind_Ret_inv in E as (k1 & E1 & E). apply obind_Ret_inv in E as (k2 & E2 & E). injection E as <- <-.
    exact (pipe_fail_ok (set_sk s k) rf wf _ k1 k2 H1 H2 Hne R0 R1 Hok E1 E2). }
  destruct (Z.ltb_spec (Z.of_nat n) 0); [lia|]. simpl in Hn.
  match type of E with context [fdalloc ?st wf] => destruct (fdalloc_cases st wf) as [Hfd1|(n1 & Hn1 & Hfd1)] end;
    rewrite Hfd1 in E.
  { simpl in E. apply obind_Ret_inv in E as (k1 & E1 & E). apply obind_Ret_inv in E as (k2 & E2 & E). injection E as <- <-.
    simpl. rewrite Nat2Z.id, list_insert_insert_eq, (list_insert_id _ _ _ Hn).
    exact (pipe_fail_ok (set_ofile (set_sk s k) (p_ofile (sme s))) rf wf _ k1 k2 H1 H2 Hne R0 R1 Hok E1 E2). }
  destruct (Z.ltb_spec (Z.of_nat n1) 0); [lia|]. injection E as <- <-. apply sys_ok_sum.
  split; simpl; [by rewrite !length_insert|done|]. eapply refs_insert; [exact Hn1| |exact Hok].
  intros g. simpl. rewrite (held_insert _ _ _ _ _ Hn). unfold bump. repeat case_decide; simplify_eq; lia.
Qed.
End calls.

Section calls2.
  Context (kend : Z) (kend_kernel : KERNBASE + EXTMEM ≤ kend).
  Context (dev_read : Z → option (fs → nat → Z → outcome (Z * list Z * fs)))
          (dev_write : Z → option (fs → nat → list Z → outcome (Z * fs))).
  Context (others : nat → Z).

(** The calls that return in one section. *)
Definition calls : list (sys → outcome (Z * sys)) :=
  [sys_dup; sys_close kend; sys_fstat; sys_link dev_read dev_write; sys_unlink dev_read dev_write;
   sys_open kend dev_read dev_write; sys_mkdir dev_read dev_write; sys_mknod dev_read dev_write;
   sys_chdir dev_read; sys_pipe kend].

Definition sres_state (r : sresult) : sys := match r with SRet _ s => s | SSleep s _ => s end.

(** [fs_only] goes through a call that changes nothing but the file system. *)
Ltac fs_only E :=
  repeat match type of E with
  | obind _ _ = Ret _ => apply obind_Ret_inv in E; let x := fresh "x" in destruct E as (x & _ & E); cbv beta in E; try destruct x
  | match ?o with _ => _ end = Ret _ => destruct o
  | Ret _ = Ret _ => injection E as <- <-
  end.

Lemma fs_calls_ok s r s' c :
  sys_ok kend others s →
  c ∈ [sys_link dev_read dev_write; sys_unlink dev_read dev_write; sys_mkdir dev_read dev_write; sys_mknod dev_read dev_write] →
  c s = Ret (r, s') → sys_ok kend others s'.
Proof.
  intros Hs Hc E. rewrite !elem_of_cons, elem_of_nil in Hc.
  destruct Hc as [->|[->|[->|[->|[]]]]]; unfold sys_link, sys_unlink, sys_mkdir, sys_mknod, make_path in E; fs_only E; try done; by apply sys_ok_fs.
Qed.

Lemma chdir_ok s r s' : sys_ok kend others s → sys_chdir dev_read s = Ret (r, s') → sys_ok kend others s'.
Proof.
  intros Hs E. unfold sys_chdir in E.
  fs_only E; first [by apply sys_ok_fs | destruct Hs as [H1 H2 H3]; split; [done|done|by apply files_ok_fs]].
Qed.

Lemma fstat_ok s r s' : sys_ok kend others s → sys_fstat s = Ret (r, s') → sys_ok kend others s'.
Proof.
  intros Hs E. unfold sys_fstat in E. destruct (argfd s 0) as [[fd f]|]; [|by injection E as <- <-].
  destruct (argptr _ _ 1 20) as [a|]; [|by injection E as <- <-]. apply obind_Ret_inv in E as ([v k] & Hf & E). injection E as <- <-.
  assert (Hk : sys_ok kend others (set_sk s k)).
  { unfold filestat in Hf. apply obind_Ret_inv in Hf as (x & _ & Hf). destruct (f_type x); [by simplify_eq; destruct s..|].
    fs_only Hf. by apply sys_ok_fs. }
  destruct v.2; [by apply sys_ok_sum|done].
Qed.

Lemma calls_ok s r s' c : c ∈ calls → sys_ok kend others s → c s = Ret (r, s') → sys_ok kend others s'.
Proof.
  intros Hc Hs E. unfold calls in Hc. rewrite !elem_of_cons, elem_of_nil in Hc.
  destruct Hc as [->|[->|[->|[->|[->|[->|[->|[->|[->|[->|[]]]]]]]]]]].
  - destruct (dup_ok kend others s Hs) as (r1 & s1 & E1 & H). congruence.
  - by eapply close_ok.
  - by eapply fstat_ok.
  - eapply fs_calls_ok; [done| |done]. rewrite !elem_of_cons. tauto.
  - eapply fs_calls_ok; [done| |done]. rewrite !elem_of_cons. tauto.
  - by eapply open_ok.
  - eapply fs_calls_ok; [done| |done]. rewrite !elem_of_cons. tauto.
  - eapply fs_calls_ok; [done| |done]. rewrite !elem_of_cons. tauto.
  - by eapply chdir_ok.
  - by eapply pipe_ok.
Qed.

Lemma read_write_ok s res :
  sys_ok kend others s → sys_read dev_read s = Ret res ∨ sys_write dev_write s = Ret res → sys_ok kend others (sres_state res).
Proof.
  intros Hs [E|E]; [unfold sys_read in E|unfold sys_write in E];
    (destruct (argfd s 0) as [[fd f]|]; [|by injection E as <-]);
    (destruct (argint _ _ 2) as [n|]; [|by injection E as <-]);
    (destruct (argptr _ _ 1 n) as [p|]; [|by injection E as <-]);
    apply obind_Ret_inv in E as (v & Hv & E); destruct Hs as [H1 H2 H3];
    [apply (fileread_files kend _ _ _ _ _ _ _ _ _ H3) in Hv|apply (filewrite_files kend _ _ _ _ _ _ _ _ _ H3) in Hv];
    destruct v; injection E as <-; simpl in Hv; by split.
Qed.
End calls2.

(** C13: the file table stays well formed: every system call on files that returns
    or sleeps in a pipe keeps the count of each open file equal to the number of
    descriptors that name it, the type of a file at FD_NONE exactly while it is
    free, each pipe end with one file, and the page of a pipe in use off the free
    list.  A dup always returns. *)
Theorem file_calls_ok (kend : Z) dev_read dev_write others s :
  KERNBASE + EXTMEM ≤ kend → sys_ok kend others s →
  (∀ c r s', c ∈ calls kend dev_read dev_write → c s = Ret (r, s') → sys_ok kend others s') ∧
  (∀ res, sys_read dev_read s = Ret res ∨ sys_write dev_write s = Ret res → sys_ok kend others (sres_state res)) ∧
  (∃ r s', sys_dup s = Ret (r, s')).
Proof.
  intros Hk Hs. split_and!.
  - intros c r s' Hc E. by eapply calls_ok.
  - intros res E. by eapply read_write_ok.
  - destruct (dup_ok kend others s Hs) as (r & s' & E & _). eauto.
Qed.

(** A process without files, one free page, and the call of pipe. *)
Definition boot_kend : Z := KERNBASE + EXTMEM.
Definition boot_files : fkern :=
  mkFkern fileinit (mkFs open_log plain_cache (decode_sb []) []) (mkKstate (λ _, 0) boot_kend 1 1) (λ _, Pipe.pipe_init []).
Definition boot_sys : sys := mkSys boot_files (with_files (replicate NOFILE None) (Some 0%nat) (with_mem 4096 0 no_proc)) (λ _, 0).

Lemma held_none n f : held (replicate n None) f = 0.
Proof. induction n as [|n IH]; [done|]. simpl. by rewrite held_cons, IH. Qed.

Lemma boot_no_end f p w : ¬ is_end fileinit f p w.
Proof. intros (x & [-> _]%lookup_replicate_1 & ? & _). done. Qed.

Lemma boot_sys_ok : sys_ok boot_kend (λ _, 0) boot_sys.
Proof.
  split; [done|done|].
  assert (Hr : ∀ f, 0 + held (p_ofile (sme boot_sys)) f = 0) by (intros f; unfold boot_sys; cbn [sme p_ofile with_files]; by rewrite held_none).
  split.
  - apply length_replicate.
  - intros f x [-> _]%lookup_replicate_1. by rewrite Hr.
  - intros f. rewrite Hr. done.
  - intros f. rewrite Hr. done.
  - intros f x [-> _]%lookup_replicate_1. rewrite Hr. simpl. tauto.
  - split; intros f; intros; exfalso; by eapply boot_no_end.
  - exists [boot_kend]. split; [|intros f p w H; by apply boot_no_end in H]. split.
    + by split.
    + repeat constructor; by vm_compute.
    + apply NoDup_singleton.
Qed.

Lemma file_calls_ok_witness :
  match sys_pipe boot_kend boot_sys with
  | Ret (r, s') => r = 0 ∧ sys_ok boot_kend (λ _, 0) s'
  | _ => False
  end.
Proof.
  assert (Hr : match sys_pipe boot_kend boot_sys with Ret (r, _) => r = 0 | _ => False end) by (vm_compute; reflexivity).
  destruct (file_calls_ok boot_kend (λ _, None) (λ _, None) (λ _, 0) boot_sys (Z.le_refl _) boot_sys_ok) as (H & _).
  destruct (sys_pipe boot_kend boot_sys) as [[r s']| | | |] eqn:E; [|exact Hr..].
  split; [exact Hr|]. apply (H (sys_pipe boot_kend) r s'); [|exact E]. unfold calls. rewrite !elem_of_cons. tauto.
Defined.
