(* ===== verification/Sh.v ===== *)
(** * The command parser of the shell (sh.c)

    A pointer into the command line is modelled by the bytes from it to the end
    [es] of the line; the pointers a command keeps are their distances to [es].
    [malloc] is taken to succeed, as the shell does not test its result. *)
From stdpp Require Import base list strings.
From Stdlib Require Import ZArith Lia.
From S2P Require Import Prelude Fs Sysfile.

Definition MAXARGS : nat := 10.
Definition BAR : Z := 124.
Definition AMP : Z := 38.
Definition SEMI : Z := 59.
Definition OPEN : Z := 40.
Definition CLOSE : Z := 41.
Definition LT : Z := 60.
Definition GT : Z := 62.
Definition PLUS : Z := 43.
Definition WORD : Z := 97.

(** A counted string: the distances of its start and of its end. *)
Definition span : Type := nat * nat.

Inductive cmd :=
| EXEC (argv : list span)
| REDIR (c : cmd) (file : span) (mode fd : Z)
| PIPE (left right : cmd)
| LIST (left right : cmd)
| BACK (c : cmd).

(** ** Tokens *)

Definition whitespace : list Z := [32; 9; 13; 10; 11].
Definition symbols : list Z := [LT; BAR; GT; AMP; SEMI; OPEN; CLOSE].

(** [strchr(l, c)] for [c] other than NUL. *)
Definition strchr (l : list Z) (c : Z) : bool := existsb (Z.eqb c) l.
#[local] Arguments strchr : simpl never.

Fixpoint skip_ws (s : list Z) : list Z :=
  match s with
  | c :: s' => if strchr whitespace c then skip_ws s' else s
  | [] => []
  end.

Fixpoint skip_word (s : list Z) : list Z :=
  match s with
  | c :: s' => if negb (strchr whitespace c) && negb (strchr symbols c) then skip_word s' else s
  | [] => []
  end.

(** [gettoken]: the token, the pointers [q] and [eq], and the new [*ps]. *)
Definition gettoken (ps : list Z) : Z * list Z * list Z * list Z :=
  let q := skip_ws ps in
  let '(ret, eq) :=
    match q with
    | [] => (0, q)
    | c :: s =>
        if strchr [BAR; OPEN; CLOSE; SEMI; AMP; LT] c then (c, s)
        else if Z.eqb c GT then
          match s with
          | d :: s' => if Z.eqb d GT then (PLUS, s') else (c, s)
          | [] => (c, s)
          end
        else (WORD, skip_word q)
    end in
  (ret, q, eq, skip_ws eq).

Definition peek (ps toks : list Z) : bool * list Z :=
  let s := skip_ws ps in
  (match s with [] => false | c :: _ => strchr toks c end, s).

(** ** The parser *)

Definition redir : Type := span * Z * Z.
Definition redircmd (c : cmd) (r : redir) : cmd := REDIR c r.1.1 r.1.2 r.2.

(** [parseredirs]: the redirections are returned, to be wrapped around the
    command in order; in [parseexec] the command is still being filled. *)
Fixpoint parseredirs_loop (k : nat) (ps : list Z) (rs : list redir) : outcome (list redir * list Z) :=
  match k with
  | O => NoFuel
  | S k =>
      let '(b, s) := peek ps [LT; GT] in
      if b then
        let '(tok, _, _, s1) := gettoken s in
        let '(t2, q, eq, s2) := gettoken s1 in
        if negb (Z.eqb t2 WORD) then Panic "missing file for redirection"
        else
          let f := (length q, length eq) in
          let rs' :=
            if Z.eqb tok LT then rs ++ [(f, O_RDONLY, 0)]
            else if Z.eqb tok GT then rs ++ [(f, Z.lor O_WRONLY O_CREATE, 1)]
            else if Z.eqb tok PLUS then rs ++ [(f, Z.lor O_WRONLY O_CREATE, 1)]
            else rs in
          parseredirs_loop k s2 rs'
      else Ret (rs, s)
  end.
(** Every turn of this loop, and of the next two, takes a token off the line. *)
Definition parseredirs (ps : list Z) (rs : list redir) : outcome (list redir * list Z) :=
  parseredirs_loop (S (length ps)) ps rs.

(** The loop of [parseexec] over its arguments. *)
Fixpoint parseargs (k : nat) (ps : list Z) (argv : list span) (rs : list redir) : outcome (list span * list redir * list Z) :=
  match k with
  | O => NoFuel
  | S k =>
      let '(b, s) := peek ps [BAR; CLOSE; AMP; SEMI] in
      if b then Ret (argv, rs, s)
      else
        let '(tok, q, eq, s1) := gettoken s in
        if Z.eqb tok 0 then Ret (argv, rs, s1)
        else if negb (Z.eqb tok WORD) then Panic "syntax"
        else
          let argv' := argv ++ [(length q, length eq)] in
          if Nat.leb MAXARGS (length argv') then Panic "too many args"
          else
            let! (rs', s2) := parseredirs s1 rs in
            parseargs k s2 argv' rs'
  end.

(** [while(peek(ps, es, "&"))] of [parseline]. *)
Fixpoint parseback (k : nat) (ps : list Z) (c : cmd) : outcome (cmd * list Z) :=
  match k with
  | O => NoFuel
  | S k =>
      let '(b, s) := peek ps [AMP] in
      if b then let '(_, _, _, s1) := gettoken s in parseback k s1 (BACK c) else Ret (c, s)
  end.

Fixpoint parseline (n : nat) (ps : list Z) : outcome (cmd * list Z) :=
  match n with
  | O => NoFuel
  | S n =>
      let! (c, s) := parsepipe n ps in
      let! (c, s) := parseback (S (length s)) s c in
      let '(b, s) := peek s [SEMI] in
      if b then
        let '(_, _, _, s1) := gettoken s in
        let! (r, s2) := parseline n s1 in
        Ret (LIST c r, s2)
      else Ret (c, s)
  end
with parsepipe (n : nat) (ps : list Z) : outcome (cmd * list Z) :=
  match n with
  | O => NoFuel
  | S n =>
      let! (c, s) := parseexec n ps in
      let '(b, s) := peek s [BAR] in
      if b then
        let '(_, _, _, s1) := gettoken s in
        let! (r, s2) := parsepipe n s1 in
        Ret (PIPE c r, s2)
      else Ret (c, s)
  end
with parseexec (n : nat) (ps : list Z) : outcome (cmd * list Z) :=
  match n with
  | O => NoFuel
  | S n =>
      let '(b, s) := peek ps [OPEN] in
      if b then parseblock n s
      else
        let! (rs, s1) := parseredirs s [] in
        let! (r, s2) := parseargs (S (length s1)) s1 [] rs in
        Ret (foldl redircmd (EXEC r.1) r.2, s2)
  end
with parseblock (n : nat) (ps : list Z) : outcome (cmd * list Z) :=
  match n with
  | O => NoFuel
  | S n =>
      let '(b, s) := peek ps [OPEN] in
      if negb b then Panic "parseblock"
      else
        let '(_, _, _, s1) := gettoken s in
        let! (c, s2) := parseline n s1 in
        let '(b, s3) := peek s2 [CLOSE] in
        if negb b then Panic "syntax - missing )"
        else
          let '(_, _, _, s4) := gettoken s3 in
          let! (rs, s5) := parseredirs s4 [] in
          Ret (foldl redircmd c rs, s5)
  end.

(** Four nested calls for each byte of the line. *)
Definition parse_fuel (s : list Z) : nat := 4 * length s + 4.

(** ** NUL termination *)

(** [m] is the line and its NUL, [es] the index of that NUL. *)
Definition put_nul (es : nat) (m : list Z) (f : span) : list Z := <[(es - f.2)%nat := 0]> m.

Fixpoint nulterminate (es : nat) (m : list Z) (c : cmd) : list Z :=
  match c with
  | EXEC argv => foldl (put_nul es) m argv
  | REDIR c f _ _ => put_nul es (nulterminate es m c) f
  | PIPE l r => nulterminate es (nulterminate es m l) r
  | LIST l r => nulterminate es (nulterminate es m l) r
  | BACK c => nulterminate es m c
  end.

(** [parsecmd] on the string [s]: the command, and the memory of the line. *)
Definition parsecmd (s : list Z) : outcome (cmd * list Z) :=
  let! (c, s1) := parseline (parse_fuel s) s in
  let '(_, s2) := peek s1 [] in
  match s2 with
  | [] => Ret (c, nulterminate (length s) (s ++ [0]) c)
  | _ => Panic "syntax"
  end.

#[local] Arguments peek : simpl never.
#[local] Arguments gettoken : simpl never.
#[local] Arguments parseredirs : simpl never.

(** ** Tokens of a line *)

Definition wordc (c : Z) : bool := negb (strchr whitespace c) && negb (strchr symbols c).
Definition word_end (s : list Z) : Prop := match s with [] => True | c :: _ => wordc c = false end.

(** [f] spans a run of word characters of the line [buf] that no word character
    follows. *)
Definition good (buf : list Z) (f : span) : Prop :=
  ∃ w post, (w ++ post) `suffix_of` buf ∧ f = (length (w ++ post), length post) ∧ Forall (λ c, wordc c = true) w ∧ word_end post.

Lemma skip_ws_suffix s : skip_ws s `suffix_of` s.
Proof. induction s as [|c s IH]; simpl; [done|]. destruct (strchr whitespace c); [by apply suffix_cons_r|done]. Qed.

Lemma skip_ws_head s : match skip_ws s with [] => True | c :: _ => strchr whitespace c = false end.
Proof. induction s as [|c s IH]; simpl; [done|]. by destruct (strchr whitespace c) eqn:E. Qed.

Lemma skip_word_split s : ∃ w, s = w ++ skip_word s ∧ Forall (λ c, wordc c = true) w ∧ word_end (skip_word s).
Proof.
  induction s as [|c s (w & Hw & Hall & He)]; simpl; [by exists []|]. fold (wordc c). destruct (wordc c) eqn:Hc.
  - exists (c :: w). simpl. rewrite <-Hw. split_and!; [done|by constructor|done].
  - by exists [].
Qed.

(** A token: where it lies, what is left, and the span of a word. *)
Lemma gettoken_spec ps :
  let '(t, q, eq, s) := gettoken ps in
  q = skip_ws ps ∧ eq `suffix_of` q ∧ s `suffix_of` eq ∧ (q ≠ [] → (length eq < length q)%nat) ∧ (t = 0 ↔ q = []) ∧
  (t = WORD → ∃ w, q = w ++ eq ∧ Forall (λ c, wordc c = true) w ∧ word_end eq).
Proof.
  unfold gettoken. pose proof (skip_ws_head ps) as Hh. destruct (skip_ws ps) as [|c s] eqn:Hq.
  { split_and!; [done|done|apply skip_ws_suffix|done|done|]. intros [=]. }
  destruct (strchr [BAR; OPEN; CLOSE; SEMI; AMP; LT] c) eqn:Hsym.
  { assert (c ≠ 0 ∧ c ≠ WORD) as [? ?] by (split; intros ->; discriminate Hsym).
    split_and!; [done|by apply suffix_cons_r|apply skip_ws_suffix|simpl; lia|done|done]. }
  destruct (Z.eqb_spec c GT) as [->|Hgt].
  - destruct s as [|d s]; [|destruct (Z.eqb_spec d GT)]; (split_and!; [done| |apply skip_ws_suffix|simpl; lia|done|done]);
      repeat (reflexivity || apply suffix_cons_r).
  - assert (Hc : wordc c = true).
    { unfold wordc. rewrite Hh. unfold strchr in Hsym. simpl in Hsym.
      apply orb_false_iff in Hsym as [H1 Hsym]. apply orb_false_iff in Hsym as [H2 Hsym]. apply orb_false_iff in Hsym as [H3 Hsym].
      apply orb_false_iff in Hsym as [H4 Hsym]. apply orb_false_iff in Hsym as [H5 Hsym]. apply orb_false_iff in Hsym as [H6 _].
      unfold symbols, strchr. simpl. rewrite H1, H2, H3, H4, H5, H6, (proj2 (Z.eqb_neq c GT) Hgt). done. }
    simpl. fold (wordc c). rewrite Hc. destruct (skip_word_split s) as (w & Hw & Hall & He). split_and!; [done| | | |done|].
    + apply suffix_cons_r. exists w. done.
    + apply skip_ws_suffix.
    + intros _. rewrite Hw at 2. rewrite length_app. simpl. lia.
    + intros _. exists (c :: w). simpl. rewrite <-Hw. split_and!; [done|by constructor|done].
Qed.

Lemma peek_spec ps toks :
  let '(b, s) := peek ps toks in s = skip_ws ps ∧ (b = true → s ≠ [] ∧ skip_ws s = s).
Proof.
  unfold peek. pose proof (skip_ws_head ps) as Hh. destruct (skip_ws ps) as [|c s]; split; try done.
  intros _. split; [done|]. simpl. by rewrite Hh.
Qed.

(** ** Every line is parsed or refused *)

(** The computation returns a value with [Q], or panics with its message. *)
Definition ends {A} (Q : A → Prop) (o : outcome A) : Prop :=
  match o with Ret a => Q a | Panic _ => True | _ => False end.

Lemma ends_bind {A B} (P : A → Prop) (Q : B → Prop) m (k : A → outcome B) :
  ends P m → (∀ a, P a → ends Q (k a)) → ends Q (obind m k).
Proof. destruct m; simpl; auto. Qed.

Fixpoint spans (c : cmd) : list span :=
  match c with
  | EXEC argv => argv
  | REDIR c f _ _ => spans c ++ [f]
  | PIPE l r | LIST l r => spans l ++ spans r
  | BACK c => spans c
  end.

Definition good_redirs (buf : list Z) (rs : list redir) : Prop := Forall (λ r, good buf r.1.1) rs.

Lemma spans_redirs c rs : spans (foldl redircmd c rs) = spans c ++ ((λ r, r.1.1) <$> rs).
Proof.
  revert c. induction rs as [|r rs IH]; intros c; simpl; [by rewrite app_nil_r|]. rewrite IH. simpl. by rewrite <-app_assoc.
Qed.

Lemma good_foldl buf c rs : Forall (good buf) (spans c) → good_redirs buf rs → Forall (good buf) (spans (foldl redircmd c rs)).
Proof. intros Hc Hr. rewrite spans_redirs. apply Forall_app. split; [done|]. by apply Forall_fmap. Qed.

Section line.
  Context (buf : list Z).

(** What a parsing function leaves: a shorter line and good spans. *)
Definition parsed (ps : list Z) (r : cmd * list Z) : Prop :=
  r.2 `suffix_of` ps ∧ Forall (good buf) (spans r.1).

Lemma suffix_length_le (s t : list Z) : s `suffix_of` t → (length s ≤ length t)%nat.
Proof. intros [p ->]. rewrite length_app. lia. Qed.

Lemma good_word q w eq : q `suffix_of` buf → q = w ++ eq → Forall (λ c, wordc c = true) w → word_end eq → good buf (length q, length eq).
Proof. intros Hq -> Hw He. by exists w, eq. Qed.

Lemma parseredirs_loop_ends k ps rs :
  ps `suffix_of` buf → (length ps < k)%nat → good_redirs buf rs →
  ends (λ r, r.2 `suffix_of` ps ∧ good_redirs buf r.1) (parseredirs_loop k ps rs).
Proof.
  revert ps rs. induction k as [|k IH]; intros ps rs Hps Hk Hrs; [lia|]. cbn [parseredirs_loop].
  pose proof (peek_spec ps [LT; GT]) as Hp. destruct (peek ps [LT; GT]) as [b s]. destruct Hp as [-> Hb].
  pose proof (skip_ws_suffix ps) as Hs. destruct b; [|done]. destruct (Hb eq_refl) as [Hne Hid].
  pose proof (gettoken_spec (skip_ws ps)) as G1. destruct (gettoken (skip_ws ps)) as [[[tok q1] eq1] s1].
  destruct G1 as (-> & Heq1 & Hs1 & Hlt1 & _). rewrite Hid in *. specialize (Hlt1 Hne).
  pose proof (gettoken_spec s1) as G2. destruct (gettoken s1) as [[[t2 q2] eq2] s2].
  destruct G2 as (-> & Heq2 & Hs2 & _ & _ & Hw). pose proof (skip_ws_suffix s1) as Hq2.
  destruct (Z.eqb_spec t2 WORD) as [->|]; simpl; [|done]. destruct (Hw eq_refl) as (w & Hqw & Hall & Hend).
  assert (Hsuf1 : skip_ws s1 `suffix_of` ps) by (etrans; [exact Hq2|]; etrans; [exact Hs1|]; etrans; [exact Heq1|exact Hs]).
  assert (Hsuf2 : s2 `suffix_of` ps) by (etrans; [exact Hs2|]; etrans; [exact Heq2|exact Hsuf1]).
  assert (Hg : good buf (length (skip_ws s1), length eq2)) by (eapply good_word; [by etrans|done..]).
  assert (Hlen : (length s2 < length ps)%nat).
  { apply suffix_length_le in Hs, Hs1, Hs2, Heq2, Hq2. lia. }
  match goal with |- ends _ (parseredirs_loop k s2 ?rs') => assert (Hrs' : good_redirs buf rs') end.
  { repeat case_match; try done; apply Forall_app; (split; [done|]); by repeat constructor. }
  specialize (IH s2 _ ltac:(by etrans) ltac:(lia) Hrs'). destruct (parseredirs_loop k s2 _); simpl in *; [|done..].
  destruct IH as [? ?]. split; [by etrans|done].
Qed.

Lemma parseredirs_ends ps rs :
  ps `suffix_of` buf → good_redirs buf rs → ends (λ r, r.2 `suffix_of` ps ∧ good_redirs buf r.1) (parseredirs ps rs).
Proof. intros. apply parseredirs_loop_ends; [done|lia|done]. Qed.

Lemma parseargs_ends k ps argv rs :
  ps `suffix_of` buf → (length ps < k)%nat → Forall (good buf) argv → good_redirs buf rs →
  ends (λ r, r.2 `suffix_of` ps ∧ Forall (good buf) r.1.1 ∧ good_redirs buf r.1.2) (parseargs k ps argv rs).
Proof.
  revert ps argv rs. induction k as [|k IH]; intros ps argv rs Hps Hk Ha Hrs; [lia|]. cbn [parseargs].
  pose proof (peek_spec ps [BAR; CLOSE; AMP; SEMI]) as Hp. destruct (peek ps _) as [b s]. destruct Hp as [-> _].
  pose proof (skip_ws_suffix ps) as Hs. destruct b; [done|].
  pose proof (gettoken_spec (skip_ws ps)) as G. destruct (gettoken (skip_ws ps)) as [[[tok q] eq] s1].
  destruct G as (Hq & Heq & Hs1 & Hlt & H0 & Hw). assert (Hsq : q `suffix_of` ps) by (subst; etrans; [apply skip_ws_suffix|done]).
  assert (Hss1 : s1 `suffix_of` ps) by (etrans; [exact Hs1|]; by etrans).
  destruct (Z.eqb_spec tok 0) as [_|Hn0]; [done|]. destruct (Z.eqb_spec tok WORD) as [->|]; cbn [negb]; [|done].
  destruct (Hw eq_refl) as (w & Hqw & Hall & Hend). destruct (Nat.leb MAXARGS _); [done|].
  assert (Hg : good buf (length q, length eq)) by (eapply good_word; [by etrans|done..]).
  eapply ends_bind; [apply parseredirs_ends; [by etrans|done]|]. intros [rs' s2] [Hs2 Hrs']. simpl in *.
  assert (Hlen : (length s2 < length ps)%nat).
  { assert (Hqn : q ≠ []) by (intros ?; by apply Hn0, H0). specialize (Hlt Hqn). apply suffix_length_le in Hs2, Hs1, Hsq. lia. }
  specialize (IH s2 (argv ++ [(length q, length eq)]) rs' ltac:(etrans; [exact Hs2|]; by etrans) ltac:(lia)).
  specialize (IH ltac:(apply Forall_app; split; [done|by repeat constructor]) Hrs').
  destruct (parseargs k s2 _ _); simpl in *; [|done..]. destruct IH as (? & ?). split; [etrans; [done|]; by etrans|done].
Qed.

Lemma parseback_ends k ps c :
  (length ps < k)%nat → Forall (good buf) (spans c) → ends (parsed ps) (parseback k ps c).
Proof.
  revert ps c. induction k as [|k IH]; intros ps c Hk Hc; [lia|]. cbn [parseback].
  pose proof (peek_spec ps [AMP]) as Hp. destruct (peek ps _) as [b s]. destruct Hp as [-> Hb].
  pose proof (skip_ws_suffix ps) as Hs. destruct b; [|done]. destruct (Hb eq_refl) as [Hne Hid].
  pose proof (gettoken_spec (skip_ws ps)) as G. destruct (gettoken (skip_ws ps)) as [[[tok q] eq] s1].
  destruct G as (-> & Heq & Hs1 & Hlt & _). rewrite Hid in *. specialize (Hlt Hne).
  assert (Hss : s1 `suffix_of` ps) by (etrans; [exact Hs1|]; by etrans).
  specialize (IH s1 (BACK c) ltac:(apply suffix_length_le in Hs, Hs1; lia) Hc).
  destruct (parseback k s1 _); simpl in *; [|done..]. destruct IH as [? ?]. split; [by etrans|done].
Qed.

(** A peek that succeeds leaves a token to take. *)
Lemma peek_gettoken ps toks s :
  peek ps toks = (true, s) →
  let '(_, _, _, s1) := gettoken s in s `suffix_of` ps ∧ s1 `suffix_of` s ∧ (length s1 < length s)%nat.
Proof.
  intros E. pose proof (peek_spec ps toks) as Hp. rewrite E in Hp. destruct Hp as [-> Hb]. destruct (Hb eq_refl) as [Hne Hid].
  pose proof (gettoken_spec (skip_ws ps)) as G. destruct (gettoken (skip_ws ps)) as [[[tok q] eq] s1].
  destruct G as (-> & Heq & Hs1 & Hlt & _). rewrite Hid in *. specialize (Hlt Hne).
  split_and!; [apply skip_ws_suffix|by etrans|]. apply suffix_length_le in Hs1. lia.
Qed.

Lemma peek_suffix ps toks b s : peek ps toks = (b, s) → s `suffix_of` ps.
Proof. intros E. pose proof (peek_spec ps toks) as Hp. rewrite E in Hp. destruct Hp as [-> _]. apply skip_ws_suffix. Qed.

(** The fuel each of the four functions needs on a line of length [r]. *)
Lemma parse_ends n :
  (∀ ps, ps `suffix_of` buf → (4 * length ps + 4 ≤ n)%nat → ends (parsed ps) (parseline n ps)) ∧
  (∀ ps, ps `suffix_of` buf → (4 * length ps + 3 ≤ n)%nat → ends (parsed ps) (parsepipe n ps)) ∧
  (∀ ps, ps `suffix_of` buf → (4 * length ps + 2 ≤ n)%nat → ends (parsed ps) (parseexec n ps)) ∧
  (∀ ps, ps `suffix_of` buf → (4 * length ps + 1 ≤ n)%nat → ends (parsed ps) (parseblock n ps)).
Proof.
  induction n as [|n (IHl & IHp & IHe & IHb)]; [split_and!; intros; lia|]. split_and!; intros ps Hps Hn; cbn [parseline parsepipe parseexec parseblock].
  - eapply ends_bind; [apply IHp; [done|lia]|]. intros [c s] [Hs Hc]. simpl in Hs.
    eapply ends_bind; [apply parseback_ends; [lia|done]|]. intros [c' s'] [Hs' Hc']. simpl in Hs'.
    destruct (peek s' [SEMI]) as [[|] s1] eqn:Hp.
    + apply peek_gettoken in Hp. destruct (gettoken s1) as [[[tok q] eq] s2]. destruct Hp as (H1 & H2 & H3).
      apply suffix_length_le in Hs as L1, Hs' as L2, H1 as L3.
      assert (Hs2 : s2 `suffix_of` ps) by (etrans; [exact H2|]; etrans; [exact H1|]; by etrans).
      eapply ends_bind; [apply IHl; [by etrans|lia]|]. intros [r s3] [Hs3 Hr]. split; [by etrans|]. simpl. by apply Forall_app.
    + apply peek_suffix in Hp. split; [etrans; [done|]; by etrans|done].
  - eapply ends_bind; [apply IHe; [done|lia]|]. intros [c s] [Hs Hc]. simpl in Hs.
    destruct (peek s [BAR]) as [[|] s1] eqn:Hp.
    + apply peek_gettoken in Hp. destruct (gettoken s1) as [[[tok q] eq] s2]. destruct Hp as (H1 & H2 & H3).
      apply suffix_length_le in Hs as L1, H1 as L3.
      assert (Hs2 : s2 `suffix_of` ps) by (etrans; [exact H2|]; by etrans).
      eapply ends_bind; [apply IHp; [by etrans|lia]|]. intros [r s3] [Hs3 Hr]. split; [by etrans|]. simpl. by apply Forall_app.
    + apply peek_suffix in Hp. split; [by etrans|done].
  - destruct (peek ps [OPEN]) as [[|] s] eqn:Hp; apply peek_suffix in Hp; apply suffix_length_le in Hp as L1.
    + specialize (IHb s ltac:(by etrans) ltac:(lia)). destruct (parseblock n s); simpl in *; [|done..].
      destruct IHb. split; [by etrans|done].
    + eapply ends_bind; [apply (parseredirs_ends s []); [by etrans|constructor]|]. intros [rs s1] [Hs1 Hrs]. simpl in *.
      assert (Hs1' : s1 `suffix_of` ps) by (by etrans).
      eapply ends_bind; [apply (parseargs_ends (S (length s1)) s1 [] rs); [by etrans|lia|constructor|done]|].
      intros [[argv rs'] s2] (Hs2 & Ha & Hr). simpl in *. split; [by etrans|]. by apply good_foldl.
  - destruct (peek ps [OPEN]) as [[|] s] eqn:Hp; cbn [negb]; [|done].
    apply peek_gettoken in Hp. destruct (gettoken s) as [[[tok q] eq] s1]. destruct Hp as (H1 & H2 & H3).
    apply suffix_length_le in H1 as L1. assert (Hs1 : s1 `suffix_of` ps) by (by etrans).
    eapply ends_bind; [apply IHl; [by etrans|lia]|]. intros [c s2] [Hs2 Hc]. cbn [fst snd] in *.
    destruct (peek s2 [CLOSE]) as [[|] s3] eqn:Hp; cbn [negb]; [|done].
    apply peek_gettoken in Hp. destruct (gettoken s3) as [[[tok' q'] eq'] s4]. destruct Hp as (H4 & H5 & _).
    assert (Hs4 : s4 `suffix_of` ps) by (etrans; [exact H5|]; etrans; [exact H4|]; by etrans).
    eapply ends_bind; [apply (parseredirs_ends s4 []); [by etrans|constructor]|]. intros [rs s5] [Hs5 Hrs]. simpl in *.
    split; [by etrans|]. by apply good_foldl.
Qed.
End line.

(** ** The strings of a parsed command *)

(** A command with its strings. *)
Inductive tcmd :=
| TExec (argv : list (list Z))
| TRedir (c : tcmd) (file : list Z) (mode fd : Z)
| TPipe (left right : tcmd)
| TList (left right : tcmd)
| TBack (c : tcmd).

Fixpoint resolve (rd : span → list Z) (c : cmd) : tcmd :=
  match c with
  | EXEC argv => TExec (rd <$> argv)
  | REDIR c f mode fd => TRedir (resolve rd c) (rd f) mode fd
  | PIPE l r => TPipe (resolve rd l) (resolve rd r)
  | LIST l r => TList (resolve rd l) (resolve rd r)
  | BACK c => TBack (resolve rd c)
  end.

(** The text a span delimits in the line, and the C string at its start in a memory. *)
Definition text (buf : list Z) (f : span) : list Z := take (f.1 - f.2) (drop (length buf - f.1) buf).
Definition read_str (es : nat) (m : list Z) (f : span) : list Z := cstring (drop (es - f.1) m).

Lemma resolve_ext rd rd' c : Forall (λ f, rd f = rd' f) (spans c) → resolve rd c = resolve rd' c.
Proof.
  induction c as [argv|c IH f mode fd|l IHl r IHr|l IHl r IHr|c IH]; simpl; intros H.
  - f_equal. induction H as [|f l Hf _ IH]; [done|]. rewrite !fmap_cons. by f_equal.
  - apply Forall_app in H as [H1 H2]. apply Forall_cons in H2 as [H2 _]. rewrite IH by done. cbv beta in H2. by rewrite H2.
  - apply Forall_app in H as [H1 H2]. by rewrite IHl, IHr.
  - apply Forall_app in H as [H1 H2]. by rewrite IHl, IHr.
  - by rewrite IH.
Qed.

Lemma nulterminate_spans es m c : nulterminate es m c = foldl (put_nul es) m (spans c).
Proof.
  revert m. induction c as [argv|c IH f mode fd|l IHl r IHr|l IHl r IHr|c IH]; intros m; simpl; [done| | | |done].
  - by rewrite foldl_app, IH.
  - by rewrite foldl_app, IHl, IHr.
  - by rewrite foldl_app, IHl, IHr.
Qed.

Lemma foldl_put_nul es m fs i :
  foldl (put_nul es) m fs !! i =
  if decide ((i < length m)%nat ∧ Exists (λ f : span, i = (es - f.2)%nat) fs) then Some 0 else m !! i.
Proof.
  revert m. induction fs as [|f fs IH]; intros m; simpl.
  - rewrite decide_False; [done|]. rewrite Exists_nil. tauto.
  - rewrite IH. assert (Hl : length (put_nul es m f) = length m) by apply length_insert.
    destruct (decide ((i < length m)%nat ∧ Exists (λ f : span, i = (es - f.2)%nat) (f :: fs))) as [[Hlt He]|Hn].
    + case_decide as Hd; [done|]. apply Exists_cons in He as [->|He]; [by apply list_lookup_insert_eq|].
      exfalso. apply Hd. by rewrite Hl.
    + case_decide as Hd.
      { exfalso. apply Hn. rewrite Hl in Hd. destruct Hd. split; [done|by right]. }
      unfold put_nul. destruct (decide (i = (es - f.2)%nat)) as [->|]; [|by rewrite list_lookup_insert_ne].
      destruct (decide ((es - f.2 < length m)%nat)); [exfalso; apply Hn; split; [done|by left]|].
      by rewrite list_insert_ge by lia.
Qed.

Lemma cstring_prefix (l w : list Z) :
  Forall (λ c, c ≠ 0) w → (∀ j c, w !! j = Some c → l !! j = Some c) → l !! length w = Some 0 → cstring l = w.
Proof.
  intros Hw. revert l. induction Hw as [|c w Hc _ IH]; intros l Hl H0.
  - destruct l as [|a l]; [done|]. simpl in *. by injection H0 as ->.
  - destruct l as [|a l]; [done|]. pose proof (Hl 0%nat c eq_refl) as Ha. injection Ha as ->. simpl.
    rewrite (proj2 (Z.eqb_neq c 0) Hc). f_equal. apply IH; [|done]. intros j x Hj. by apply (Hl (S j)).
Qed.

(** The character at the end of a good span is no word character. *)
Lemma good_end buf f i c :
  good buf f → i = (length buf - f.2)%nat → (buf ++ [0]) !! i = Some c → i = length buf ∨ wordc c = false.
Proof.
  intros (w & post & [pre ->] & -> & _ & He) ->. simpl. rewrite !length_app.
  replace (length pre + (length w + length post) - length post)%nat with (length (pre ++ w)) by (rewrite length_app; lia).
  rewrite app_assoc, <-(app_assoc _ post), lookup_app_r, Nat.sub_diag by lia. rewrite length_app.
  destruct post as [|d post]; simpl; [left; lia|]. intros [= <-]. by right.
Qed.

(** After the NULs of all spans, the string at the start of each is its text. *)
Lemma nul_read buf fs f :
  Forall (λ c, c ≠ 0) buf → Forall (good buf) fs → f ∈ fs →
  read_str (length buf) (foldl (put_nul (length buf)) (buf ++ [0]) fs) f = text buf f.
Proof.
  intros Hnz Hfs Hf. pose proof (proj1 (Forall_forall _ _) Hfs f Hf) as (w & post & [pre ->] & -> & Hw & He).
  set (buf := pre ++ w ++ post) in *.
  assert (Hlen : (length buf = length pre + length w + length post)%nat) by (unfold buf; rewrite !length_app; lia).
  unfold read_str, text. simpl. rewrite !length_app.
  replace (length buf - (length w + length post))%nat with (length pre) by lia.
  replace (length w + length post - length post)%nat with (length w) by lia.
  assert (Ht : take (length w) (drop (length pre) buf) = w).
  { unfold buf. by rewrite drop_app_length, take_app_length. }
  rewrite Ht. apply cstring_prefix.
  - unfold buf in Hnz. apply Forall_app in Hnz as [_ Hnz]. by apply Forall_app in Hnz as [? _].
  - intros j c Hj. rewrite lookup_drop, foldl_put_nul. pose proof (lookup_lt_Some _ _ _ Hj) as Hlt.
    assert (Hc : (buf ++ [0]) !! (length pre + j)%nat = Some c).
    { apply lookup_app_l_Some. unfold buf. rewrite lookup_app_r by lia. replace (length pre + j - length pre)%nat with j by lia.
      by apply lookup_app_l_Some. }
    rewrite decide_False; [done|]. intros [_ (g & Hg & Hi)%Exists_exists].
    assert (Hgood : good buf g) by exact (proj1 (Forall_forall _ _) Hfs g Hg).
    destruct (good_end buf g _ c Hgood Hi Hc) as [?|Hno]; [lia|].
    pose proof (proj1 (Forall_lookup _ _) Hw j c Hj) as Hyes. simpl in Hyes. congruence.
  - rewrite lookup_drop, foldl_put_nul, decide_True; [done|]. rewrite length_app. simpl. split; [lia|].
    apply Exists_exists. eexists. split; [exact Hf|]. simpl. lia.
Qed.

Lemma parsecmd_ends buf :
  Forall (λ c, c ≠ 0) buf →
  ends (λ r, Forall (good buf) (spans r.1) ∧ resolve (read_str (length buf) r.2) r.1 = resolve (text buf) r.1) (parsecmd buf).
Proof.
  intros Hnz. unfold parsecmd. eapply ends_bind; [apply (proj1 (parse_ends buf _)); [done|unfold parse_fuel; lia]|].
  intros [c s] [_ Hc]. destruct (peek s []) as [b s2]. destruct s2; [|done]. simpl in *. split; [done|].
  rewrite nulterminate_spans. apply resolve_ext, Forall_forall. intros f Hf. by apply nul_read.
Qed.

(** C30: the parser of the shell stops on every line: it returns a command or exits
    with one of its messages.  In a command it returns, every argument and file
    name is a run of word characters of the line that no word character follows,
    and, once the NULs are written over the line, the C string at its start is
    exactly that run. *)
Theorem parsecmd_terminates buf :
  Forall (λ c, c ≠ 0) buf →
  match parsecmd buf with
  | Ret (c, m) => Forall (good buf) (spans c) ∧ resolve (read_str (length buf) m) c = resolve (text buf) c
  | Panic _ => True
  | _ => False
  end.
Proof. intros H. pose proof (parsecmd_ends buf H) as E. destruct (parsecmd buf) as [[c m]| | | |]; exact E. Qed.

(** The line [ls>out;(a|b)&]. *)
Definition sample_line : list Z := [108; 115; 62; 111; 117; 116; 59; 40; 97; 124; 98; 41; 38].
Lemma parsecmd_terminates_witness :
  match parsecmd sample_line with
  | Ret (c, m) => resolve (read_str 13 m) c =
                  TList (TRedir (TExec [[108; 115]]) [111; 117; 116] 513 1) (TBack (TPipe (TExec [[97]]) (TExec [[98]])))
  | _ => False
  end.
Proof.
  pose proof (parsecmd_terminates sample_line) as H.
  assert (Hr : match parsecmd sample_line with Ret (c, _) => resolve (text sample_line) c =
                  TList (TRedir (TExec [[108; 115]]) [111; 117; 116] 513 1) (TBack (TPipe (TExec [[97]]) (TExec [[98]]))) | _ => False end)
    by (vm_compute; reflexivity).
  destruct (parsecmd sample_line) as [[c m]| | | |]; [|exact Hr..].
  rewrite <-Hr. apply H. repeat constructor; discriminate.
Defined.

(** ** Command lines as text *)

(** The grammar of command lines, with the words in place. *)
Inductive rkind := RIn | ROut | RAppend.
Definition tredir : Type := rkind * list Z.
Inductive item := IWord (w : list Z) | IRedir (r : tredir).

Inductive line :=
| LEnd (p : pipeline) (amps : nat)
| LSeq (p : pipeline) (amps : nat) (l : line)
with pipeline :=
| POne (e : element)
| PBar (e : element) (p : pipeline)
with element :=
| ESimple (items : list item)
| EBlock (l : line) (rs : list tredir).

Scheme line_mut := Induction for line Sort Prop
with pipeline_mut := Induction for pipeline Sort Prop
with element_mut := Induction for element Sort Prop.
Combined Scheme syntax_ind from line_mut, pipeline_mut, element_mut.

(** How a line is written: each token followed by a space. *)
Definition op (k : rkind) : list Z := match k with RIn => [LT] | ROut => [GT] | RAppend => [GT; GT] end.
Definition pr_redir (r : tredir) : list Z := op r.1 ++ 32 :: r.2 ++ [32].
Definition pr_item (i : item) : list Z := match i with IWord w => w ++ [32] | IRedir r => pr_redir r end.
Definition pr_amps (n : nat) : list Z := concat (replicate n [AMP; 32]).

Fixpoint pr_line (l : line) : list Z :=
  match l with
  | LEnd p n => pr_pipe p ++ pr_amps n
  | LSeq p n l => pr_pipe p ++ pr_amps n ++ [SEMI; 32] ++ pr_line l
  end
with pr_pipe (p : pipeline) : list Z :=
  match p with
  | POne e => pr_elem e
  | PBar e p => pr_elem e ++ [BAR; 32] ++ pr_pipe p
  end
with pr_elem (e : element) : list Z :=
  match e with
  | ESimple items => concat (pr_item <$> items)
  | EBlock l rs => [OPEN; 32] ++ pr_line l ++ [CLOSE; 32] ++ concat (pr_redir <$> rs)
  end.

(** What it means. *)
Definition t_redir (c : tcmd) (r : tredir) : tcmd :=
  match r.1 with
  | RIn => TRedir c r.2 O_RDONLY 0
  | ROut | RAppend => TRedir c r.2 (Z.lor O_WRONLY O_CREATE) 1
  end.
Definition item_words (items : list item) : list (list Z) := omap (λ i, match i with IWord w => Some w | _ => None end) items.
Definition item_redirs (items : list item) : list tredir := omap (λ i, match i with IRedir r => Some r | _ => None end) items.

Fixpoint t_line (l : line) : tcmd :=
  match l with
  | LEnd p n => Nat.iter n TBack (t_pipe p)
  | LSeq p n l => TList (Nat.iter n TBack (t_pipe p)) (t_line l)
  end
with t_pipe (p : pipeline) : tcmd :=
  match p with
  | POne e => t_elem e
  | PBar e p => TPipe (t_elem e) (t_pipe p)
  end
with t_elem (e : element) : tcmd :=
  match e with
  | ESimple items => foldl t_redir (TExec (item_words items)) (item_redirs items)
  | EBlock l rs => foldl t_redir (t_line l) rs
  end.

(** Words are runs of word characters, and a command has fewer than [MAXARGS]. *)
Definition is_word (w : list Z) : Prop := w ≠ [] ∧ Forall (λ c, wordc c = true ∧ c ≠ 0) w.
Definition ok_item (i : item) : Prop := match i with IWord w => is_word w | IRedir r => is_word r.2 end.

Fixpoint ok_line (l : line) : Prop :=
  match l with
  | LEnd p n => ok_pipe p
  | LSeq p n l => ok_pipe p ∧ ok_line l
  end
with ok_pipe (p : pipeline) : Prop :=
  match p with
  | POne e => ok_elem e
  | PBar e p => ok_elem e ∧ ok_pipe p
  end
with ok_elem (e : element) : Prop :=
  match e with
  | ESimple items => Forall ok_item items ∧ (length (item_words items) < MAXARGS)%nat
  | EBlock l rs => ok_line l ∧ Forall (λ r, is_word r.2) rs
  end.

(** ** Parsing what was written *)

(** The text starts with a token whose first character is in [P]. *)
Definition starts (P : Z → Prop) (s : list Z) : Prop :=
  match s with [] => True | c :: _ => strchr whitespace c = false ∧ P c end.
Definition in_toks (toks : list Z) (c : Z) : Prop := strchr toks c = true.
Definition not_toks (toks : list Z) (c : Z) : Prop := strchr toks c = false.

Lemma starts_impl (P Q : Z → Prop) s : (∀ c, P c → Q c) → starts P s → starts Q s.
Proof. destruct s; simpl; naive_solver. Qed.

Lemma skip_ws_starts P s : starts P s → skip_ws s = s.
Proof. destruct s; simpl; [done|]. by intros [-> _]. Qed.

Lemma peek_no toks s : starts (not_toks toks) s → peek s toks = (false, s).
Proof. intros H. unfold peek. rewrite (skip_ws_starts _ _ H). destruct s; [done|]. by destruct H as [_ ->]. Qed.

Lemma peek_yes toks c s : strchr whitespace c = false → strchr toks c = true → peek (c :: s) toks = (true, c :: s).
Proof. intros Hw Ht. unfold peek. simpl. by rewrite Hw, Ht. Qed.

(** A finite check on characters given by membership in a list. *)
Lemma strchr_In l c : strchr l c = true ↔ c ∈ l.
Proof.
  unfold strchr. rewrite existsb_exists. split.
  - intros (x & Hx & ->%Z.eqb_eq). by apply list_elem_of_In.
  - intros Hc. exists c. split; [by apply list_elem_of_In|apply Z.eqb_refl].
Qed.

Lemma gettoken_sym c P s :
  c ∈ [BAR; OPEN; CLOSE; SEMI; AMP; LT] → starts P s → gettoken (c :: 32 :: s) = (c, c :: 32 :: s, 32 :: s, s).
Proof.
  intros Hc Hs. assert (Hw : strchr whitespace c = false).
  { rewrite !elem_of_cons, elem_of_nil in Hc. by destruct Hc as [->|[->|[->|[->|[->|[->|[]]]]]]]. }
  unfold gettoken. simpl. rewrite Hw, (proj2 (strchr_In _ c) Hc). simpl. by rewrite (skip_ws_starts _ _ Hs).
Qed.

Lemma wordc_inv c : wordc c = true → strchr whitespace c = false ∧ strchr symbols c = false.
Proof. unfold wordc. by rewrite andb_true_iff, !negb_true_iff. Qed.

Lemma symbols_not c toks : strchr symbols c = false → Forall (λ x, x ∈ symbols) toks → strchr toks c = false.
Proof.
  intros Hc Ht. apply not_true_iff_false. intros Hin%strchr_In. apply not_true_iff_false in Hc. apply Hc, strchr_In.
  by apply (proj1 (Forall_forall _ _) Ht).
Qed.

Lemma skip_word_word w s : Forall (λ c, wordc c = true ∧ c ≠ 0) w → skip_word (w ++ 32 :: s) = 32 :: s.
Proof. induction 1 as [|c w [Hc _] _ IH]; [done|]. simpl. fold (wordc c). by rewrite Hc. Qed.

Lemma gettoken_word w P s : is_word w → starts P s → gettoken (w ++ 32 :: s) = (WORD, w ++ 32 :: s, 32 :: s, s).
Proof.
  intros [Hne Hw] Hs. destruct w as [|c w]; [done|]. pose proof (skip_word_word _ s Hw) as Hsk.
  apply Forall_cons in Hw as [[Hc _] _]. apply wordc_inv in Hc as [H1 H2]. unfold gettoken.
  rewrite (skip_ws_starts (λ _, True)) by done. simpl app. cbv iota beta.
  rewrite (symbols_not c [BAR; OPEN; CLOSE; SEMI; AMP; LT]) by (done || (repeat constructor; rewrite !elem_of_cons; tauto)).
  destruct (Z.eqb_spec c GT) as [->|_]; [done|]. rewrite (Hsk : skip_word (c :: w ++ 32 :: s) = _). simpl. by rewrite (skip_ws_starts _ _ Hs).
Qed.

Lemma starts_word w s P : is_word w → (∀ c, wordc c = true → P c) → starts P (w ++ s).
Proof.
  intros [Hne Hw] HP. destruct w as [|c w]; [done|]. apply Forall_cons in Hw as [[Hc _] _]. simpl.
  split; [exact (proj1 (wordc_inv c Hc))|auto].
Qed.

Lemma text_word buf w s : (w ++ 32 :: s) `suffix_of` buf → text buf (length (w ++ 32 :: s), length (32 :: s)) = w.
Proof.
  intros [pre ->]. unfold text. cbn [fst snd]. rewrite (length_app pre), Nat.add_sub, drop_app_length.
  by rewrite length_app, Nat.add_sub, take_app_length.
Qed.

(** ** Redirections and arguments *)

Definition redir_rep (buf : list Z) (r : redir) (t : tredir) : Prop :=
  text buf r.1.1 = t.2 ∧ (r.1.2, r.2) = match t.1 with RIn => (O_RDONLY, 0) | _ => (Z.lor O_WRONLY O_CREATE, 1) end.

Lemma resolve_redirs buf c rs ts :
  Forall2 (redir_rep buf) rs ts → resolve (text buf) (foldl redircmd c rs) = foldl t_redir (resolve (text buf) c) ts.
Proof.
  intros H. revert c. induction H as [|r t rs ts [Ht Hm] _ IH]; intros c; [done|]. simpl. rewrite IH. f_equal. simpl.
  unfold t_redir. rewrite Ht. destruct t as [[| |] w]; simpl in *; by injection Hm as -> ->.
Qed.

Lemma pr_redir_app kd w s : pr_redir (kd, w) ++ s = op kd ++ 32 :: w ++ 32 :: s.
Proof. unfold pr_redir. simpl. rewrite <-!app_assoc. simpl. by rewrite <-!app_assoc. Qed.

Section written.
  Context (buf : list Z).

Lemma parseredirs_written ts : ∀ k s acc,
  Forall (λ r, is_word r.2) ts → (concat (pr_redir <$> ts) ++ s) `suffix_of` buf →
  (length (concat (pr_redir <$> ts) ++ s) < k)%nat → starts (not_toks [LT; GT]) s →
  ∃ rs, parseredirs_loop k (concat (pr_redir <$> ts) ++ s) acc = Ret (acc ++ rs, s) ∧ Forall2 (redir_rep buf) rs ts.
Proof.
  induction ts as [|[kd w] ts IH]; intros k s acc Hok Hsuf Hk Hs; (destruct k as [|k]; [simpl in Hk; lia|]).
  { change (concat (pr_redir <$> []) ++ s) with s. cbn [parseredirs_loop]. rewrite peek_no by done. exists []. by rewrite app_nil_r. }
  rewrite fmap_cons in *. simpl concat in *. rewrite <-app_assoc, pr_redir_app in *.
  set (rest := concat (pr_redir <$> ts) ++ s) in *. apply Forall_cons in Hok as [Hw Hok]. simpl in Hw.
  assert (Hrest : starts (λ _, True) rest).
  { unfold rest. destruct ts as [|[[| |] w'] ts]; simpl; try done. eapply starts_impl; [|exact Hs]. done. }
  assert (Hword : starts (λ _, True) (w ++ 32 :: rest)) by (by apply starts_word).
  assert (Hsuf2 : (w ++ 32 :: rest) `suffix_of` buf).
  { etrans; [|exact Hsuf]. apply suffix_app_r. apply suffix_cons_r. done. }
  assert (Hsuf3 : rest `suffix_of` buf).
  { etrans; [|exact Hsuf2]. apply suffix_app_r. apply suffix_cons_r. done. }
  assert (Hk' : (length rest < k)%nat) by (rewrite !length_app in Hk; simpl in Hk; rewrite length_app in Hk; simpl in Hk; lia).
  set (md := match kd with RIn => (O_RDONLY, 0) | _ => (Z.lor O_WRONLY O_CREATE, 1) end).
  set (f := (length (w ++ 32 :: rest), length (32 :: rest))).
  destruct (IH k s (acc ++ [(f, md.1, md.2)]) Hok Hsuf3 Hk' Hs) as (rs & Hrun & Hrep).
  rewrite <-app_assoc in Hrun. exists ((f, md.1, md.2) :: rs). split.
  - cbn [parseredirs_loop]. destruct kd; cbn [op app] in *.
    + rewrite (peek_yes [LT; GT] LT) by done. rewrite (gettoken_sym LT _ _ ltac:(rewrite !elem_of_cons; tauto) Hword).
      rewrite (gettoken_word w _ rest Hw Hrest). exact Hrun.
    + rewrite (peek_yes [LT; GT] GT) by done.
      assert (Hg : gettoken (GT :: 32 :: w ++ 32 :: rest) = (GT, GT :: 32 :: w ++ 32 :: rest, 32 :: w ++ 32 :: rest, w ++ 32 :: rest)).
      { unfold gettoken. simpl. by rewrite (skip_ws_starts _ _ Hword). }
      rewrite Hg, (gettoken_word w _ rest Hw Hrest). exact Hrun.
    + rewrite (peek_yes [LT; GT] GT) by done.
      assert (Hg : gettoken (GT :: GT :: 32 :: w ++ 32 :: rest) = (PLUS, GT :: GT :: 32 :: w ++ 32 :: rest, 32 :: w ++ 32 :: rest, w ++ 32 :: rest)).
      { unfold gettoken. simpl. by rewrite (skip_ws_starts _ _ Hword). }
      rewrite Hg, (gettoken_word w _ rest Hw Hrest). exact Hrun.
  - constructor; [|done]. split; [by apply text_word|by destruct kd].
Qed.

Definition FOLLOW : list Z := [BAR; CLOSE; AMP; SEMI].

Lemma toks_apart l l' c : Forall (λ x, strchr l' x = false) l → in_toks l c → not_toks l' c.
Proof. intros H Hc%strchr_In. exact (proj1 (Forall_forall _ _) H c Hc). Qed.

Lemma starts_apart l l' s : Forall (λ x, strchr l' x = false) l → starts (in_toks l) s → starts (not_toks l') s.
Proof. intros H. apply starts_impl. intros c. by apply toks_apart. Qed.

Lemma wordc_not l c : Forall (λ x, x ∈ symbols) l → wordc c = true → not_toks l c.
Proof. intros Hl [_ H]%wordc_inv. by apply symbols_not. Qed.

(** Items up to the first word. *)
Lemma items_split items :
  ∃ ts rest, items = (IRedir <$> ts) ++ rest ∧ (rest = [] ∨ ∃ w r, rest = IWord w :: r).
Proof.
  induction items as [|[w|r] items (ts & rest & Hit & H)]; [exists [], []; auto|exists [], (IWord w :: items); eauto|].
  exists (r :: ts), rest. by rewrite Hit.
Qed.

Lemma item_words_redirs ts rest : item_words ((IRedir <$> ts) ++ rest) = item_words rest.
Proof. induction ts; simpl; done. Qed.
Lemma item_redirs_redirs ts rest : item_redirs ((IRedir <$> ts) ++ rest) = ts ++ item_redirs rest.
Proof. induction ts as [|t ts IH]; simpl; [done|]. by f_equal. Qed.
Lemma pr_items_redirs ts rest : concat (pr_item <$> ((IRedir <$> ts) ++ rest)) = concat (pr_redir <$> ts) ++ concat (pr_item <$> rest).
Proof. induction ts as [|t ts IH]; [done|]. simpl. rewrite <-app_assoc. f_equal. exact IH. Qed.

Lemma starts_items items s l :
  Forall ok_item items → Forall (λ x, x ∈ symbols) l → Forall (λ x, strchr l x = false) (LT :: GT :: FOLLOW) →
  starts (in_toks FOLLOW) s → starts (not_toks l) (concat (pr_item <$> items) ++ s).
Proof.
  intros Hok Hl Hap Hs. apply Forall_cons in Hap as [Hlt Hap]. apply Forall_cons in Hap as [Hgt Hap].
  destruct items as [|[w|[[| |] w]] items]; [by eapply starts_apart|..]; apply Forall_cons in Hok as [Hw _]; simpl; try done.
  rewrite <-!app_assoc. apply starts_word; [done|]. intros c. by apply wordc_not.
Qed.

(** The redirections in front of a word or of the end. *)
Lemma redirs_then ts rest s acc :
  Forall ok_item ((IRedir <$> ts) ++ rest) → (rest = [] ∨ ∃ w r, rest = IWord w :: r) → starts (in_toks FOLLOW) s →
  (concat (pr_item <$> ((IRedir <$> ts) ++ rest)) ++ s) `suffix_of` buf →
  ∃ rs, parseredirs (concat (pr_item <$> ((IRedir <$> ts) ++ rest)) ++ s) acc = Ret (acc ++ rs, concat (pr_item <$> rest) ++ s) ∧
        Forall2 (redir_rep buf) rs ts.
Proof.
  intros Hok Hrest Hs Hsuf. unfold parseredirs. rewrite pr_items_redirs, <-app_assoc in *.
  apply Forall_app in Hok as [Hts Hrs]. apply parseredirs_written; [|done|lia|].
  - clear -Hts. induction ts as [|t ts IH]; [constructor|]. apply Forall_cons in Hts as [? ?]. constructor; auto.
  - destruct Hrest as [->|(w & r & ->)]; [apply (starts_apart FOLLOW); [by repeat constructor|done]|].
    apply Forall_cons in Hrs as [Hw _]. simpl. rewrite <-!app_assoc. apply starts_word; [done|]. intros c. apply wordc_not.
    repeat constructor; rewrite !elem_of_cons; tauto.
Qed.

Lemma parseargs_written k : ∀ items s argv rs,
  Forall ok_item items → (items = [] ∨ ∃ w r, items = IWord w :: r) → (length argv + length (item_words items) < MAXARGS)%nat →
  (concat (pr_item <$> items) ++ s) `suffix_of` buf → (length (concat (pr_item <$> items) ++ s) < k)%nat →
  starts (in_toks FOLLOW) s →
  ∃ av rv, parseargs k (concat (pr_item <$> items) ++ s) argv rs = Ret (argv ++ av, rs ++ rv, s) ∧
           text buf <$> av = item_words items ∧ Forall2 (redir_rep buf) rv (item_redirs items).
Proof.
  induction k as [|k IH]; intros items s argv rs Hok Hform Hargs Hsuf Hk Hs; [lia|]. cbn [parseargs]. fold FOLLOW.
  destruct Hform as [->|(w & items' & ->)].
  { exists [], []. rewrite !app_nil_r. change (concat (pr_item <$> []) ++ s) with s. split; [|done].
    destruct s as [|c s]; [done|]. destruct Hs as [Hw Hc]. by rewrite (peek_yes FOLLOW c s Hw Hc). }
  apply Forall_cons in Hok as [Hw Hok]. simpl in Hw.
  destruct (items_split items') as (ts & rest & -> & Hform).
  set (tail := concat (pr_item <$> ((IRedir <$> ts) ++ rest)) ++ s) in *.
  assert (Happ : concat (pr_item <$> (IWord w :: (IRedir <$> ts) ++ rest)) ++ s = w ++ 32 :: tail).
  { unfold tail. simpl. by rewrite <-!app_assoc. }
  rewrite Happ in *. rewrite (peek_no FOLLOW).
  2: { apply starts_word; [done|]. intros c. apply wordc_not. repeat constructor; rewrite !elem_of_cons; tauto. }
  assert (Htail : starts (λ _, True) tail).
  { eapply starts_impl; [|apply (starts_items _ s [OPEN]); [exact Hok|..|exact Hs]]; [done|..|by repeat constructor].
    repeat constructor; rewrite !elem_of_cons; tauto. }
  rewrite (gettoken_word w _ tail Hw Htail). cbn [Z.eqb]. change (Z.eqb WORD 0) with false. change (negb (Z.eqb WORD WORD)) with false. cbv iota.
  simpl item_words in Hargs. rewrite item_words_redirs in Hargs. simpl length in Hargs.
  set (f := (length (w ++ 32 :: tail), length (32 :: tail))).
  rewrite (proj2 (Nat.leb_gt _ _)) by (rewrite length_app; simpl; lia).
  assert (Hst : tail `suffix_of` buf) by (etrans; [|exact Hsuf]; apply suffix_app_r; by apply suffix_cons_r).
  destruct (redirs_then ts rest s rs Hok Hform Hs Hst) as (r1 & Hrun & Hrep). fold tail in Hrun. rewrite Hrun. cbn [obind].
  apply Forall_app in Hok as [_ Hrest]. unfold tail in Hst, Hk. rewrite pr_items_redirs, <-app_assoc in Hst, Hk.
  destruct (IH rest s (argv ++ [f]) (rs ++ r1) Hrest Hform) as (av & rv & Hrun2 & Hav & Hrv).
  - rewrite length_app. simpl. lia.
  - etrans; [|exact Hst]. by apply suffix_app_r.
  - rewrite !length_app in *. simpl in Hk. rewrite !length_app in Hk. lia.
  - done.
  - exists (f :: av), (r1 ++ rv). rewrite Hrun2, <-!app_assoc. split; [done|]. rewrite fmap_cons, Hav. split.
    + simpl. rewrite item_words_redirs. f_equal. by apply text_word.
    + simpl. rewrite item_redirs_redirs. by apply Forall2_app.
Qed.

Lemma parseback_written n : ∀ k s c,
  (length (pr_amps n ++ s) < k)%nat → starts (not_toks [AMP]) s →
  parseback k (pr_amps n ++ s) c = Ret (Nat.iter n BACK c, s).
Proof.
  induction n as [|n IH]; intros k s c Hk Hs; (destruct k as [|k]; [simpl in Hk; lia|]).
  { change (pr_amps 0 ++ s) with s. cbn [parseback]. by rewrite peek_no. }
  change (pr_amps (S n) ++ s) with (AMP :: 32 :: pr_amps n ++ s) in *. cbn [parseback].
  rewrite (peek_yes [AMP] AMP) by done.
  assert (Hst : starts (λ _, True) (pr_amps n ++ s)).
  { destruct n; [|done]. eapply starts_impl; [|exact Hs]. done. }
  rewrite (gettoken_sym AMP _ _ ltac:(rewrite !elem_of_cons; tauto) Hst). rewrite IH; [|simpl in Hk; lia|done].
  f_equal. f_equal. clear. induction n as [|n IH]; [done|]. simpl. by rewrite IH.
Qed.

Definition any (c : Z) : Prop := True.

Lemma starts_amps n s : starts any s → starts any (pr_amps n ++ s).
Proof. by destruct n. Qed.

Lemma starts_written :
  (∀ l s, ok_line l → starts (in_toks FOLLOW) s → starts any (pr_line l ++ s)) ∧
  (∀ p s, ok_pipe p → starts (in_toks FOLLOW) s → starts any (pr_pipe p ++ s)) ∧
  (∀ e s, ok_elem e → starts (in_toks FOLLOW) s → starts any (pr_elem e ++ s)).
Proof.
  apply syntax_ind; simpl.
  - intros p IH n s Hok Hs. rewrite <-app_assoc. apply IH; [done|]. by destruct n.
  - intros p IH n l _ s [Hok _] Hs. rewrite <-app_assoc. apply IH; [done|]. by destruct n.
  - intros e IH s Hok Hs. by apply IH.
  - intros e IH p _ s [Hok _] Hs. rewrite <-app_assoc. by apply IH.
  - intros items s [Hok _] Hs. eapply starts_impl; [|apply (starts_items items s [OPEN]); [done|..|done]]; [done| |by repeat constructor].
    repeat constructor; rewrite !elem_of_cons; tauto.
  - done.
Qed.

Lemma follow_any l s : Forall (λ x, x ∈ FOLLOW) l → starts (in_toks l) s → starts (in_toks FOLLOW) s.
Proof.
  intros Hl. apply starts_impl. intros c Hc%strchr_In. apply strchr_In. exact (proj1 (Forall_forall _ _) Hl c Hc).
Qed.

Lemma iter_back n rd c : resolve rd (Nat.iter n BACK c) = Nat.iter n TBack (resolve rd c).
Proof. induction n as [|n IH]; [done|]. simpl. by rewrite IH. Qed.

Lemma simple_written items n s :
  ok_elem (ESimple items) → (pr_elem (ESimple items) ++ s) `suffix_of` buf → starts (in_toks FOLLOW) s →
  ∃ c, parseexec (S n) (pr_elem (ESimple items) ++ s) = Ret (c, s) ∧ resolve (text buf) c = t_elem (ESimple items).
Proof.
  intros [Hok Hnum] Hsuf Hs. cbn [pr_elem t_elem] in *. cbn [parseexec]. rewrite (peek_no [OPEN]).
  2: { apply starts_items; [done| |by repeat constructor|done]. repeat constructor; rewrite !elem_of_cons; tauto. }
  destruct (items_split items) as (ts & rest & -> & Hform).
  destruct (redirs_then ts rest s [] Hok Hform Hs Hsuf) as (r1 & Hrun & Hrep). rewrite Hrun. cbn [obind]. clear Hrun.
  rewrite pr_items_redirs, <-app_assoc in Hsuf. apply Forall_app in Hok as [_ Hrest]. rewrite item_words_redirs in *.
  destruct (parseargs_written (S (length (concat (pr_item <$> rest) ++ s))) rest s [] ([] ++ r1) Hrest Hform) as (av & rv & Hrun & Hav & Hrv);
    [done| |lia|done|].
  { etrans; [|exact Hsuf]. by apply suffix_app_r. }
  rewrite Hrun. cbn [obind fst snd]. eexists. split; [done|]. rewrite item_redirs_redirs, <-Hav.
  rewrite (resolve_redirs buf _ _ (ts ++ item_redirs rest)); [done|]. by apply Forall2_app.
Qed.

(** The redirections after a block. *)
Lemma block_redirs rs s acc :
  Forall (λ r, is_word r.2) rs → (concat (pr_redir <$> rs) ++ s) `suffix_of` buf → starts (in_toks FOLLOW) s →
  ∃ r, parseredirs (concat (pr_redir <$> rs) ++ s) acc = Ret (acc ++ r, s) ∧ Forall2 (redir_rep buf) r rs.
Proof.
  intros Hok Hsuf Hs. apply parseredirs_written; [done|done|lia|]. apply (starts_apart FOLLOW); [by repeat constructor|done].
Qed.

Lemma starts_redirs rs s : starts any s → starts any (concat (pr_redir <$> rs) ++ s).
Proof. by destruct rs as [|[[| |] w] rs]. Qed.

Lemma parse_written :
  (∀ l n s, ok_line l → (pr_line l ++ s) `suffix_of` buf → (4 * length (pr_line l ++ s) + 4 ≤ n)%nat → starts (in_toks [CLOSE]) s →
            ∃ c, parseline n (pr_line l ++ s) = Ret (c, s) ∧ resolve (text buf) c = t_line l) ∧
  (∀ p n s, ok_pipe p → (pr_pipe p ++ s) `suffix_of` buf → (4 * length (pr_pipe p ++ s) + 3 ≤ n)%nat → starts (in_toks [CLOSE; AMP; SEMI]) s →
            ∃ c, parsepipe n (pr_pipe p ++ s) = Ret (c, s) ∧ resolve (text buf) c = t_pipe p) ∧
  (∀ e n s, ok_elem e → (pr_elem e ++ s) `suffix_of` buf → (4 * length (pr_elem e ++ s) + 2 ≤ n)%nat → starts (in_toks FOLLOW) s →
            ∃ c, parseexec n (pr_elem e ++ s) = Ret (c, s) ∧ resolve (text buf) c = t_elem e).
Proof.
  destruct starts_written as (SL & SP & SE).
  apply syntax_ind.
  - intros p IH m n s Hok Hsuf Hn Hs. cbn [ok_line pr_line t_line] in *. rewrite <-app_assoc in *.
    destruct n as [|n]; [lia|]. cbn [parseline].
    destruct (IH n (pr_amps m ++ s) Hok Hsuf ltac:(lia)) as (c & Hc & Hr).
    { destruct m; [|done]. eapply starts_impl; [|exact Hs]. intros x Hx%strchr_In. apply strchr_In. by apply elem_of_cons; left; apply list_elem_of_singleton in Hx. }
    rewrite Hc. cbn [obind]. rewrite parseback_written; [|lia|by eapply (starts_apart [CLOSE]); [repeat constructor|]].
    cbn [obind]. rewrite (peek_no [SEMI]) by (by eapply (starts_apart [CLOSE]); [repeat constructor|]).
    eexists. split; [done|]. by rewrite iter_back, Hr.
  - intros p IH m l IHl n s [Hok Hokl] Hsuf Hn Hs. cbn [pr_line t_line] in *. rewrite <-!app_assoc in *.
    destruct n as [|n]; [lia|]. cbn [parseline]. simpl app in *.
    set (tail := pr_line l ++ s) in *.
    destruct (IH n (pr_amps m ++ SEMI :: 32 :: tail) Hok Hsuf ltac:(lia)) as (c & Hc & Hr); [by destruct m|].
    rewrite Hc. cbn [obind]. rewrite parseback_written; [|lia|done]. cbn [obind]. rewrite (peek_yes [SEMI] SEMI) by done.
    assert (Ht : starts any tail) by (apply SL; [done|]; by apply (follow_any [CLOSE]); [repeat constructor; rewrite !elem_of_cons; tauto|]).
    rewrite (gettoken_sym SEMI _ _ ltac:(rewrite !elem_of_cons; tauto) Ht).
    destruct (IHl n s Hokl) as (c' & Hc' & Hr').
    + etrans; [|exact Hsuf]. apply suffix_app_r, suffix_app_r. do 2 apply suffix_cons_r. done.
    + fold tail. rewrite !length_app in Hn. simpl in Hn. lia.
    + done.
    + fold tail in Hc'. rewrite Hc'. cbn [obind]. eexists. split; [done|]. simpl. by rewrite iter_back, Hr, Hr'.
  - intros e IH n s Hok Hsuf Hn Hs. cbn [ok_pipe pr_pipe t_pipe] in *. destruct n as [|n]; [lia|]. cbn [parsepipe].
    destruct (IH n s Hok Hsuf ltac:(lia)) as (c & Hc & Hr).
    { apply (follow_any [CLOSE; AMP; SEMI]); [|done]. repeat constructor; rewrite !elem_of_cons; tauto. }
    rewrite Hc. cbn [obind]. rewrite (peek_no [BAR]); [by exists c|]. by eapply (starts_apart [CLOSE; AMP; SEMI]); [repeat constructor|].
  - intros e IH p IHp n s [Hok Hokp] Hsuf Hn Hs. cbn [pr_pipe t_pipe] in *. rewrite <-!app_assoc in *.
    destruct n as [|n]; [lia|]. cbn [parsepipe]. simpl app in *. set (tail := pr_pipe p ++ s) in *.
    destruct (IH n (BAR :: 32 :: tail) Hok Hsuf ltac:(lia)) as (c & Hc & Hr); [done|].
    rewrite Hc. cbn [obind]. rewrite (peek_yes [BAR] BAR) by done.
    assert (Ht : starts any tail).
    { apply SP; [done|]. apply (follow_any [CLOSE; AMP; SEMI]); [|done]. repeat constructor; rewrite !elem_of_cons; tauto. }
    rewrite (gettoken_sym BAR _ _ ltac:(rewrite !elem_of_cons; tauto) Ht).
    destruct (IHp n s Hokp) as (c' & Hc' & Hr').
    + etrans; [|exact Hsuf]. apply suffix_app_r. do 2 apply suffix_cons_r. done.
    + fold tail. rewrite !length_app in Hn. simpl in Hn. lia.
    + done.
    + fold tail in Hc'. rewrite Hc'. cbn [obind]. eexists. split; [done|]. simpl. by rewrite Hr, Hr'.
  - intros items n s Hok Hsuf Hn Hs. destruct n as [|n]; [lia|]. by apply simple_written.
  - intros l IH rs n s [Hok Hrs] Hsuf Hn Hs. cbn [pr_elem t_elem] in *. rewrite <-!app_assoc in *. simpl app in *.
    set (tail := concat (pr_redir <$> rs) ++ s) in *. destruct n as [|[|n]]; [lia..|]. cbn [parseexec].
    rewrite (peek_yes [OPEN] OPEN) by done. cbn [parseblock]. rewrite (peek_yes [OPEN] OPEN) by done. cbn [negb].
    assert (Hl : starts any (pr_line l ++ CLOSE :: 32 :: tail)) by (by apply SL).
    rewrite (gettoken_sym OPEN _ _ ltac:(rewrite !elem_of_cons; tauto) Hl).
    assert (Hsuf2 : (pr_line l ++ CLOSE :: 32 :: tail) `suffix_of` buf) by (etrans; [|exact Hsuf]; do 2 apply suffix_cons_r; done).
    destruct (IH n (CLOSE :: 32 :: tail) Hok Hsuf2) as (c & Hc & Hr); [simpl in Hn; lia|done|].
    rewrite Hc. cbn [obind]. rewrite (peek_yes [CLOSE] CLOSE) by done. cbn [negb].
    assert (Ht : starts any tail) by (apply starts_redirs; eapply starts_impl; [|exact Hs]; done).
    rewrite (gettoken_sym CLOSE _ _ ltac:(rewrite !elem_of_cons; tauto) Ht).
    assert (Hst : tail `suffix_of` buf) by (etrans; [|exact Hsuf2]; apply suffix_app_r; do 2 apply suffix_cons_r; done).
    destruct (block_redirs rs s [] Hrs Hst Hs) as (r & Hrun & Hrep). fold tail in Hrun. rewrite Hrun. cbn [obind].
    eexists. split; [done|]. by rewrite (resolve_redirs buf _ _ rs), Hr.
Qed.
End written.

Definition nonzero (s : list Z) : Prop := Forall (λ c, c ≠ 0) s.

Lemma nonzero_word w : is_word w → nonzero (w ++ [32]).
Proof. intros [_ Hw]. apply Forall_app. split; [|by repeat constructor]. eapply Forall_impl; [exact Hw|]. naive_solver. Qed.

Lemma nonzero_redir r : is_word r.2 → nonzero (pr_redir r).
Proof.
  destruct r as [kd w]. intros Hw. unfold pr_redir. simpl. apply Forall_app. split; [destruct kd; by repeat constructor|].
  constructor; [done|]. by apply nonzero_word.
Qed.

Lemma nonzero_concat (l : list (list Z)) : Forall nonzero l → nonzero (concat l).
Proof. induction 1; simpl; [constructor|]. by apply Forall_app. Qed.

Lemma nonzero_written :
  (∀ l, ok_line l → nonzero (pr_line l)) ∧ (∀ p, ok_pipe p → nonzero (pr_pipe p)) ∧ (∀ e, ok_elem e → nonzero (pr_elem e)).
Proof.
  assert (Ha : ∀ n, nonzero (pr_amps n)).
  { intros n. apply nonzero_concat. apply Forall_replicate. by repeat constructor. }
  assert (Hr : ∀ rs : list tredir, Forall (λ r, is_word r.2) rs → nonzero (concat (pr_redir <$> rs))).
  { intros rs H. apply nonzero_concat, Forall_fmap. eapply Forall_impl; [exact H|]. intros r. apply nonzero_redir. }
  apply syntax_ind; simpl.
  - intros p IH n Hok. apply Forall_app. split; [by apply IH|apply Ha].
  - intros p IH n l IHl [Hok Hl]. repeat (apply Forall_app; split); [by apply IH|apply Ha|]. repeat (constructor; [done|]). by apply IHl.
  - done.
  - intros e IH p IHp [Hok Hp]. apply Forall_app. split; [by apply IH|]. repeat (constructor; [done|]). by apply IHp.
  - intros items [Hok _]. apply nonzero_concat, Forall_fmap. eapply Forall_impl; [exact Hok|].
    intros [w|r] Hi; [by apply nonzero_word|by apply nonzero_redir].
  - intros l IH rs [Hok Hrs]. repeat (constructor; [done|]). apply Forall_app. split; [by apply IH|].
    repeat (constructor; [done|]). by apply Hr.
Qed.

(** The parser inverts the printer. *)
Lemma parsecmd_written l :
  ok_line l →
  ∃ c m, parsecmd (pr_line l) = Ret (c, m) ∧ resolve (read_str (length (pr_line l)) m) c = t_line l.
Proof.
  intros Hok. pose proof (parsecmd_ends (pr_line l) (proj1 nonzero_written l Hok)) as He.
  destruct (proj1 (parse_written (pr_line l)) l (parse_fuel (pr_line l)) [] Hok) as (c & Hc & Hr).
  - by rewrite app_nil_r.
  - rewrite app_nil_r. unfold parse_fuel. lia.
  - done.
  - rewrite app_nil_r in Hc. unfold parsecmd in *. rewrite Hc in *. cbn [obind] in *. change (peek [] []) with (false, @nil Z) in *.
    eexists c, _. split; [done|]. destruct He as [_ He]. simpl in He. by rewrite He.
Qed.

(** C29: what is written is what is parsed: a command line written from its
    grammar is accepted, and the command that [parsecmd] returns for it, its
    strings read from the NUL-terminated line, is the meaning of that line:
    pipelines bind tighter than [&] and [;], redirections apply in order around
    a command or a block, and words are its arguments. *)
Theorem parse_print l :
  ok_line l →
  ∃ c m, parsecmd (pr_line l) = Ret (c, m) ∧ resolve (read_str (length (pr_line l)) m) c = t_line l.
Proof. apply parsecmd_written. Qed.

(** cat < in | ( wc ; ls ) > out & *)
Definition sample_syntax : line :=
  LEnd (PBar (ESimple [IWord [99; 97; 116]; IRedir (RIn, [105; 110])])
       (POne (EBlock (LSeq (POne (ESimple [IWord [119; 99]])) 0 (LEnd (POne (ESimple [IWord [108; 115]])) 0))
                     [(ROut, [111; 117; 116])]))) 1.

Lemma parse_print_witness :
  ∃ c m, parsecmd (pr_line sample_syntax) = Ret (c, m) ∧
         resolve (read_str (length (pr_line sample_syntax)) m) c =
         TBack (TPipe (TRedir (TExec [[99; 97; 116]]) [105; 110] 0 0)
                      (TRedir (TList (TExec [[119; 99]]) (TExec [[108; 115]])) [111; 117; 116] 513 1)).
Proof.
  apply (parse_print sample_syntax). simpl.
  repeat match goal with
  | |- _ ∧ _ => split
  | |- Forall _ _ => constructor
  | |- is_word _ => unfold is_word
  end; simpl; unfold MAXARGS, is_word; try lia; try discriminate; try reflexivity; repeat constructor; discriminate.
Defined.
