(* ===== verification/Console.v ===== *)
(** * The console (console.c)

    The line discipline of the input ring and the CGA screen: keystrokes edit a
    line, finished lines are read, output is echoed to the serial port and to
    the screen.  The line discipline refines a pair of byte lists. *)
From stdpp Require Import base list strings.
From Stdlib Require Import ZArith Lia.
From S2P Require Import Prelude.

Definition INPUT_BUF : Z := 128.
Definition BACKSPACE : Z := 0x100.
Definition NL : Z := 10.
Definition CR : Z := 13.
Definition DEL : Z := 127.
(** [C(x)], Control-x. *)
Definition CTRL (x : Z) : Z := x - 64.

(** [struct input], whether a process sleeps on [&input.r], the bytes sent to the
    serial port, the memory of the screen and its cursor register. *)
Record con := mkCon { ibuf : list Z; ir : Z; iw : Z; ie : Z; asleep : bool; uart : list Z; crt : Z → Z; crtpos : Z }.

(** The static [input] is zero; the screen and the cursor are as the firmware left them. *)
Definition con0 (junk : list Z) (screen : Z → Z) (pos : Z) : con := mkCon junk 0 0 0 false [] screen pos.

(** ** Output *)

Definition cgaputc (s : con) (c : Z) : outcome con :=
  let pos := crtpos s in
  let '(pos, crt1) :=
    if Z.eqb c NL then (pos + (80 - pos mod 80), crt s)
    else if Z.eqb c BACKSPACE then (if Z.gtb pos 0 then pos - 1 else pos, crt s)
    else (pos + 1, upd (crt s) pos (Z.lor (Z.land c 0xff) 0x0700)) in
  if Z.ltb pos 0 || Z.gtb pos (25 * 80) then Panic "pos under/overflow"
  else
    let '(pos, crt2) :=
      if Z.geb (pos / 80) 24 then
        let moved := λ i, if Z.leb 0 i && Z.ltb i (23 * 80) then crt1 (i + 80) else crt1 i in
        let pos := pos - 80 in
        (pos, λ i, if Z.leb pos i && Z.ltb i (24 * 80) then 0 else moved i)
      else (pos, crt1) in
    Ret (mkCon (ibuf s) (ir s) (iw s) (ie s) (asleep s) (uart s) (upd crt2 pos (Z.lor 32 0x0700)) (u8 (pos / 256) * 256 + u8 pos)).

Definition uartputc (s : con) (c : Z) : con :=
  mkCon (ibuf s) (ir s) (iw s) (ie s) (asleep s) (uart s ++ [u8 c]) (crt s) (crtpos s).

(** [panicked] is set only by [panic], which does not return. *)
Definition consputc (s : con) (c : Z) : outcome con :=
  let s1 := if Z.eqb c BACKSPACE then uartputc (uartputc (uartputc s 8) 32) 8 else uartputc s c in
  cgaputc s1 c.

Fixpoint consolewrite (s : con) (buf : list Z) : outcome con :=
  match buf with
  | [] => Ret s
  | c :: buf' => let! s1 := consputc s (Z.land c 0xff) in consolewrite s1 buf'
  end.

(** ** Input *)

Definition set_ie (s : con) (e : Z) : con := mkCon (ibuf s) (ir s) (iw s) e (asleep s) (uart s) (crt s) (crtpos s).
Definition set_iw (s : con) (w : Z) : con := mkCon (ibuf s) (ir s) w (ie s) (asleep s) (uart s) (crt s) (crtpos s).
Definition set_ir (s : con) (r : Z) : con := mkCon (ibuf s) r (iw s) (ie s) (asleep s) (uart s) (crt s) (crtpos s).
Definition set_asleep (s : con) (b : bool) : con := mkCon (ibuf s) (ir s) (iw s) (ie s) b (uart s) (crt s) (crtpos s).
(** [wakeup(&input.r)]. *)
Definition wake_readers (s : con) : con := set_asleep s false.
Definition ichar (s : con) (i : Z) : Z := nth (Z.to_nat (i mod INPUT_BUF)) (ibuf s) 0.

(** The loop of Control-U. *)
Fixpoint kill_line (k : nat) (s : con) : outcome con :=
  match k with
  | O => NoFuel
  | S k =>
      if negb (Z.eqb (ie s) (iw s)) && negb (Z.eqb (ichar s (u32 (ie s - 1))) NL) then
        let! s1 := consputc (set_ie s (u32 (ie s - 1))) BACKSPACE in kill_line k s1
      else Ret s
  end.

(** The default case: a character joins the line, and may end it. *)
Definition put_char (s : con) (c : Z) : outcome con :=
  if negb (Z.eqb c 0) && Z.ltb (u32 (ie s - ir s)) INPUT_BUF then
    let c := if Z.eqb c CR then NL else c in
    let s1 := mkCon (<[Z.to_nat (ie s mod INPUT_BUF) := u8 c]> (ibuf s)) (ir s) (iw s) (u32 (ie s + 1)) (asleep s) (uart s) (crt s) (crtpos s) in
    let! s2 := consputc s1 c in
    if Z.eqb c NL || Z.eqb c (CTRL 68) || Z.eqb (ie s2) (u32 (ir s2 + INPUT_BUF)) then Ret (wake_readers (set_iw s2 (ie s2))) else Ret s2
  else Ret s.

Definition key (s : con) (c : Z) : outcome con :=
  if Z.eqb c (CTRL 80) then Ret s
  else if Z.eqb c (CTRL 85) then kill_line (S (Z.to_nat INPUT_BUF)) s
  else if Z.eqb c (CTRL 72) || Z.eqb c DEL then
    if negb (Z.eqb (ie s) (iw s)) then consputc (set_ie s (u32 (ie s - 1))) BACKSPACE else Ret s
  else put_char s c.

(** [consoleintr] on what [getc] gives until it is negative; the flag is whether
    [procdump] is called at the end. *)
Fixpoint consoleintr (s : con) (keys : list Z) (dump : bool) : outcome (con * bool) :=
  match keys with
  | [] => Ret (s, dump)
  | c :: keys' =>
      if Z.ltb c 0 then Ret (s, dump)
      else let! s1 := key s c in consoleintr s1 keys' (dump || Z.eqb c (CTRL 80))
  end.

(** How a section of [consoleread] ends: with the bytes delivered, with -1, or
    asleep with the bytes delivered so far. *)
Inductive cresult := CDone (l : list Z) | CFailed (l : list Z) | CSleep (l : list Z).

(** The loop with [n] bytes to go; [started] is [n < target]. *)
Fixpoint consoleread (s : con) (n : nat) (started killed : bool) : cresult * con :=
  match n with
  | O => (CDone [], s)
  | S n' =>
      if Z.eqb (ir s) (iw s) then (if killed then (CFailed [], s) else (CSleep [], set_asleep s true))
      else
        let c := ichar s (ir s) in
        let s1 := set_ir s (u32 (ir s + 1)) in
        if Z.eqb c (CTRL 68) then (CDone [], if started then set_ir s1 (u32 (ir s1 - 1)) else s1)
        else if Z.eqb c NL then (CDone [c], s1)
        else let '(r, s2) := consoleread s1 n' true killed in
             (match r with CDone l => CDone (c :: l) | CFailed l => CFailed (c :: l) | CSleep l => CSleep (c :: l) end, s2)
  end.

(** ** The line discipline, abstractly *)

(** The bytes ready to be read and the line being edited. *)
Record disc := mkDisc { ready : list Z; edit : list Z }.

Definition room (a : disc) : bool := Z.ltb (Z.of_nat (length (ready a) + length (edit a))) INPUT_BUF.

Definition a_put (a : disc) (c : Z) : disc :=
  if negb (Z.eqb c 0) && room a then
    let c := if Z.eqb c CR then NL else c in
    let a1 := mkDisc (ready a) (edit a ++ [u8 c]) in
    if Z.eqb c NL || Z.eqb c (CTRL 68) || negb (room a1) then mkDisc (ready a ++ edit a ++ [u8 c]) [] else a1
  else a.

Definition a_key (a : disc) (c : Z) : disc :=
  if Z.eqb c (CTRL 80) then a
  else if Z.eqb c (CTRL 85) then mkDisc (ready a) []
  else if Z.eqb c (CTRL 72) || Z.eqb c DEL then mkDisc (ready a) (removelast (edit a))
  else a_put a c.

Fixpoint a_read (q : list Z) (n : nat) (started killed : bool) : cresult * list Z :=
  match n, q with
  | O, _ => (CDone [], q)
  | S _, [] => (if killed then CFailed [] else CSleep [], q)
  | S n', c :: q' =>
      if Z.eqb c (CTRL 68) then (CDone [], if started then q else q')
      else if Z.eqb c NL then (CDone [c], q')
      else let '(r, q2) := a_read q' n' true killed in
           (match r with CDone l => CDone (c :: l) | CFailed l => CFailed (c :: l) | CSleep l => CSleep (c :: l) end, q2)
  end.

(** ** The screen *)

(** The cursor is on the screen. *)
Definition cga_ok (s : con) : Prop := 0 ≤ crtpos s < 25 * 80.

(** The fields of the input ring. *)
Definition same_input (s s' : con) : Prop := ibuf s' = ibuf s ∧ ir s' = ir s ∧ iw s' = iw s ∧ ie s' = ie s ∧ asleep s' = asleep s.

Lemma pos_bytes p : 0 ≤ p < 2 ^ 16 → u8 (p / 256) * 256 + u8 p = p.
Proof.
  intros Hp. unfold u8. change (2 ^ 8) with 256. change (2 ^ 16) with 65536 in Hp. pose proof (Z.div_mod p 256).
  rewrite (Z.mod_small (p / 256)); [lia|]. split; [apply Z.div_pos; lia|apply Z.div_lt_upper_bound; lia].
Qed.

Lemma cgaputc_ok s c : cga_ok s → ∃ s', cgaputc s c = Ret s' ∧ same_input s s' ∧ uart s' = uart s ∧ cga_ok s'.
Proof.
  unfold cga_ok. intros Hp. unfold cgaputc.
  match goal with |- context [let '(_, _) := ?e in _] => set (pc := e) end.
  assert (Hpc : 0 ≤ pc.1 ≤ 25 * 80).
  { unfold pc. destruct (Z.eqb c NL); simpl; [|destruct (Z.eqb c BACKSPACE); simpl; [destruct (Z.gtb_spec (crtpos s) 0)|]]; try lia.
    pose proof (Z.div_mod (crtpos s) 80). pose proof (Z.mod_pos_bound (crtpos s) 80).
    assert (crtpos s / 80 < 25) by (apply Z.div_lt_upper_bound; lia). lia. }
  destruct pc as [pos crt1]. simpl in Hpc.
  destruct (Z.ltb_spec pos 0); [lia|]. destruct (Z.gtb_spec pos (25 * 80)); [lia|]. simpl.
  rewrite Z.geb_leb. destruct (Z.leb_spec 24 (pos / 80)) as [Hge|Hlt].
  - assert (24 * 80 ≤ pos) by (pose proof (Z.div_mod pos 80); pose proof (Z.mod_pos_bound pos 80); lia).
    eexists. split; [done|]. unfold same_input, cga_ok. simpl. rewrite pos_bytes by lia. split_and!; try done; lia.
  - assert (pos < 24 * 80) by (pose proof (Z.div_mod pos 80); pose proof (Z.mod_pos_bound pos 80); lia).
    eexists. split; [done|]. unfold same_input, cga_ok. simpl. rewrite pos_bytes by lia. split_and!; try done; lia.
Qed.

Lemma consputc_ok s c : cga_ok s → ∃ s', consputc s c = Ret s' ∧ same_input s s' ∧ cga_ok s'.
Proof.
  intros Hp. unfold consputc. destruct (Z.eqb c BACKSPACE).
  - destruct (cgaputc_ok (uartputc (uartputc (uartputc s 8) 32) 8) c Hp) as (s' & Hs & Hi & _ & Ho). eauto.
  - destruct (cgaputc_ok (uartputc s c) c Hp) as (s' & Hs & Hi & _ & Ho). eauto.
Qed.

(** ** The ring *)

(** The ring holds the ready bytes and then the edited line. *)
Record rep (s : con) (a : disc) : Prop := mk_rep {
  cr_len : length (ibuf s) = Z.to_nat INPUT_BUF;
  cr_r : is_u32 (ir s);
  cr_w : iw s = u32 (ir s + Z.of_nat (length (ready a)));
  cr_e : ie s = u32 (ir s + Z.of_nat (length (ready a ++ edit a)));
  cr_size : Z.of_nat (length (ready a ++ edit a)) ≤ INPUT_BUF;
  cr_byte : ∀ j c, (ready a ++ edit a) !! j = Some c → ibuf s !! Z.to_nat ((ir s + Z.of_nat j) mod INPUT_BUF) = Some c;
  cr_plain : NL ∉ edit a;
  cr_full : Z.of_nat (length (ready a ++ edit a)) = INPUT_BUF → edit a = [];
  cr_cga : cga_ok s;
  cr_asleep : asleep s = true → ready a = [] }.

Lemma u32_mod_buf x : u32 x mod INPUT_BUF = x mod INPUT_BUF.
Proof.
  unfold u32, INPUT_BUF. symmetry. rewrite (Z.div_mod x (2 ^ 32)) at 1 by lia.
  replace (2 ^ 32 * (x / 2 ^ 32)) with ((2 ^ 25 * (x / 2 ^ 32)) * 128) by lia.
  rewrite Z.add_comm. apply Z_mod_plus_full.
Qed.

Lemma u32_apart a k k' : 0 ≤ k ≤ INPUT_BUF → 0 ≤ k' ≤ INPUT_BUF → u32 (a + k) = u32 (a + k') → k = k'.
Proof.
  unfold u32, INPUT_BUF. intros H H' He. pose proof (Z.div_mod (a + k) (2 ^ 32)). pose proof (Z.div_mod (a + k') (2 ^ 32)). lia.
Qed.

Lemma slot_apart a k k' : 0 ≤ k < INPUT_BUF → 0 ≤ k' < INPUT_BUF → (a + k) mod INPUT_BUF = (a + k') mod INPUT_BUF → k = k'.
Proof.
  unfold INPUT_BUF. intros H H' He. pose proof (Z.div_mod (a + k) 128). pose proof (Z.div_mod (a + k') 128). lia.
Qed.

Lemma u32_add_u32 x d : u32 (u32 x + d) = u32 (x + d).
Proof. unfold u32. by rewrite Zplus_mod_idemp_l. Qed.

Lemma rep_same s s' a : rep s a → same_input s s' → cga_ok s' → rep s' a.
Proof. intros [] (E1 & E2 & E3 & E4 & E5) Hc. split; rewrite ?E1, ?E2, ?E3, ?E4, ?E5; done. Qed.

Lemma rep_editing s a : rep s a → Z.eqb (ie s) (iw s) = true ↔ edit a = [].
Proof.
  intros H. rewrite Z.eqb_eq, (cr_e _ _ H), (cr_w _ _ H). pose proof (cr_size _ _ H) as Hs. rewrite length_app in *. split.
  - intros He%u32_apart; [|lia..]. apply length_zero_iff_nil. lia.
  - intros ->. simpl. by rewrite Nat.add_0_r.
Qed.

Lemma rep_ready s a : rep s a → Z.eqb (ir s) (iw s) = true ↔ ready a = [].
Proof.
  intros H. rewrite Z.eqb_eq, (cr_w _ _ H). pose proof (cr_size _ _ H) as Hs. rewrite length_app in Hs. split.
  - intros He. apply length_zero_iff_nil. cut (0 = Z.of_nat (length (ready a))); [lia|]. apply (u32_apart (ir s)); [unfold INPUT_BUF; lia|lia|].
    rewrite Z.add_0_r, u32_small by apply H. done.
  - intros ->. simpl. rewrite Z.add_0_r, u32_small by apply H. done.
Qed.

(** One byte less at the end of the line. *)
Lemma rep_erase s a l c : rep s a → edit a = l ++ [c] → rep (set_ie s (u32 (ie s - 1))) (mkDisc (ready a) l) ∧ ichar s (u32 (ie s - 1)) = c.
Proof.
  intros [H1 H2 H3 H4 H5 H6 H7 H8 H9 H10] He. destruct a as [rd ed]. simpl in *. subst ed. rewrite app_assoc in *.
  rewrite (length_app (rd ++ l)) in *. simpl in *.
  assert (Hend : u32 (ie s - 1) = u32 (ir s + Z.of_nat (length (rd ++ l)))).
  { rewrite H4. replace (u32 (ir s + Z.of_nat (length (rd ++ l) + 1)) - 1) with (u32 (ir s + Z.of_nat (length (rd ++ l) + 1)) + -1) by lia.
    rewrite u32_add_u32. f_equal. lia. }
  split.
  - split; simpl; try done; [lia| | |].
    + intros j x Hj. apply H6. by apply lookup_app_l_Some.
    + intros Hin. apply H7. apply elem_of_app. by left.
    + intros Hf. lia.
  - unfold ichar. rewrite Hend, u32_mod_buf. apply nth_lookup_Some. apply H6. rewrite lookup_app_r, Nat.sub_diag by lia. done.
Qed.

Lemma backspace_ok s a l c :
  rep s a → edit a = l ++ [c] → ∃ s', consputc (set_ie s (u32 (ie s - 1))) BACKSPACE = Ret s' ∧ rep s' (mkDisc (ready a) l).
Proof.
  intros H He. destruct (rep_erase s a l c H He) as [Hr _].
  destruct (consputc_ok _ BACKSPACE (cr_cga _ _ Hr)) as (s' & Hs & Hi & Hc). exists s'. split; [done|]. by eapply rep_same.
Qed.

Lemma kill_line_ok k s a : rep s a → (length (edit a) < k)%nat → ∃ s', kill_line k s = Ret s' ∧ rep s' (mkDisc (ready a) []).
Proof.
  revert s a. induction k as [|k IH]; intros s a H Hk; [lia|]. cbn [kill_line].
  destruct (edit a) as [|x l0] eqn:He.
  - rewrite (proj2 (rep_editing s a H) He). simpl. exists s. split; [done|]. destruct a as [rd ed]. simpl in *. by subst.
  - destruct (exists_last (l := edit a)) as (l & c & Hl); [by rewrite He|]. rewrite <-He in Hk.
    destruct (Z.eqb (ie s) (iw s)) eqn:E; [apply (rep_editing s a H) in E; congruence|].
    destruct (rep_erase s a l c H Hl) as [_ Hc]. rewrite Hc.
    destruct (Z.eqb_spec c NL) as [->|_].
    + exfalso. apply (cr_plain _ _ H). rewrite Hl. apply elem_of_app. right. by apply list_elem_of_singleton.
    + simpl. destruct (backspace_ok s a l c H Hl) as (s1 & Hs1 & Hr1). rewrite Hs1. simpl.
      destruct (IH s1 _ Hr1) as (s' & Hs' & Hr'); [|by exists s']. simpl. rewrite Hl, length_app in Hk. simpl in Hk. lia.
Qed.

Lemma rep_room s a : rep s a → Z.ltb (u32 (ie s - ir s)) INPUT_BUF = room a.
Proof.
  intros H. unfold room. rewrite <-length_app. f_equal. rewrite (cr_e _ _ H). pose proof (cr_size _ _ H) as Hs.
  replace (u32 (ir s + Z.of_nat (length (ready a ++ edit a))) - ir s) with (u32 (ir s + Z.of_nat (length (ready a ++ edit a))) + - ir s) by lia.
  rewrite u32_add_u32. replace (_ + - ir s) with (Z.of_nat (length (ready a ++ edit a))) by lia.
  apply u32_small. unfold is_u32, INPUT_BUF in *. lia.
Qed.

(** A byte joins the edited line; [cr_full] waits for the commit of a full ring. *)
Lemma ring_put s a c :
  rep s a → room a = true →
  let i := Z.to_nat (ie s mod INPUT_BUF) in
  let l := ready a ++ edit a ++ [c] in
  u32 (ie s + 1) = u32 (ir s + Z.of_nat (length l)) ∧ Z.of_nat (length l) ≤ INPUT_BUF ∧
  ∀ j x, l !! j = Some x → <[i := c]> (ibuf s) !! Z.to_nat ((ir s + Z.of_nat j) mod INPUT_BUF) = Some x.
Proof.
  intros H Hroom i l. unfold room in Hroom. apply Z.ltb_lt in Hroom. rewrite <-length_app in Hroom.
  assert (Hl : length l = S (length (ready a ++ edit a))) by (unfold l; rewrite app_assoc, length_app; simpl; lia).
  split_and!.
  - rewrite (cr_e _ _ H), u32_add_u32, Hl. f_equal. lia.
  - rewrite Hl. lia.
  - intros j x Hj. unfold l in Hj. rewrite app_assoc in Hj. unfold i. rewrite (cr_e _ _ H), u32_mod_buf.
    assert (Hslot : ∀ k, (Z.to_nat ((ir s + k) mod INPUT_BUF) < Z.to_nat INPUT_BUF)%nat).
    { intros k. unfold INPUT_BUF. pose proof (Z.mod_pos_bound (ir s + k) 128). lia. }
    apply lookup_app_Some in Hj as [Hj|[Hge Hj]].
    + pose proof (lookup_lt_Some _ _ _ Hj). rewrite list_lookup_insert_ne; [by apply (cr_byte _ _ H)|].
      intros He%Z2Nat.inj; try (unfold INPUT_BUF; apply Z.mod_pos_bound; lia). apply slot_apart in He; lia.
    + apply list_lookup_singleton_Some in Hj as [Hj ->]. replace j with (length (ready a ++ edit a)) by lia.
      apply list_lookup_insert_eq. rewrite (cr_len _ _ H). apply Hslot.
Qed.

Lemma put_char_ok s a c : rep s a → 0 ≤ c < 256 → ∃ s', put_char s c = Ret s' ∧ rep s' (a_put a c).
Proof.
  intros H Hc. unfold put_char, a_put. rewrite (rep_room s a H).
  destruct (negb (Z.eqb c 0) && room a) eqn:Hg; [|by exists s]. apply andb_true_iff in Hg as [_ Hroom].
  set (c' := if Z.eqb c CR then NL else c). assert (Hu : u8 c' = c').
  { unfold u8. apply Z.mod_small. unfold c', CR, NL. destruct (Z.eqb c 13); lia. }
  destruct (ring_put s a c' H Hroom) as (He & Hsz & Hbytes). rewrite Hu.
  match goal with |- context [consputc ?x c'] => set (s1 := x); destruct (consputc_ok s1 c' (cr_cga _ _ H)) as (s2 & Hs2 & (E1 & E2 & E3 & E4 & E5) & Hcga) end.
  rewrite Hs2. simpl obind. simpl in E1, E2, E3, E4, E5.
  assert (Hfull : Z.eqb (ie s2) (u32 (ir s2 + INPUT_BUF)) = negb (room (mkDisc (ready a) (edit a ++ [c'])))).
  { rewrite E4, E2, He. unfold room. simpl. rewrite <-length_app. apply eq_true_iff_eq. rewrite negb_true_iff, Z.eqb_eq, Z.ltb_ge. split.
    - intros Hq%u32_apart; unfold INPUT_BUF in *; lia.
    - intros Hq. f_equal. lia. }
  rewrite Hfull. destruct (Z.eqb c' NL || Z.eqb c' (CTRL 68) || negb (room (mkDisc (ready a) (edit a ++ [c'])))) eqn:Hend.
  - eexists. split; [done|]. split; simpl; rewrite ?E1, ?E2, ?E3, ?E4, ?app_nil_r; try done; try apply H.
    + rewrite length_insert. apply H.
    + apply not_elem_of_nil.
  - eexists. split; [done|]. apply orb_false_iff in Hend as [[Hnl _]%orb_false_iff Hr%negb_false_iff]. apply Z.eqb_neq in Hnl.
    split; simpl; rewrite ?E1, ?E2, ?E3, ?E4, ?E5; try done; try apply H.
    + rewrite length_insert. apply H.
    + rewrite elem_of_app, list_elem_of_singleton. intros [Hin|Heq]; [by apply (cr_plain _ _ H)|congruence].
    + unfold room in Hr. apply Z.ltb_lt in Hr. simpl in Hr. rewrite length_app. lia.
Qed.

Lemma key_ok s a c : rep s a → 0 ≤ c < 256 → ∃ s', key s c = Ret s' ∧ rep s' (a_key a c).
Proof.
  intros H Hc. unfold key, a_key. destruct (Z.eqb c (CTRL 80)); [by exists s|]. destruct (Z.eqb c (CTRL 85)).
  { apply kill_line_ok; [done|]. pose proof (cr_size _ _ H) as Hs. rewrite length_app in Hs. unfold INPUT_BUF in *. lia. }
  destruct (Z.eqb c (CTRL 72) || Z.eqb c DEL); [|by apply put_char_ok].
  destruct (Z.eqb (ie s) (iw s)) eqn:E; simpl.
  - apply (rep_editing s a H) in E. exists s. split; [done|]. destruct a as [rd ed]. simpl in *. by subst.
  - destruct (edit a) as [|x l0] eqn:He; [apply (rep_editing s a H) in He; congruence|].
    destruct (exists_last (l := edit a)) as (l & d & Hl); [by rewrite He|]. rewrite <-He, Hl, removelast_last. by eapply backspace_ok.
Qed.

Lemma consoleintr_ok keys : ∀ s a d,
  rep s a → Forall (λ c, 0 ≤ c < 256) keys →
  ∃ s' d', consoleintr s keys d = Ret (s', d') ∧ rep s' (foldl a_key a keys).
Proof.
  induction keys as [|c keys IH]; intros s a d H Hk; [by exists s, d|]. apply Forall_cons in Hk as [Hc Hk]. simpl.
  destruct (Z.ltb_spec c 0); [lia|]. destruct (key_ok s a c H Hc) as (s1 & -> & H1). simpl. by apply IH.
Qed.

(** Taking the first ready byte. *)
Lemma rep_take s a c q : rep s a → ready a = c :: q → ichar s (ir s) = c ∧ rep (set_ir s (u32 (ir s + 1))) (mkDisc q (edit a)).
Proof.
  intros [H1 H2 H3 H4 H5 H6 H7 H8 H9 H10] Hq. destruct a as [rd ed]. simpl in *. subst rd. simpl in *. split.
  - unfold ichar. apply nth_lookup_Some. specialize (H6 0%nat c eq_refl). by rewrite Z.add_0_r in H6.
  - split; simpl; try done.
    + apply u32_range.
    + rewrite H3, u32_add_u32. f_equal. lia.
    + rewrite H4, u32_add_u32. f_equal. lia.
    + lia.
    + intros j x Hj. rewrite <-(H6 (S j) x Hj). do 2 f_equal. rewrite <-Zplus_mod_idemp_l, u32_mod_buf, Zplus_mod_idemp_l. f_equal. lia.
    + lia.
    + intros Hs. by specialize (H10 Hs).
Qed.

Lemma consoleread_ok n : ∀ s a started killed,
  rep s a →
  let '(r, s') := consoleread s n started killed in
  let '(r', q') := a_read (ready a) n started killed in
  r = r' ∧ rep s' (mkDisc q' (edit a)).
Proof.
  induction n as [|n IH]; intros s a started killed H; cbn [consoleread a_read].
  { destruct a as [[|x rd] ed]; by split. }
  destruct (ready a) as [|c q] eqn:Hq; cbn [a_read].
  - rewrite (proj2 (rep_ready s a H) Hq). destruct a as [rd ed]. simpl in *. subst. destruct killed; [done|]. split; [done|]. destruct H. by split.
  - destruct (Z.eqb (ir s) (iw s)) eqn:E; [apply (rep_ready s a H) in E; congruence|].
    destruct (rep_take s a c q H Hq) as [Hc H1]. rewrite Hc.
    destruct (Z.eqb c (CTRL 68)).
    + split; [done|]. destruct started; [|done]. simpl. replace (u32 (ir s + 1) - 1) with (u32 (ir s + 1) + -1) by lia.
      rewrite u32_add_u32. replace (ir s + 1 + -1) with (ir s) by lia. rewrite (u32_small (ir s)) by apply H. rewrite <-Hq. by destruct s, a.
    + destruct (Z.eqb c NL); [done|]. specialize (IH _ _ true killed H1). simpl in IH.
      destruct (consoleread _ n true killed) as [r s2], (a_read q n true killed) as [r' q2]. destruct IH as [-> ?]. done.
Qed.

(** ** Any sequence of interrupts and reads *)

Inductive cevent := Keys (l : list Z) | Reads (n : nat) (started killed : bool) | Writes (l : list Z).

Fixpoint crun (s : con) (evs : list cevent) : outcome (con * list cresult) :=
  match evs with
  | [] => Ret (s, [])
  | Keys l :: evs => let! (s1, _) := consoleintr s l false in crun s1 evs
  | Writes l :: evs => let! s1 := consolewrite s l in crun s1 evs
  | Reads n st k :: evs => let '(r, s1) := consoleread s n st k in let! (s2, rs) := crun s1 evs in Ret (s2, r :: rs)
  end.

Fixpoint arun (a : disc) (evs : list cevent) : disc * list cresult :=
  match evs with
  | [] => (a, [])
  | Keys l :: evs => arun (foldl a_key a l) evs
  | Writes _ :: evs => arun a evs
  | Reads n st k :: evs =>
      let '(r, q) := a_read (ready a) n st k in let '(a2, rs) := arun (mkDisc q (edit a)) evs in (a2, r :: rs)
  end.

Definition keys_ok (ev : cevent) : Prop := match ev with Keys l => Forall (λ c, 0 ≤ c < 256) l | _ => True end.

Lemma consolewrite_ok l : ∀ s a, rep s a → ∃ s', consolewrite s l = Ret s' ∧ rep s' a.
Proof.
  induction l as [|c l IH]; intros s a H; [by exists s|]. simpl.
  destruct (consputc_ok s (Z.land c 255) (cr_cga _ _ H)) as (s1 & -> & Hi & Hc). simpl. apply IH. by eapply rep_same.
Qed.

Lemma crun_ok evs : ∀ s a,
  rep s a → Forall keys_ok evs → ∃ s', crun s evs = Ret (s', (arun a evs).2) ∧ rep s' (arun a evs).1.
Proof.
  induction evs as [|ev evs IH]; intros s a H Hok; [by exists s|]. apply Forall_cons in Hok as [Hev Hok].
  destruct ev as [l|n st k|l]; cbn [crun arun].
  - destruct (consoleintr_ok l s a false H Hev) as (s1 & d & -> & H1). simpl. by apply IH.
  - pose proof (consoleread_ok n s a st k H) as Hr. destruct (consoleread s n st k) as [r s1], (a_read (ready a) n st k) as [r' q].
    destruct Hr as [-> H1]. destruct (IH s1 _ H1 Hok) as (s' & -> & H2). simpl. destruct (arun (mkDisc q (edit a)) evs). by exists s'.
  - destruct (consolewrite_ok l s a H) as (s1 & -> & H1). simpl. by apply IH.
Qed.

Lemma rep_con0 junk screen pos : length junk = Z.to_nat INPUT_BUF → 0 ≤ pos < 25 * 80 → rep (con0 junk screen pos) (mkDisc [] []).
Proof.
  intros Hj Hp. split; simpl; try done; try (unfold is_u32, INPUT_BUF; simpl; lia). apply not_elem_of_nil.
Qed.

(** C22: the console input is a line discipline: under any sequence of keyboard
    interrupts, reads and writes the driver never panics, and its reads give what
    the abstract discipline gives, where a key edits the current line, a newline,
    a Control-D or a full buffer makes it readable, and a read takes up to a
    newline or Control-D.  No reader is left asleep while there are bytes to read.
    The 32-bit indices may wrap, and the cursor may start anywhere on the screen. *)
Theorem console_refines junk screen pos evs :
  length junk = Z.to_nat INPUT_BUF → 0 ≤ pos < 25 * 80 → Forall keys_ok evs →
  ∃ s', crun (con0 junk screen pos) evs = Ret (s', (arun (mkDisc [] []) evs).2) ∧ rep s' (arun (mkDisc [] []) evs).1 ∧
    (asleep s' = true → ready (arun (mkDisc [] []) evs).1 = []).
Proof.
  intros Hj Hp Hok. destruct (crun_ok evs _ _ (rep_con0 junk screen pos Hj Hp) Hok) as (s' & E & Hr). exists s'. split_and!; [done|done|apply Hr].
Qed.

(** The cursor starts on the last line of the screen; a reader goes to sleep before the
    keys a, b, backspace, c, return, and reads ten bytes after them. *)
Lemma console_refines_witness :
  ∃ s', crun (con0 (replicate 128 0) (λ _, 0) 1990) [Reads 10 false false; Keys [97; 98; 8; 99; 13]; Reads 10 false false] =
    Ret (s', [CSleep []; CDone [97; 99; 10]]).
Proof.
  destruct (console_refines (replicate 128 0) (λ _, 0) 1990 [Reads 10 false false; Keys [97; 98; 8; 99; 13]; Reads 10 false false])
    as (s' & Hs & _); [reflexivity|lia|repeat constructor; lia|]. exists s'. exact Hs.
Defined.
