(* ===== verification/SwapFile.v ===== *)
(** * Swap files (the end of fs.c)

    A process keeps the pages it swaps out in the file [/.swap<pid>], through an
    open file of its own that is in none of its descriptors. *)
From stdpp Require Import base list strings.
From Stdlib Require Import ZArith Lia.
From S2P Require Import Prelude Mmu Memory Kalloc Bio Log Fs File Proc Syscall Sysfile FileInv.

Section swapfile.
  Context (kend : Z).
  Context (dev_read : Z → option (fs → nat → Z → outcome (Z * list Z * fs)))
          (dev_write : Z → option (fs → nat → list Z → outcome (Z * fs))).
  (** [p->pid], [p->cwd], and the bytes [path] holds before it is written. *)
  Context (pid : Z) (cwd : nat) (junk : list Z).

(** [swapFile] is [p->swapFile]; the removal is the body of [sys_unlink]. *)
Definition removeSwapFile (k : fkern) (swapFile : option nat) : outcome (Z * fkern) :=
  let! path := swap_path junk pid in
  match swapFile with
  | None => Ret (-1, k)
  | Some f =>
      let! k1 := fileclose kend pid k f in
      let! (r, s) := unlink_path dev_read dev_write pid cwd (kfs k1) (cstring path) in
      Ret (r, set_fs k1 s)
  end.

(** The file [p->swapFile] gets. *)
Definition createSwapFile (k : fkern) : outcome (nat * fkern) :=
  let! path := swap_path junk pid in
  let! s1 := fbegin_op (kfs k) in
  let! (ip, s2) := create dev_read dev_write pid cwd s1 (cstring path) T_FILE 0 0 in
  let! s3 := iunlock s2 ip in
  match ip with
  | None => Panic "iunlock"
  | Some ip =>
      let '(o, k1) := filealloc (set_fs k s3) in
      match o with
      | None => Panic "no slot for files on /store"
      | Some f =>
          let k2 := fset k1 f (as_inode true true ip) in
          let! s4 := fend_op pid (kfs k2) in
          Ret (f, set_fs k2 s4)
      end
  end.

Definition writeToSwapFile (k : fkern) (f : nat) (buffer : list Z) (placeOnFile : Z) : outcome fresult :=
  filewrite pid dev_write (fset k f (with_off placeOnFile)) f buffer false.

Definition readFromSwapFile (k : fkern) (f : nat) (placeOnFile size : Z) : outcome fresult :=
  fileread pid dev_read (fset k f (with_off placeOnFile)) f size false.

(** The reference of a swap file is one more than those of the descriptors. *)
Lemma createSwapFile_files refs k f k' :
  files_ok kend refs [] k → createSwapFile k = Ret (f, k') → refs f = 0 ∧ files_ok kend (bump refs f 1) [] k'.
Proof.
  intros Hok E. unfold createSwapFile in E. apply obind_Ret_inv in E as (path & _ & E). apply obind_Ret_inv in E as (s1 & _ & E).
  apply obind_Ret_inv in E as ([ip s2] & _ & E). apply obind_Ret_inv in E as (s3 & _ & E). destruct ip as [ip|]; [|done].
  apply (files_ok_fs _ _ _ _ s3) in Hok. pose proof (filealloc_files _ _ _ _ Hok) as A.
  destruct (filealloc (set_fs k s3)) as [[g|] k1]; [|done]. destruct A as (R0 & _ & Hok1 & _).
  apply obind_Ret_inv in E as (s4 & _ & E). injection E as <- <-. split; [done|].
  apply files_ok_fs, files_ok_inode; [done|apply not_elem_of_nil|]. rewrite bump_eq. lia.
Qed.

Lemma removeSwapFile_files refs k f r k' :
  KERNBASE + EXTMEM ≤ kend → files_ok kend refs [] k → 0 < refs f → removeSwapFile k (Some f) = Ret (r, k') →
  files_ok kend (bump refs f (-1)) [] k'.
Proof.
  intros Hk Hok Hr E. unfold removeSwapFile in E. apply obind_Ret_inv in E as (path & _ & E).
  apply obind_Ret_inv in E as (k1 & Hk1 & E). apply obind_Ret_inv in E as ([v s] & _ & E). injection E as <- <-.
  apply files_ok_fs. by eapply (fileclose_files kend Hk pid refs [] []).
Qed.

Lemma swapfile_io_files refs k f buffer place size res :
  files_ok kend refs [] k →
  writeToSwapFile k f buffer place = Ret res ∨ readFromSwapFile k f place size = Ret res → files_ok kend refs [] (fres_state res).
Proof.
  intros Hok [E|E].
  - eapply filewrite_files; [|exact E]. by apply files_ok_off.
  - eapply fileread_files; [|exact E]. by apply files_ok_off.
Qed.
End swapfile.
