(* ===== verification/SwapData.v ===== *)
(** * Swap files on the disk (fs.c:768-783 over file.c, fs.c, log.c and bio.c)

    The pager of Demand.v relies on a swap file only through [SwapOps] and
    [SwapLaws].  This file shows that [readFromSwapFile] and [writeToSwapFile]
    of SwapFile.v, with the whole path below them (file table, inode, block map,
    log and buffer cache), are such operations. *)
From stdpp Require Import base list list_numbers sets strings.
From Stdlib Require Import ZArith Lia FunctionalExtensionality.
From S2P Require Import Prelude Mmu Sleeplock Bio Log Fs FileData File Memory Kalloc Paging Replacement PageTable Swap Demand SwapFile.
From S2P Require Pipe.

(** ** What lies above the log *)

(** Two disks that agree from the inodes on have the same files. *)
Definition agree (x : superblock) (M M' : Z → list Z) : Prop := ∀ y, sb_inodestart x ≤ y → M' y = M y.

Section agree.
  Context (x : superblock) (dsz : Z) (M M' : Z → list Z).
  Context (Hl : layout x dsz) (Hag : agree x M M').

Lemma agree_used b : 0 ≤ b < sb_size x → used x M' b = used x M b.
Proof.
  intros Hb. unfold used. destruct (BBLOCK_eq x dsz b Hl Hb) as (_ & ? & _). pose proof (layout_start x dsz Hl).
  rewrite Hag by lia. done.
Qed.

Lemma agree_nfree : nfree x M' = nfree x M.
Proof. unfold nfree, free_blocks. f_equal. apply list_filter_iff'. intros b Hb%elem_of_seqZ. by rewrite agree_used by lia. Qed.

Context (a : list Z) (Hok : inode_ok x M a).

Lemma agree_owned y : owns M a y → M' y = M y.
Proof. intros Hy. destruct (io_range _ _ _ Hok y Hy) as [? _]. pose proof (layout_start x dsz Hl). apply Hag. lia. Qed.

Lemma agree_addr k : addr M' a k = addr M a k.
Proof.
  unfold addr. destruct (Z.ltb k NDIRECT); [done|]. destruct (Z.eqb_spec (indirect a) 0); [done|].
  rewrite agree_owned; [done|]. split; [done|by left].
Qed.

Lemma agree_inode : inode_ok x M' a.
Proof.
  assert (Hown : ∀ z, owns M' a z ↔ owns M a z) by (intros z; unfold owns; by setoid_rewrite agree_addr).
  destruct Hok as [H1 H2 H3 H4]. split; try done; [|intros k k'|intros k]; rewrite ?agree_addr; auto.
  intros z Hz%Hown. destruct (H2 z Hz) as [Hr Hu]. split; [done|]. pose proof (layout_start x dsz Hl). rewrite agree_used by lia. done.
Qed.

Lemma agree_content o : 0 ≤ o < MAXFILE * BSIZE → content M' a o = content M a o.
Proof.
  intros Ho. destruct (off_block o Ho) as (Hb & _). unfold content. rewrite agree_addr.
  destruct (Z.eqb_spec (addr M a (o / BSIZE)) 0); [done|]. rewrite agree_owned; [done|]. split; [done|right; eauto].
Qed.
End agree.

(** ** Transactions that start and end with an idle log *)

(** No operation runs: nothing is pinned, the log is empty in memory and on disk
    and lies below the inodes. *)
Record idle (s : fs) : Prop := {
  id_rx : rx [] s [];
  id_n : lh_n (fs_log s) = 0;
  id_out : outstanding (fs_log s) = 0;
  id_committing : committing (fs_log s) = false;
  id_size : LIM < l_size (fs_log s) - 1;
  id_block : length (lh_block (fs_log s)) = Z.to_nat LOGSIZE;
  id_fits : log_fits (fs_log s) (dsize s);
  id_below : l_start (fs_log s) + l_size (fs_log s) ≤ sb_inodestart (sb s);
  id_clear : hdr_n (blocks (dk (fs_bio s)) (l_start (fs_log s))) = 0 }.

Lemma idle_untouched s s' : idle s → untouched s s' → rx [] s' [] → idle s'.
Proof.
  intros [] (_ & (U1 & _ & U2) & U3 & U4) Hx. split; rewrite ?U1, ?U2, ?U3, ?U4; done.
Qed.

Lemma idle_iset s ip h : idle s → idle (iset s ip h).
Proof. by intros []. Qed.

(** The state just after [begin_op]. *)
Definition begun (s : fs) : fs := mkFs (set_ops (fs_log s) 1 false) (fs_bio s) (sb s) (icache s).
Definition origin_of (s : fs) : origin := mkOrigin (dk (fs_bio s)) (set_ops (fs_log s) 1 false).

Lemma begin_idle s : idle s → fbegin_op s = Ret (begun s) ∧ txn (origin_of s) LIM (begun s) [].
Proof.
  intros [Hx Hn Ho Hc Hs Hb [_ _ _ Hd] _ _]. split.
  - unfold fbegin_op, begin_op. rewrite Hc, Hn, Ho. done.
  - assert (Hp : pinned (begun s) = []) by (unfold pinned; simpl; by rewrite Hn).
    unfold txn, room. rewrite Hp. split; [exact Hx|]. split; [|split; [done|]].
    + simpl. rewrite Hn. unfold LIM in *. split_and!; try done; try lia. intros y Hy. by apply elem_of_nil in Hy.
    + exists (lh_n (fs_log s)), (lh_block (fs_log s)). done.
Qed.

Section swapdata.
  Context (pid : Z).

(** The end of the only operation: its blocks are committed, and the files are
    as the operation left them. *)
Lemma end_idle s0 s r :
  idle s0 → txn (origin_of s0) r s [] → sb s = sb s0 → dsize s = dsize s0 →
  ∃ s', fend_op pid s = Ret s' ∧ idle s' ∧ agree (sb s) (V s) (V s') ∧
    sb s' = sb s ∧ icache s' = icache s ∧ dsize s' = dsize s.
Proof.
  intros [_ _ _ Hc0 _ _ Hfit Hbelow Hclr] (Hx & Hroom & Hdk & n & bl & Hlog) Hsb Hdsz.
  destruct Hroom as (Hr0 & Hn & Hlim & Hsz & Hbl & _ & Hd31 & Hhome). simpl in Hdk.
  change (o_log (origin_of s0)) with (set_ops (fs_log s0) 1 false) in Hlog.
  unfold fend_op, end_op. rewrite Hlog in *. cbn [committing outstanding l_size lh_n lh_block set_ops set_lh] in *.
  change (Z.eqb (1 - 1) 0) with true. cbv iota.
  set (gc := set_ops (set_ops (set_lh (set_ops (fs_log s0) 1 false) n bl) (1 - 1) false) 0 true) in *.
  assert (Hend : ∀ c l, commit pid gc (fs_bio s) = Ret (set_lh gc 0 bl, c) → bio_inv c l [] [] →
    disksize (dk c) = dsize s → hdr_n (blocks (dk c) (l_start (fs_log s0))) = 0 → agree (sb s) (V s) (view c) →
    ∃ s', (let! (g, c) := (let! (g2, s2) := commit pid gc (fs_bio s) in Ret (set_ops g2 (outstanding g2) false, s2)) in
           Ret (mkFs g c (sb s) (icache s))) = Ret s' ∧ idle s' ∧ agree (sb s) (V s) (V s') ∧
      sb s' = sb s ∧ icache s' = icache s ∧ dsize s' = dsize s).
  { intros c l He Hi Hds Hh Hag. rewrite He. cbn [obind]. eexists. split; [done|]. split; [|done].
    split; unfold dsize in *; simpl in *; rewrite ?Hsb; try done.
    - exists l. split; [exact Hi|]. split; [intros b y Hin; by apply elem_of_nil in Hin|by vm_compute].
    - rewrite Hds, Hdsz. destruct Hfit. by split. }
  destruct Hx as (l & Hi & _ & _). unfold pinned in Hi, Hhome. rewrite Hlog in Hi, Hhome. cbn [lh_n lh_block l_size set_lh set_ops] in *.
  assert (Hds0 : disksize (dk (fs_bio s)) = dsize s0) by exact Hdsz.
  destruct (Z.gtb_spec n 0) as [Hpos|Hzero].
  - destruct (commit_ok pid gc (fs_bio s) l) as (d1 & d0 & c & l' & He & Hi' & _ & Hl0 & _ & _ & Hn0 & Hdk' & Hv).
    { split; simpl; try done.
      - rewrite Hds0. destruct Hfit. by split.
      - unfold LIM, LOGSIZE, MAXOPBLOCKS in *. lia.
      - unfold LIM in *. lia.
      - unfold LIM, NBUF in *. lia.
      - intros j Hj. assert (Hin : entry bl j ∈ take (Z.to_nat n) bl).
        { apply elem_of_take_entry; [rewrite Hbl; unfold LIM, LOGSIZE, MAXOPBLOCKS in *; lia|eauto]. }
        specialize (Hhome _ Hin). destruct (bi_pin _ _ _ _ Hi _ Hin) as (b & (Hr & Hd & Hb) & _). split.
        + rewrite <- Hb. apply (bi_valid _ _ _ _ Hi b); [|done]. by apply (bi_ring _ _ _ _ Hi).
        + unfold in_log. simpl. rewrite Hsb in Hhome. lia.
      - rewrite Hdk. done. }
    apply (Hend c l'); try done.
    + by rewrite Hdk', disk_writes_size.
    + rewrite Hdk', disk_writes_blocks, app_comm_cons, app_assoc, apply_writes_app. simpl. by rewrite upd_eq.
    + intros y Hy. apply Hv. unfold in_log. simpl. rewrite Hsb in Hy. lia.
  - assert (n = 0) as -> by lia. apply (Hend (fs_bio s) l); try done.
    by rewrite Hdk.
Qed.

(** ** Files as lists of bytes *)

Lemma lookup_map_seqZ (G : Z → Z) n i : map G (seqZ 0 n) !! i = if decide (Z.of_nat i < n) then Some (G (Z.of_nat i)) else None.
Proof.
  change (map G (seqZ 0 n)) with (G <$> seqZ 0 n). rewrite list_lookup_fmap. case_decide.
  - by rewrite lookup_seqZ_lt by lia.
  - by rewrite lookup_seqZ_ge by lia.
Qed.

Lemma lookup_put_slot b data off i :
  0 ≤ off ≤ Z.of_nat (length b) →
  put_slot b data off !! i =
    if decide (Z.to_nat off ≤ i < Z.to_nat off + length data)%nat then data !! (i - Z.to_nat off)%nat else b !! i.
Proof.
  intros Ho. unfold put_slot. destruct (decide (i < Z.to_nat off)%nat) as [Hi|Hi].
  - rewrite decide_False by lia. rewrite lookup_app_l by (rewrite length_take; lia). by rewrite lookup_take_lt.
  - rewrite lookup_app_r by (rewrite length_take; lia). rewrite length_take, Nat.min_l by lia. case_decide.
    + by rewrite lookup_app_l by lia.
    + rewrite lookup_app_r by lia. rewrite lookup_drop. f_equal. lia.
Qed.

(** Two stores one after the other are one. *)
Lemma put_slot_app b d1 d2 off :
  0 ≤ off ≤ Z.of_nat (length b) →
  put_slot (put_slot b d1 off) d2 (off + Z.of_nat (length d1)) = put_slot b (d1 ++ d2) off.
Proof.
  intros Ho. apply list_eq. intros i. pose proof (length_put_slot b d1 off Ho).
  rewrite !lookup_put_slot, length_app by (try lia). repeat case_decide; try lia.
  - rewrite lookup_app_r by lia. f_equal. lia.
  - by rewrite lookup_app_l by lia.
  - done.
Qed.

(** The bytes of a file, and those after a write. *)
Definition file_bytes (s : fs) (i : inode) : list Z := map (content (V s) (i_addrs i)) (seqZ 0 (i_size i)).

Lemma length_file_bytes s i : 0 ≤ i_size i → Z.of_nat (length (file_bytes s i)) = i_size i.
Proof. intros Hi. unfold file_bytes. rewrite length_map, length_seqZ. lia. Qed.

Lemma map_put_slot (G H : Z → Z) size src off :
  let n := Z.of_nat (length src) in
  0 ≤ off ≤ size →
  (∀ o, 0 ≤ o < Z.max size (off + n) → H o = if decide (off ≤ o < off + n) then nth (Z.to_nat (o - off)) src 0 else G o) →
  map H (seqZ 0 (Z.max size (off + n))) = put_slot (map G (seqZ 0 size)) src off.
Proof.
  intros n Ho HH. apply list_eq. intros i. rewrite lookup_put_slot by (rewrite length_map, length_seqZ; lia).
  rewrite !lookup_map_seqZ. destruct (decide (Z.of_nat i < Z.max size (off + n))) as [Hi|Hi].
  - rewrite HH by lia. destruct (decide (off ≤ Z.of_nat i < off + n)) as [Hin|Hout].
    + rewrite decide_True by lia. destruct (lookup_lt_is_Some_2 src (i - Z.to_nat off)) as [v Hv]; [lia|]. rewrite Hv.
      f_equal. apply nth_lookup_Some. rewrite <- Hv. f_equal. lia.
    + rewrite decide_False by lia. by rewrite decide_True by lia.
  - rewrite decide_False by lia. by rewrite decide_False by lia.
Qed.

Lemma map_slice (G : Z → Z) size off k :
  0 ≤ off ≤ size → 0 ≤ k →
  map (λ j, G (off + j)) (seqZ 0 (Z.min k (size - off))) = take (Z.to_nat k) (drop (Z.to_nat off) (map G (seqZ 0 size))).
Proof.
  intros Ho Hk. apply list_eq. intros i. rewrite lookup_map_seqZ. destruct (decide (i < Z.to_nat k)%nat) as [Hi|Hi].
  - rewrite lookup_take_lt, lookup_drop, lookup_map_seqZ by lia. repeat case_decide; try lia; [|done]. do 2 f_equal. lia.
  - rewrite lookup_take_ge by lia. by rewrite decide_False by lia.
Qed.

(** ** The inode of a swap file *)

Lemma ilock_free s ip i :
  icache s !! ip = Some i → 1 ≤ i_ref i → i_valid i = true → sl_locked (i_lock i) = false →
  ilock pid s (Some ip) = Ret (iset s ip (with_ilock (mkSleeplock true pid))).
Proof.
  intros Hp Hr Hv Hl. unfold ilock, iptr. rewrite Hp. cbn [obind]. rewrite (proj2 (Z.ltb_ge _ _)) by lia.
  unfold acquiresleep, acquiresleep_try. rewrite Hl. cbn [obind]. by rewrite Hv.
Qed.

Lemma iunlock_held s ip i :
  icache s !! ip = Some i → 1 ≤ i_ref i → sl_locked (i_lock i) = true →
  iunlock s (Some ip) = Ret (iset s ip (with_ilock initsleeplock)).
Proof.
  intros Hp Hr Hl. unfold iunlock, iptr. rewrite Hp. cbn [obind]. unfold holdingsleep. rewrite Hl.
  rewrite (proj2 (Z.ltb_ge _ _)) by lia. done.
Qed.

(** The inode [ip] is that of an ordinary file nobody has locked, in a file
    system at rest. *)
Record swap_inode (ip : nat) (s : fs) (i : inode) : Prop := {
  si_idle : idle s;
  si_at : file_at s ip i;
  si_type : i_type i ≠ T_DEV;
  si_valid : i_valid i = true;
  si_ref : 1 ≤ i_ref i;
  si_lock : sl_locked (i_lock i) = false;
  si_inum : inum_ok s i;
  si_size : 0 ≤ i_size i ≤ MAXFILE * BSIZE;
  si_holes : no_holes (V s) i }.

(** Locking or unlocking the inode leaves the file. *)
Lemma file_at_ilock s ip i lk : file_at s ip i → file_at (iset s ip (with_ilock lk)) ip (with_ilock lk i).
Proof.
  intros [Hp Hd Hok Hl Hm]. split; try done.
  rewrite (iset_insert s s ip i) by done. apply list_lookup_insert_eq. by eapply lookup_lt_Some.
Qed.

(** A file in a state that agrees with [s] above the log. *)
Lemma file_at_agree s s' ip i i' :
  file_at s ip i → agree (sb s) (V s) (V s') → sb s' = sb s → dsize s' = dsize s →
  icache s' !! ip = Some i' → i_dev i' = i_dev i → i_addrs i' = i_addrs i → file_at s' ip i'.
Proof.
  intros [Hp Hd Hok Hl Hm] Hag Hs Hz Hp' Hd' Ha'. split; rewrite ?Hs, ?Hz, ?Ha'; try done; [congruence| |].
  - by eapply (agree_inode (sb s) (dsize s)).
  - intros y Hy. rewrite (agree_used (sb s) (dsize s) (V s)); [by apply Hm|done|done|]. destruct Hl. unfold data_start in Hy. lia.
Qed.

Context (dev_read : Z → option (fs → nat → Z → outcome (Z * list Z * fs)))
        (dev_write : Z → option (fs → nat → list Z → outcome (Z * fs))).

(** Bytes and blocks after the commit are those before it. *)
Lemma swap_inode_agree ip s s' i :
  file_at s ip i → agree (sb s) (V s) (V s') → sb s' = sb s → dsize s' = dsize s → icache s' = icache s → idle s' →
  i_type i ≠ T_DEV → i_valid i = true → 1 ≤ i_ref i → sl_locked (i_lock i) = false → inum_ok s i →
  0 ≤ i_size i ≤ MAXFILE * BSIZE → no_holes (V s) i →
  swap_inode ip s' i ∧ file_bytes s' i = file_bytes s i ∧ nfree (sb s) (V s') = nfree (sb s) (V s).
Proof.
  intros Hf Hag Hs Hz Hic Hid Hty Hv Hr Hlk Hin Hsz Hh. pose proof (fa_layout _ _ _ Hf) as Hl. split_and!.
  - split; try done.
    + apply (file_at_agree s s' ip i); try done. rewrite Hic. apply Hf.
    + unfold inum_ok. by rewrite Hs.
    + intros bn Hbn Hlt. rewrite (agree_addr (sb s) (dsize s) (V s)) by (done || apply Hf). by apply Hh.
  - unfold file_bytes. apply map_ext_in. intros o Ho%list_elem_of_In%elem_of_seqZ.
    apply (agree_content (sb s) (dsize s)); try done; [apply Hf|lia].
  - by apply (agree_nfree _ (dsize s)).
Qed.

(** One turn of [filewrite]: a transaction that writes up to three blocks' worth
    of bytes at any offset of the file. *)
Lemma write_turn ip s i src off :
  let n := Z.of_nat (length src) in
  swap_inode ip s i → 0 ≤ off ≤ i_size i → n ≤ write_max → off + n ≤ MAXFILE * BSIZE → (8 ≤ nfree (sb s) (V s))%nat →
  ∃ s2 s3 s4 s5 i', fbegin_op s = Ret (begun s) ∧ ilock pid (begun s) (Some ip) = Ret s2 ∧
    writei pid dev_write s2 ip src off = Ret (n, s3) ∧ iunlock s3 (Some ip) = Ret s4 ∧ fend_op pid s4 = Ret s5 ∧
    swap_inode ip s5 i' ∧ i_size i' = Z.max (i_size i) (off + n) ∧
    file_bytes s5 i' = put_slot (file_bytes s i) src off ∧ sb s5 = sb s ∧
    (nfree (sb s) (V s) ≤ nfree (sb s5) (V s5) + 8)%nat.
Proof.
  intros n [Hid Hf Hty Hv Hr Hlk Hin Hsz Hh] Hoff Hn Hmax Hfree.
  destruct (begin_idle s Hid) as [Eb Ht]. set (lk := mkSleeplock true pid).
  set (s2 := iset (begun s) ip (with_ilock lk)). set (i2 := with_ilock lk i).
  assert (Hf1 : file_at (begun s) ip i) by (by destruct Hf).
  assert (Hf2 : file_at s2 ip i2) by by apply file_at_ilock.
  set (K := Z.to_nat ((off mod BSIZE + n + BSIZE - 1) / BSIZE)).
  assert (HK : (K ≤ 4)%nat).
  { pose proof (Z.mod_pos_bound off BSIZE ltac:(done)). change write_max with 1536 in Hn.
    assert ((off mod BSIZE + n + BSIZE - 1) / BSIZE < 5) by (apply Z.div_lt_upper_bound; [done|unfold BSIZE in *; lia]). lia. }
  destruct (writei_ok pid dev_write (og := origin_of s) 0 s2 ip i2 src off K) as (s3 & ad & E3 & Ht3 & Hs3 & Hic3 & Hf3 & Hc & _ & Hh3 & Hnf & Hz3); try done.
  { apply (tx_weaken LIM); [exact Ht|unfold LIM; lia]. }
  { change (V s2) with (V s). change (sb s2) with (sb s). lia. }
  fold n in E3, Hic3, Hf3, Hc, Hh3. set (i3 := with_size (Z.max (i_size i2) (off + n)) (with_addrs ad i2)) in *.
  set (s4 := iset s3 ip (with_ilock initsleeplock)). set (i4 := with_ilock initsleeplock i3).
  destruct (end_idle s s4 0 Hid Ht3) as (s5 & E5 & Hid5 & Hag & Hs5 & Hic5 & Hz5); [exact Hs3|exact Hz3|].
  pose proof (file_at_ilock s3 ip i3 initsleeplock Hf3) as Hf4. fold s4 i4 in Hf4.
  destruct (swap_inode_agree ip s4 s5 i4) as (Hsi & Hb & Hn5); try done.
  { unfold inum_ok in *. change (sb s4) with (sb s3). rewrite Hs3. exact Hin. }
  { simpl. lia. }
  { intros bn. by apply (Hh3 Hh). }
  exists s2, s3, s4, s5, i4. split_and!; try done.
  - by apply (ilock_free (begun s) ip i); [apply Hf|..].
  - by apply (iunlock_held s3 ip i3); [apply Hf3|..].
  - rewrite Hb. unfold file_bytes. cbn [i_size i_addrs i4 i3 with_ilock with_size with_addrs i2].
    apply map_put_slot; [lia|]. intros o Ho. change (V s4) with (V s3). rewrite Hc by lia. done.
  - rewrite Hs5. change (sb s4) with (sb s3). done.
  - rewrite Hs5, Hn5. change (sb s4) with (sb s3). change (V s4) with (V s3). rewrite Hs3.
    change (V s2) with (V s) in Hnf. change (sb s2) with (sb s) in Hnf. change (sb s2) with (sb s). lia.
Qed.

(** [fileread] on the inode. *)
Lemma read_turn ip s i off k :
  swap_inode ip s i → 0 ≤ off ≤ i_size i → 0 ≤ k → off + k < 2 ^ 32 →
  let data := take (Z.to_nat k) (drop (Z.to_nat off) (file_bytes s i)) in
  ∃ s1 s2 s3 i', ilock pid s (Some ip) = Ret s1 ∧
    readi pid dev_read s1 ip off k = Ret (Z.of_nat (length data), data, s2) ∧ iunlock s2 (Some ip) = Ret s3 ∧
    swap_inode ip s3 i' ∧ file_bytes s3 i' = file_bytes s i ∧ sb s3 = sb s ∧ nfree (sb s3) (V s3) = nfree (sb s) (V s).
Proof.
  intros [Hid Hf Hty Hv Hr Hlk Hin Hsz Hh] Hoff Hk Hw data. set (lk := mkSleeplock true pid).
  set (s1 := iset s ip (with_ilock lk)). set (i1 := with_ilock lk i).
  assert (Hf1 : file_at s1 ip i1) by by apply file_at_ilock.
  destruct (readi_rx pid dev_read [] s1 ip i1 off k) as (s2 & E2 & Hx2 & Hu2); try done; [apply Hid|apply Hsz|].
  pose proof (file_at_untouched _ _ _ _ Hf1 Hu2) as Hf2. pose proof (idle_untouched _ _ (idle_iset s ip (with_ilock lk) Hid) Hu2 Hx2) as Hid2.
  pose proof Hu2 as (HV & (Hs & _ & _) & _).
  set (s3 := iset s2 ip (with_ilock initsleeplock)). set (i3 := with_ilock initsleeplock i1).
  pose proof (file_at_ilock s2 ip i1 initsleeplock Hf2) as Hf3. fold s3 i3 in Hf3.
  assert (HV3 : V s3 = V s) by exact HV. assert (Hs3 : sb s3 = sb s) by exact Hs.
  exists s1, s2, s3, i3. split_and!; try done.
  - by apply (ilock_free s ip i); [apply Hf|..].
  - rewrite E2. cbn [i_size i_addrs i1 with_ilock]. change (V s1) with (V s).
    rewrite (map_slice (content (V s) (i_addrs i))) by lia. fold (file_bytes s i). fold data. do 3 f_equal.
    unfold data. rewrite length_take, length_drop. pose proof (length_file_bytes s i (proj1 Hsz)). lia.
  - by apply (iunlock_held s2 ip i1); [apply Hf2|..].
  - split; try done; [by apply idle_iset|unfold inum_ok; by rewrite Hs3|by rewrite HV3].
  - unfold file_bytes. by rewrite HV3.
  - by rewrite HV3, Hs3.
Qed.

(** ** The open file *)

Context (f ip : nat).

(** [f] is the open file of the swap file, whose inode is [ip]. *)
Record swap_file (k : fkern) (x : file) (i : inode) : Prop := {
  sf_file : ftable k !! f = Some x;
  sf_type : f_type x = FD_INODE;
  sf_ip : f_ip x = ip;
  sf_modes : f_readable x = true ∧ f_writable x = true;
  sf_inode : swap_inode ip (kfs k) i }.

Lemma fptr_file k x : ftable k !! f = Some x → fptr k f = Ret x.
Proof. intros Hx. unfold fptr. by rewrite Hx. Qed.

Lemma fset_file k x h : ftable k !! f = Some x → ftable (fset k f h) !! f = Some (h x).
Proof. intros Hx. simpl. by rewrite list_lookup_alter_eq, Hx. Qed.

Lemma swap_file_off k x i s o i' : swap_file k x i → swap_inode ip s i' → swap_file (set_fs (fset k f (with_off o)) s) (with_off o x) i'.
Proof. intros [Hx Ht Hi Hm _] Hsi. split; try done. by apply (fset_file k x). Qed.

Lemma put_slot_nil b off : put_slot b [] off = b.
Proof. unfold put_slot. simpl. rewrite Nat.add_0_r. apply take_drop. Qed.

Lemma filewrite_loop_swap T fuel k x i src m :
  swap_file k x i → 0 ≤ f_off x ≤ i_size i → f_off x + Z.of_nat (length src) ≤ MAXFILE * BSIZE →
  Z.of_nat (length src) ≤ write_max * Z.of_nat T → (T < fuel)%nat → (8 * T + m ≤ nfree (sb (kfs k)) (V (kfs k)))%nat →
  ∃ k' x' i', filewrite_loop pid dev_write fuel k f src = Ret (true, k') ∧ swap_file k' x' i' ∧
    file_bytes (kfs k') i' = put_slot (file_bytes (kfs k) i) src (f_off x) ∧ (m ≤ nfree (sb (kfs k')) (V (kfs k')))%nat.
Proof.
  revert fuel k x i src. induction T as [|T IH]; intros fuel k x i src Hsf Hoff Hmax Hlen Hfuel Hfree;
    (destruct fuel as [|fuel]; [lia|]); cbn [filewrite_loop];
    (destruct src as [|c0 src0]; [|set (src := c0 :: src0) in *; assert (Hpos : 0 < Z.of_nat (length src)) by (simpl; lia); clearbody src]).
  1, 3: exists k, x, i; split_and!; [done|done|by rewrite put_slot_nil|lia].
  { lia. }
  pose proof Hsf as [Hx Hty Hip Hmo Hsi]. rewrite (fptr_file k x Hx). cbn [obind].
  set (n1 := Z.min (Z.of_nat (length src)) write_max). change write_max with 1536 in *.
  assert (Hlt : Z.of_nat (length (take (Z.to_nat n1) src)) = n1) by (rewrite length_take; lia).
  destruct (write_turn ip (kfs k) i (take (Z.to_nat n1) src) (f_off x) Hsi Hoff) as
    (s2 & s3 & s4 & s5 & i' & E1 & E2 & E3 & E4 & E5 & Hsi' & Hsz' & Hb & Hs & Hnf); try (change write_max with 1536); try lia.
  rewrite Hip, E1. cbn [obind]. rewrite E2. cbn [obind]. rewrite E3. cbn [obind]. rewrite Hlt in *.
  rewrite (proj2 (Z.gtb_lt _ _)) by lia. change (kfs (fset (set_fs k s3) f (with_off (u32 (f_off x + n1))))) with s3.
  rewrite E4. cbn [obind]. rewrite E5. cbn [obind]. rewrite (proj2 (Z.ltb_ge _ _)) by lia. rewrite Z.eqb_refl. cbn [negb].
  assert (Hmf : MAXFILE * BSIZE = 71680) by reflexivity. rewrite u32_small by (unfold is_u32; lia).
  set (k3 := set_fs (fset (set_fs k s3) f (with_off (f_off x + n1))) s5).
  assert (Hld : Z.of_nat (length (drop (Z.to_nat n1) src)) = Z.of_nat (length src) - n1) by (rewrite length_drop; lia).
  destruct (IH fuel k3 (with_off (f_off x + n1) x) i' (drop (Z.to_nat n1) src)) as (k' & x' & j & E & Hsf' & Hb' & Hm');
    try (cbn [f_off with_off]); try (change write_max with 1536); try lia.
  { exact (swap_file_off k x i s5 _ i' Hsf Hsi'). }
  { change (kfs k3) with s5. lia. }
  exists k', x', j. split; [exact E|]. split; [done|]. split; [|done]. rewrite Hb'. change (kfs k3) with s5.
  cbn [f_off with_off]. rewrite Hb. replace (f_off x + n1) with (f_off x + Z.of_nat (length (take (Z.to_nat n1) src))) by lia.
  rewrite put_slot_app; [by rewrite take_drop|].
  rewrite length_file_bytes; [done|]. by destruct (si_size _ _ _ Hsi).
Qed.

(** ** The two calls as the operations of the pager *)

(** The number of free blocks a page may take: eight for each of three turns. *)
Definition page_blocks : nat := 24.

#[local] Instance swap_file_ops : SwapOps fkern := {
  swap_read k off n :=
    let! r := readFromSwapFile dev_read pid k f off n in
    match r with FRet v l k' => Ret (v, l, k') | FSleep _ _ => Sleeps "pipe" end;
  swap_write k data off :=
    let! r := writeToSwapFile dev_write pid k f data off in
    match r with FRet v _ k' => Ret (v, k') | FSleep _ _ => Sleeps "pipe" end }.

#[local] Instance swap_file_view : SwapView fkern := {
  swap_bytes k := match icache (kfs k) !! ip with Some i => file_bytes (kfs k) i | None => [] end;
  swap_room k n := ∃ x i, swap_file k x i ∧ (page_blocks * n ≤ nfree (sb (kfs k)) (V (kfs k)))%nat }.

Lemma swap_bytes_file k x i : swap_file k x i → swap_bytes k = file_bytes (kfs k) i.
Proof. intros [_ _ _ _ Hsi]. simpl. by rewrite (fa_ptr _ _ _ (si_at _ _ _ Hsi)). Qed.

Lemma write_page k x i data off n :
  swap_file k x i → (page_blocks * S n ≤ nfree (sb (kfs k)) (V (kfs k)))%nat → 0 ≤ off ≤ i_size i →
  Z.of_nat (length data) ≤ PGSIZE → off + Z.of_nat (length data) ≤ MAXFILE * BSIZE →
  ∃ k' x' i', writeToSwapFile dev_write pid k f data off = Ret (FRet (Z.of_nat (length data)) [] k') ∧ swap_file k' x' i' ∧
    (page_blocks * n ≤ nfree (sb (kfs k')) (V (kfs k')))%nat ∧
    file_bytes (kfs k') i' = put_slot (file_bytes (kfs k) i) data off.
Proof.
  intros Hsf Hfree Hoff Hlen Hmax. unfold writeToSwapFile, filewrite, page_blocks in *.
  pose proof (swap_file_off k x i (kfs k) off i Hsf (sf_inode _ _ _ Hsf)) as Hsf1.
  change (set_fs (fset k f (with_off off)) (kfs k)) with (fset k f (with_off off)) in Hsf1.
  pose proof Hsf1 as [Hx Ht _ [_ Hw] _]. rewrite (fptr_file _ _ Hx). cbn [obind]. rewrite Hw, Ht. cbn [negb].
  set (T := Z.to_nat ((Z.of_nat (length data) + 1535) / 1536)).
  pose proof (Z.div_mod (Z.of_nat (length data) + 1535) 1536 ltac:(done)) as Hdm.
  pose proof (Z.mod_pos_bound (Z.of_nat (length data) + 1535) 1536 ltac:(done)) as Hmb. unfold PGSIZE in Hlen.
  destruct (filewrite_loop_swap T (S (length data)) _ _ i data (24 * n) Hsf1) as (k' & x' & i' & E & Hsf' & Hb & Hm);
    try done; change write_max with 1536; try lia.
  { change (kfs (fset k f (with_off off))) with (kfs k). lia. }
  rewrite E. cbn [obind]. by exists k', x', i'.
Qed.

Lemma read_page k x i off n m :
  swap_file k x i → (page_blocks * m ≤ nfree (sb (kfs k)) (V (kfs k)))%nat → 0 ≤ off ≤ i_size i → 0 ≤ n ≤ PGSIZE →
  let data := take (Z.to_nat n) (drop (Z.to_nat off) (file_bytes (kfs k) i)) in
  ∃ k' x' i', readFromSwapFile dev_read pid k f off n = Ret (FRet (Z.of_nat (length data)) data k') ∧ swap_file k' x' i' ∧
    (page_blocks * m ≤ nfree (sb (kfs k')) (V (kfs k')))%nat ∧ file_bytes (kfs k') i' = file_bytes (kfs k) i.
Proof.
  intros Hsf Hfree Hoff Hn data. unfold readFromSwapFile, fileread.
  pose proof (swap_file_off k x i (kfs k) off i Hsf (sf_inode _ _ _ Hsf)) as Hsf1.
  change (set_fs (fset k f (with_off off)) (kfs k)) with (fset k f (with_off off)) in Hsf1.
  pose proof Hsf1 as [Hx Ht Hip [Hr _] Hsi]. rewrite (fptr_file _ _ Hx). cbn [obind]. rewrite Hr, Ht, Hip. cbn [negb].
  assert (Hmf : MAXFILE * BSIZE = 71680) by reflexivity. pose proof (si_size _ _ _ Hsi) as Hsz. unfold PGSIZE in Hn.
  change (kfs (fset k f (with_off off))) with (kfs k) in *. cbn [f_off with_off]. rewrite (u32_small n) by (unfold is_u32; lia).
  destruct (read_turn ip (kfs k) i off n Hsi Hoff) as (s1 & s2 & s3 & i' & E1 & E2 & E3 & Hsi' & Hb & Hs & Hnf); [lia|lia|].
  fold data in E2. assert (Hdl : Z.of_nat (length data) ≤ 4096) by (unfold data; rewrite length_take; lia).
  assert (Hs32 : s32 (Z.of_nat (length data)) = Z.of_nat (length data)).
  { rewrite <- (u32_small (Z.of_nat (length data))) at 1 by (unfold is_u32; lia). apply s32_u32. lia. }
  rewrite E1. cbn [obind]. rewrite E2. cbn [obind fst snd]. rewrite Hs32.
  set (k2 := if Z.of_nat (length data) >? 0 then _ else _).
  assert (Hk2 : kfs k2 = s2 ∧ ∃ o, set_fs k2 s3 = set_fs (fset k f (with_off o)) s3).
  { unfold k2. destruct (Z.of_nat (length data) >? 0); split; try done.
    - exists (u32 (off + Z.of_nat (length data))). unfold fset, set_ftable, set_fs. simpl. f_equal.
      apply list_eq. intros j. destruct (decide (j = f)) as [->|Hj].
      + rewrite !list_lookup_alter_eq. by destruct (ftable k !! f).
      + by rewrite !list_lookup_alter_ne by done.
    - by exists off. }
  destruct Hk2 as [Hk2 [o Ho]]. rewrite Hk2, E3. cbn [obind]. rewrite Ho.
  exists (set_fs (fset k f (with_off o)) s3), (with_off o x), i'. split; [done|]. split; [by apply (swap_file_off k x i)|].
  change (kfs (set_fs (fset k f (with_off o)) s3)) with s3. rewrite Hnf. done.
Qed.

(** The swap file of the file system is one the pager can rely on. *)
#[local] Instance swap_file_laws : SwapLaws fkern.
Proof.
  split.
  - intros k n (x & i & Hsf & Hfree). exists x, i. split; [done|]. lia.
  - intros k data off n (x & i & Hsf & Hfree) Ho Hl Hm. rewrite (swap_bytes_file k x i Hsf) in *.
    rewrite length_file_bytes in Ho by apply (si_size _ _ _ (sf_inode _ _ _ Hsf)).
    destruct (write_page k x i data off n Hsf Hfree Ho Hl Hm) as (k' & x' & i' & E & Hsf' & Hfree' & Hb).
    exists k'. split; [simpl; by rewrite E|]. split; [by exists x', i'|]. by rewrite (swap_bytes_file k' x' i' Hsf').
  - intros k off n m (x & i & Hsf & Hfree) Ho Hn. rewrite (swap_bytes_file k x i Hsf) in *.
    rewrite length_file_bytes in Ho by apply (si_size _ _ _ (sf_inode _ _ _ Hsf)).
    destruct (read_page k x i off n m Hsf Hfree Ho Hn) as (k' & x' & i' & E & Hsf' & Hfree' & Hb).
    exists k'. split; [simpl; by rewrite E|]. split; [by exists x', i'|]. by rewrite (swap_bytes_file k' x' i' Hsf').
Qed.

(** ** The property *)

(** C2: page faults on paged-out pages are transparent, whichever replacement
    policy the kernel is built with, with the swap file in the file system.  For
    a process whose metadata, page table and swap file agree, whose queue is as
    its policy keeps it, and whose swap file, open and in a file system at rest,
    finds the free blocks for one more page, [safe_page_in] at any address of a
    page that is out succeeds, evicting a resident page when 16 are: the page is
    resident afterwards, at most 16 pages are, the same agreement holds again,
    every page of the process, wherever it is kept, has the contents it had
    before, and pages of others are untouched. *)
Theorem safe_page_in_transparent kend pol s (p : pproc fkern) free T E other l i q w :
  KERNBASE + EXTMEM ≤ kend → uv_rep kend s p free T E other → queue_ok pol (pp_meta p) l →
  pages (pp_meta p) !! i = Some q → p_exists q = 1 → in_back q = 1 → vaddr q ≠ 0 ∨ i = O →
  Z.of_nat (length l) ≤ MAX_PSYC_PAGES → (Z.of_nat (length l) < MAX_PSYC_PAGES → free ≠ []) →
  numOfPagedOut (pp_meta p) ≤ MAX_PSYC_PAGES → swap_room (pp_swap p) (S w) →
  ∃ s' p' free' E' l' j r, ∀ va, is_u32 va → va / PGSIZE = vaddr q / PGSIZE →
    safe_page_in kend pol s p va = Ret (1, s', p') ∧ uv_rep kend s' p' free' T E' other ∧
    queue_ok pol (pp_meta p') l' ∧ Z.of_nat (length l') ≤ MAX_PSYC_PAGES ∧ swap_room (pp_swap p') w ∧
    pages (pp_meta p') !! j = Some r ∧ p_exists r = 1 ∧ in_back r = 0 ∧ vaddr r = vaddr q ∧
    (∀ x, x ∈ other → same_page (memory s) (memory s') x) ∧
    ∀ va d, user_data s p E va d → user_data s' p' E' va d.
Proof. intros Hk. apply (safe_page_in_spec kend Hk). Qed.
End swapdata.

(** The process of 17 pages with the page that is out in the file of [page_fs],
    open as file 0. *)
Definition swap_kern : fkern :=
  mkFkern [mkFile FD_INODE 1 true true 0 0 0] page_fs (mkKstate (λ _, 0) 0 1 0) (λ _, Pipe.pipe_init (replicate 512 0)).

Lemma page_fs_idle : idle page_fs.
Proof. destruct page_fs_V as (Hx & _ & _). split; done. Qed.

Lemma swap_kern_file : swap_file 0 0 swap_kern (mkFile FD_INODE 1 true true 0 0 0) page_file.
Proof.
  split; try done. split; try done; [apply page_fs_idle|apply page_fs_at|apply page_fs_holes].
Qed.

Lemma swap_kern_bytes : swap_bytes (SwapView := swap_file_view 0 0) swap_kern = concat (map (replicate 512) (seqZ 1 8)).
Proof.
  rewrite (swap_bytes_file 0 0 _ _ _ swap_kern_file). unfold file_bytes. simpl kfs.
  destruct page_fs_V as (_ & -> & _). vm_compute. reflexivity.
Qed.

Lemma swap_kern_room : swap_room (SwapView := swap_file_view 0 0) swap_kern 1.
Proof.
  eexists _, _. split; [exact swap_kern_file|]. simpl kfs. destruct page_fs_V as (_ & -> & _). vm_compute. lia.
Qed.

Lemma swap_kern_rep :
  uv_rep (SwapView0 := swap_file_view 0 0) (KERNBASE + EXTMEM) full_kernel (full_out swap_kern) [] demo_T full_E [].
Proof.
  apply full_uv_rep; rewrite swap_kern_bytes; [by vm_compute|]. apply (bool_decide_unpack _). vm_compute. done.
Qed.

(** A fault on the page that is out brings it in, with a resident page evicted
    to the disk. *)
Definition faults_in (pol : policy) : Prop :=
  ∃ s' p' E', safe_page_in (SwapOps0 := swap_file_ops 1 (λ _, None) (λ _, None) 0) (KERNBASE + EXTMEM) pol
      full_kernel (full_out swap_kern) 0x10123 = Ret (1, s', p') ∧
    ∀ va d, user_data (SwapView0 := swap_file_view 0 0) full_kernel (full_out swap_kern) full_E va d →
      user_data (SwapView0 := swap_file_view 0 0) s' p' E' va d.

(** Under a policy that scans the ages and under one that takes the page from
    the queue. *)
Lemma safe_page_in_transparent_witness : faults_in NFUA ∧ faults_in SCFIFO.
Proof.
  split.
  - destruct (safe_page_in_transparent 1 (λ _, None) (λ _, None) 0 0 (KERNBASE + EXTMEM) NFUA full_kernel (full_out swap_kern)
      [] demo_T full_E [] (new_pages 16) 16 (mkPage 1 65536 1 0 0 0xffffffff) 0 (Z.le_refl _) swap_kern_rep (full_queue NFUA)
      eq_refl eq_refl eq_refl ltac:(by left) (Z.le_refl 16) ltac:(done) ltac:(done) swap_kern_room)
      as (s' & p' & f' & E' & l' & j & r & H).
    destruct (H 0x10123) as (He & _ & _ & _ & _ & _ & _ & _ & _ & _ & Hd); [done|done|]. exists s', p', E'. exact (conj He Hd).
  - destruct (safe_page_in_transparent 1 (λ _, None) (λ _, None) 0 0 (KERNBASE + EXTMEM) SCFIFO full_kernel (full_out swap_kern)
      [] demo_T full_E [] (new_pages 16) 16 (mkPage 1 65536 1 0 0 0xffffffff) 0 (Z.le_refl _) swap_kern_rep (full_queue SCFIFO)
      eq_refl eq_refl eq_refl ltac:(by left) (Z.le_refl 16) ltac:(done) ltac:(done) swap_kern_room)
      as (s' & p' & f' & E' & l' & j & r & H).
    destruct (H 0x10123) as (He & _ & _ & _ & _ & _ & _ & _ & _ & _ & Hd); [done|done|]. exists s', p', E'. exact (conj He Hd).
Defined.
