(* ===== verification/Sysproc.v ===== *)
(** * The process system calls (sysproc.c)

    Each call reads its arguments from the caller's memory and calls the
    operation of the process table; [sys_sleep] is split at its sleep. *)
From stdpp Require Import base list strings.
From Stdlib Require Import ZArith Lia.
From S2P Require Import Prelude Mmu Memory Spinlock Proc Syscall.

Section sysproc.
  Context {K : Type} `{!KernelOps K} (forkret : Z).
  (** The processor and its state, the slot of [myproc()], and the memory of the caller. *)
  Context (c : nat) (cp : cpu) (me : nat) (um : mem).

Definition sys_yield (st : kern K) : outcome (Z * kern K) :=
  let! st1 := yield st c cp me in Ret (0, st1).

Definition sys_fork (st : kern K) : outcome (Z * kern K) := fork forkret st me.

(** [exit] ends in the scheduler; the return value is not reached. *)
Definition sys_exit (st : kern K) : outcome (kern K) := exit st c cp me.

Definition sys_wait (st : kern K) : outcome (wait_result * kern K) := wait st c cp me.

Definition sys_kill (st : kern K) : outcome (Z * kern K) :=
  let! p := get_proc st me in
  match argint p um 0 with
  | None => Ret (-1, st)
  | Some pid => Ret (kill st pid)
  end.

Definition sys_getpid (st : kern K) : outcome Z :=
  let! p := get_proc st me in Ret (p_pid p).

Definition sys_sbrk (st : kern K) : outcome (Z * kern K) :=
  let! p := get_proc st me in
  match argint p um 0 with
  | None => Ret (-1, st)
  | Some n =>
      let! (r, st1) := growproc st me n in
      if Z.ltb r 0 then Ret (-1, st1) else Ret (s32 (p_sz p), st1)
  end.
End sysproc.

(** A test of the loop of [sys_sleep]: it returns 0 or -1, or sleeps on [ticks]. *)
Inductive nap := Awake (r : Z) | Asleep.

(** [ticks - ticks0 < n] compares unsigned numbers. *)
Definition sleep_test (ticks ticks0 n : Z) (killed : bool) : nap :=
  if Z.ltb (u32 (ticks - ticks0)) (u32 n) then if killed then Awake (-1) else Asleep else Awake 0.

(** The call at tick [ticks0]: the tests at that tick and at each later one it
    wakes at, with [killed] as it then is. *)
Fixpoint sys_sleep (ticks0 n : Z) (ticks : list (Z * bool)) : nap :=
  match ticks with
  | [] => Asleep
  | (t, killed) :: ticks' =>
      match sleep_test t ticks0 n killed with
      | Awake r => Awake r
      | Asleep => sys_sleep ticks0 n ticks'
      end
  end.

Definition sys_uptime (ticks : Z) : Z := s32 ticks.

(** A process that is not killed sleeps until [n] ticks have passed, also when
    the tick counter wraps. *)
Lemma sleep_test_spec ticks0 k n :
  is_u32 ticks0 → 0 ≤ n < 2 ^ 31 → 0 ≤ k < 2 ^ 32 →
  sleep_test (u32 (ticks0 + k)) ticks0 n false = if decide (k < n) then Asleep else Awake 0.
Proof.
  intros Ht Hn Hk. unfold sleep_test. rewrite (u32_small n) by (unfold is_u32; lia).
  replace (u32 (u32 (ticks0 + k) - ticks0)) with k.
  - destruct (Z.ltb_spec k n); [by rewrite decide_True|by rewrite decide_False by lia].
  - unfold u32. rewrite Zminus_mod_idemp_l. replace (ticks0 + k - ticks0) with k by lia. by rewrite Z.mod_small.
Qed.

(** A negative count is taken as a large one. *)
Lemma sleep_negative ticks0 k n :
  is_u32 ticks0 → - 2 ^ 31 ≤ n < 0 → 0 ≤ k < 2 ^ 31 → sleep_test (u32 (ticks0 + k)) ticks0 n false = Asleep.
Proof.
  intros Ht Hn Hk. unfold sleep_test. replace (u32 (u32 (ticks0 + k) - ticks0)) with k.
  - replace (u32 n) with (n + 2 ^ 32).
    + by rewrite (proj2 (Z.ltb_lt k (n + 2 ^ 32))) by lia.
    + unfold u32. rewrite <-(Z_mod_plus_full n 1). rewrite Z.mod_small; lia.
  - unfold u32. rewrite Zminus_mod_idemp_l. replace (ticks0 + k - ticks0) with k by lia. rewrite Z.mod_small; lia.
Qed.
