(* ===== verification/Umalloc.v ===== *)
(** * The user-level allocator (umalloc.c)

    Blocks of memory start with a header of eight bytes, a pointer and a size in
    units of a header.  Free blocks form a ring in the order of their addresses,
    through the static header [base].  The theorems show that the blocks handed
    out never overlap, whatever the program does inside them. *)
From stdpp Require Import base list strings.
From Stdlib Require Import ZArith Lia.
From S2P Require Import Prelude Mmu.

(** [sizeof(Header)]. *)
Definition HEADER : Z := 8.

(** The fields of the headers, by their address; [freep], 0 before the first
    call; and the end of the memory of the process. *)
Record heap := mkHeap { ptr : Z → Z; size : Z → Z; freep : Z; brk : Z }.

Definition set_ptr (h : heap) (a v : Z) : heap := mkHeap (upd (ptr h) a v) (size h) (freep h) (brk h).
Definition set_size (h : heap) (a v : Z) : heap := mkHeap (ptr h) (upd (size h) a v) (freep h) (brk h).
Definition set_freep (h : heap) (p : Z) : heap := mkHeap (ptr h) (size h) p (brk h).
Definition set_brk (h : heap) (b : Z) : heap := mkHeap (ptr h) (size h) (freep h) b.

Section umalloc.
  (** [&base], and whether the kernel has memory to grow the process at a given
      break by a given amount. *)
  Context (base : Z) (has_memory : Z → Z → bool).

(** The loop of [free] that looks for the place of [bp] in the ring. *)
Fixpoint free_search (fuel : nat) (h : heap) (bp p : Z) : outcome Z :=
  match fuel with
  | O => NoFuel
  | S fuel =>
      if Z.gtb bp p && Z.ltb bp (ptr h p) then Ret p
      else if Z.geb p (ptr h p) && (Z.gtb bp p || Z.ltb bp (ptr h p)) then Ret p
      else free_search fuel h bp (ptr h p)
  end.

(** [bp] joins the ring after [p], and its neighbours when they touch. *)
Definition free_link (h : heap) (bp p : Z) : heap :=
  let h1 :=
    if Z.eqb (bp + HEADER * size h bp) (ptr h p)
    then set_ptr (set_size h bp (size h bp + size h (ptr h p))) bp (ptr h (ptr h p))
    else set_ptr h bp (ptr h p) in
  let h2 :=
    if Z.eqb (p + HEADER * size h1 p) bp
    then set_ptr (set_size h1 p (size h1 p + size h1 bp)) p (ptr h1 bp)
    else set_ptr h1 p bp in
  set_freep h2 p.

Definition free (fuel : nat) (h : heap) (ap : Z) : outcome heap :=
  let bp := ap - HEADER in
  let! p := free_search fuel h bp (freep h) in
  Ret (free_link h bp p).

(** The system call: the old break, or -1. *)
Definition sbrk (h : heap) (n : Z) : Z * heap :=
  if has_memory (brk h) n && Z.ltb (brk h + n) KERNBASE then (brk h, set_brk h (brk h + n)) else (-1, h).

(** The null pointer is 0. *)
Definition morecore (fuel : nat) (h : heap) (nu : Z) : outcome (Z * heap) :=
  let nu := if Z.ltb nu 4096 then 4096 else nu in
  let '(p, h1) := sbrk h (s32 (u32 (nu * HEADER))) in
  if Z.eqb p (-1) then Ret (0, h1)
  else
    let! h2 := free fuel (set_size h1 p nu) (p + HEADER) in
    Ret (freep h2, h2).

(** [nunits] units of the free block [p], whose predecessor is [prevp]: the whole
    block, or its tail end. *)
Definition carve (h : heap) (nunits prevp p : Z) : Z * heap :=
  if Z.eqb (size h p) nunits then (p + HEADER, set_freep (set_ptr h prevp (ptr h p)) prevp)
  else
    let h1 := set_size h p (size h p - nunits) in
    let p' := p + HEADER * size h1 p in
    (p' + HEADER, set_freep (set_size h1 p' nunits) prevp).

(** The search of [malloc] from [p], whose predecessor is [prevp]. *)
Fixpoint malloc_loop (fuel : nat) (h : heap) (nunits prevp p : Z) : outcome (Z * heap) :=
  match fuel with
  | O => NoFuel
  | S fuel =>
      if Z.geb (size h p) nunits then Ret (carve h nunits prevp p)
      else if Z.eqb p (freep h) then
        let! (q, h1) := morecore fuel h nunits in
        if Z.eqb q 0 then Ret (0, h1) else malloc_loop fuel h1 nunits q (ptr h1 q)
      else malloc_loop fuel h nunits p (ptr h p)
  end.

Definition units (nbytes : Z) : Z := u32 (nbytes + HEADER - 1) / HEADER + 1.

Definition malloc (fuel : nat) (h : heap) (nbytes : Z) : outcome (Z * heap) :=
  let nunits := units nbytes in
  let h := if Z.eqb (freep h) 0 then set_size (set_freep (set_ptr h base base) base) base 0 else h in
  malloc_loop fuel h nunits (freep h) (ptr h (freep h)).

(** ** The ring *)

(** A block: the address of its header and its size in units. *)
Abbreviation block := (Z * Z)%type (only parsing).
Definition bend (x : block) : Z := x.1 + HEADER * x.2.
Definition first (e : Z) (F : list block) : Z := match F with [] => e | x :: _ => x.1 end.

(** The headers of [F] hold their sizes and lead one to the next, the last to [e]. *)
Fixpoint seg (h : heap) (F : list block) (e : Z) : Prop :=
  match F with
  | [] => True
  | x :: F' => size h x.1 = x.2 ∧ ptr h x.1 = first e F' ∧ seg h F' e
  end.

(** Blocks in order between [lo] and [hi], no two of them touching. *)
Fixpoint asc (lo : Z) (F : list block) (hi : Z) : Prop :=
  match F with
  | [] => lo ≤ hi
  | x :: F' => lo < x.1 ∧ 0 ≤ x.2 ∧ asc (bend x) F' hi
  end.

Definition disj (x y : block) : Prop := bend x ≤ y.1 ∨ bend y ≤ x.1.
Fixpoint apart (L : list block) : Prop :=
  match L with [] => True | x :: L' => Forall (disj x) L' ∧ apart L' end.

Lemma first_app e F G : first e (F ++ G) = first (first e G) F.
Proof. by destruct F. Qed.

Lemma seg_app h F G e : seg h (F ++ G) e ↔ seg h F (first e G) ∧ seg h G e.
Proof. induction F as [|x F IH]; simpl; [tauto|]. rewrite IH, first_app. tauto. Qed.

Lemma seg_ext h h' F e :
  (∀ x, x ∈ F → ptr h' x.1 = ptr h x.1 ∧ size h' x.1 = size h x.1) → seg h F e → seg h' F e.
Proof.
  induction F as [|x F IH]; simpl; [done|]. intros Hx (Hs & Hp & Hr). destruct (Hx x ltac:(left)) as [-> ->].
  split_and!; [done|done|]. apply IH; [|done]. intros y Hy. apply Hx. by right.
Qed.

Lemma asc_le lo F hi : asc lo F hi → lo ≤ hi.
Proof. revert lo. induction F as [|x F IH]; intros lo; simpl; [done|]. unfold bend, HEADER in *. intros (? & ? & ?%IH). lia. Qed.

Lemma asc_elem lo F hi x : asc lo F hi → x ∈ F → lo < x.1 ∧ 0 ≤ x.2 ∧ bend x ≤ hi.
Proof.
  revert lo. induction F as [|y F IH]; intros lo; simpl; [by intros _ ?%elem_of_nil|]. intros (H1 & H2 & H3) [->|Hx]%elem_of_cons.
  - split_and!; [done|done|by apply asc_le in H3].
  - destruct (IH _ H3 Hx) as (? & ? & ?). unfold bend, HEADER in *. split_and!; [lia|done|done].
Qed.

(** Where the blocks end. *)
Definition fin (lo : Z) (F : list block) : Z := foldl (λ _ x, bend x) lo F.

Lemma asc_app lo F G hi : asc lo (F ++ G) hi ↔ asc lo F (fin lo F) ∧ asc (fin lo F) G hi.
Proof.
  revert lo. induction F as [|x F IH]; intros lo; simpl; [split; [split; [unfold fin; simpl; lia|done]|tauto]|].
  rewrite IH. change (fin lo (x :: F)) with (fin (bend x) F). tauto.
Qed.

Lemma asc_weaken lo lo' F hi hi' : asc lo F hi → lo' ≤ lo → hi ≤ hi' → asc lo' F hi'.
Proof.
  revert lo lo'. induction F as [|x F IH]; intros lo lo'; simpl; [lia|]. intros (? & ? & ?) ? ?. split_and!; [lia|done|].
  eapply IH; [done|lia|done].
Qed.

(** Blocks before and after a position. *)
Lemma asc_before lo F x G hi y : asc lo (F ++ x :: G) hi → y ∈ F → bend y < x.1.
Proof.
  revert lo. induction F as [|z F IH]; intros lo; [by intros _ ?%elem_of_nil|]. simpl. intros (_ & _ & H) [->|Hy]%elem_of_cons.
  - destruct F as [|w F]; simpl in H; [tauto|]. destruct H as (? & ? & H).
    assert (bend w ≤ x.1) by (destruct (asc_elem _ _ _ x H) as (? & _); [apply elem_of_app; right; left|lia]).
    unfold bend, HEADER in *. lia.
  - by eapply IH.
Qed.

Lemma asc_after lo F x G hi y : asc lo (F ++ x :: G) hi → y ∈ G → bend x < y.1.
Proof. rewrite asc_app. simpl. intros (_ & _ & _ & H) Hy. by destruct (asc_elem _ _ _ _ H Hy) as (? & _). Qed.

Lemma asc_pos lo F hi x : asc lo F hi → x ∈ F → x.1 ≤ bend x.
Proof. intros H Hx. destruct (asc_elem _ _ _ _ H Hx) as (_ & ? & _). unfold bend, HEADER. lia. Qed.

(** A ring read from another of its nodes. *)
Lemma seg_rotate h F G e : seg h (F ++ G) e → first e (F ++ G) = e → seg h (G ++ F) (first e G).
Proof.
  rewrite !seg_app, first_app. intros [HF HG] He. split; [by rewrite He|done].
Qed.

(** ** The search of [free] *)

Definition stops (h : heap) (bp p : Z) : bool :=
  (Z.gtb bp p && Z.ltb bp (ptr h p)) || (Z.geb p (ptr h p) && (Z.gtb bp p || Z.ltb bp (ptr h p))).

Lemma free_search_path h bp R1 p R2 e fuel :
  seg h (R1 ++ p :: R2) e → (∀ x, x ∈ R1 → stops h bp x.1 = false) → stops h bp p.1 = true → (length R1 < fuel)%nat →
  free_search fuel h bp (first e (R1 ++ p :: R2)) = Ret p.1.
Proof.
  revert fuel. induction R1 as [|x R1 IH]; intros fuel Hseg Hno Hyes Hf; (destruct fuel as [|fuel]; [simpl in Hf; lia|]);
    cbn [free_search first app].
  - unfold stops in Hyes. destruct (Z.gtb bp p.1 && _); [done|]. simpl in Hyes. by rewrite Hyes.
  - pose proof (Hno x ltac:(left)) as Hx. unfold stops in Hx. apply orb_false_iff in Hx as [H1 H2].
    rewrite H1, H2. destruct Hseg as (_ & Hp & Hseg). rewrite Hp. apply IH; [done| |done|simpl in Hf; lia].
    intros y Hy. apply Hno. by right.
Qed.

(** The ring: its first node is [base], and every block below [bp] ends there. *)
Section place.
  Context (h : heap) (F1 F2 : list block) (p : block) (bp hi : Z).
  Context (Hseg : seg h (F1 ++ p :: F2) base) (Hhead : first base (F1 ++ p :: F2) = base)
          (Hasc : asc (base - 1) (F1 ++ p :: F2) hi) (Hp : p.1 < bp) (Hnext : Forall (λ x, bp < x.1) F2).

Lemma stops_place : stops h bp p.1 = true.
Proof.
  apply seg_app in Hseg as (_ & _ & Hptr & _). unfold stops. rewrite Hptr.
  destruct F2 as [|x F2']; simpl.
  - assert (base ≤ p.1) by (destruct (asc_elem _ _ _ p Hasc) as (? & _); [apply elem_of_app; right; left|lia]).
    rewrite Z.geb_leb, (proj2 (Z.leb_le base p.1)) by done. rewrite !Z.gtb_ltb, (proj2 (Z.ltb_lt p.1 bp)) by done. by rewrite !orb_true_r.
  - apply Forall_cons in Hnext as [Hx _]. rewrite Z.gtb_ltb, (proj2 (Z.ltb_lt p.1 bp)), (proj2 (Z.ltb_lt bp x.1)) by done. done.
Qed.

(** A node whose successor is larger, with both on the same side of [bp], is passed. *)
Lemma stops_pass x n : ptr h x = n → x < n → (n < bp ∨ bp < x) → stops h bp x = false.
Proof.
  intros Hn Hlt Hside. unfold stops. rewrite Hn, Z.gtb_ltb, Z.geb_leb, (proj2 (Z.leb_gt n x)) by done. simpl. rewrite orb_false_r.
  destruct (Z.ltb_spec x bp), (Z.ltb_spec bp n); simpl; try done. lia.
Qed.

Lemma stops_before x : x ∈ F1 → stops h bp x.1 = false.
Proof.
  intros (G1 & G2 & ->)%list_elem_of_split. rewrite <-app_assoc in *. simpl in *.
  pose proof Hseg as (_ & _ & Hptr & _)%seg_app.
  assert (Hlt : x.1 < first base (G2 ++ p :: F2) ∧ first base (G2 ++ p :: F2) < bp).
  { assert (Hx : x.1 ≤ bend x) by (eapply asc_pos; [exact Hasc|]; apply elem_of_app; right; left).
    destruct G2 as [|y G2]; simpl.
    - split; [|done]. cut (bend x < p.1); [lia|]. eapply (asc_after _ G1 x); [exact Hasc|]. left.
    - split; [cut (bend x < y.1); [lia|]; eapply (asc_after _ G1 x); [exact Hasc|left]|].
      assert (bend y < p.1) by (eapply (asc_before _ (G1 ++ x :: y :: G2) p F2); [rewrite <-app_assoc; exact Hasc|apply elem_of_app; right; right; left]).
      assert (y.1 ≤ bend y) by (eapply asc_pos; [exact Hasc|]; apply elem_of_app; right; right; left). lia. }
  eapply stops_pass; [exact Hptr|tauto|left; tauto].
Qed.

Lemma stops_after x : x ∈ F2 → stops h bp x.1 = false.
Proof.
  intros Hx. pose proof (proj1 (Forall_forall _ _) Hnext x Hx) as Hgt. simpl in Hgt.
  apply list_elem_of_split in Hx as (G1 & G2 & E). rewrite E in *.
  pose proof Hseg as (_ & _ & _ & Hs)%seg_app. apply seg_app in Hs as (_ & _ & Hptr & _).
  destruct G2 as [|y G2]; simpl in Hptr.
  - unfold stops. rewrite Hptr, !Z.gtb_ltb.
    assert (base < bp) by (destruct (asc_elem _ _ _ p Hasc) as (? & _); [apply elem_of_app; right; left|lia]).
    rewrite (proj2 (Z.ltb_ge x.1 bp)), (proj2 (Z.ltb_ge bp base)) by lia. simpl. by rewrite andb_false_r.
  - eapply stops_pass; [exact Hptr| |by right].
    cut (bend x < y.1).
    { assert (x.1 ≤ bend x); [|lia]. eapply asc_pos; [exact Hasc|]. apply elem_of_app. right. right. apply elem_of_app. right. left. }
    eapply (asc_after _ (F1 ++ p :: G1) x (y :: G2)); [rewrite <-app_assoc; exact Hasc|left].
Qed.

(** From any node of the ring the search finds [p]. *)
Lemma free_search_ok q fuel :
  q ∈ F1 ++ p :: F2 → (length (F1 ++ p :: F2) ≤ fuel)%nat → free_search fuel h bp q.1 = Ret p.1.
Proof.
  intros Hq Hf. assert (Hno : ∀ x, x ∈ F1 ∨ x ∈ F2 → stops h bp x.1 = false) by (intros x [?|?]; [by apply stops_before|by apply stops_after]).
  pose proof stops_place as Hyes. apply elem_of_app in Hq as [Hq|Hq].
  - apply list_elem_of_split in Hq as (G1 & G2 & E).
    assert (Hrot : seg h ((q :: G2) ++ p :: F2 ++ G1) q.1).
    { pose proof (seg_rotate h G1 (q :: G2 ++ p :: F2) base) as H. rewrite E, <-app_assoc in Hseg, Hhead. simpl in *.
      specialize (H Hseg Hhead). rewrite <-!app_assoc in H. exact H. }
    apply (free_search_path h bp (q :: G2) p (F2 ++ G1) q.1 fuel); [exact Hrot| |done|].
    + intros x Hx. apply Hno. left. rewrite E. apply elem_of_app. by right.
    + apply (f_equal length) in E. rewrite length_app in Hf, E. simpl in *. lia.
  - apply elem_of_cons in Hq as [->|Hq].
    + pose proof (seg_rotate h F1 (p :: F2) base Hseg Hhead) as H. simpl in H.
      apply (free_search_path h bp [] p (F2 ++ F1) p.1 fuel); [exact H|by intros x ?%elem_of_nil|done|].
      rewrite length_app in Hf. simpl in *. lia.
    + apply list_elem_of_split in Hq as (G1 & G2 & E).
      assert (Hrot : seg h ((q :: G2 ++ F1) ++ p :: G1) q.1).
      { pose proof (seg_rotate h (F1 ++ p :: G1) (q :: G2) base) as H. rewrite E in Hseg, Hhead.
        rewrite <-app_assoc in H. specialize (H Hseg Hhead). simpl in *. by rewrite <-app_assoc. }
      apply (free_search_path h bp (q :: G2 ++ F1) p G1 q.1 fuel); [exact Hrot| |done|].
      * intros x Hx. apply Hno. apply elem_of_cons in Hx as [->|[Hx|Hx]%elem_of_app]; [right|right|by left]; rewrite E; apply elem_of_app; right; [left|by right].
      * apply (f_equal length) in E. rewrite length_app in Hf, E. simpl in *. rewrite length_app. lia.
Qed.
End place.

(** ** Linking a block in *)

(** A block before a list whose first block it may touch. *)
Definition join (x : block) (F : list block) : list block :=
  match F with
  | y :: F' => if Z.eqb (bend x) y.1 then (x.1, x.2 + y.2) :: F' else x :: F
  | [] => [x]
  end.

Lemma disj_merge y a s t : 0 < y.2 → disj y (a, s) → disj y (a + HEADER * s, t) → disj y (a, s + t).
Proof. unfold disj, bend, HEADER. simpl. lia. Qed.

Lemma join_disj y x F : 0 < y.2 → disj y x → Forall (disj y) F → Forall (disj y) (join x F).
Proof.
  intros Hy Hx HF. destruct F as [|z F]; simpl; [by apply Forall_singleton|]. apply Forall_cons in HF as [Hz HF].
  destruct (Z.eqb_spec (bend x) z.1) as [E|_]; constructor; auto. destruct x as [a s], z as [b t]. simpl in *. subst b. by apply disj_merge.
Qed.

Lemma join_asc lo x F hi : lo < x.1 → 0 ≤ x.2 → asc (bend x - 1) F hi → bend x ≤ hi → asc lo (join x F) hi.
Proof.
  intros Hlo Hx HF Hhi. destruct F as [|y F]; simpl in *; [tauto|]. destruct HF as (H1 & H2 & H3).
  destruct (Z.eqb_spec (bend x) y.1) as [E|Hne]; simpl; split_and!; try done; try lia.
  replace (bend (x.1, x.2 + y.2)) with (bend y); [done|]. unfold bend, HEADER in *. simpl in *. lia.
Qed.

Lemma join_first x F e : first e (join x F) = x.1.
Proof. destruct F as [|y F]; simpl; [done|]. by destruct (Z.eqb (bend x) y.1). Qed.

(** The first half of [free_link]: the block and what follows it. *)
Lemma link_next h p bp F :
  seg h F base → ptr h p = first base F → (∀ x, x ∈ F → x.1 ≠ bp) → (F = [] → bp + HEADER * size h bp ≠ base) →
  let h1 :=
    if Z.eqb (bp + HEADER * size h bp) (ptr h p)
    then set_ptr (set_size h bp (size h bp + size h (ptr h p))) bp (ptr h (ptr h p))
    else set_ptr h bp (ptr h p) in
  seg h1 (join (bp, size h bp) F) base ∧ (∀ a, a ≠ bp → ptr h1 a = ptr h a ∧ size h1 a = size h a) ∧
  brk h1 = brk h.
Proof.
  intros Hseg Hp Hni Hend h1. unfold h1. rewrite Hp. unfold join, bend. simpl.
  destruct F as [|x F]; simpl in *.
  - rewrite (proj2 (Z.eqb_neq _ _) (Hend eq_refl)). simpl. rewrite upd_eq. split_and!; try done. intros a Ha. by rewrite upd_ne.
  - destruct Hseg as (Hs & Hn & Hseg). assert (Hx : x.1 ≠ bp) by (apply Hni; left).
    assert (HF : ∀ y, y ∈ F → y.1 ≠ bp) by (intros y Hy; apply Hni; by right).
    destruct (Z.eqb (bp + HEADER * size h bp) x.1); simpl; rewrite ?upd_eq.
    + split_and!; [by rewrite Hs|done| |intros a Ha; by rewrite !upd_ne|done].
      eapply seg_ext; [|exact Hseg]. intros y Hy%HF. simpl. by rewrite !upd_ne.
    + split_and!; [done|done| | | |intros a Ha; by rewrite !upd_ne|done]; [done|by rewrite upd_ne|].
      eapply seg_ext; [|exact Hseg]. intros y Hy%HF. simpl. by rewrite !upd_ne.
Qed.

(** The second half: its predecessor. *)
Lemma link_prev h p M :
  seg h M base → M ≠ [] → size h p.1 = p.2 → (∀ x, x ∈ M → x.1 ≠ p.1) →
  let bp := first base M in
  let h2 :=
    if Z.eqb (p.1 + HEADER * size h p.1) bp
    then set_ptr (set_size h p.1 (size h p.1 + size h bp)) p.1 (ptr h bp)
    else set_ptr h p.1 bp in
  seg h2 (join p M) base ∧ (∀ a, a ≠ p.1 → ptr h2 a = ptr h a ∧ size h2 a = size h a) ∧ brk h2 = brk h.
Proof.
  intros Hseg Hne Hsz Hni bp h2. unfold h2, bp. rewrite Hsz. destruct M as [|x M]; [done|]. simpl in *.
  destruct Hseg as (Hs & Hn & Hseg). assert (Hx : x.1 ≠ p.1) by (apply Hni; left).
  assert (HF : ∀ y, y ∈ M → y.1 ≠ p.1) by (intros y Hy; apply Hni; by right).
  unfold bend. destruct (Z.eqb (p.1 + HEADER * p.2) x.1); simpl; rewrite ?upd_eq.
  - split_and!; [by rewrite Hs|done| |intros a Ha; by rewrite !upd_ne|done].
    eapply seg_ext; [|exact Hseg]. intros y Hy%HF. simpl. by rewrite !upd_ne.
  - split_and!; [done|done|by rewrite Hs|by rewrite upd_ne| |intros a Ha; by rewrite !upd_ne|done].
    eapply seg_ext; [|exact Hseg]. intros y Hy%HF. simpl. by rewrite !upd_ne.
Qed.

(** ** The invariant *)

(** [A] are the blocks handed out, [B] the free ones in order; all lie between
    [lo] and the break. *)
Record inv (lo : Z) (h : heap) (A B : list block) : Prop := mk_inv {
  iv_base : 0 < base ∧ base + HEADER ≤ lo ∧ lo ≤ brk h;
  iv_seg : seg h ((base, 0) :: B) base;
  iv_asc : asc (base - 1) ((base, 0) :: B) (brk h);
  iv_free : Forall (λ x, lo ≤ x.1 ∧ 0 < x.2) B;
  iv_freep : ∃ q, q ∈ (base, 0) :: B ∧ freep h = q.1;
  iv_live : Forall (λ x, lo ≤ x.1 ∧ 0 < x.2 ∧ bend x ≤ brk h ∧ size h x.1 = x.2 ∧ Forall (disj x) B) A;
  iv_apart : apart A }.

Lemma disj_sym x y : disj x y → disj y x.
Proof. unfold disj. tauto. Qed.

Lemma apart_perm A A' : A ≡ₚ A' → apart A → apart A'.
Proof.
  induction 1 as [|x A A' Hp IH|x y A|A A' A'' _ IH1 _ IH2]; simpl; try tauto.
  - intros [H1 H2]. split; [by rewrite <-Hp|auto].
  - intros [[Hyx Hy]%Forall_cons [Hx HA]]. split; [constructor; [by apply disj_sym|done]|done].
Qed.

Lemma apart_middle A1 x A2 : apart (A1 ++ x :: A2) → Forall (disj x) (A1 ++ A2).
Proof. intros H. by eapply (apart_perm _ (x :: A1 ++ A2)) in H as [? _]; [|symmetry; apply Permutation_middle]. Qed.

Lemma inv_perm lo h A A' B : A ≡ₚ A' → inv lo h A B → inv lo h A' B.
Proof. intros Hp [H1 H2 H3 H4 H5 H6 H7]. split; try done; [by rewrite <-Hp|by eapply apart_perm]. Qed.

(** The place of a block disjoint from the free ones. *)
Lemma split_place bp s F p hi lo :
  asc lo (p :: F) hi → p.1 < bp → 0 < s → Forall (λ x, 0 < x.2 ∧ disj (bp, s) x) F → disj (bp, s) p →
  ∃ F1 q F2, p :: F = F1 ++ q :: F2 ∧ q.1 < bp ∧ bend q ≤ bp ∧ Forall (λ x, bp + HEADER * s ≤ x.1) F2.
Proof.
  revert p lo. induction F as [|y F IH]; intros p lo Hasc Hp Hs HF Hd.
  - exists [], p, []. split_and!; [done|done| |done]. unfold disj, bend, HEADER in *. simpl in *. lia.
  - apply Forall_cons in HF as [[Hy Hdy] HF]. destruct (decide (y.1 < bp)) as [Hlt|Hge].
    + destruct Hasc as (_ & _ & Hasc). destruct (IH y _ Hasc Hlt Hs HF Hdy) as (F1 & q & F2 & E & H). exists (p :: F1), q, F2. by rewrite E.
    + exists [], p, (y :: F). split_and!; [done|done|unfold disj, bend, HEADER in *; simpl in *; lia|].
      assert (Hby : bp + HEADER * s ≤ y.1) by (unfold disj, bend, HEADER in *; simpl in *; lia).
      constructor; [done|]. apply Forall_forall. intros z Hz. destruct Hasc as (_ & _ & _ & Hy0 & Hasc).
      destruct (asc_elem _ _ _ z Hasc Hz) as (? & _). unfold bend, HEADER in *. lia.
Qed.

(** Every address of [F'] is one of [F] or [bp]. *)
Lemma join_elem x F z : z ∈ join x F → z.1 = x.1 ∨ z ∈ F.
Proof.
  destruct F as [|y F]; simpl; [intros ->%list_elem_of_singleton; by left|].
  destruct (Z.eqb (bend x) y.1); intros [->|Hz]%elem_of_cons; [by left|right; by right|by left|by right].
Qed.

Lemma link_asc lo F1 p F2 x hi :
  asc lo (F1 ++ p :: F2) hi → 0 ≤ x.2 → bend p ≤ x.1 → Forall (λ y, bend x ≤ y.1) F2 → bend x ≤ hi →
  asc lo (F1 ++ join p (join x F2)) hi.
Proof.
  intros (HA1 & Hpl & Hp0 & HA2)%asc_app Hs Hp HF2 Hhi. apply asc_app. split; [done|].
  apply join_asc; [done|done| |by apply asc_le in HA2]. apply join_asc; [lia|done| |done].
  destruct F2 as [|y F2]; simpl in *; [lia|]. apply Forall_cons in HF2 as [Hy _]. destruct HA2 as (_ & ? & ?). split_and!; [lia|done|done].
Qed.

Lemma free_link_ring h F1 p F2 bp s :
  seg h (F1 ++ p :: F2) base → 0 < s → size h bp = s → p.1 < bp → base < bp →
  (∀ x, x ∈ F1 → x.1 < p.1) → Forall (λ x, bp + HEADER * s ≤ x.1) F2 →
  let h' := free_link h bp p.1 in let F' := F1 ++ join p (join (bp, s) F2) in
  seg h' F' base ∧ freep h' = p.1 ∧ brk h' = brk h ∧ (∀ a, a ≠ bp → a ≠ p.1 → size h' a = size h a).
Proof.
  intros Hseg Hs Hsz Hp Hb HF1 HF2 h' F'.
  pose proof Hseg as (Hs1 & Hsp & Hnp & Hs2)%seg_app. simpl in Hs1.
  assert (Hn2 : ∀ x, x ∈ F2 → bp < x.1).
  { intros x Hx. pose proof (proj1 (Forall_forall _ _) HF2 x Hx) as H. simpl in H. unfold HEADER in H. lia. }
  destruct (link_next h p.1 bp F2 Hs2 Hnp) as (L1 & L2 & L3).
  { intros x Hx%Hn2. lia. }
  { intros _. rewrite Hsz. unfold HEADER in *. lia. }
  unfold h', free_link.
  match type of L1 with seg ?x _ _ => set (h1 := x) in * end. rewrite Hsz in L1. cbv zeta.
  set (M := join (bp, s) F2) in *.
  assert (HM : first base M = bp) by apply join_first.
  destruct (link_prev h1 p M L1) as (K1 & K2 & K3).
  { intros E. rewrite E in HM. simpl in HM. lia. }
  { rewrite (proj2 (L2 p.1 ltac:(lia))). done. }
  { intros x [->|Hx%Hn2]%join_elem; simpl; lia. }
  rewrite HM in K1, K2, K3. match type of K1 with seg ?x _ _ => set (h2 := x) in * end.
  assert (Hsame : ∀ a, a ≠ bp → a ≠ p.1 → ptr h2 a = ptr h a ∧ size h2 a = size h a).
  { intros a Ha Hap. destruct (K2 a Hap) as [-> ->]. by apply L2. }
  split_and!; [|done|simpl; congruence|by intros; apply Hsame].
  unfold F'. apply seg_app. rewrite join_first. split; [|eapply seg_ext; [|exact K1]; done].
  eapply seg_ext; [|exact Hs1]. intros x Hx%HF1. simpl. apply Hsame; lia.
Qed.

(** What a join keeps: the sizes are positive, and one block is at least as large. *)
Lemma join_pos lo x F :
  lo ≤ x.1 → 0 < x.2 → Forall (λ y, lo ≤ y.1 ∧ 0 < y.2) F →
  Forall (λ y, lo ≤ y.1 ∧ 0 < y.2) (join x F) ∧ (∃ y, y ∈ join x F ∧ x.2 ≤ y.2) ∧ (length (join x F) ≤ S (length F))%nat.
Proof.
  intros Hx Hs HF. destruct F as [|y F]; simpl.
  - split_and!; [by apply Forall_singleton|exists x; split; [left|lia]|done].
  - pose proof HF as [Hy HF']%Forall_cons. destruct (Z.eqb (bend x) y.1); simpl.
    + split_and!; [constructor; [simpl; lia|done]|eexists; split; [left|simpl; lia]|lia].
    + split_and!; [by constructor|exists x; split; [left|lia]|lia].
Qed.

Lemma join_keeps p M y : 0 ≤ p.2 → y ∈ M → ∃ z, z ∈ join p M ∧ y.2 ≤ z.2.
Proof.
  intros Hp Hy. destruct M as [|x M]; [by apply elem_of_nil in Hy|]. simpl. apply elem_of_cons in Hy as [->|Hy].
  - destruct (Z.eqb _ _); [exists (p.1, p.2 + x.2); split; [left|simpl; lia]|exists x; split; [right; left|lia]].
  - exists y. split; [|lia]. destruct (Z.eqb _ _); [by right|do 2 right; done].
Qed.

Lemma join_head p M : ∃ n, (p.1, n) ∈ join p M.
Proof. destruct M as [|x M]; simpl; [|destruct (Z.eqb _ _)]; destruct p; eexists; left. Qed.

Lemma ring_link lo B F1 p F2 x :
  (base, 0) :: B = F1 ++ p :: F2 → base < x.1 → lo ≤ x.1 → 0 < x.2 → Forall (λ y, lo ≤ y.1 ∧ 0 < y.2) B →
  ∃ B', F1 ++ join p (join x F2) = (base, 0) :: B' ∧ Forall (λ y, lo ≤ y.1 ∧ 0 < y.2) B' ∧
    (∃ y, y ∈ B' ∧ x.2 ≤ y.2) ∧ (length B' ≤ S (length B))%nat ∧
    (∀ y, 0 < y.2 → disj y x → Forall (disj y) B → Forall (disj y) B').
Proof.
  intros E Hb Hx Hs HB. destruct F1 as [|z F1]; simpl in E; injection E as <- ->.
  - exists (join x F2). destruct (join_pos lo x F2 Hx Hs HB) as (H1 & H2 & H3). split_and!; try done; [|intros; by apply join_disj].
    simpl. destruct (join x F2) as [|y M] eqn:EM; [destruct H2 as (? & ?%elem_of_nil & _); done|]. pose proof (join_first x F2 0) as Hy. rewrite EM in Hy. simpl in Hy. simpl.
    destruct (Z.eqb_spec (bend (base, 0)) y.1) as [E|]; [|done]. unfold bend in E. simpl in E. lia.
  - exists (F1 ++ join p (join x F2)). apply Forall_app in HB as [HB1 [Hp HB2]%Forall_cons].
    destruct (join_pos lo x F2 Hx Hs HB2) as (H1 & (y & Hy & Hle) & H3).
    destruct (join_pos lo p (join x F2) (proj1 Hp) (proj2 Hp) H1) as (H4 & _ & H5).
    split_and!; [done|by apply Forall_app| | |].
    + destruct (join_keeps p _ y ltac:(lia) Hy) as (z' & Hz & Hle'). exists z'. split; [apply elem_of_app; by right|lia].
    + rewrite !length_app. simpl. lia.
    + intros w Hw Hwx [Hw1 [Hwp Hw2]%Forall_cons]%Forall_app. apply Forall_app. split; [done|].
      apply join_disj; [done|done|]. by apply join_disj.
Qed.

(** The ring is in the order of the addresses. *)
Lemma ring_before lo F1 p F2 hi x : asc lo (F1 ++ p :: F2) hi → x ∈ F1 → x.1 < p.1.
Proof.
  intros H Hx. pose proof (asc_before _ _ _ _ _ _ H Hx). apply asc_app in H as [H _]. pose proof (asc_pos _ _ _ x H Hx). lia.
Qed.

(** [free] of a block handed out. *)
Lemma free_inv lo h x A B fuel :
  inv lo h (x :: A) B → (S (length B) ≤ fuel)%nat →
  ∃ h' B', free fuel h (x.1 + HEADER) = Ret h' ∧ inv lo h' A B' ∧ brk h' = brk h ∧
    (∃ y, y ∈ B' ∧ x.2 ≤ y.2) ∧ (length B' ≤ S (length B))%nat.
Proof.
  intros [(Hb & Hlo & Hbrk) Hseg Hasc Hfree (q & Hq & Hfp) [(Hx1 & Hx2 & Hx3 & Hx4 & Hx5) Hlive]%Forall_cons [Hxa Hap]] Hf.
  assert (Hbx : base < x.1) by (unfold HEADER in *; lia).
  destruct (split_place x.1 x.2 B (base, 0) _ _ Hasc Hbx Hx2) as (F1 & p & F2 & E & Hp1 & Hp2 & HF2).
  { apply Forall_forall. intros y Hy. destruct x. split; [|by eapply Forall_forall in Hx5].
    eapply Forall_forall in Hfree; [|exact Hy]. tauto. }
  { right. unfold bend. simpl. lia. }
  destruct (ring_link lo B F1 p F2 x E Hbx Hx1 Hx2 Hfree) as (B' & E' & Hpos & Hbig & Hlen & Hdis).
  assert (Hn : ∀ y, y ∈ A → y.1 ≠ x.1 ∧ y.1 ≠ p.1).
  { intros y Hy. pose proof (proj1 (Forall_forall _ _) Hlive y Hy) as (L1 & L2 & _ & _ & L5).
    pose proof (proj1 (Forall_forall _ _) Hxa y Hy) as Hxy. split; [unfold disj, bend, HEADER in *; lia|].
    assert (Hp : p ∈ (base, 0) :: B) by (rewrite E; apply elem_of_app; right; left).
    apply elem_of_cons in Hp as [->|Hp]; [simpl; unfold HEADER in *; lia|].
    eapply Forall_forall in L5; [|exact Hp]. eapply Forall_forall in Hfree; [|exact Hp]. unfold disj, bend, HEADER in *; lia. }
  assert (Hlen0 : (length (F1 ++ p :: F2) ≤ fuel)%nat) by (rewrite <-E; done).
  rewrite E in Hseg, Hasc, Hq.
  destruct (free_link_ring h F1 p F2 x.1 x.2 Hseg Hx2 Hx4 Hp1 Hbx) as (K1 & K2 & K3 & K4); [by intros; eapply ring_before|done|].
  exists (free_link h x.1 p.1), B'. split_and!; [| |done|done|done].
  - unfold free. replace (x.1 + HEADER - HEADER) with x.1 by lia. rewrite Hfp.
    rewrite (free_search_ok h F1 F2 p x.1 (brk h) Hseg) with (q := q); try done; [by rewrite <-E|].
    eapply Forall_impl; [exact HF2|]. simpl. unfold HEADER. intros; lia.
  - destruct x as [a s]. cbn [fst snd] in *. split.
    + by rewrite K3.
    + by rewrite <-E'.
    + rewrite K3, <-E'. apply link_asc; simpl; try done. lia.
    + done.
    + rewrite <-E', K2. destruct (join_head p (join (a, s) F2)) as [n Hn']. exists (p.1, n). split; [apply elem_of_app; by right|done].
    + apply Forall_forall. intros y Hy. pose proof (proj1 (Forall_forall _ _) Hlive y Hy) as (L1 & L2 & L3 & L4 & L5).
      destruct (Hn y Hy). split_and!; [done|done|by rewrite K3|by rewrite K4|]. apply Hdis; [done| |done].
      apply disj_sym. by eapply Forall_forall in Hxa.
    + done.
Qed.

(** ** Taking a block *)

(** The block after a node of the ring, when it is not [base]. *)
Lemma ring_next lo h A B q :
  inv lo h A B → q ∈ (base, 0) :: B → 0 < size h (ptr h q.1) →
  ∃ D y C1 C2, (base, 0) :: C1 = D ++ [q] ∧ B = C1 ++ y :: C2 ∧ ptr h q.1 = y.1 ∧ size h y.1 = y.2.
Proof.
  intros Hi (D & G & E)%list_elem_of_split Hs. pose proof (iv_seg _ _ _ _ Hi) as Hseg. rewrite E in Hseg.
  apply seg_app in Hseg as (_ & _ & Hp & HG). rewrite Hp in *. destruct G as [|y G]; simpl in *.
  - pose proof (iv_seg _ _ _ _ Hi) as (H & _). simpl in H. lia.
  - destruct D as [|d D]; simpl in E; injection E as -> ->.
    + exists [], y, [], G. split_and!; [done|done|done|tauto].
    + exists (d :: D), y, (D ++ [q]), G. split_and!; [done|by rewrite <-app_assoc|done|tauto].
Qed.

Lemma disj_sub a y z : disj a y → y.1 ≤ z.1 → bend z ≤ bend y → disj a z.
Proof. unfold disj. lia. Qed.

Lemma asc_drop lo F y G hi : asc lo (F ++ y :: G) hi → asc lo (F ++ G) hi.
Proof.
  rewrite !asc_app. intros [HF (H1 & H2 & HG)]. split; [done|]. eapply asc_weaken; [exact HG|unfold bend, HEADER; lia|lia].
Qed.

Lemma asc_shrink lo F y G hi n : asc lo (F ++ y :: G) hi → 0 < n ≤ y.2 → asc lo (F ++ (y.1, y.2 - n) :: G) hi.
Proof.
  rewrite !asc_app. intros [HF (H1 & H2 & HG)] Hn. split; [done|]. simpl. split_and!; [done|lia|].
  eapply asc_weaken; [exact HG|unfold bend, HEADER; simpl; lia|lia].
Qed.

Lemma asc_cut_disj lo F y G hi x :
  asc lo (F ++ y :: G) hi → y.1 ≤ x.1 → bend x ≤ bend y → ∀ z, z ∈ F ++ G → disj x z.
Proof.
  intros H H1 H2 z [Hz|Hz]%elem_of_app; [right|left].
  - pose proof (asc_before _ _ _ _ _ _ H Hz). lia.
  - pose proof (asc_after _ _ _ _ _ _ H Hz). lia.
Qed.

(** The ring after the block [y] behind [q] is taken, as a whole or up to [n] units. *)
Lemma seg_unlink h D q y G lo hi :
  seg h (D ++ q :: y :: G) base → asc lo (D ++ q :: y :: G) hi → seg (set_ptr h q.1 (ptr h y.1)) (D ++ q :: G) base.
Proof.
  intros Hseg Hasc. apply seg_app in Hseg as (HD & Hq1 & Hq2 & Hy1 & Hy2 & HG). apply seg_app. simpl. rewrite upd_eq.
  assert (Hq : q.1 ≤ bend q) by (eapply asc_pos; [exact Hasc|]; apply elem_of_app; right; left).
  split_and!; [|done|done|].
  - eapply seg_ext; [|exact HD]. intros z Hz. simpl. rewrite upd_ne; [done|]. pose proof (ring_before _ _ _ _ _ _ Hasc Hz). lia.
  - eapply seg_ext; [|exact HG]. intros z Hz. simpl. rewrite upd_ne; [done|].
    pose proof (asc_after _ _ _ _ _ z Hasc ltac:(by right)). lia.
Qed.

Lemma seg_shrink h F y G lo hi n :
  seg h (F ++ y :: G) base → asc lo (F ++ y :: G) hi → 0 < n < y.2 →
  seg (set_size (set_size h y.1 (y.2 - n)) (y.1 + HEADER * (y.2 - n)) n) (F ++ (y.1, y.2 - n) :: G) base.
Proof.
  intros Hseg Hasc Hn. apply seg_app in Hseg as (HF & Hy1 & Hy2 & HG). apply seg_app. simpl.
  rewrite upd_ne by (unfold HEADER; lia). rewrite upd_eq.
  split_and!; [|done|done|].
  - eapply seg_ext; [|exact HF]. intros z Hz. simpl. pose proof (ring_before _ _ _ _ _ _ Hasc Hz). rewrite !upd_ne by (unfold HEADER; lia). done.
  - eapply seg_ext; [|exact HG]. intros z Hz. simpl. pose proof (asc_after _ _ _ _ _ z Hasc Hz) as H. unfold bend, HEADER in *.
    rewrite !upd_ne by lia. done.
Qed.

Lemma take_inv lo h A B q n :
  inv lo h A B → q ∈ (base, 0) :: B → 0 < n → n ≤ size h (ptr h q.1) →
  ∃ a h' B', carve h n q.1 (ptr h q.1) = (a + HEADER, h') ∧ inv lo h' ((a, n) :: A) B' ∧ brk h' = brk h ∧
    (length B' ≤ length B)%nat.
Proof.
  intros Hi Hq Hn Hle. destruct (ring_next lo h A B q Hi Hq ltac:(lia)) as (D & y & C1 & C2 & ED & -> & Hy1 & Hy2).
  destruct Hi as [Hb Hseg Hasc Hfree Hfp Hlive Hap]. rewrite Hy1 in *. rewrite Hy2 in *.
  pose proof Hfree as [Hf1 [Hfy Hf2]%Forall_cons]%Forall_app.
  assert (EQ : ∀ G, (base, 0) :: C1 ++ G = D ++ q :: G) by (intros G; change ((base, 0) :: C1 ++ G) with (((base, 0) :: C1) ++ G); rewrite ED, <-app_assoc; done).
  assert (Hyl : ∀ z, z ∈ A → disj z y ∧ 0 < z.2 ∧ size h z.1 = z.2 ∧ Forall (disj z) (C1 ++ C2)).
  { intros z Hz. eapply Forall_forall in Hlive as (_ & L2 & _ & L4 & [L5 [L6 L7]%Forall_cons]%Forall_app); [|exact Hz].
    split_and!; try done. by apply Forall_app. }
  pose proof (asc_elem _ _ _ y Hasc ltac:(right; apply elem_of_app; right; left)) as (_ & _ & Hyb).
  assert (Hqin : ∀ G, ∃ q', q' ∈ (base, 0) :: C1 ++ G ∧ q.1 = q'.1) by (intros G; exists q; rewrite EQ; split; [apply elem_of_app; right; left|done]).
  unfold carve. rewrite Hy2. destruct (Z.eqb_spec y.2 n) as [E|Hne].
  - exists y.1. eexists; exists (C1 ++ C2). split_and!; [reflexivity| |done|rewrite !length_app; simpl; lia].
    assert (Hyn : (y.1, n) = y) by (destruct y; simpl in *; by subst). rewrite Hyn. split.
    + done.
    + rewrite EQ in *. eapply seg_ext; [|by eapply (seg_unlink h D q y)]. done.
    + apply (asc_drop _ ((base, 0) :: C1) y). done.
    + by apply Forall_app.
    + apply Hqin.
    + constructor; [|apply Forall_forall; intros z Hz; destruct (Hyl z Hz) as (? & ? & ? & ?); eapply Forall_forall in Hlive; [|exact Hz]; tauto].
      split_and!; [tauto|lia|done|done|]. apply Forall_forall. intros z Hz.
      eapply (asc_cut_disj _ ((base, 0) :: C1) y C2); [exact Hasc|lia|lia|by right].
    + split; [|done]. apply Forall_forall. intros z Hz. apply disj_sym. by apply Hyl.
  - cbn [size set_size]. rewrite upd_eq. exists (y.1 + HEADER * (y.2 - n)). eexists; exists (C1 ++ (y.1, y.2 - n) :: C2).
    assert (Hx : y.1 ≤ y.1 + HEADER * (y.2 - n) ∧ bend (y.1 + HEADER * (y.2 - n), n) = bend y) by (unfold bend, HEADER; simpl; lia).
    split_and!; [reflexivity| |done|rewrite !length_app; simpl; lia]. split.
    + done.
    + eapply seg_ext; [|apply (seg_shrink h ((base, 0) :: C1) y C2 _ _ n Hseg Hasc); lia]. done.
    + apply (asc_shrink _ ((base, 0) :: C1)); [done|lia].
    + apply Forall_app. split; [done|]. constructor; [simpl; lia|done].
    + apply Hqin.
    + constructor.
      * cbn [fst snd]. split_and!; [unfold HEADER in *; lia|done|cbn [brk set_freep set_size]; lia|cbn [size set_size set_freep]; by rewrite upd_eq|].
        apply Forall_app. assert (HD : ∀ z, z ∈ C1 ++ C2 → disj (y.1 + HEADER * (y.2 - n), n) z).
        { intros z Hz. eapply (asc_cut_disj _ ((base, 0) :: C1) y C2); [exact Hasc|cbn [fst]; lia|lia|by right]. }
        split; [apply Forall_forall; intros z Hz; apply HD, elem_of_app; by left|].
        constructor; [right; unfold bend; simpl; lia|]. apply Forall_forall; intros z Hz; apply HD, elem_of_app; by right.
      * apply Forall_forall. intros z Hz. destruct (Hyl z Hz) as (Z1 & Z2 & Z3 & [Z4 Z5]%Forall_app).
        eapply Forall_forall in Hlive as (L1 & _ & L3 & _); [|exact Hz].
        split_and!; [done|done|done| |].
        -- cbn [size set_size set_freep]. rewrite !upd_ne; [done| |]; unfold disj, bend, HEADER in *; lia.
        -- apply Forall_app. split; [done|]. constructor; [|done]. eapply disj_sub; [exact Z1|simpl; lia|unfold bend, HEADER; simpl; lia].
    + split; [|done]. apply Forall_forall. intros z Hz. apply disj_sym. eapply disj_sub; [by apply Hyl|simpl; lia|lia].
Qed.

(** ** More memory, and the search of [malloc] *)

Lemma sbrk_refuses h n : 0 ≤ brk h → (sbrk h n).1 = -1 → sbrk h n = (-1, h).
Proof. unfold sbrk. destruct (_ && _); simpl; [lia|done]. Qed.

(** The memory the break passes becomes a block handed out. *)
Lemma sbrk_inv lo h A B nu :
  inv lo h A B → 0 < nu →
  inv lo (set_size (set_brk h (brk h + HEADER * nu)) (brk h) nu) ((brk h, nu) :: A) B.
Proof.
  intros [(Hb & Hlo & Hbrk) Hseg Hasc Hfree Hfp Hlive Hap] Hnu.
  assert (Hring : ∀ x, x ∈ (base, 0) :: B → x.1 < brk h).
  { intros x [->|Hx]%elem_of_cons; [unfold HEADER in *; simpl; lia|]. pose proof (asc_elem _ _ _ x Hasc ltac:(by right)) as (_ & _ & H).
    eapply Forall_forall in Hfree; [|exact Hx]. unfold bend, HEADER in *. lia. }
  assert (HB : Forall (disj (brk h, nu)) B).
  { apply Forall_forall. intros x Hx. right. by destruct (asc_elem _ _ _ x Hasc ltac:(by right)) as (_ & _ & H). }
  split.
  - simpl. unfold HEADER in *. split_and!; lia.
  - eapply seg_ext; [|exact Hseg]. intros x Hx%Hring. simpl. rewrite upd_ne by lia. done.
  - simpl in *. split_and!; try tauto. eapply asc_weaken; [apply Hasc|lia|unfold HEADER; lia].
  - done.
  - done.
  - constructor; [simpl; rewrite upd_eq; unfold bend; simpl; split_and!; try done; lia|].
    eapply Forall_impl; [exact Hlive|]. simpl. intros x (L1 & L2 & L3 & L4 & L5). unfold bend, HEADER in *. rewrite upd_ne by lia.
    split_and!; try done. lia.
  - split; [|done]. eapply Forall_impl; [exact Hlive|]. simpl. intros x (_ & _ & L3 & _). by right.
Qed.

Lemma nu_small nu : 0 < nu → nu * HEADER < 2 ^ 31 →
  let nu' := if Z.ltb nu 4096 then 4096 else nu in nu ≤ nu' ∧ s32 (u32 (nu' * HEADER)) = HEADER * nu'.
Proof.
  intros H0 H1 nu'. assert (Hn : nu ≤ nu' ∧ 0 ≤ nu' * HEADER < 2 ^ 31) by (unfold nu', HEADER in *; destruct (Z.ltb_spec nu 4096); lia).
  split; [tauto|]. rewrite u32_small by (unfold is_u32; lia). unfold s32. rewrite u32_small by (unfold is_u32; lia). rewrite (proj2 (Z.ltb_lt _ _)) by lia. lia.
Qed.

Lemma inv_pos lo h A B : inv lo h A B → 0 < freep h ∧ 0 < brk h.
Proof.
  intros [(Hb & Hlo & Hbrk) _ Hasc _ (q & Hq & ->) _ _]. pose proof (asc_elem _ _ _ q Hasc Hq) as (? & ? & ?). unfold HEADER in *. lia.
Qed.

Lemma morecore_inv lo h A B nu fuel :
  inv lo h A B → 0 < nu → nu * HEADER < 2 ^ 31 → (S (length B) ≤ fuel)%nat →
  (morecore fuel h nu = Ret (0, h) ∧ ∃ n, nu * HEADER ≤ n ∧ sbrk h n = (-1, h)) ∨
  ∃ h' B', morecore fuel h nu = Ret (freep h', h') ∧ inv lo h' A B' ∧
    (∃ y, y ∈ B' ∧ nu ≤ y.2) ∧ (length B' ≤ S (length B))%nat.
Proof.
  intros Hi Hnu Hsm Hf. unfold morecore. destruct (nu_small nu Hnu Hsm) as [Hle Hs]. simpl in *.
  set (nu' := if Z.ltb nu 4096 then 4096 else nu) in *. rewrite Hs. pose proof (inv_pos _ _ _ _ Hi) as [_ Hbrk].
  destruct (sbrk h (HEADER * nu')) as [p h1] eqn:Esb. destruct (Z.eqb_spec p (-1)) as [->|Hp].
  - left. pose proof (sbrk_refuses h (HEADER * nu') ltac:(lia) ltac:(by rewrite Esb)) as E. rewrite E in Esb. injection Esb as <-.
    split; [done|]. exists (HEADER * nu'). split; [unfold HEADER; lia|done].
  - right. unfold sbrk in Esb. destruct (_ && _); [|by injection Esb; intros; subst]. injection Esb as <- <-.
    destruct (free_inv lo _ _ A B fuel (sbrk_inv lo h A B nu' Hi ltac:(lia)) Hf) as (h' & B' & E & Hi' & _ & (y & Hy & Hyle) & Hlen).
    simpl in E, Hyle. rewrite E. simpl. exists h', B'. split_and!; [done|done|exists y; split; [done|lia]|done].
Qed.

Lemma malloc_walk h n q R fuel :
  seg h (q :: R) (freep h) → (∀ x, x ∈ R → x.1 ≠ freep h) → (length R < fuel)%nat →
  (∃ z, z ∈ q :: R ∧ n ≤ size h (ptr h z.1) ∧ malloc_loop fuel h n q.1 (ptr h q.1) = Ret (carve h n z.1 (ptr h z.1))) ∨
  ((∀ x, x ∈ R → x.2 < n) ∧ size h (freep h) < n ∧
   malloc_loop fuel h n q.1 (ptr h q.1) =
     (let! (p, h1) := morecore (fuel - S (length R)) h n in
      if Z.eqb p 0 then Ret (0, h1) else malloc_loop (fuel - S (length R)) h1 n p (ptr h1 p))).
Proof.
  revert q fuel. induction R as [|x R IH]; intros q fuel Hseg Hne Hf; (destruct fuel as [|fuel]; [simpl in Hf; lia|]);
    cbn [malloc_loop]; destruct (Z.geb_spec (size h (ptr h q.1)) n) as [Hge|Hlt];
    try (left; exists q; split_and!; [left|done|done]); destruct Hseg as (_ & Hp & Hseg); simpl in Hp; rewrite Hp in *.
  - right. rewrite Z.eqb_refl. simpl. rewrite Nat.sub_0_r. split_and!; [by intros x ?%elem_of_nil|lia|done].
  - rewrite (proj2 (Z.eqb_neq _ _) (Hne x ltac:(left))).
    destruct (IH x fuel Hseg) as [(z & Hz & Hsz & E)|(Hall & Hfp & E)]; [intros y Hy; apply Hne; by right|simpl in Hf; lia| |].
    + left. exists z. split_and!; [by right|done|done].
    + right. split_and!; [|done|exact E]. intros y [->|Hy]%elem_of_cons; [|by apply Hall]. destruct Hseg as (Hs & _). lia.
Qed.

(** The ring read from [freep]. *)
Lemma ring_from_freep lo h A B :
  inv lo h A B →
  ∃ q R, freep h = q.1 ∧ seg h (q :: R) (freep h) ∧ q :: R ≡ₚ (base, 0) :: B ∧ (∀ x, x ∈ R → x.1 ≠ freep h).
Proof.
  intros [_ Hseg Hasc _ (q & Hq & Hfp) _ _]. apply list_elem_of_split in Hq as (F1 & F2 & E). rewrite E in *.
  assert (Hhead : first base (F1 ++ q :: F2) = base) by (rewrite <-E; done).
  pose proof (seg_rotate h F1 (q :: F2) base Hseg Hhead) as Hrot. exists q, (F2 ++ F1). rewrite Hfp.
  split_and!; [done|exact Hrot|by rewrite <-Permutation_middle, (Permutation_app_comm F2 F1)|].
  intros x [Hx|Hx]%elem_of_app.
  - pose proof (asc_after _ _ _ _ _ _ Hasc Hx). pose proof (asc_pos _ _ _ q Hasc ltac:(apply elem_of_app; right; left)). lia.
  - pose proof (ring_before _ _ _ _ _ _ Hasc Hx). lia.
Qed.

(** From [freep] either a block is taken, or all are too small and memory is asked
    for. *)
Lemma malloc_circle lo h A B n fuel :
  inv lo h A B → 0 < n → (length B < fuel)%nat →
  (∃ a h' B', malloc_loop fuel h n (freep h) (ptr h (freep h)) = Ret (a + HEADER, h') ∧ inv lo h' ((a, n) :: A) B' ∧
    brk h' = brk h ∧ (length B' ≤ length B)%nat) ∨
  ((∀ x, x ∈ B → x.2 < n) ∧
   malloc_loop fuel h n (freep h) (ptr h (freep h)) =
     (let! (p, h1) := morecore (fuel - S (length B)) h n in
      if Z.eqb p 0 then Ret (0, h1) else malloc_loop (fuel - S (length B)) h1 n p (ptr h1 p))).
Proof.
  intros Hi Hn Hf. destruct (ring_from_freep lo h A B Hi) as (q & R & Hq & Hseg & Hperm & Hne).
  pose proof (Permutation_length Hperm) as Hlen. simpl in Hlen. injection Hlen as Hlen.
  destruct (malloc_walk h n q R fuel Hseg Hne ltac:(lia)) as [(z & Hz & Hsz & E)|(Hall & Hfp & E)]; rewrite Hq in *; rewrite E.
  - left. rewrite Hperm in Hz. destruct (take_inv lo h A B z n Hi Hz Hn Hsz) as (a & h' & B' & -> & Hi' & Hb & Hl). by exists a, h', B'.
  - right. rewrite Hlen. split; [|done]. intros x Hx. assert (Hx' : x ∈ q :: R) by (rewrite Hperm; by right).
    apply elem_of_cons in Hx' as [->|Hx']; [|by apply Hall].
    destruct Hseg as (Hs & _). lia.
Qed.

(** A call of [malloc] after the first: it returns, and null only when the break
    cannot move. *)
Lemma malloc_loop_inv lo h A B n fuel :
  inv lo h A B → 0 < n → n * HEADER < 2 ^ 31 → (2 * length B + 4 ≤ fuel)%nat →
  (malloc_loop fuel h n (freep h) (ptr h (freep h)) = Ret (0, h) ∧ ∃ m, n * HEADER ≤ m ∧ sbrk h m = (-1, h)) ∨
  ∃ a h' B', malloc_loop fuel h n (freep h) (ptr h (freep h)) = Ret (a + HEADER, h') ∧ inv lo h' ((a, n) :: A) B'.
Proof.
  intros Hi Hn Hsm Hf. destruct (malloc_circle lo h A B n fuel Hi Hn ltac:(lia)) as [(a & h' & B' & E & Hi' & _)|[_ E]].
  { right. by exists a, h', B'. }
  destruct (morecore_inv lo h A B n (fuel - S (length B)) Hi Hn Hsm ltac:(lia)) as [[Em Hfail]|(h1 & B1 & Em & Hi1 & (y & Hy & Hle) & Hlen)];
    rewrite Em in E; simpl in E.
  { left. by rewrite E. }
  pose proof (inv_pos _ _ _ _ Hi1) as [Hfp _]. rewrite (proj2 (Z.eqb_neq (freep h1) 0)) in E by lia.
  destruct (malloc_circle lo h1 A B1 n (fuel - S (length B)) Hi1 Hn ltac:(lia)) as [(a & h' & B' & E' & Hi' & _)|[Hall _]].
  - right. exists a, h', B'. by rewrite E.
  - specialize (Hall y Hy). lia.
Qed.

Lemma units_small nbytes : 0 ≤ nbytes < 2 ^ 31 - 16 →
  0 < units nbytes ∧ units nbytes * HEADER < 2 ^ 31 ∧ nbytes + HEADER ≤ HEADER * units nbytes.
Proof.
  intros H. unfold units, HEADER. rewrite u32_small by (unfold is_u32; lia).
  pose proof (Z.div_mod (nbytes + 8 - 1) 8 ltac:(lia)). pose proof (Z.mod_pos_bound (nbytes + 8 - 1) 8 ltac:(lia)). lia.
Qed.

(** The state of the allocator: not used yet, or with some free blocks. *)
Definition heap_ok (lo : Z) (h : heap) (A : list block) : Prop :=
  (freep h = 0 ∧ A = [] ∧ 0 < base ∧ base + HEADER ≤ lo ∧ lo ≤ brk h) ∨ ∃ B, inv lo h A B.

Lemma first_inv lo h :
  0 < base → base + HEADER ≤ lo → lo ≤ brk h → inv lo (set_size (set_freep (set_ptr h base base) base) base 0) [] [].
Proof.
  intros Hb Hlo Hbrk. unfold HEADER in *. split; simpl; try done; rewrite ?upd_eq; try by split_and!.
  - unfold bend. simpl. split_and!; lia.
  - exists (base, 0). split; [left|done].
Qed.

(** More fuel does not change a result. *)
Lemma free_search_mono f f' h bp p r : free_search f h bp p = Ret r → (f ≤ f')%nat → free_search f' h bp p = Ret r.
Proof.
  revert f' p. induction f as [|f IH]; intros f' p; [done|]. destruct f' as [|f']; [lia|]. cbn [free_search].
  destruct (_ && _); [done|]. destruct (_ && _); [done|]. intros H Hle. apply IH; [done|lia].
Qed.

Lemma morecore_mono f f' h nu r : morecore f h nu = Ret r → (f ≤ f')%nat → morecore f' h nu = Ret r.
Proof.
  unfold morecore, free. destruct (sbrk _ _) as [p h1]. destruct (Z.eqb p (-1)); [done|]. intros H Hle.
  destruct (free_search f _ _ _) as [q| | | |] eqn:E; try done. by rewrite (free_search_mono f f' _ _ _ _ E Hle).
Qed.

Lemma malloc_loop_mono f f' h n q p r : malloc_loop f h n q p = Ret r → (f ≤ f')%nat → malloc_loop f' h n q p = Ret r.
Proof.
  revert f' h q p. induction f as [|f IH]; intros f' h q p; [done|]. destruct f' as [|f']; [lia|]. cbn [malloc_loop].
  intros H Hle. destruct (Z.geb _ _); [done|]. destruct (Z.eqb p (freep h)); [|apply IH; [done|lia]].
  destruct (morecore f h n) as [[q' h1]| | | |] eqn:E; try done. rewrite (morecore_mono f f' _ _ _ E ltac:(lia)). simpl in *.
  destruct (Z.eqb q' 0); [done|]. apply IH; [done|lia].
Qed.

Lemma malloc_mono f f' h n r : malloc f h n = Ret r → (f ≤ f')%nat → malloc f' h n = Ret r.
Proof. apply malloc_loop_mono. Qed.

Lemma free_mono f f' h a r : free f h a = Ret r → (f ≤ f')%nat → free f' h a = Ret r.
Proof.
  unfold free. intros H Hle. destruct (free_search f _ _ _) as [q| | | |] eqn:E; try done. by rewrite (free_search_mono f f' _ _ _ _ E Hle).
Qed.

(** The results of two runs agree. *)
Lemma malloc_det f f' h n r r' : malloc f h n = Ret r → malloc f' h n = Ret r' → r = r'.
Proof.
  intros H H'. apply (malloc_mono f (f + f')) in H; [|lia]. apply (malloc_mono f' (f + f')) in H'; [|lia]. congruence.
Qed.
Lemma free_det f f' h n r r' : free f h n = Ret r → free f' h n = Ret r' → r = r'.
Proof.
  intros H H'. apply (free_mono f (f + f')) in H; [|lia]. apply (free_mono f' (f + f')) in H'; [|lia]. congruence.
Qed.

Lemma malloc_ok lo h A nbytes :
  heap_ok lo h A → 0 ≤ nbytes < 2 ^ 31 - 16 →
  ∃ f0 r h', malloc f0 h nbytes = Ret (r, h') ∧
    ((r = 0 ∧ heap_ok lo h' A ∧ ∃ m, nbytes ≤ m ∧ (sbrk h m).1 = -1) ∨
     (0 < r ∧ heap_ok lo h' ((r - HEADER, units nbytes) :: A))).
Proof.
  intros Hok Hn. destruct (units_small nbytes Hn) as (Hu1 & Hu2 & Hu3). unfold malloc.
  set (h0 := if Z.eqb (freep h) 0 then _ else h).
  assert (Hi : ∃ B, inv lo h0 A B ∧ brk h0 = brk h).
  { unfold h0. destruct Hok as [(-> & -> & Hb & Hlo & Hbrk)|[B Hi]].
    - exists []. split; [by apply first_inv|done].
    - pose proof (inv_pos _ _ _ _ Hi) as [? _]. rewrite (proj2 (Z.eqb_neq (freep h) 0)) by lia. by exists B. }
  destruct Hi as (B & Hi & Hbrk). exists (2 * length B + 4)%nat.
  destruct (malloc_loop_inv lo h0 A B (units nbytes) _ Hi Hu1 Hu2 ltac:(reflexivity)) as [(E & m & Hm & Hs)|(a & h' & B' & E & Hi')];
    rewrite E; eexists _, _; (split; [reflexivity|]).
  - left. split_and!; [done|right; by exists B|]. exists m. split; [unfold HEADER in *; lia|].
    unfold sbrk in *. rewrite Hbrk in Hs. destruct (_ && _); [by injection Hs|done].
  - right. pose proof (iv_live _ _ _ _ Hi') as [(Hlo & _) _]%Forall_cons. simpl in Hlo. pose proof (iv_base _ _ _ _ Hi'). unfold HEADER in *.
    split; [lia|]. replace (a + 8 - 8) with a by lia. right. by exists B'.
Qed.

Lemma free_ok lo h A x :
  heap_ok lo h (x :: A) → ∃ f0 h', free f0 h (x.1 + HEADER) = Ret h' ∧ heap_ok lo h' A ∧ brk h' = brk h.
Proof.
  intros [(_ & ? & _)|[B Hi]]; [done|]. destruct (free_inv lo h x A B _ Hi ltac:(reflexivity)) as (h' & B' & E & Hi' & Hb & _).
  exists (S (length B)), h'. split_and!; [done|right; by exists B'|done].
Qed.

(** ** Programs that use the allocator *)

(** The header at [a] lies outside the payload of every block of [A]. *)
Definition outside (A : list block) (a : Z) : Prop := ∀ x, x ∈ A → a ≤ x.1 ∨ bend x ≤ a.

(** One action of a program that keeps to its blocks [A]: a call of [malloc] or
    [free], a store inside the blocks, a call of [sbrk] of its own. *)
Inductive uses : heap * list block → heap * list block → Prop :=
  | u_malloc fuel h A nbytes r h' :
      0 ≤ nbytes < 2 ^ 31 - 16 → malloc fuel h nbytes = Ret (r, h') → r ≠ 0 →
      uses (h, A) (h', (r - HEADER, units nbytes) :: A)
  | u_malloc_null fuel h A nbytes h' :
      0 ≤ nbytes < 2 ^ 31 - 16 → malloc fuel h nbytes = Ret (0, h') → uses (h, A) (h', A)
  | u_free fuel h A x A' h' :
      A ≡ₚ x :: A' → free fuel h (x.1 + HEADER) = Ret h' → uses (h, A) (h', A')
  | u_store h A h' :
      freep h' = freep h → brk h' = brk h →
      (∀ a, outside A a → ptr h' a = ptr h a ∧ size h' a = size h a) → uses (h, A) (h', A)
  | u_sbrk h A n : 0 ≤ n → uses (h, A) ((sbrk h n).2, A).

(** The runs of a program from a heap never used. *)
Inductive runs (lo : Z) : heap * list block → Prop :=
  | r_start h : freep h = 0 → 0 < base → base + HEADER ≤ lo → brk h = lo → runs lo (h, [])
  | r_use s s' : runs lo s → uses s s' → runs lo s'.

Lemma store_inv lo h A B h' :
  inv lo h A B → freep h' = freep h → brk h' = brk h →
  (∀ a, outside A a → ptr h' a = ptr h a ∧ size h' a = size h a) → inv lo h' A B.
Proof.
  intros [Hb Hseg Hasc Hfree Hfp Hlive Hap] Ef Eb Hsame. split; rewrite ?Ef, ?Eb; try done.
  - eapply seg_ext; [|exact Hseg]. intros x Hx. apply Hsame. intros y Hy.
    eapply Forall_forall in Hlive as (L1 & L2 & _ & _ & L5); [|exact Hy]. apply elem_of_cons in Hx as [->|Hx].
    + left. simpl. unfold HEADER in *. lia.
    + eapply Forall_forall in L5; [|exact Hx]. eapply Forall_forall in Hfree; [|exact Hx]. unfold disj, bend, HEADER in *. lia.
  - apply Forall_forall. intros y Hy. pose proof (proj1 (Forall_forall _ _) Hlive y Hy) as (L1 & L2 & L3 & L4 & L5). split_and!; try done.
    rewrite <-L4. apply Hsame. intros z Hz. pose proof (proj1 (Forall_forall _ _) Hlive z Hz) as (_ & Z2 & _).
    apply list_elem_of_split in Hy as (A1 & A2 & ->). pose proof (apart_middle _ _ _ Hap) as Hd.
    assert (Hzd : z = y ∨ z ∈ A1 ++ A2) by (rewrite elem_of_app in *; rewrite elem_of_cons in Hz; tauto).
    destruct Hzd as [->|Hzd]; [by left|]. eapply Forall_forall in Hd; [|exact Hzd]. unfold disj, bend, HEADER in *; lia.
Qed.

Lemma sbrk_ok lo h A n : heap_ok lo h A → 0 ≤ n → heap_ok lo (sbrk h n).2 A.
Proof.
  intros Hok Hn. unfold sbrk. destruct (_ && _); [|done]. simpl. destruct Hok as [(H1 & H2 & H3 & H4 & H5)|[B [Hb Hseg Hasc Hfree Hfp Hlive Hap]]].
  - left. simpl. split_and!; try done. lia.
  - right. exists B. split; try done; [simpl; lia|eapply seg_ext; [|exact Hseg]; done| |].
    + simpl in *. split_and!; try tauto. eapply asc_weaken; [apply Hasc|lia|lia].
    + eapply Forall_impl; [exact Hlive|]. simpl. intros x (? & ? & ? & ? & ?). split_and!; try done. lia.
Qed.

Lemma uses_ok lo s s' : uses s s' → heap_ok lo s.1 s.2 → heap_ok lo s'.1 s'.2.
Proof.
  intros Hu Hok. destruct Hu as [fuel h A nb r h' Hn E Hr|fuel h A nb h' Hn E|fuel h A x A' h' Hp E|h A h' Ef Eb Hs|h A n Hn]; simpl in *.
  - destruct (malloc_ok lo h A nb Hok Hn) as (f0 & r0 & h0 & E0 & H). pose proof (malloc_det _ _ _ _ _ _ E E0) as [= -> ->]. destruct H; tauto.
  - destruct (malloc_ok lo h A nb Hok Hn) as (f0 & r0 & h0 & E0 & H). pose proof (malloc_det _ _ _ _ _ _ E E0) as [= <- ->].
    destruct H as [?|[? _]]; [tauto|lia].
  - assert (Hok' : heap_ok lo h (x :: A')).
    { destruct Hok as [(? & -> & _)|[B Hi]]; [by apply Permutation_nil_cons in Hp|right; exists B; by eapply inv_perm]. }
    destruct (free_ok lo h A' x Hok') as (f0 & h0 & E0 & H & _). by rewrite (free_det _ _ _ _ _ _ E E0).
  - destruct Hok as [(H1 & -> & H)|[B Hi]]; [left; by rewrite Ef, Eb|right; exists B; by eapply store_inv].
  - by apply sbrk_ok.
Qed.

Lemma runs_ok lo s : runs lo s → heap_ok lo s.1 s.2.
Proof.
  induction 1 as [h H1 H2 H3 H4|s s' _ IH Hu]; [left; simpl; split_and!; try done; lia|by eapply uses_ok].
Qed.

(** C18: in every state of a program that keeps to the blocks it was given, however it
    interleaves malloc of less than two gigabytes, free, stores and calls of sbrk that
    do not lower the break, the blocks in use are pairwise disjoint and lie between
    the first break of the process and the current one. *)
Theorem malloc_blocks_disjoint lo h A :
  runs lo (h, A) →
  (∀ A1 x A2 y A3, A = A1 ++ x :: A2 ++ y :: A3 → bend x ≤ y.1 ∨ bend y ≤ x.1) ∧
  (∀ x, x ∈ A → lo ≤ x.1 ∧ bend x ≤ brk h ∧ size h x.1 = x.2).
Proof.
  intros [(H1 & HA & _)|[B Hi]]%runs_ok; simpl in *.
  - subst A. split; [intros A1 x A2 y A3 E; by destruct A1|by intros x ?%elem_of_nil].
  - split.
    + intros A1 x A2 y A3 ->. pose proof (apart_middle _ _ _ (iv_apart _ _ _ _ Hi)) as Hd.
      eapply Forall_forall in Hd; [exact Hd|]. rewrite !elem_of_app, elem_of_cons. tauto.
    + intros x Hx. pose proof (proj1 (Forall_forall _ _) (iv_live _ _ _ _ Hi) x Hx) as (? & ? & ? & ? & ?). done.
Qed.

(** C19: in every such state malloc of up to two gigabytes returns after finitely many
    turns of its loop, either null, because the kernel refuses to move the break by
    at least that much, or a new block that holds the bytes asked for; and free of a
    block in use returns. *)
Theorem malloc_free_return lo h A nbytes :
  runs lo (h, A) → 0 ≤ nbytes < 2 ^ 31 - 16 →
  (∃ f0 r h', (∀ fuel, (f0 ≤ fuel)%nat → malloc fuel h nbytes = Ret (r, h')) ∧
     ((r = 0 ∧ runs lo (h', A) ∧ ∃ m, nbytes ≤ m ∧ (sbrk h m).1 = -1) ∨
      (lo + HEADER ≤ r ∧ runs lo (h', (r - HEADER, units nbytes) :: A) ∧ r + nbytes ≤ bend (r - HEADER, units nbytes)))) ∧
  (∀ x A', A ≡ₚ x :: A' → ∃ f0 h', (∀ fuel, (f0 ≤ fuel)%nat → free fuel h (x.1 + HEADER) = Ret h') ∧ runs lo (h', A')).
Proof.
  intros Hr Hn. pose proof (runs_ok _ _ Hr) as Hok. simpl in Hok. split.
  - destruct (malloc_ok lo h A nbytes Hok Hn) as (f0 & r & h' & E & H). exists f0, r, h'. split; [intros fuel Hf; by eapply malloc_mono|].
    destruct H as [(-> & _ & Hm)|(Hpos & Hok')].
    + left. split_and!; [done| |done]. eapply r_use; [exact Hr|by eapply u_malloc_null].
    + right. split_and!.
      * destruct Hok' as [(_ & ? & _)|[B Hi]]; [done|]. pose proof (iv_live _ _ _ _ Hi) as [(? & _) _]%Forall_cons. simpl in *. lia.
      * eapply r_use; [exact Hr|eapply u_malloc; [done|exact E|lia]].
      * pose proof (units_small nbytes Hn). unfold bend. simpl. lia.
  - intros x A' Hp. assert (Hok' : heap_ok lo h (x :: A')).
    { destruct Hok as [(? & -> & _)|[B Hi]]; [by apply Permutation_nil_cons in Hp|right; exists B; by eapply inv_perm]. }
    destruct (free_ok lo h A' x Hok') as (f0 & h' & E & _). exists f0, h'. split; [intros fuel Hf; by eapply free_mono|].
    eapply r_use; [exact Hr|by eapply u_free].
Qed.
End umalloc.

(** ** A run *)

Definition wit_heap0 : heap := mkHeap (λ _, 0) (λ _, 0) 0 4096.
Definition wit_after (o : outcome (Z * heap)) : heap := match o with Ret (_, h) => h | _ => wit_heap0 end.
Definition wit_heap1 : heap := wit_after (malloc 64 (λ _ _, true) 10 wit_heap0 10).
Definition wit_heap2 : heap := wit_after (malloc 64 (λ _ _, true) 10 wit_heap1 100).

Lemma wit_runs : runs 64 (λ _ _, true) 4096 (wit_heap2, [(36728, 14); (36840, 3)]).
Proof.
  eapply r_use; [|apply (u_malloc _ _ 10 wit_heap1 _ 100 36736 wit_heap2); [lia|by vm_compute|done]].
  eapply r_use; [|apply (u_malloc _ _ 10 wit_heap0 _ 10 36848 wit_heap1); [lia|by vm_compute|done]].
  by constructor.
Qed.

Lemma malloc_blocks_disjoint_witness :
  runs 64 (λ _ _, true) 4096 (wit_heap2, [(36728, 14); (36840, 3)]) ∧ size wit_heap2 36728 = 14.
Proof.
  split; [exact wit_runs|].
  apply (proj2 (malloc_blocks_disjoint 64 (λ _ _, true) 4096 _ _ wit_runs) (36728, 14)). left.
Defined.

Lemma malloc_free_return_witness :
  ∃ f0 r h', (∀ fuel, (f0 ≤ fuel)%nat → malloc 64 (λ _ _, true) fuel wit_heap2 1000 = Ret (r, h')).
Proof.
  destruct (malloc_free_return 64 (λ _ _, true) 4096 _ _ 1000 wit_runs ltac:(lia)) as [(f0 & r & h' & H & _) _].
  by exists f0, r, h'.
Defined.

(** Near the top of its range the size of a request wraps around: four gigabytes less
    one byte get a block with no room at all. *)
Example malloc_wraps :
  units 4294967295 = 1 ∧
  ∃ h', malloc 64 (λ _ _, true) 10 wit_heap0 4294967295 = Ret (4096 + HEADER * 4095 + HEADER, h').
Proof. split; [done|]. eexists. by vm_compute. Qed.
