(* ===== verification/Ulib.v ===== *)
(** * The user library (ulib.c, printf.c) and the printing of the kernel (console.c)

    The string routines over the memory of a process, the conversion of numbers
    to text in a buffer of sixteen bytes, and the two interpreters of format
    strings, [printf] for programs and [cprintf] for the console. *)
From stdpp Require Import base list strings.
From Stdlib Require Import ZArith Lia.
From S2P Require Import Prelude Memory Console.

(** ** Strings (ulib.c) *)

Fixpoint strcpy (fuel : nat) (m : mem) (s t : Z) : outcome mem :=
  match fuel with
  | O => NoFuel
  | S k =>
      let m' := store8 m s (load8 m t) in
      if Z.eqb (load8 m t) 0 then Ret m' else strcpy k m' (s + 1) (t + 1)
  end.

Fixpoint strcmp (fuel : nat) (m : mem) (p q : Z) : outcome Z :=
  match fuel with
  | O => NoFuel
  | S k =>
      if negb (Z.eqb (load8 m p) 0) && Z.eqb (load8 m p) (load8 m q) then strcmp k m (p + 1) (q + 1)
      else Ret (load8 m p - load8 m q)
  end.

Fixpoint strlen_loop (fuel : nat) (m : mem) (s n : Z) : outcome Z :=
  match fuel with
  | O => NoFuel
  | S k => if Z.eqb (load8 m (s + n)) 0 then Ret n else strlen_loop k m s (n + 1)
  end.
Definition strlen (fuel : nat) (m : mem) (s : Z) : outcome Z := strlen_loop fuel m s 0.

Definition memset (m : mem) (dst c n : Z) : mem := stosb m dst c (Z.to_nat n).

(** The null pointer is 0. *)
Fixpoint strchr (fuel : nat) (m : mem) (s c : Z) : outcome Z :=
  match fuel with
  | O => NoFuel
  | S k =>
      if Z.eqb (load8 m s) 0 then Ret 0
      else if Z.eqb (load8 m s) (u8 c) then Ret s
      else strchr k m (s + 1) c
  end.

(** [read(0, &c, 1)] returns the next byte of [input]; at its end it returns 0. *)
Fixpoint gets_loop (input : list Z) (m : mem) (buf i : Z) (room : nat) : mem * Z * list Z :=
  match room, input with
  | O, _ | _, [] => (m, i, input)
  | S room, c :: input =>
      let m' := store8 m (buf + i) c in
      if Z.eqb c NL || Z.eqb c CR then (m', i + 1, input) else gets_loop input m' buf (i + 1) room
  end.
Definition gets (input : list Z) (m : mem) (buf max : Z) : mem * list Z :=
  let '(m', i, input) := gets_loop input m buf 0 (Z.to_nat (max - 1)) in
  (store8 m' (buf + i) 0, input).

(** The system calls [stat] makes are those of a kernel with state [K]. *)
Definition stat {K St} (open : K → list Z → Z → Z * K) (fstat : K → Z → Z * St * K) (close : K → Z → K)
    (k : K) (n : list Z) (st : St) : Z * St * K :=
  let '(fd, k1) := open k n 0 in
  if Z.ltb fd 0 then (-1, st, k1)
  else
    let '(r, st', k2) := fstat k1 fd in
    (r, st', close k2 fd).

Fixpoint atoi_loop (fuel : nat) (m : mem) (s n : Z) : outcome Z :=
  match fuel with
  | O => NoFuel
  | S k =>
      let c := load8 m s in
      if Z.leb 48 c && Z.leb c 57 then atoi_loop k m (s + 1) (s32 (n * 10 + c - 48)) else Ret n
  end.
Definition atoi (fuel : nat) (m : mem) (s : Z) : outcome Z := atoi_loop fuel m s 0.

(** Forwards, whatever the overlap. *)
Definition memmove (m : mem) (vdst vsrc n : Z) : mem := move_fwd m vdst vsrc (Z.to_nat n).

(** ** Numbers (printf.c, console.c) *)

Definition DIGITS_UPPER : list Z := [48; 49; 50; 51; 52; 53; 54; 55; 56; 57; 65; 66; 67; 68; 69; 70].
Definition DIGITS_LOWER : list Z := [48; 49; 50; 51; 52; 53; 54; 55; 56; 57; 97; 98; 99; 100; 101; 102].
Definition MINUS : Z := 45.
Definition PCT : Z := 37.

(** The [do] loop; a 32-bit number has at most 32 digits in any base. *)
Fixpoint digit_loop (k : nat) (digits buf : list Z) (i x base : Z) : outcome (list Z * Z) :=
  match k with
  | O => NoFuel
  | S k =>
      let! d := aget digits (x mod base) "digits" in
      let! buf' := aset buf i d "buf" in
      if Z.eqb (x / base) 0 then Ret (buf', i + 1) else digit_loop k digits buf' (i + 1) (x / base) base
  end.

(** What [printint] writes, from a buffer that holds [junk]. *)
Definition number (digits junk : list Z) (xx base : Z) (sgn : bool) : outcome (list Z) :=
  let neg := sgn && Z.ltb xx 0 in
  let x := if neg then u32 (- xx) else u32 xx in
  let! (buf, i) := digit_loop 32 digits junk 0 x base in
  let! (buf, i) := if neg then let! b := aset buf i MINUS "buf" in Ret (b, i + 1) else Ret (buf, i) in
  Ret (rev (take (Z.to_nat i) buf)).

Section printf.
  (** The stack the buffer lies in, and a bound on the strings. *)
  Context (junk : list Z) (fuel : nat) (m : mem).

(** The bytes of a string, as the loop over [*s] reads them. *)
Fixpoint chars (k : nat) (s : Z) : outcome (list Z) :=
  match k with
  | O => NoFuel
  | S k => if Z.eqb (load8 m s) 0 then Ret [] else let! l := chars k (s + 1) in Ret (load8 m s :: l)
  end.

Definition NULL_TEXT : list Z := [40; 110; 117; 108; 108; 41].

(** [%s] of a pointer. *)
Definition str_arg (s : Z) : outcome (list Z) := if Z.eqb s 0 then Ret NULL_TEXT else chars fuel s.

Definition printint (xx base : Z) (sgn : bool) : outcome (list Z) := number DIGITS_UPPER junk xx base sgn.

(** What one conversion writes, and the arguments that are left. *)
Definition conversion (c : Z) (ap : list Z) : outcome (list Z * list Z) :=
  if Z.eqb c 100 then
    match ap with
    | x :: ap => let! o := printint (s32 x) 10 true in Ret (o, ap)
    | [] => Undef "missing argument"
    end
  else if Z.eqb c 120 || Z.eqb c 112 then
    match ap with
    | x :: ap => let! o := printint (s32 x) 16 false in Ret (o, ap)
    | [] => Undef "missing argument"
    end
  else if Z.eqb c 115 then
    match ap with
    | x :: ap => let! o := str_arg x in Ret (o, ap)
    | [] => Undef "missing argument"
    end
  else if Z.eqb c 99 then
    match ap with
    | x :: ap => Ret ([u8 x], ap)
    | [] => Undef "missing argument"
    end
  else if Z.eqb c PCT then Ret ([c], ap)
  else Ret ([PCT; c], ap).

(** The bytes written for the rest of the format, in one of the two states. *)
Fixpoint printf_loop (fmt : list Z) (state : Z) (ap : list Z) : outcome (list Z) :=
  match fmt with
  | [] => Ret []
  | c :: fmt =>
      let c := Z.land c 0xff in
      if Z.eqb state 0 then
        if Z.eqb c PCT then printf_loop fmt PCT ap
        else let! o := printf_loop fmt 0 ap in Ret (c :: o)
      else if Z.eqb state PCT then
        let! (o, ap) := conversion c ap in
        let! r := printf_loop fmt 0 ap in
        Ret (o ++ r)
      else printf_loop fmt state ap
  end.
Definition printf (fmt args : list Z) : outcome (list Z) := printf_loop fmt 0 args.

(** ** The console *)

Fixpoint consputs (s : con) (l : list Z) : outcome con :=
  match l with
  | [] => Ret s
  | c :: l => let! s1 := consputc s c in consputs s1 l
  end.

Definition cprintint (s : con) (xx base : Z) (sign : bool) : outcome con :=
  let! o := number DIGITS_LOWER junk xx base sign in consputs s o.

Definition cconversion (s : con) (c : Z) (argp : list Z) : outcome (con * list Z) :=
  if Z.eqb c 100 then
    match argp with
    | x :: argp => let! s1 := cprintint s (s32 x) 10 true in Ret (s1, argp)
    | [] => Undef "missing argument"
    end
  else if Z.eqb c 120 || Z.eqb c 112 then
    match argp with
    | x :: argp => let! s1 := cprintint s (s32 x) 16 false in Ret (s1, argp)
    | [] => Undef "missing argument"
    end
  else if Z.eqb c 115 then
    match argp with
    | x :: argp => let! l := str_arg x in let! s1 := consputs s l in Ret (s1, argp)
    | [] => Undef "missing argument"
    end
  else if Z.eqb c PCT then let! s1 := consputc s PCT in Ret (s1, argp)
  else let! s1 := consputc s PCT in let! s2 := consputc s1 c in Ret (s2, argp).

Fixpoint cprintf_loop (s : con) (fmt argp : list Z) : outcome con :=
  match fmt with
  | [] => Ret s
  | c :: fmt =>
      if negb (Z.eqb (Z.land c 0xff) PCT) then let! s1 := consputc s (Z.land c 0xff) in cprintf_loop s1 fmt argp
      else
        match fmt with
        | [] => Ret s
        | c :: fmt => let! (s1, argp) := cconversion s (Z.land c 0xff) argp in cprintf_loop s1 fmt argp
        end
  end.
Definition cprintf (s : con) (fmt : option (list Z)) (args : list Z) : outcome con :=
  match fmt with
  | None => Panic "null fmt"
  | Some fmt => cprintf_loop s fmt args
  end.

(** ** Numbers as text *)

(** The number a list of digits stands for. *)
Definition value (base : Z) (ds : list Z) : Z := foldl (λ v d, v * base + d) 0 ds.

(** [ds] are the digits of [x], without leading zeros. *)
Definition numeral (base x : Z) (ds : list Z) : Prop :=
  value base ds = x ∧ Forall (λ d, 0 ≤ d < base) ds ∧ (ds = [0] ∨ ∃ d ds', ds = d :: ds' ∧ d ≠ 0).

Lemma value_snoc base ds d : value base (ds ++ [d]) = value base ds * base + d.
Proof. unfold value. by rewrite foldl_app. Qed.

Lemma numeral_snoc base x ds : 2 ≤ base → base ≤ x → numeral base (x / base) ds → numeral base x (ds ++ [x mod base]).
Proof.
  intros Hb Hx (Hv & Hd & Hh). pose proof (Z.div_mod x base ltac:(lia)). pose proof (Z.mod_pos_bound x base ltac:(lia)).
  split_and!; [rewrite value_snoc, Hv; lia|apply Forall_app; split; [done|by apply Forall_singleton]|].
  right. destruct Hh as [->|(d & ds' & -> & Hd0)]; [|exists d, (ds' ++ [x mod base]); done].
  unfold value in Hv. simpl in Hv. assert (1 ≤ x / base) by (apply Z.div_le_lower_bound; lia). lia.
Qed.

Lemma numeral_small base x : 2 ≤ base → 0 ≤ x < base → numeral base x [x].
Proof.
  intros Hb Hx. unfold numeral, value. simpl. split_and!; [lia|by apply Forall_singleton|].
  destruct (decide (x = 0)) as [->|]; [by left|right; eauto].
Qed.

Definition glyph (digits : list Z) (d : Z) : Z := nth (Z.to_nat d) digits 0.

Lemma aget_glyph digits d : length digits = 16%nat → 0 ≤ d < 16 → aget digits d "digits" = Ret (glyph digits d).
Proof.
  intros Hl Hd. apply aget_Ret. split; [lia|]. destruct (lookup_lt_is_Some_2 digits (Z.to_nat d) ltac:(lia)) as [x Hx].
  unfold glyph. by rewrite Hx, (nth_lookup_Some _ _ _ _ Hx).
Qed.

(** The loop fills the buffer with the digits, the last one first. *)
Lemma digit_loop_ok digits base k n : length digits = 16%nat → 2 ≤ base ≤ 16 → ∀ buf i x,
  0 ≤ x < base ^ Z.of_nat k → (1 ≤ k ≤ n)%nat → 0 ≤ i → i + Z.of_nat k ≤ Z.of_nat (length buf) →
  ∃ ds buf', digit_loop n digits buf i x base = Ret (buf', i + Z.of_nat (length ds)) ∧ numeral base x ds ∧
    (length ds ≤ k)%nat ∧ length buf' = length buf ∧
    take (Z.to_nat i + length ds) buf' = take (Z.to_nat i) buf ++ rev (glyph digits <$> ds).
Proof.
  intros Hl Hb. revert n. induction k as [|k IH]; intros n buf i x Hx Hk Hi Hlen; [lia|].
  destruct n as [|n]; [lia|]. cbn [digit_loop]. pose proof (Z.mod_pos_bound x base ltac:(lia)).
  rewrite aget_glyph by (done || lia). cbn [obind]. rewrite aset_Ret by lia. cbn [obind].
  set (buf1 := <[Z.to_nat i := _]> buf). assert (Hlen1 : length buf1 = length buf) by apply length_insert.
  assert (Htake : take (S (Z.to_nat i)) buf1 = take (Z.to_nat i) buf ++ [glyph digits (x mod base)]).
  { unfold buf1. rewrite (take_S_r _ _ (glyph digits (x mod base))) by (rewrite list_lookup_insert_eq; [done|lia]). by rewrite take_insert_ge by lia. }
  destruct (Z.eqb_spec (x / base) 0) as [Hz|Hz].
  - assert (x < base) by (apply Z.div_small_iff in Hz; lia). exists [x], buf1. rewrite Z.mod_small in * by lia.
    split_and!; [done|by apply numeral_small; lia|simpl; lia|done|]. simpl. by rewrite Nat.add_1_r.
  - assert (base ≤ x) by (destruct (Z.le_gt_cases base x); [done|]; rewrite Z.div_small in Hz; lia).
    rewrite Nat2Z.inj_succ, Z.pow_succ_r in Hx by lia.
    assert (Hx' : 0 ≤ x / base < base ^ Z.of_nat k) by (split; [apply Z.div_pos; lia|apply Z.div_lt_upper_bound; lia]).
    assert (k ≠ 0%nat) by (intros ->; simpl in Hx'; lia).
    destruct (IH n buf1 (i + 1) (x / base) Hx' ltac:(lia) ltac:(lia) ltac:(lia)) as (ds & buf' & E & Hn & Hlk & Hl' & Ht).
    exists (ds ++ [x mod base]), buf'. rewrite E, length_app. simpl. split_and!.
    + do 2 f_equal. lia.
    + by apply numeral_snoc; [lia| |].
    + lia.
    + lia.
    + rewrite fmap_app, rev_app_distr. simpl. replace (Z.to_nat (i + 1)) with (S (Z.to_nat i)) in Ht by lia.
      replace (Z.to_nat i + (length ds + 1))%nat with (S (Z.to_nat i) + length ds)%nat by lia. by rewrite Ht, Htake, <-app_assoc.
Qed.

(** The text of a number: its sign and its digits. *)
Definition number_text (digits : list Z) (base xx : Z) (sgn : bool) (out : list Z) : Prop :=
  ∃ ds, numeral base (if sgn && Z.ltb xx 0 then - xx else u32 xx) ds ∧
    out = (if sgn && Z.ltb xx 0 then [MINUS] else []) ++ (glyph digits <$> ds).

(** Sixteen bytes are enough in the bases the callers use. *)
Lemma number_ok digits xx base sgn :
  length digits = 16%nat → length junk = 16%nat → - 2 ^ 31 ≤ xx < 2 ^ 31 → base = 10 ∨ base = 16 →
  ∃ out, number digits junk xx base sgn = Ret out ∧ number_text digits base xx sgn out.
Proof.
  intros Hl Hj Hxx Hb. unfold number, number_text. set (neg := sgn && Z.ltb xx 0).
  assert (Hx : (if neg then u32 (- xx) else u32 xx) = (if neg then - xx else u32 xx)).
  { unfold neg. destruct sgn; simpl; [|done]. destruct (Z.ltb_spec xx 0); [|done]. apply u32_small. unfold is_u32. lia. }
  rewrite Hx. set (x := if neg then - xx else u32 xx) in *.
  assert (Hr : 0 ≤ x < base ^ Z.of_nat 10).
  { assert (0 ≤ x < 2 ^ 32) by (rewrite <-Hx; destruct neg; apply u32_range). split; [lia|]. destruct Hb as [-> | ->]; simpl; lia. }
  destruct (digit_loop_ok digits base 10 32 Hl ltac:(lia) junk 0 x Hr ltac:(lia) ltac:(lia) ltac:(lia)) as (ds & buf & E & Hn & Hk & Hlb & Ht).
  rewrite E. cbn [obind]. simpl in Ht. destruct neg.
  - rewrite aset_Ret by lia. cbn [obind]. eexists. split; [reflexivity|]. exists ds. split; [done|].
    replace (Z.to_nat (0 + Z.of_nat (length ds) + 1)) with (S (length ds)) by lia.
    rewrite (take_S_r _ _ MINUS) by (rewrite <-(list_lookup_insert_eq buf (length ds) MINUS) by lia; f_equal; f_equal; lia).
    rewrite take_insert_ge by lia. by rewrite Ht, rev_app_distr, rev_involutive.
  - cbn [obind]. eexists. split; [reflexivity|]. exists ds. split; [done|].
    replace (Z.to_nat (0 + Z.of_nat (length ds))) with (length ds) by lia. by rewrite Ht, rev_involutive.
Qed.

(** ** Formats as lists of pieces *)

Fixpoint has_str (s : Z) (l : list Z) : Prop :=
  match l with
  | [] => load8 m s = 0
  | c :: l => c ≠ 0 ∧ load8 m s = c ∧ has_str (s + 1) l
  end.

Lemma chars_ok l k s : has_str s l → (length l < k)%nat → chars k s = Ret l.
Proof.
  revert k s. induction l as [|c l IH]; intros k s; (destruct k as [|k]; [simpl; lia|]); cbn [has_str chars].
  - intros -> _. done.
  - intros (Hc & -> & Hl) Hk. rewrite (proj2 (Z.eqb_neq c 0)) by done. rewrite IH by (done || simpl in Hk; lia). done.
Qed.

Inductive piece :=
  | Char (c : Z) | Dec (x : Z) | Hex (x : Z) | Ptr (x : Z) | Str (s : Z) (l : list Z) | Null
  | Chr (x : Z) | Percent | Unknown (c : Z).

Definition piece_text (p : piece) : list Z :=
  match p with
  | Char c => [c] | Dec _ => [PCT; 100] | Hex _ => [PCT; 120] | Ptr _ => [PCT; 112] | Str _ _ | Null => [PCT; 115]
  | Chr _ => [PCT; 99] | Percent => [PCT; PCT] | Unknown c => [PCT; c]
  end.
Definition piece_args (p : piece) : list Z :=
  match p with
  | Dec x | Hex x | Ptr x | Chr x => [x] | Str s _ => [s] | Null => [0] | Char _ | Percent | Unknown _ => []
  end.

(** What the piece shows, with the digits of [printf] or of [cprintf]. *)
Definition shown (digits : list Z) (p : piece) (out : list Z) : Prop :=
  match p with
  | Char c => out = [c]
  | Dec x => number_text digits 10 (s32 x) true out
  | Hex x | Ptr x => number_text digits 16 (s32 x) false out
  | Str _ l => out = l
  | Null => out = NULL_TEXT
  | Chr x => out = [u8 x]
  | Percent => out = [PCT]
  | Unknown c => out = [PCT; c]
  end.

(** Strings are NUL-terminated, and an unknown letter is none of [known]. *)
Definition piece_ok (known : list Z) (p : piece) : Prop :=
  match p with
  | Char c => 0 < c < 256 ∧ c ≠ PCT
  | Dec x | Hex x | Ptr x => is_u32 x
  | Str s l => s ≠ 0 ∧ has_str s l ∧ (length l < fuel)%nat
  | Null | Percent => True
  | Chr _ => 99 ∈ known
  | Unknown c => 0 < c < 256 ∧ c ∉ known
  end.
Definition PRINTF_KNOWN : list Z := [100; 120; 112; 115; 99; PCT].
Definition CPRINTF_KNOWN : list Z := [100; 120; 112; 115; PCT].

Lemma s32_range x : - 2 ^ 31 ≤ s32 x < 2 ^ 31.
Proof. unfold s32. pose proof (u32_range x) as H. unfold is_u32 in H. destruct (Z.ltb_spec (u32 x) (2 ^ 31)); lia. Qed.

Lemma land_byte c : 0 ≤ c < 256 → Z.land c 0xff = c.
Proof. intros H. change 0xff with (Z.ones 8). rewrite Z.land_ones by lia. by apply Z.mod_small. Qed.

Lemma printint_ok x base sgn :
  length junk = 16%nat → base = 10 ∨ base = 16 → ∃ out, printint (s32 x) base sgn = Ret out ∧ number_text DIGITS_UPPER base (s32 x) sgn out.
Proof. intros Hj Hb. apply number_ok; [done|done|apply s32_range|done]. Qed.

#[local] Arguments printint : simpl never.
#[local] Arguments str_arg : simpl never.
#[local] Arguments cprintint : simpl never.
#[local] Arguments consputc : simpl never.

(** The letter of a conversion is a byte. *)
#[local] Ltac letter :=
  simpl; match goal with |- context [Z.land ?c 255] => rewrite (land_byte c) by (unfold PCT; lia) end;
  unfold conversion, cconversion; simpl.

Lemma printf_piece p rest fmt :
  length junk = 16%nat → piece_ok PRINTF_KNOWN p →
  ∃ out, shown DIGITS_UPPER p out ∧
    printf_loop (piece_text p ++ fmt) 0 (piece_args p ++ rest) = (let! r := printf_loop fmt 0 rest in Ret (out ++ r)).
Proof.
  intros Hj Hp. destruct p as [c|x|x|x|s l| |x| |c]; cbn [piece_text piece_args app shown piece_ok] in *; cbn [printf_loop].
  - destruct Hp as [Hc Hpc]. rewrite land_byte by lia. rewrite (proj2 (Z.eqb_neq c PCT)) by done. exists [c]. done.
  - destruct (printint_ok x 10 true Hj ltac:(by left)) as (out & E & Hn). exists out. split; [done|]. letter. by rewrite E.
  - destruct (printint_ok x 16 false Hj ltac:(by right)) as (out & E & Hn). exists out. split; [done|]. letter. by rewrite E.
  - destruct (printint_ok x 16 false Hj ltac:(by right)) as (out & E & Hn). exists out. split; [done|]. letter. by rewrite E.
  - destruct Hp as (Hs & Hstr & Hlen). exists l. split; [done|]. letter. unfold str_arg. rewrite (proj2 (Z.eqb_neq s 0)) by done. by rewrite (chars_ok l fuel s).
  - by exists NULL_TEXT.
  - by exists [u8 x].
  - by exists [PCT].
  - destruct Hp as [Hc Hk]. exists [PCT; c]. split; [done|]. simpl. rewrite land_byte by lia. unfold conversion.
    unfold PRINTF_KNOWN in Hk. rewrite !not_elem_of_cons in Hk. destruct Hk as (H1 & H2 & H3 & H4 & H5 & H6 & _).
    rewrite !(proj2 (Z.eqb_neq _ _)) by done. done.
Qed.

Lemma printf_pieces ps rest :
  length junk = 16%nat → Forall (piece_ok PRINTF_KNOWN) ps →
  ∃ outs, printf (concat (piece_text <$> ps)) (concat (piece_args <$> ps) ++ rest) = Ret (concat outs) ∧
    Forall2 (shown DIGITS_UPPER) ps outs.
Proof.
  unfold printf. intros Hj. induction 1 as [|p ps Hp _ IH]; [by exists []|].
  destruct IH as (outs & E & Hs). destruct (printf_piece p (concat (piece_args <$> ps) ++ rest) (concat (piece_text <$> ps)) Hj Hp) as (out & Ho & E').
  exists (out :: outs). rewrite !fmap_cons, !concat_cons, <-app_assoc, E', E. split; [done|by constructor].
Qed.

Lemma consputs_app s l1 l2 : consputs s (l1 ++ l2) = (let! s1 := consputs s l1 in consputs s1 l2).
Proof. revert s. induction l1 as [|c l1 IH]; intros s; cbn [consputs app]; [done|]. destruct (consputc s c); cbn [obind]; [apply IH|done..]. Qed.

Lemma cprintf_piece p rest fmt :
  length junk = 16%nat → piece_ok CPRINTF_KNOWN p →
  ∃ out, shown DIGITS_LOWER p out ∧ ∀ s,
    cprintf_loop s (piece_text p ++ fmt) (piece_args p ++ rest) = (let! s1 := consputs s out in cprintf_loop s1 fmt rest).
Proof.
  intros Hj Hp.
  assert (Hnum : ∀ x base sgn, base = 10 ∨ base = 16 →
    ∃ out, number_text DIGITS_LOWER base (s32 x) sgn out ∧ ∀ s, cprintint s (s32 x) base sgn = consputs s out).
  { intros x base sgn Hb. destruct (number_ok DIGITS_LOWER (s32 x) base sgn eq_refl Hj (s32_range x) Hb) as (out & E & Hn).
    exists out. split; [done|]. intros s. unfold cprintint. by rewrite E. }
  destruct p as [c|x|x|x|a l| |x| |c]; cbn [piece_text piece_args app shown piece_ok] in *; cbn [cprintf_loop].
  - destruct Hp as [Hc Hpc]. rewrite land_byte by lia. rewrite (proj2 (Z.eqb_neq c PCT)) by done. exists [c]. split; [done|]. intros s.
    cbn [consputs]. by destruct (consputc s c).
  - destruct (Hnum x 10 true ltac:(by left)) as (out & Hn & E). exists out. split; [done|]. intros s. letter. rewrite E. by destruct (consputs s out).
  - destruct (Hnum x 16 false ltac:(by right)) as (out & Hn & E). exists out. split; [done|]. intros s. letter. rewrite E. by destruct (consputs s out).
  - destruct (Hnum x 16 false ltac:(by right)) as (out & Hn & E). exists out. split; [done|]. intros s. letter. rewrite E. by destruct (consputs s out).
  - destruct Hp as (Hs & Hstr & Hlen). exists l. split; [done|]. intros s. letter. unfold str_arg. rewrite (proj2 (Z.eqb_neq a 0)) by done.
    rewrite (chars_ok l fuel a) by done. simpl. by destruct (consputs s l).
  - exists NULL_TEXT. split; [done|]. intros s. letter.
    by do 6 (match goal with |- context [consputc ?a ?b] => destruct (consputc a b); simpl; [|done..] end).
  - exfalso. clear -Hp. unfold CPRINTF_KNOWN, PCT in Hp. rewrite !elem_of_cons in Hp. pose proof (not_elem_of_nil 99). naive_solver.
  - exists [PCT]. split; [done|]. intros s. letter. cbn [consputs]. by destruct (consputc s PCT).
  - destruct Hp as [Hc Hk]. exists [PCT; c]. split; [done|]. intros s. simpl. rewrite land_byte by lia. unfold cconversion.
    unfold CPRINTF_KNOWN in Hk. rewrite !not_elem_of_cons in Hk. destruct Hk as (H1 & H2 & H3 & H4 & H5 & _).
    rewrite !(proj2 (Z.eqb_neq _ _)) by done. cbn [consputs]. destruct (consputc s PCT) as [s1| | | |]; simpl; [|done..]. by destruct (consputc s1 c).
Qed.

Lemma cprintf_pieces ps rest :
  length junk = 16%nat → Forall (piece_ok CPRINTF_KNOWN) ps →
  ∃ outs, Forall2 (shown DIGITS_LOWER) ps outs ∧
    ∀ s, cprintf s (Some (concat (piece_text <$> ps))) (concat (piece_args <$> ps) ++ rest) = consputs s (concat outs).
Proof.
  unfold cprintf. intros Hj. induction 1 as [|p ps Hp _ IH]; [by exists []|].
  destruct IH as (outs & Hs & E). destruct (cprintf_piece p (concat (piece_args <$> ps) ++ rest) (concat (piece_text <$> ps)) Hj Hp) as (out & Ho & E').
  exists (out :: outs). split; [by constructor|]. intros s. rewrite !fmap_cons, !concat_cons, <-app_assoc, E', consputs_app.
  destruct (consputs s out); simpl; [apply E|done..].
Qed.
End printf.

(** ** Printing *)

(** C33: printf of a format made of text, conversions and their arguments writes the
    text and, for every conversion, its argument: a number in base 10 with its sign
    or in base 16, without leading zeros, a string up to its NUL, a byte, or, for a
    letter it does not know, the conversion itself.  The buffer of sixteen bytes
    always holds the number. *)
Theorem printf_spec junk fuel m ps rest :
  length junk = 16%nat → Forall (piece_ok fuel m PRINTF_KNOWN) ps →
  ∃ outs, printf junk fuel m (concat (piece_text <$> ps)) (concat (piece_args <$> ps) ++ rest) = Ret (concat outs) ∧
    Forall2 (shown DIGITS_UPPER) ps outs.
Proof. apply printf_pieces. Qed.

Lemma printf_spec_witness :
  ∃ outs, printf (replicate 16 0) 4 (λ a, if Z.eqb a 8 then 104 else if Z.eqb a 9 then 105 else 0)
    [37; 115; 32; 37; 100; 10] [8; 4294967295] = Ret (concat outs) ∧ concat outs = [104; 105; 32; 45; 49; 10].
Proof.
  destruct (printf_spec (replicate 16 0) 4 (λ a, if Z.eqb a 8 then 104 else if Z.eqb a 9 then 105 else 0)
    [Str 8 [104; 105]; Char 32; Dec 4294967295; Char 10] []) as (outs & E & _).
  - done.
  - repeat constructor; simpl; unfold PCT, is_u32; try lia; try done.
  - exists outs. split; [exact E|]. vm_compute in E. by injection E.
Defined.

Lemma consputc_sends s c : cga_ok s → 0 ≤ c < 256 → ∃ s', consputc s c = Ret s' ∧ uart s' = uart s ++ [c] ∧ cga_ok s'.
Proof.
  intros Hs Hc. unfold consputc. rewrite (proj2 (Z.eqb_neq c BACKSPACE)) by (unfold BACKSPACE; lia).
  destruct (cgaputc_ok (uartputc s c) c) as (s' & E & _ & Hu & Hg); [done|]. exists s'. split_and!; [done| |done].
  rewrite Hu. unfold uartputc. simpl. unfold u8. by rewrite Z.mod_small.
Qed.

Lemma consputs_sends s l : cga_ok s → Forall (λ c, 0 ≤ c < 256) l → ∃ s', consputs s l = Ret s' ∧ uart s' = uart s ++ l ∧ cga_ok s'.
Proof.
  intros Hs Hl. revert s Hs. induction Hl as [|c l Hc _ IH]; intros s Hs; simpl; [exists s; by rewrite app_nil_r|].
  destruct (consputc_sends s c Hs Hc) as (s1 & -> & Hu & Hs1). simpl. destruct (IH s1 Hs1) as (s2 & -> & Hu2 & Hs2).
  exists s2. by rewrite Hu2, Hu, <-app_assoc.
Qed.

Lemma glyph_byte digits d : Forall (λ c, 0 ≤ c < 256) digits → 0 ≤ glyph digits d < 256.
Proof.
  intros H. unfold glyph. destruct (nth_in_or_default (Z.to_nat d) digits 0) as [Hin| ->]; [|lia].
  apply list_elem_of_In in Hin. by eapply Forall_forall in H.
Qed.

Lemma has_str_bytes m s l : has_str m s l → Forall (λ c, 0 ≤ c < 256) l.
Proof.
  revert s. induction l as [|c l IH]; intros s; simpl; [done|]. intros (_ & <- & Hl). constructor; [apply load8_range|by eapply IH].
Qed.

Lemma shown_bytes fuel m known digits p out :
  Forall (λ c, 0 ≤ c < 256) digits → piece_ok fuel m known p → shown digits p out → Forall (λ c, 0 ≤ c < 256) out.
Proof.
  intros Hd Hp.
  assert (Hnum : ∀ base xx sgn, number_text digits base xx sgn out → Forall (λ c, 0 ≤ c < 256) out).
  { intros base xx sgn (ds & _ & ->). apply Forall_app. split; [destruct (_ && _); [apply Forall_singleton; unfold MINUS; lia|done]|].
    apply Forall_fmap, Forall_forall. intros d _. by apply glyph_byte. }
  destruct p; simpl in *; try apply Hnum; intros ->.
  - apply Forall_singleton. lia.
  - eapply has_str_bytes. apply Hp.
  - unfold NULL_TEXT. repeat constructor; lia.
  - apply Forall_singleton. apply u8_range.
  - apply Forall_singleton. unfold PCT. lia.
  - repeat constructor; unfold PCT; lia.
Qed.

(** cprintf of such a format never panics and sends to the serial port exactly the
    bytes of its text and of its conversions, one after the other. *)
Theorem cprintf_spec junk fuel m ps rest s :
  length junk = 16%nat → Forall (piece_ok fuel m CPRINTF_KNOWN) ps → cga_ok s →
  ∃ outs s', cprintf junk fuel m s (Some (concat (piece_text <$> ps))) (concat (piece_args <$> ps) ++ rest) = Ret s' ∧
    Forall2 (shown DIGITS_LOWER) ps outs ∧ uart s' = uart s ++ concat outs ∧ cga_ok s'.
Proof.
  intros Hj Hps Hs. destruct (cprintf_pieces junk fuel m ps rest Hj Hps) as (outs & Hsh & E). exists outs.
  destruct (consputs_sends s (concat outs) Hs) as (s' & E' & Hu & Hg).
  - clear E. induction Hsh as [|p out ps outs Hp _ IH]; simpl; [done|]. apply Forall_cons in Hps as [Hok Hps].
    apply Forall_app. split; [|by apply IH]. eapply shown_bytes; [|done|done]. unfold DIGITS_LOWER. repeat constructor; lia.
  - exists s'. by rewrite E, E'.
Qed.

Lemma cprintf_spec_witness :
  ∃ s', cprintf (replicate 16 0) 1 (λ _, 0) (con0 [] (λ _, 0) 0) (Some [37; 120; 37; 115]) [255; 0] = Ret s' ∧ cga_ok s'.
Proof.
  destruct (cprintf_spec (replicate 16 0) 1 (λ _, 0) [Hex 255; Null] [] (con0 [] (λ _, 0) 0)) as (outs & s' & E & _ & _ & Hg).
  - done.
  - repeat constructor; simpl; unfold is_u32; lia.
  - unfold cga_ok. simpl. lia.
  - exists s'. split; [exact E|exact Hg].
Defined.

(** ** Reading numbers back *)

Lemma value_grow base n ds : 1 ≤ base → 0 ≤ n → Forall (λ d, 0 ≤ d < base) ds → n ≤ foldl (λ v d, v * base + d) n ds.
Proof.
  intros Hb. revert n. induction ds as [|d ds IH]; intros n Hn; simpl; [lia|]. intros [Hd Hds]%Forall_cons.
  specialize (IH (n * base + d) ltac:(nia) Hds). nia.
Qed.

Lemma glyph_decimal digits d : digits = DIGITS_UPPER ∨ digits = DIGITS_LOWER → 0 ≤ d < 10 → glyph digits d = 48 + d.
Proof.
  intros Hdig Hd. assert (Hc : d = 0 ∨ d = 1 ∨ d = 2 ∨ d = 3 ∨ d = 4 ∨ d = 5 ∨ d = 6 ∨ d = 7 ∨ d = 8 ∨ d = 9) by lia.
  destruct Hdig as [-> | ->]; (repeat destruct Hc as [->|Hc]; [done..|by subst]).
Qed.

(** The digits at [s], followed by a byte that is none. *)
Fixpoint digits_at (m : mem) (s : Z) (ds : list Z) : Prop :=
  match ds with
  | [] => ¬ 48 ≤ load8 m s ≤ 57
  | d :: ds => load8 m s = 48 + d ∧ digits_at m (s + 1) ds
  end.

Lemma atoi_loop_ok m ds s n fuel :
  digits_at m s ds → Forall (λ d, 0 ≤ d < 10) ds → 0 ≤ n → foldl (λ v d, v * 10 + d) n ds < 2 ^ 31 → (length ds < fuel)%nat →
  atoi_loop fuel m s n = Ret (foldl (λ v d, v * 10 + d) n ds).
Proof.
  revert s n fuel. induction ds as [|d ds IH]; intros s n fuel Hat Hds Hn Hv Hf; (destruct fuel as [|fuel]; [simpl in Hf; lia|]);
    cbn [atoi_loop digits_at foldl] in *.
  - destruct (Z.leb_spec 48 (load8 m s)), (Z.leb_spec (load8 m s) 57); simpl; try done. lia.
  - destruct Hat as [-> Hat]. apply Forall_cons in Hds as [Hd Hds].
    rewrite (proj2 (Z.leb_le _ _)), (proj2 (Z.leb_le _ _)) by lia. simpl.
    pose proof (value_grow 10 (n * 10 + d) ds ltac:(lia) ltac:(lia) Hds).
    replace (s32 (n * 10 + (48 + d) - 48)) with (n * 10 + d).
    + apply IH; try done; [lia|simpl in Hf; lia].
    + unfold s32. rewrite u32_small by (unfold is_u32; lia). destruct (Z.ltb_spec (n * 10 + (48 + d) - 48) (2 ^ 31)); lia.
Qed.

(** atoi reads back the decimal digits printf wrote for a number that is not
    negative, wherever they lie in memory, up to the first other byte. *)
Theorem atoi_printint junk m s x :
  length junk = 16%nat → 0 ≤ x < 2 ^ 31 →
  ∃ out, printint junk x 10 true = Ret out ∧
    ((∀ i c, out !! i = Some c → load8 m (s + Z.of_nat i) = c) → ¬ 48 ≤ load8 m (s + Z.of_nat (length out)) ≤ 57 →
     ∀ fuel, (length out < fuel)%nat → atoi fuel m s = Ret x).
Proof.
  intros Hj Hx. destruct (number_ok junk DIGITS_UPPER x 10 true eq_refl Hj ltac:(lia) ltac:(by left)) as (out & E & ds & (Hv & Hds & _) & ->).
  rewrite (proj2 (Z.ltb_ge x 0)) in E, Hv by lia. simpl in E, Hv. eexists. split; [exact E|]. clear E.
  rewrite u32_small in Hv by (unfold is_u32; lia). rewrite length_fmap.
  intros Hout Hend fuel Hf. unfold atoi. rewrite (atoi_loop_ok m ds) ; try done; [by unfold value in Hv; rewrite Hv| |unfold value in Hv; lia].
  clear Hv Hf. revert s Hout Hend. induction Hds as [|d ds Hd _ IH]; intros s Hout Hend; simpl in *.
  - by rewrite Z.add_0_r in Hend.
  - split.
    + rewrite <-(glyph_decimal DIGITS_UPPER) by (done || by left). rewrite <-(Hout 0%nat _ eq_refl). f_equal. lia.
    + apply IH; [|by replace (s + 1 + Z.of_nat (length ds)) with (s + Z.of_nat (S (length ds))) by lia].
      intros i c Hi. rewrite <-(Hout (S i) c Hi). f_equal. lia.
Qed.

Lemma atoi_printint_witness : atoi 3 (λ a, if Z.eqb a 0 then 52 else if Z.eqb a 1 then 50 else 0) 0 = Ret 42.
Proof.
  destruct (atoi_printint (replicate 16 0) (λ a, if Z.eqb a 0 then 52 else if Z.eqb a 1 then 50 else 0) 0 42 eq_refl ltac:(lia)) as (out & E & H).
  vm_compute in E. injection E as <-. apply H.
  - intros [|[|i]] c Hc; simplify_eq/=; done.
  - intros [H1 _]. vm_compute in H1. by apply H1.
  - simpl. lia.
Defined.

(** ** Strings *)

Lemma strlen_ok m s l fuel : has_str m s l → (length l < fuel)%nat → strlen fuel m s = Ret (Z.of_nat (length l)).
Proof.
  intros Hl Hf. unfold strlen. cut (strlen_loop fuel m s 0 = Ret (0 + Z.of_nat (length l))); [done|].
  assert (Hl' : has_str m (s + 0) l) by (by rewrite Z.add_0_r). revert Hl' Hf. clear Hl. generalize 0. revert fuel.
  induction l as [|c l IH]; intros fuel n Hl Hf; (destruct fuel as [|fuel]; [simpl in Hf; lia|]); cbn [strlen_loop has_str] in *.
  - rewrite Hl. simpl. f_equal. lia.
  - destruct Hl as (Hc & -> & Hl). rewrite (proj2 (Z.eqb_neq c 0)) by done. rewrite IH; [f_equal; simpl; lia|by rewrite Z.add_assoc|simpl in Hf; lia].
Qed.

(** The first difference of two strings, the end counting as 0. *)
Fixpoint difference (l1 l2 : list Z) : Z :=
  match l1, l2 with
  | [], [] => 0
  | [], d :: _ => - d
  | c :: _, [] => c
  | c :: l1, d :: l2 => if Z.eqb c d then difference l1 l2 else c - d
  end.

Lemma strcmp_ok m p q l1 l2 fuel :
  has_str m p l1 → has_str m q l2 → (length l1 < fuel)%nat → strcmp fuel m p q = Ret (difference l1 l2).
Proof.
  revert p q l2 fuel. induction l1 as [|c l1 IH]; intros p q l2 fuel H1 H2 Hf; (destruct fuel as [|fuel]; [simpl in Hf; lia|]); cbn [strcmp has_str] in *.
  - rewrite H1. simpl. destruct l2 as [|d l2]; simpl in H2; [by rewrite H2|]. by destruct H2 as (_ & -> & _).
  - destruct H1 as (Hc & -> & H1). rewrite (proj2 (Z.eqb_neq c 0)) by done. simpl. destruct l2 as [|d l2]; simpl in H2.
    + rewrite H2, (proj2 (Z.eqb_neq c 0)) by done. f_equal. lia.
    + destruct H2 as (Hd & -> & H2). destruct (Z.eqb c d); [|done]. apply IH; [done|done|simpl in Hf; lia].
Qed.

(** [strcmp] tells equal strings from different ones. *)
Lemma strcmp_equal m p q l1 l2 fuel :
  has_str m p l1 → has_str m q l2 → (length l1 < fuel)%nat → strcmp fuel m p q = Ret 0 ↔ l1 = l2.
Proof.
  intros H1 H2 Hf. rewrite (strcmp_ok m p q l1 l2) by done.
  assert (Hz : ∀ s l, has_str m s l → Forall (λ c, c ≠ 0) l).
  { intros s l. revert s. induction l as [|c l IH]; intros s; simpl; [done|]. intros (? & _ & ?). constructor; [done|by eapply IH]. }
  apply Hz in H1, H2. clear Hf Hz. split; [intros [= E]|intros ->; f_equal; clear; induction l2 as [|c l IH]; simpl; [done|by rewrite Z.eqb_refl]].
  revert l2 H2 E. induction H1 as [|c l1 Hc _ IH]; intros l2 H2 E; destruct H2 as [|d l2 Hd H2]; simpl in E; try done; try lia.
  destruct (Z.eqb_spec c d) as [->|]; [by rewrite (IH l2)|lia].
Qed.

Lemma has_str_frame m m' s l :
  (∀ a, s ≤ a ≤ s + Z.of_nat (length l) → load8 m' a = load8 m a) → has_str m s l → has_str m' s l.
Proof.
  revert s. induction l as [|c l IH]; intros s Hm; cbn [has_str length] in *.
  - by rewrite Hm by lia.
  - rewrite Hm by lia. intros (? & ? & ?). split_and!; [done|done|]. apply IH; [|done]. intros a Ha. apply Hm. lia.
Qed.

Lemma strcpy_ok m s t l fuel :
  has_str m t l → (length l < fuel)%nat → s + Z.of_nat (length l) < t ∨ t + Z.of_nat (length l) < s →
  ∃ m', strcpy fuel m s t = Ret m' ∧ has_str m' s l ∧
    (∀ a, ¬ s ≤ a ≤ s + Z.of_nat (length l) → load8 m' a = load8 m a).
Proof.
  revert m s t fuel. induction l as [|c l IH]; intros m s t fuel Hl Hf Hd; (destruct fuel as [|fuel]; [simpl in Hf; lia|]); cbn [strcpy has_str length] in *.
  - rewrite Hl. simpl. eexists. split_and!; [done|by rewrite load8_store8_eq|]. intros a Ha. rewrite load8_store8_ne; [done|lia].
  - destruct Hl as (Hc & E & Hl). rewrite E, (proj2 (Z.eqb_neq c 0)) by done.
    assert (Hl' : has_str (store8 m s c) (t + 1) l) by (eapply has_str_frame; [|done]; intros a Ha; apply load8_store8_ne; lia).
    destruct (IH (store8 m s c) (s + 1) (t + 1) fuel Hl' ltac:(lia) ltac:(lia)) as (m' & -> & Hm' & Hfr).
    exists m'. split_and!; [done|done| |done|].
    + rewrite Hfr by lia. rewrite load8_store8_eq. rewrite <-E. unfold u8. apply Z.mod_small, load8_range.
    + intros a Ha. rewrite Hfr by lia. apply load8_store8_ne. lia.
Qed.

Lemma strchr_ok m s l c fuel :
  has_str m s l → (length l < fuel)%nat → 0 < c < 256 →
  (c ∉ l ∧ strchr fuel m s c = Ret 0) ∨ (∃ l1 l2, l = l1 ++ c :: l2 ∧ c ∉ l1 ∧ strchr fuel m s c = Ret (s + Z.of_nat (length l1))).
Proof.
  intros Hl Hf Hc. revert s fuel Hl Hf. induction l as [|d l IH]; intros s fuel Hl Hf; (destruct fuel as [|fuel]; [simpl in Hf; lia|]); cbn [strchr has_str] in *.
  - left. rewrite Hl. split; [apply not_elem_of_nil|done].
  - destruct Hl as (Hd & -> & Hl). rewrite (proj2 (Z.eqb_neq d 0)) by done. unfold u8. rewrite (Z.mod_small c) by lia.
    destruct (Z.eqb_spec d c) as [->|Hne].
    + right. exists [], l. split_and!; [done|apply not_elem_of_nil|f_equal; simpl; lia].
    + destruct (IH (s + 1) fuel Hl ltac:(simpl in Hf; lia)) as [[Hn E]|(l1 & l2 & -> & Hn & E)]; rewrite E.
      * left. split; [by apply not_elem_of_cons|done].
      * right. exists (d :: l1), l2. split_and!; [done|by apply not_elem_of_cons|f_equal; simpl; lia].
Qed.

(** The line [gets] returns: up to [n] bytes, ended by a newline or a carriage return. *)
Fixpoint line_of (n : nat) (input : list Z) : list Z :=
  match n, input with
  | O, _ | _, [] => []
  | S n, c :: input => if Z.eqb c NL || Z.eqb c CR then [c] else c :: line_of n input
  end.

Lemma line_of_length n input : (length (line_of n input) ≤ n)%nat.
Proof.
  revert input. induction n as [|n IH]; intros [|c input]; simpl; try lia. destruct (_ || _); simpl; [lia|]. specialize (IH input). lia.
Qed.

Lemma gets_loop_ok input m buf i n :
  Forall (λ c, 0 ≤ c < 256) input → 0 ≤ i →
  ∃ m' rest, gets_loop input m buf i n = (m', i + Z.of_nat (length (line_of n input)), rest) ∧ input = line_of n input ++ rest ∧
    (∀ k c, line_of n input !! k = Some c → load8 m' (buf + i + Z.of_nat k) = c) ∧
    (∀ a, ¬ buf + i ≤ a < buf + i + Z.of_nat (length (line_of n input)) → load8 m' a = load8 m a).
Proof.
  intros Hb Hi. revert input m i Hb Hi. induction n as [|n IH]; intros input m i Hb Hi.
  { exists m, input. simpl. rewrite Z.add_0_r. destruct input; split_and!; try done. }
  destruct input as [|c input]; [exists m, []; simpl; rewrite Z.add_0_r; split_and!; done|].
  apply Forall_cons in Hb as [Hc Hb]. cbn [gets_loop line_of].
  assert (Hu : u8 c = c) by (unfold u8; by apply Z.mod_small).
  destruct (Z.eqb c NL || Z.eqb c CR).
  - exists (store8 m (buf + i) c), input. simpl. split_and!; [done|done| |].
    + intros [|k] d Hk; simplify_eq/=. by rewrite Z.add_0_r, load8_store8_eq.
    + intros a Ha. apply load8_store8_ne. lia.
  - destruct (IH input (store8 m (buf + i) c) (i + 1) Hb ltac:(lia)) as (m' & rest & -> & E & Hin & Hout).
    exists m', rest. cbn [length app]. split_and!; [f_equal; f_equal; lia|by rewrite <-E| |].
    + intros [|k] d Hk; simplify_eq/=.
      * rewrite Hout by lia. by rewrite Z.add_0_r, load8_store8_eq.
      * rewrite <-(Hin k d Hk). f_equal. lia.
    + intros a Ha. rewrite Hout by lia. apply load8_store8_ne. lia.
Qed.

(** [gets] takes one line, stores it with a NUL inside the buffer, and leaves the rest
    of the input and of the memory. *)
Lemma gets_ok input m buf max :
  Forall (λ c, 0 ≤ c < 256) input → 1 ≤ max →
  let line := line_of (Z.to_nat (max - 1)) input in
  ∃ m' rest, gets input m buf max = (m', rest) ∧ input = line ++ rest ∧ Z.of_nat (length line) < max ∧
    (∀ k c, (line ++ [0]) !! k = Some c → load8 m' (buf + Z.of_nat k) = c) ∧
    (∀ a, ¬ buf ≤ a < buf + max → load8 m' a = load8 m a).
Proof.
  intros Hb Hmax line. unfold gets. destruct (gets_loop_ok input m buf 0 (Z.to_nat (max - 1)) Hb ltac:(lia)) as (m' & rest & -> & E & Hin & Hout).
  fold line in E, Hin, Hout |- *. pose proof (line_of_length (Z.to_nat (max - 1)) input) as Hlen. fold line in Hlen.
  eexists _, rest. split_and!; [reflexivity|done|lia| |].
  - intros k c [Hk|[Hk Hc]]%lookup_app_Some.
    + pose proof (lookup_lt_Some _ _ _ Hk). rewrite load8_store8_ne by lia. rewrite <-(Hin k c Hk). f_equal. lia.
    + destruct (k - length line)%nat as [|j] eqn:Ej; simplify_eq/=. replace (Z.of_nat k) with (0 + Z.of_nat (length line)) by lia.
      by rewrite load8_store8_eq.
  - intros a Ha. rewrite load8_store8_ne by lia. apply Hout. lia.
Qed.

(** Between blocks that overlap the user's [memmove] copies bytes it has overwritten,
    unlike the kernel's. *)
Example memmove_smears :
  let m := λ a, if Z.eqb a 100 then 1 else if Z.eqb a 101 then 2 else 0 in
  load8 (memmove m 101 100 2) 102 = 1 ∧ load8 (Memory.memmove m 101 100 2) 102 = 2.
Proof. by vm_compute. Qed.
