(* ===== verification/Ide.v ===== *)
(** * The IDE disk driver (ide.c)

    The queue of buffers that wait for the disk, linked through [qnext], the
    programming of the controller's registers, and the interrupt that completes
    the first request.  The controller is a parameter, an interface of port
    operations with the laws of its programmed I/O protocol.  The theorems show
    that the driver behaves like a disk that serves each request at the call. *)
From stdpp Require Import base list list_numbers strings.
From Stdlib Require Import ZArith Lia FunctionalExtensionality.
From S2P Require Import Prelude Sleeplock Bio.

Definition IDE_BSY : Z := 0x80.
Definition IDE_DRDY : Z := 0x40.
Definition IDE_DF : Z := 0x20.
Definition IDE_ERR : Z := 0x01.
Definition IDE_CMD_READ : Z := 0x20.
Definition IDE_CMD_WRITE : Z := 0x30.
Definition IDE_CMD_RDMUL : Z := 0xc4.
Definition IDE_CMD_WRMUL : Z := 0xc5.
Definition SECTOR_SIZE : Z := 512.
Definition FSSIZE : Z := 1000.

(** ** The controller *)

(** Byte ports, and the data port, through which whole blocks pass. *)
Class Controller (C : Type) := {
  outb : C → Z → Z → C;
  inb : C → Z → Z * C;
  outsl : C → list Z → C;
  insl : C → list Z * C }.

(** ** The driver *)

(** The null pointer. *)
Definition NIL : Z := -1.

(** [idelock] is held for the whole of each section; [sleeping] are the buffers
    whose processes sleep in [iderw]. *)
Record ide (C : Type) := mkIde {
  ctl : C; bufs : Z → buf; qnext : Z → Z; idequeue : Z; havedisk1 : bool; sleeping : list Z }.
Arguments mkIde {C}.
Arguments ctl {C}.
Arguments bufs {C}.
Arguments qnext {C}.
Arguments idequeue {C}.
Arguments havedisk1 {C}.
Arguments sleeping {C}.

Section driver.
  Context {C : Type} `{Controller C} (fuel : nat).

Definition set_ctl (s : ide C) (c : C) : ide C := mkIde c (bufs s) (qnext s) (idequeue s) (havedisk1 s) (sleeping s).
Definition set_buf (s : ide C) (b : Z) (x : buf) : ide C :=
  mkIde (ctl s) (upd (bufs s) b x) (qnext s) (idequeue s) (havedisk1 s) (sleeping s).
Definition set_qnext (s : ide C) (b n : Z) : ide C :=
  mkIde (ctl s) (bufs s) (upd (qnext s) b n) (idequeue s) (havedisk1 s) (sleeping s).
Definition set_queue (s : ide C) (b : Z) : ide C := mkIde (ctl s) (bufs s) (qnext s) b (havedisk1 s) (sleeping s).
Definition set_sleeping (s : ide C) (l : list Z) : ide C := mkIde (ctl s) (bufs s) (qnext s) (idequeue s) (havedisk1 s) l.

Fixpoint idewait (k : nat) (c : C) (checkerr : bool) : outcome (Z * C) :=
  match k with
  | O => NoFuel
  | S k =>
      let '(r, c) := inb c 0x1f7 in
      if negb (Z.eqb (Z.land r (Z.lor IDE_BSY IDE_DRDY)) IDE_DRDY) then idewait k c checkerr
      else if checkerr && negb (Z.eqb (Z.land r (Z.lor IDE_DF IDE_ERR)) 0) then Ret (-1, c)
      else Ret (0, c)
  end.

(** The loop that looks for disk 1. *)
Fixpoint probe (k : nat) (c : C) : bool * C :=
  match k with
  | O => (false, c)
  | S k => let '(r, c) := inb c 0x1f7 in if negb (Z.eqb r 0) then (true, c) else probe k c
  end.

Definition ideinit (s : ide C) : outcome (ide C) :=
  let! (_, c) := idewait fuel (ctl s) false in
  let c := outb c 0x1f6 (Z.lor 0xe0 (Z.shiftl 1 4)) in
  let '(found, c) := probe 1000 c in
  let c := outb c 0x1f6 (Z.lor 0xe0 (Z.shiftl 0 4)) in
  Ret (mkIde c (bufs s) (qnext s) (idequeue s) (havedisk1 s || found) (sleeping s)).

Definition idestart (s : ide C) (b : Z) : outcome (ide C) :=
  if Z.eqb b NIL then Panic "idestart"
  else
    let x := bufs s b in
    if Z.geb (b_blockno x) FSSIZE then Panic "incorrect blockno"
    else
      let sector_per_block := BSIZE / SECTOR_SIZE in
      let sector := b_blockno x * sector_per_block in
      let read_cmd := if Z.eqb sector_per_block 1 then IDE_CMD_READ else IDE_CMD_RDMUL in
      let write_cmd := if Z.eqb sector_per_block 1 then IDE_CMD_WRITE else IDE_CMD_WRMUL in
      if Z.gtb sector_per_block 7 then Panic "idestart"
      else
        let! (_, c) := idewait fuel (ctl s) false in
        let c := outb c 0x3f6 0 in
        let c := outb c 0x1f2 sector_per_block in
        let c := outb c 0x1f3 (Z.land sector 0xff) in
        let c := outb c 0x1f4 (Z.land (Z.shiftr sector 8) 0xff) in
        let c := outb c 0x1f5 (Z.land (Z.shiftr sector 16) 0xff) in
        let c := outb c 0x1f6 (Z.lor (Z.lor 0xe0 (Z.shiftl (Z.land (b_dev x) 1) 4)) (Z.land (Z.shiftr sector 24) 0x0f)) in
        let c :=
          if negb (Z.eqb (Z.land (b_flags x) B_DIRTY) 0) then outsl (outb c 0x1f7 write_cmd) (b_data x)
          else outb c 0x1f7 read_cmd in
        Ret (set_ctl s c).

Definition ideintr (s : ide C) : outcome (ide C) :=
  let b := idequeue s in
  if Z.eqb b NIL then Ret s
  else
    let s1 := set_queue s (qnext s b) in
    let! s2 :=
      if Z.eqb (Z.land (b_flags (bufs s1 b)) B_DIRTY) 0 then
        let! (r, c) := idewait fuel (ctl s1) true in
        if Z.geb r 0 then
          let '(data, c) := insl c in
          Ret (set_buf (set_ctl s1 c) b (with_data data (bufs s1 b)))
        else Ret (set_ctl s1 c)
      else Ret s1 in
    let s3 := set_buf s2 b (with_flags (Z.lor (b_flags (bufs s2 b)) B_VALID) (bufs s2 b)) in
    let s4 := set_buf s3 b (with_flags (Z.land (b_flags (bufs s3 b)) (Z.lnot B_DIRTY)) (bufs s3 b)) in
    let s5 := set_sleeping s4 (filter (λ x, x ≠ b) (sleeping s4)) in
    if negb (Z.eqb (idequeue s5) NIL) then idestart s5 (idequeue s5) else Ret s5.

(** [pp] goes from pointer to pointer until one is null: the last buffer of the
    queue that starts at [p]. *)
Fixpoint last_of (k : nat) (s : ide C) (p : Z) : outcome Z :=
  match k with
  | O => NoFuel
  | S k => if Z.eqb (qnext s p) NIL then Ret p else last_of k s (qnext s p)
  end.

Definition append (s : ide C) (b : Z) : outcome (ide C) :=
  if Z.eqb (idequeue s) NIL then Ret (set_queue s b)
  else let! p := last_of fuel s (idequeue s) in Ret (set_qnext s p b).

(** The test of the loop in which [iderw] sleeps. *)
Definition pending (x : buf) : bool := negb (Z.eqb (Z.land (b_flags x) (Z.lor B_VALID B_DIRTY)) B_VALID).

(** [iderw] up to its first [sleep]; it returns when the buffer is no longer pending. *)
Definition iderw (s : ide C) (b : Z) : outcome (ide C) :=
  if negb (holdingsleep (b_lock (bufs s b))) then Panic "iderw: buf not locked"
  else if Z.eqb (Z.land (b_flags (bufs s b)) (Z.lor B_VALID B_DIRTY)) B_VALID then Panic "iderw: nothing to do"
  else if negb (Z.eqb (b_dev (bufs s b)) 0) && negb (havedisk1 s) then Panic "iderw: ide disk 1 not present"
  else
    let s1 := set_qnext s b NIL in
    let! s2 := append s1 b in
    let! s3 := if Z.eqb (idequeue s2) b then idestart s2 b else Ret s2 in
    Ret (if pending (bufs s3 b) then set_sleeping s3 (b :: sleeping s3) else s3).
End driver.

(** ** The protocol of the controller *)

(** The drive and the sector the registers of a controller select. *)
Definition drive_of (r : Z → Z) : Z := Z.land (Z.shiftr (r 0x1f6) 4) 1.
Definition lba_of (r : Z → Z) : Z := r 0x1f3 + 2 ^ 8 * r 0x1f4 + 2 ^ 16 * r 0x1f5 + 2 ^ 24 * Z.land (r 0x1f6) 0x0f.

(** What the driver relies on: the registers hold what is written to them, a ready
    controller comes within [patience] reads of its status, without an error, a
    write command stores the block that follows, and a read command hands out the
    selected sector until its data are taken. *)
Class ControllerLaws (C : Type) `{Controller C} (patience : nat) := {
  sectors : C → Z → Z → list Z;
  regs : C → Z → Z;
  reading : C → option (Z * Z);
  regs_outb c p v : 0x1f2 ≤ p ≤ 0x1f6 → regs (outb c p v) = upd (regs c) p v;
  regs_control c v : regs (outb c 0x3f6 v) = regs c;
  sectors_outb c p v : sectors (outb c p v) = sectors c;
  reading_cmd c : regs c 0x1f2 = 1 → reading (outb c 0x1f7 IDE_CMD_READ) = Some (drive_of (regs c), lba_of (regs c));
  outsl_write c data : regs c 0x1f2 = 1 → Z.of_nat (length data) = SECTOR_SIZE → ∀ d l,
    sectors (outsl (outb c 0x1f7 IDE_CMD_WRITE) data) d l =
      if decide (d = drive_of (regs c) ∧ l = lba_of (regs c)) then data else sectors c d l;
  insl_read c d l : reading c = Some (d, l) → (insl c).1 = sectors c d l ∧ sectors (insl c).2 = sectors c;
  inb_status c : regs (inb c 0x1f7).2 = regs c ∧ sectors (inb c 0x1f7).2 = sectors c ∧ reading (inb c 0x1f7).2 = reading c;
  ready_soon c : ∃ n, (n ≤ patience)%nat ∧
    Z.land (inb (Nat.iter n (λ c, (inb c 0x1f7).2) c) 0x1f7).1 (Z.lor IDE_BSY IDE_DRDY) = IDE_DRDY;
  no_error c :
    Z.land (inb c 0x1f7).1 (Z.lor IDE_BSY IDE_DRDY) = IDE_DRDY → Z.land (inb c 0x1f7).1 (Z.lor IDE_DF IDE_ERR) = 0 }.

Section proofs.
  Context {C : Type} `{Controller C} (patience : nat) `{!ControllerLaws C patience} (fuel : nat) (Hfuel : (patience < fuel)%nat).

Lemma iter_shift {A} (f : A → A) n x : Nat.iter (S n) f x = Nat.iter n f (f x).
Proof. induction n as [|n IH]; [done|]. change (f (Nat.iter (S n) f x) = f (Nat.iter n f (f x))). by rewrite IH. Qed.

Lemma idewait_polls n k c chk :
  (n < k)%nat →
  Z.land (inb (Nat.iter n (λ c, (inb c 0x1f7).2) c) 0x1f7).1 (Z.lor IDE_BSY IDE_DRDY) = IDE_DRDY →
  ∃ c', idewait k c chk = Ret (0, c') ∧ regs c' = regs c ∧ sectors c' = sectors c ∧ reading c' = reading c.
Proof.
  revert k c. induction n as [|n IH]; intros k c Hk Hr; (destruct k as [|k]; [lia|]); cbn [idewait].
  all: pose proof (inb_status c) as (I1 & I2 & I3); pose proof (no_error c) as Hne; destruct (inb c 0x1f7) as [r c1] eqn:E; cbn [fst snd] in *.
  - simpl in Hr. rewrite E in Hr. simpl in Hr. rewrite Hne by done. rewrite Hr. simpl. rewrite andb_false_r. by exists c1.
  - rewrite iter_shift, E in Hr. cbn [snd] in Hr. destruct (Z.eqb_spec (Z.land r (Z.lor IDE_BSY IDE_DRDY)) IDE_DRDY) as [Hd|_]; simpl.
    + rewrite Hne by done. simpl. rewrite andb_false_r. by exists c1.
    + destruct (IH k c1 ltac:(lia) Hr) as (c' & E' & R1 & R2 & R3). exists c'. split_and!; [done|congruence..].
Qed.

Lemma idewait_ok c chk :
  ∃ c', idewait fuel c chk = Ret (0, c') ∧ regs c' = regs c ∧ sectors c' = sectors c ∧ reading c' = reading c.
Proof. destruct (ready_soon c) as (n & Hn & Hr). apply (idewait_polls n); [lia|done]. Qed.

(** Initialisation leaves the sectors and the queue alone. *)
Lemma ideinit_ok s : ∃ s', ideinit fuel s = Ret s' ∧ sectors (ctl s') = sectors (ctl s) ∧ idequeue s' = idequeue s ∧ bufs s' = bufs s.
Proof.
  unfold ideinit. destruct (idewait_ok (ctl s) false) as (c & -> & _ & Hs & _). cbn [obind].
  assert (Hp : ∀ k c, sectors (probe k c).2 = sectors c).
  { clear. induction k as [|k IH]; intros c; [done|]. cbn [probe]. pose proof (inb_status c) as (_ & Hi & _).
    destruct (inb c 0x1f7) as [r c']. simpl in Hi. destruct (negb _); simpl; [done|]. by rewrite IH. }
  set (c1 := outb c _ _). specialize (Hp 1000%nat c1). destruct (probe 1000 c1) as [found c2]. simpl in Hp.
  eexists. split; [reflexivity|]. simpl. rewrite sectors_outb, Hp. unfold c1. by rewrite sectors_outb.
Qed.

(** ** Starting a request *)

(** The sector of a buffer. *)
Definition place (x : buf) : Z * Z := (Z.land (b_dev x) 1, b_blockno x).
Definition is_dirty (x : buf) : bool := negb (Z.eqb (Z.land (b_flags x) B_DIRTY) 0).

(** A buffer the disk can serve. *)
Definition request_ok (b : Z) (x : buf) : Prop :=
  0 ≤ b < NBUF ∧ 0 ≤ b_blockno x < FSSIZE ∧ Z.of_nat (length (b_data x)) = SECTOR_SIZE.

(** The registers select the sector. *)
Lemma lba_split n dev r :
  0 ≤ n < FSSIZE →
  r 0x1f3 = Z.land n 0xff → r 0x1f4 = Z.land (Z.shiftr n 8) 0xff → r 0x1f5 = Z.land (Z.shiftr n 16) 0xff →
  r 0x1f6 = Z.lor (Z.lor 0xe0 (Z.shiftl (Z.land dev 1) 4)) (Z.land (Z.shiftr n 24) 0x0f) →
  drive_of r = Z.land dev 1 ∧ lba_of r = n.
Proof.
  unfold FSSIZE. intros Hn H3 H4 H5 H6. unfold drive_of, lba_of. rewrite H3, H4, H5, H6.
  change 0xff with (Z.ones 8). change 0x0f with (Z.ones 4). rewrite !Z.land_ones, !Z.shiftr_div_pow2 by lia.
  rewrite (Z.div_small n (2 ^ 24)), (Z.div_small n (2 ^ 16)), !(Z.mod_small 0) by lia.
  assert (Hd : Z.land dev 1 = 0 ∨ Z.land dev 1 = 1).
  { pose proof (Z.land_ones dev 1 ltac:(lia)) as E. change (Z.ones 1) with 1 in E. rewrite E. pose proof (Z.mod_pos_bound dev (2 ^ 1) ltac:(lia)). lia. }
  pose proof (Z.div_mod n 256 ltac:(lia)). assert (n / 256 < 256) by (apply Z.div_lt_upper_bound; lia).
  assert (0 ≤ n / 256) by (apply Z.div_pos; lia). change (2 ^ 8) with 256. rewrite (Z.mod_small (n / 256)) by lia.
  destruct Hd as [-> | ->]; simpl; split; try done;
    match goal with |- context [?x mod 2 ^ 4] => change (x mod 2 ^ 4) with 0 end; lia.
Qed.

(** What a started request leaves: a dirty buffer on the disk, or the sector of a
    clean one ready to be taken. *)
Definition started (c : C) (x : buf) : Prop :=
  if is_dirty x then sectors c (place x).1 (place x).2 = b_data x else reading c = Some (place x).

Definition write_sector (d : Z → Z → list Z) (p : Z * Z) (data : list Z) : Z → Z → list Z :=
  λ e l, if decide (e = p.1 ∧ l = p.2) then data else d e l.

Lemma idestart_ok (s : ide C) b :
  request_ok b (bufs s b) →
  ∃ c, idestart fuel s b = Ret (set_ctl s c) ∧ started c (bufs s b) ∧
    sectors c = if is_dirty (bufs s b) then write_sector (sectors (ctl s)) (place (bufs s b)) (b_data (bufs s b)) else sectors (ctl s).
Proof.
  intros (Hb & Hbn & Hlen). unfold idestart. rewrite (proj2 (Z.eqb_neq b NIL)) by (unfold NIL; lia). set (x := bufs s b) in *.
  rewrite Z.geb_leb, (proj2 (Z.leb_gt FSSIZE (b_blockno x))) by lia. change (BSIZE / SECTOR_SIZE) with 1. change (Z.eqb 1 1) with true. change (Z.gtb 1 7) with false. cbv iota.
  destruct (idewait_ok (ctl s) false) as (c0 & -> & R0 & S0 & _). cbn [obind]. rewrite Z.mul_1_r.
  match goal with |- context [outb (outb (outb (outb (outb (outb c0 ?a ?v) ?a1 ?v1) ?a2 ?v2) ?a3 ?v3) ?a4 ?v4) ?a5 ?v5] =>
    set (c1 := outb (outb (outb (outb (outb (outb c0 a v) a1 v1) a2 v2) a3 v3) a4 v4) a5 v5) end.
  assert (Hr : regs c1 0x1f2 = 1 ∧ drive_of (regs c1) = (place x).1 ∧ lba_of (regs c1) = (place x).2).
  { unfold c1. rewrite !regs_outb by lia. split; [done|]. by apply lba_split. }
  assert (Hs : sectors c1 = sectors (ctl s)) by (unfold c1; by rewrite !sectors_outb).
  destruct Hr as (H2 & Hd & Hl). fold (is_dirty x). unfold started. destruct (is_dirty x) eqn:Edirty; eexists; (split; [reflexivity|]).
  - assert (Hw : sectors (outsl (outb c1 0x1f7 IDE_CMD_WRITE) (b_data x)) = write_sector (sectors (ctl s)) (place x) (b_data x)).
    { extensionality e. extensionality l. rewrite outsl_write by done. unfold write_sector. by rewrite Hd, Hl, Hs. }
    rewrite Hw. split; [|done]. unfold write_sector. by rewrite decide_True.
  - rewrite sectors_outb, Hs. split; [|done]. rewrite reading_cmd by done. by rewrite Hd, Hl.
Qed.

(** ** The disk the driver implements *)

(** A request served at once: a dirty buffer goes to its sector, a clean one is
    filled from it; either is then valid and clean. *)
Definition served (x : buf) : buf := with_flags (Z.land (Z.lor (b_flags x) B_VALID) (Z.lnot B_DIRTY)) x.
Definition serve (a : (Z → Z → list Z) * (Z → buf)) (b : Z) : (Z → Z → list Z) * (Z → buf) :=
  let '(d, bs) := a in
  let x := bs b in
  if is_dirty x then (write_sector d (place x) (b_data x), upd bs b (served x))
  else (d, upd bs b (served (with_data (d (place x).1 (place x).2) x))).

(** The state of that disk: the driver's, with the requests [Q] served in order. *)
Definition view (s : ide C) (Q : list Z) : (Z → Z → list Z) * (Z → buf) := foldl serve (sectors (ctl s), bufs s) Q.

(** [Q] is the queue that starts at [p]. *)
Fixpoint chain (next : Z → Z) (p : Z) (Q : list Z) : Prop :=
  match Q with
  | [] => p = NIL
  | b :: Q => p = b ∧ b ≠ NIL ∧ chain next (next b) Q
  end.

Record driver_ok (s : ide C) (Q : list Z) : Prop := mk_driver_ok {
  do_chain : chain (qnext s) (idequeue s) Q;
  do_nodup : NoDup Q;
  do_requests : Forall (λ b, request_ok b (bufs s b) ∧ pending (bufs s b) = true) Q;
  do_started : match Q with [] => True | b :: _ => started (ctl s) (bufs s b) end;
  do_sleeping : ∀ b, b ∈ sleeping s ↔ b ∈ Q }.

Lemma queue_ext next next' p Q : (∀ b, b ∈ Q → next' b = next b) → chain next p Q → chain next' p Q.
Proof.
  revert p. induction Q as [|b Q IH]; intros p Hn; simpl; [done|]. intros (? & ? & Hc). split_and!; [done|done|].
  rewrite Hn by left. apply IH; [|done]. intros x Hx. apply Hn. by right.
Qed.

Lemma last_of_ok (s : ide C) Q p k : chain (qnext s) p Q → Q ≠ [] → (length Q ≤ k)%nat →
  ∃ Q' b, Q = Q' ++ [b] ∧ last_of k s p = Ret b.
Proof.
  revert p k. induction Q as [|b Q IH]; intros p k Hc Hne Hk; [done|]. destruct k as [|k]; [simpl in Hk; lia|].
  destruct Hc as (-> & Hb & Hc). cbn [last_of]. destruct Q as [|b' Q].
  - exists [], b. simpl in Hc. by rewrite Hc.
  - destruct (IH (qnext s b) k Hc ltac:(done) ltac:(simpl in *; lia)) as (Q' & e & EQ & E). exists (b :: Q'), e. rewrite EQ. split; [done|].
    destruct Hc as (E1 & Hb' & _). rewrite (proj2 (Z.eqb_neq _ _)) by congruence. done.
Qed.

Lemma chain_snoc next p Q e b :
  chain next p (Q ++ [e]) → NoDup (Q ++ [e]) → b ≠ NIL → b ∉ Q ++ [e] → next b = NIL → chain (upd next e b) p (Q ++ [e; b]).
Proof.
  intros Hc Hnd Hb Hni Hnb. revert p Hc. induction Q as [|x Q IH]; intros p; simpl in *.
  - intros (-> & He & Hn). rewrite upd_eq. split_and!; [done|done|done|done|]. rewrite upd_ne; [done|].
    intros ->. apply Hni. left.
  - intros (-> & Hx & Hc). apply NoDup_cons in Hnd as [Hx' Hnd]. split_and!; [done|done|].
    rewrite upd_ne by (intros ->; apply Hx', elem_of_app; right; left). apply IH; [done|intros ?; apply Hni; by right|done].
Qed.

Lemma write_again d p data : write_sector (write_sector d p data) p data = write_sector d p data.
Proof. extensionality e. extensionality l. unfold write_sector. by destruct (decide _). Qed.

Lemma write_same d p data : d p.1 p.2 = data → write_sector d p data = d.
Proof. intros E. extensionality e. extensionality l. unfold write_sector. destruct (decide _) as [[-> ->]|]; [done|done]. Qed.

Lemma upd_upd_eq {A} (f : Z → A) n x y : upd (upd f n x) n y = upd f n y.
Proof. extensionality k. unfold upd. by destruct (decide _). Qed.
Lemma upd_comm {A} (f : Z → A) n k x y : n ≠ k → upd (upd f n x) k y = upd (upd f k y) n x.
Proof. intros Hne. extensionality j. unfold upd. destruct (decide (j = k)), (decide (j = n)); congruence. Qed.

(** A request that has been started is served as if it had not been. *)
Lemma serve_started (s : ide C) b (c : C) :
  sectors c = (if is_dirty (bufs s b) then write_sector (sectors (ctl s)) (place (bufs s b)) (b_data (bufs s b)) else sectors (ctl s)) →
  serve (sectors c, bufs s) b = serve (sectors (ctl s), bufs s) b.
Proof. intros E. unfold serve. rewrite E. destruct (is_dirty (bufs s b)); [by rewrite write_again|done]. Qed.

(** Buffers outside the queue are not touched. *)
Lemma foldl_serve_other d bs Q b x :
  b ∉ Q → foldl serve (d, upd bs b x) Q = ((foldl serve (d, bs) Q).1, upd (foldl serve (d, bs) Q).2 b x).
Proof.
  revert d bs. induction Q as [|q Q IH]; intros d bs Hni; [done|]. apply not_elem_of_cons in Hni as [Hne Hni].
  simpl. rewrite upd_ne by done. destruct (is_dirty (bs q)); by rewrite (upd_comm bs b q), IH.
Qed.

Lemma foldl_serve_bufs a Q b : b ∉ Q → (foldl serve a Q).2 b = a.2 b.
Proof.
  revert a. induction Q as [|q Q IH]; intros [d bs] Hni; [done|]. apply not_elem_of_cons in Hni as [Hne Hni].
  simpl. rewrite IH by done. destruct (is_dirty (bs q)); simpl; by rewrite upd_ne.
Qed.

(** ** The operations *)

Lemma queue_short s Q : driver_ok s Q → (length Q ≤ Z.to_nat NBUF)%nat.
Proof.
  intros [_ Hnd Hreq _ _]. rewrite <-(length_seqZ 0 NBUF). apply submseteq_length, NoDup_submseteq; [done|].
  intros b Hb. eapply Forall_forall in Hreq as [(Hr & _) _]; [|exact Hb]. apply elem_of_seqZ. lia.
Qed.

(** The queue with one more request, before the disk is started. *)
Lemma append_ok s Q b :
  driver_ok s Q → b ∉ Q → b ≠ NIL → (Z.to_nat NBUF ≤ fuel)%nat →
  ∃ s', append fuel (set_qnext s b NIL) b = Ret s' ∧ ctl s' = ctl s ∧ bufs s' = bufs s ∧ havedisk1 s' = havedisk1 s ∧
    sleeping s' = sleeping s ∧ chain (qnext s') (idequeue s') (Q ++ [b]) ∧ (Q ≠ [] → idequeue s' = idequeue s).
Proof.
  intros Hok Hni Hb Hf. pose proof (queue_short s Q Hok). destruct Hok as [Hc Hnd _ _ _]. unfold append. cbn [idequeue set_qnext].
  destruct Q as [|q Q].
  - simpl in Hc. rewrite Hc. eexists. split_and!; try reflexivity; [|done]. simpl. rewrite upd_eq. by split_and!.
  - pose proof Hc as (E & Hq & _). rewrite (proj2 (Z.eqb_neq (idequeue s) NIL)) by congruence.
    assert (Hc' : chain (upd (qnext s) b NIL) (idequeue s) (q :: Q)).
    { eapply queue_ext; [|exact Hc]. intros x Hx. rewrite upd_ne; [done|congruence]. }
    destruct (last_of_ok (set_qnext s b NIL) (q :: Q) (idequeue s) fuel Hc' ltac:(done) ltac:(lia)) as (Q' & e & EQ & ->). cbn [obind].
    eexists. split_and!; try reflexivity. cbn [idequeue qnext set_qnext]. rewrite EQ in *. rewrite <-app_assoc. simpl.
    apply chain_snoc; [done|done|done|done|by rewrite upd_eq].
Qed.

Lemma iderw_ok s Q b :
  driver_ok s Q → b ∉ Q → request_ok b (bufs s b) → pending (bufs s b) = true → holdingsleep (b_lock (bufs s b)) = true →
  b_dev (bufs s b) = 0 ∨ havedisk1 s = true → (Z.to_nat NBUF ≤ fuel)%nat →
  ∃ s', iderw fuel s b = Ret s' ∧ driver_ok s' (Q ++ [b]) ∧ view s' (Q ++ [b]) = serve (view s Q) b ∧ bufs s' = bufs s ∧ havedisk1 s' = havedisk1 s.
Proof.
  intros Hok Hni Hreq Hpen Hlk Hdev Hf. unfold iderw. rewrite Hlk. cbn [negb].
  assert (Hnt : Z.eqb (Z.land (b_flags (bufs s b)) (Z.lor B_VALID B_DIRTY)) B_VALID = false) by (by apply negb_true_iff).
  rewrite Hnt. assert (Hd1 : negb (Z.eqb (b_dev (bufs s b)) 0) && negb (havedisk1 s) = false).
  { destruct Hdev as [-> | ->]; [done|by rewrite andb_false_r]. }
  rewrite Hd1. destruct (append_ok s Q b Hok Hni) as (s1 & -> & Ec & Eb & Eh & Es & Hchain & Hidle); [unfold NIL; destruct Hreq; lia|done|]. cbn [obind].
  assert (Hnd : NoDup (Q ++ [b])).
  { apply NoDup_app. split_and!; [apply Hok| |apply NoDup_singleton]. intros x Hx ->%list_elem_of_singleton. done. }
  assert (Hreqs : Forall (λ c, request_ok c (bufs s c) ∧ pending (bufs s c) = true) (Q ++ [b])).
  { apply Forall_app. split; [apply Hok|by apply Forall_singleton]. }
  assert (Hsl : ∀ c, c ∈ b :: sleeping s ↔ c ∈ Q ++ [b]).
  { intros c. rewrite elem_of_cons, elem_of_app, list_elem_of_singleton, (do_sleeping _ _ Hok). tauto. }
  destruct Q as [|q Q].
  - pose proof Hchain as (Eq & _). rewrite Eq, Z.eqb_refl.
    destruct (idestart_ok s1 b) as (c & -> & Hst & Hsec); [by rewrite Eb|]. cbn [obind bufs set_ctl]. rewrite Eb in *. rewrite Hpen.
    eexists. split_and!; [reflexivity| | |done|done].
    + split; cbn [qnext idequeue bufs ctl sleeping set_sleeping set_ctl]; rewrite ?Eb, ?Es; done.
    + unfold view. cbn [ctl bufs set_sleeping set_ctl foldl app]. rewrite Eb. apply serve_started. by rewrite <-Ec.
  - destruct (do_chain _ _ Hok) as (Eq & _). rewrite (Hidle ltac:(done)), Eq.
    rewrite (proj2 (Z.eqb_neq q b)) by (intros ->; apply Hni; left). cbn [obind]. rewrite Eb, Hpen.
    eexists. split_and!; [reflexivity| | |done|done].
    + split; cbn [qnext idequeue bufs ctl sleeping set_sleeping set_ctl]; rewrite ?Eb, ?Es, ?Ec; try done. apply (do_started _ _ Hok).
    + unfold view. rewrite foldl_app. cbn [ctl bufs set_sleeping]. by rewrite Eb, Ec.
Qed.

(** The interrupt serves the first request, and starts the next one. *)
Lemma ideintr_serves s b Q :
  driver_ok s (b :: Q) →
  ∃ c y, (sectors c, upd (bufs s) b y) = serve (sectors (ctl s), bufs s) b ∧
    let s5 := mkIde c (upd (bufs s) b y) (qnext s) (qnext s b) (havedisk1 s) (filter (λ x, x ≠ b) (sleeping s)) in
    ideintr fuel s = if negb (Z.eqb (qnext s b) NIL) then idestart fuel s5 (qnext s b) else Ret s5.
Proof.
  intros [(Eq & Hb & _) _ _ Hst _]. unfold ideintr, serve. rewrite Eq. rewrite (proj2 (Z.eqb_neq b NIL)) by done.
  cbn [bufs set_queue]. unfold started in Hst. unfold is_dirty in *. destruct (Z.eqb (Z.land (b_flags (bufs s b)) B_DIRTY) 0) eqn:Ed; cbn [negb] in *.
  - destruct (idewait_ok (ctl s) true) as (c & Hw & R1 & R2 & R3). cbn [ctl set_queue]. rewrite Hw. cbn [obind]. change (Z.geb 0 0) with true. cbv iota.
    rewrite <-R3 in Hst. destruct (insl_read c _ _ Hst) as [Hin Hsec]. destruct (insl c) as [data c'] eqn:Ei. cbn [fst snd] in *. subst data.
    exists c'. eexists. split; [by rewrite Hsec, R2|]. cbn [obind]. unfold set_buf, set_sleeping. cbn. rewrite !upd_eq, !upd_upd_eq. cbn. by rewrite R2.
  - exists (ctl s). eexists. split; [by rewrite (write_same _ _ _ Hst)|]. cbn [obind]. unfold set_buf, set_sleeping. cbn. rewrite !upd_eq, !upd_upd_eq. done.
Qed.

Lemma served_flags f : Z.land (Z.land (Z.lor f B_VALID) (Z.lnot B_DIRTY)) (Z.lor B_VALID B_DIRTY) = B_VALID.
Proof.
  apply Z.bits_inj'. intros n Hn. rewrite !Z.land_spec, !Z.lor_spec, Z.lnot_spec by done.
  unfold B_VALID, B_DIRTY. change 2 with (2 ^ 1). change 4 with (2 ^ 2). rewrite !Z.pow2_bits_eqb by lia.
  destruct (Z.eqb_spec 1 n), (Z.eqb_spec 2 n), (Z.testbit f n); simpl; try done; lia.
Qed.

Lemma serve_not_pending a b : pending ((serve a b).2 b) = false.
Proof.
  destruct a as [d bs]. unfold serve, pending, served. destruct (is_dirty (bs b)); simpl; rewrite upd_eq; cbn [with_flags with_data b_flags];
    by rewrite served_flags, Z.eqb_refl.
Qed.

Lemma ideintr_ok s b Q :
  driver_ok s (b :: Q) →
  ∃ s', ideintr fuel s = Ret s' ∧ driver_ok s' Q ∧ view s' Q = view s (b :: Q) ∧ havedisk1 s' = havedisk1 s ∧ pending (bufs s' b) = false.
Proof.
  intros Hok. destruct (ideintr_serves s b Q Hok) as (c & y & Hserve & E). simpl in E.
  destruct Hok as [(Eq & Hb & Hc) [Hbq Hnd]%NoDup_cons [_ Hreqs]%Forall_cons _ Hsl].
  set (s5 := mkIde c _ _ _ _ _) in *.
  assert (Hbufs : ∀ q, q ∈ Q → bufs s5 q = bufs s q) by (intros q Hq; simpl; rewrite upd_ne; [done|by intros ->]).
  assert (Hreqs' : Forall (λ q, request_ok q (bufs s5 q) ∧ pending (bufs s5 q) = true) Q).
  { apply Forall_forall. intros q Hq. rewrite Hbufs by done. by eapply Forall_forall in Hreqs. }
  assert (Hsl' : ∀ x, x ∈ sleeping s5 ↔ x ∈ Q).
  { intros x. simpl. rewrite list_elem_of_filter, Hsl, elem_of_cons. split; [tauto|]. intros Hx. split; [by intros ->|by right]. }
  assert (Hpen : pending (bufs s5 b) = false) by (simpl; pose proof (serve_not_pending (sectors (ctl s), bufs s) b) as P; by rewrite <-Hserve in P).
  assert (Hview : foldl serve (sectors c, bufs s5) Q = view s (b :: Q)) by (unfold view; cbn [foldl]; by rewrite <-Hserve).
  destruct Q as [|q Q].
  - simpl in Hc. rewrite Hc in E. simpl in E. exists s5. split_and!; [done| |done|done|done]. split; try done.
  - pose proof Hc as (Eqb & Hq & _). rewrite Eqb in E, Hc. rewrite (proj2 (Z.eqb_neq q NIL)) in E by done. simpl in E.
    destruct (idestart_ok s5 q) as (c' & E' & Hst & Hsec); [by apply Forall_cons in Hreqs' as [[? _] _]|].
    exists (set_ctl s5 c'). split_and!; [by rewrite E| | |done|done].
    + split; try done. simpl. by rewrite Eqb.
    + rewrite <-Hview. unfold view. cbn [foldl ctl set_ctl bufs]. f_equal. apply (serve_started s5). done.
Qed.

(** ** Interleavings *)

(** Requests, interrupts, and changes of a buffer by the process that holds it. *)
Inductive ide_event := Rw (b : Z) | Intr | Change (b : Z) (x : buf).

Definition ide_exec (s : ide C) (e : ide_event) : outcome (ide C) :=
  match e with
  | Rw b => iderw fuel s b
  | Intr => ideintr fuel s
  | Change b x => Ret (set_buf s b x)
  end.

(** The disk that serves requests at once. *)
Definition disk_exec (a : (Z → Z → list Z) * (Z → buf)) (e : ide_event) : (Z → Z → list Z) * (Z → buf) :=
  match e with
  | Rw b => serve a b
  | Intr => a
  | Change b x => (a.1, upd a.2 b x)
  end.

(** What the processes keep to: a request is for a locked buffer that needs one, and a
    buffer whose request is under way is left alone. *)
Definition allowed (s : ide C) (e : ide_event) : Prop :=
  match e with
  | Rw b => b ∉ sleeping s ∧ request_ok b (bufs s b) ∧ pending (bufs s b) = true ∧ holdingsleep (b_lock (bufs s b)) = true ∧
            (b_dev (bufs s b) = 0 ∨ havedisk1 s = true)
  | Intr => True
  | Change b _ => b ∉ sleeping s
  end.

Inductive ide_runs (s0 : ide C) : list ide_event → ide C → Prop :=
  | ir_start : ide_runs s0 [] s0
  | ir_step evs s e s' : ide_runs s0 evs s → allowed s e → ide_exec s e = Ret s' → ide_runs s0 (evs ++ [e]) s'.

Lemma ide_exec_ok s Q e :
  driver_ok s Q → allowed s e → (Z.to_nat NBUF ≤ fuel)%nat →
  ∃ s' Q', ide_exec s e = Ret s' ∧ driver_ok s' Q' ∧ view s' Q' = disk_exec (view s Q) e.
Proof.
  intros Hok Hal Hf. destruct e as [b| |b x]; simpl in *.
  - destruct Hal as (Hns & Hreq & Hpen & Hlk & Hdev). rewrite (do_sleeping _ _ Hok) in Hns.
    destruct (iderw_ok s Q b Hok Hns Hreq Hpen Hlk Hdev Hf) as (s' & E & Hok' & Hv & _). by exists s', (Q ++ [b]).
  - destruct Q as [|b Q].
    + exists s, []. split_and!; [|done|done]. unfold ideintr. by rewrite (do_chain _ _ Hok).
    + destruct (ideintr_ok s b Q Hok) as (s' & E & Hok' & Hv & _). by exists s', Q.
  - rewrite (do_sleeping _ _ Hok) in Hal. exists (set_buf s b x), Q. split_and!; [done| |].
    + destruct Hok as [Hc Hnd Hreq Hst Hsl]. assert (Hsame : ∀ q, q ∈ Q → bufs (set_buf s b x) q = bufs s q) by (intros q Hq; simpl; rewrite upd_ne; [done|by intros ->]).
      split; try done.
      * apply Forall_forall. intros q Hq. rewrite Hsame by done. by eapply Forall_forall in Hreq.
      * destruct Q as [|q Q]; [done|]. rewrite Hsame by left. done.
    + unfold view. simpl. by apply foldl_serve_other.
Qed.

Lemma ide_runs_ok s0 evs s :
  ide_runs s0 evs s → idequeue s0 = NIL → sleeping s0 = [] → (Z.to_nat NBUF ≤ fuel)%nat →
  ∃ Q, driver_ok s Q ∧ view s Q = foldl disk_exec (sectors (ctl s0), bufs s0) evs.
Proof.
  intros Hr Hq Hs Hf. induction Hr as [|evs s e s' _ IH Hal E].
  - exists []. split; [|done]. split; try done; [constructor|by rewrite Hs].
  - destruct IH as (Q & Hok & Hv). destruct (ide_exec_ok s Q e Hok Hal Hf) as (s1 & Q1 & E1 & Hok1 & Hv1).
    rewrite E in E1. injection E1 as ->. exists Q1. split; [done|]. by rewrite Hv1, Hv, foldl_app.
Qed.

Lemma drain s Q : driver_ok s Q → ∃ s', Nat.iter (length Q) (λ o, let! s := o in ideintr fuel s) (Ret s) = Ret s' ∧ driver_ok s' [] ∧ view s' [] = view s Q.
Proof.
  revert s. induction Q as [|b Q IH]; intros s Hok; [by exists s|].
  destruct (ideintr_ok s b Q Hok) as (s1 & E & Hok1 & Hv & _). destruct (IH s1 Hok1) as (s' & E' & Hok' & Hv').
  exists s'. split_and!; [|done|congruence]. cbn [length]. rewrite iter_shift. cbn [obind]. by rewrite E.
Qed.

(** C5: under every interleaving of requests, interrupts and accesses to buffers the
    driver never panics, and it is indistinguishable from a disk that serves each
    request in full at the call of iderw, in the order of the calls: a process that
    is not waiting finds in its buffer what that disk gives, and once as many
    interrupts have come as there are requests nobody waits any more and the
    sectors are those of that disk. *)
Theorem ide_linearizable s0 evs s :
  ide_runs s0 evs s → idequeue s0 = NIL → sleeping s0 = [] → (Z.to_nat NBUF ≤ fuel)%nat →
  let a := foldl disk_exec (sectors (ctl s0), bufs s0) evs in
  (∀ e, allowed s e → ∃ s', ide_exec s e = Ret s') ∧
  (∀ b, b ∉ sleeping s → bufs s b = a.2 b) ∧
  (∃ n s', (n ≤ Z.to_nat NBUF)%nat ∧ Nat.iter n (λ o, let! s := o in ideintr fuel s) (Ret s) = Ret s' ∧
     sleeping s' = [] ∧ sectors (ctl s') = a.1 ∧ bufs s' = a.2).
Proof.
  intros Hr Hq Hs Hf a. destruct (ide_runs_ok s0 evs s Hr Hq Hs Hf) as (Q & Hok & Hv). fold a in Hv. split_and!.
  - intros e Hal. destruct (ide_exec_ok s Q e Hok Hal Hf) as (s' & _ & E & _). by exists s'.
  - intros b Hb. rewrite (do_sleeping _ _ Hok) in Hb. rewrite <-Hv. unfold view. by rewrite foldl_serve_bufs.
  - destruct (drain s Q Hok) as (s' & E & Hok' & Hv'). exists (length Q), s'. split_and!; [by eapply queue_short|done| | |].
    + apply elem_of_nil_inv. intros b Hb. by rewrite (do_sleeping _ _ Hok'), elem_of_nil in Hb.
    + by rewrite <-Hv, <-Hv'.
    + by rewrite <-Hv, <-Hv'.
Qed.
End proofs.

(** ** A controller *)

(** A controller that is always ready, with its registers and two drives. *)
Record sim := mkSim { sim_regs : Z → Z; sim_disk : Z → Z → list Z; sim_read : option (Z * Z) }.

#[global] Instance sim_controller : Controller sim := {
  outb c p v :=
    if Z.leb 0x1f2 p && Z.leb p 0x1f6 then mkSim (upd (sim_regs c) p v) (sim_disk c) (sim_read c)
    else if Z.eqb p 0x1f7 && Z.eqb v IDE_CMD_READ
    then mkSim (sim_regs c) (sim_disk c) (Some (drive_of (sim_regs c), lba_of (sim_regs c)))
    else c;
  inb c p := (IDE_DRDY, c);
  outsl c data := mkSim (sim_regs c) (write_sector (sim_disk c) (drive_of (sim_regs c), lba_of (sim_regs c)) data) (sim_read c);
  insl c := (match sim_read c with Some (d, l) => sim_disk c d l | None => [] end, c) }.

Lemma sim_outb_regs c p v : 0x1f2 ≤ p ≤ 0x1f6 → sim_regs (outb c p v) = upd (sim_regs c) p v.
Proof. intros Hp. simpl. by rewrite (proj2 (Z.leb_le _ _)), (proj2 (Z.leb_le _ _)) by lia. Qed.
Lemma sim_outb_disk c p v : sim_disk (outb c p v) = sim_disk c.
Proof. simpl. by destruct (_ && _); [|destruct (_ && _)]. Qed.

#[global] Instance sim_laws : ControllerLaws sim 0.
Proof.
  refine {| sectors := sim_disk; regs := sim_regs; reading := sim_read;
            regs_outb := sim_outb_regs; sectors_outb := sim_outb_disk |}; try done.
  - intros c d l E. simpl in *. by rewrite E.
  - intros c. by exists 0%nat.
Defined.

(** Two requests for one block: a write, and a read through another buffer. *)
Definition wit_buf (flags v : Z) : buf := mkBuf flags 0 7 (mkSleeplock true 1) 1 0 0 (replicate 512 v).
Definition wit_ide0 : ide sim :=
  mkIde (mkSim (λ _, 0) (λ _ _, replicate 512 0) None) (λ b, if Z.eqb b 0 then wit_buf B_DIRTY 5 else wit_buf 0 0) (λ _, NIL) NIL false [].
Definition wit_next (e : ide_event) (s : ide sim) : ide sim := match ide_exec 30 s e with Ret s' => s' | _ => s end.
Definition wit_ide1 : ide sim := wit_next (Rw 0) wit_ide0.
Definition wit_ide2 : ide sim := wit_next (Rw 1) wit_ide1.
Definition wit_ide3 : ide sim := wit_next Intr wit_ide2.
Definition wit_ide4 : ide sim := wit_next Intr wit_ide3.

Lemma wit_next_runs evs s e :
  ide_runs 30 wit_ide0 evs s → allowed s e → match ide_exec 30 s e with Ret _ => true | _ => false end = true →
  ide_runs 30 wit_ide0 (evs ++ [e]) (wit_next e s).
Proof. intros Hr Hal E. eapply ir_step; [exact Hr|exact Hal|]. unfold wit_next. by destruct (ide_exec 30 s e). Qed.

Lemma wit_allowed (s : ide sim) b :
  bufs s b = bufs wit_ide0 b → sleeping s = [] ∨ sleeping s = [0] → b = 0 ∧ sleeping s = [] ∨ b = 1 → allowed s (Rw b).
Proof.
  intros Eb Hs Hb. simpl. rewrite Eb. split_and!.
  - destruct Hb as [[-> ->]| ->]; [apply not_elem_of_nil|]. destruct Hs as [-> | ->]; [apply not_elem_of_nil|].
    apply not_elem_of_cons. split; [done|apply not_elem_of_nil].
  - destruct Hb as [[-> _]| ->]; unfold request_ok, NBUF, FSSIZE, SECTOR_SIZE; simpl; lia.
  - by destruct Hb as [[-> _]| ->].
  - by destruct Hb as [[-> _]| ->].
  - left. by destruct Hb as [[-> _]| ->].
Qed.

Lemma wit_ide_runs : ide_runs 30 wit_ide0 [Rw 0; Rw 1; Intr; Intr] wit_ide4.
Proof.
  apply (wit_next_runs [Rw 0; Rw 1; Intr]); [|exact I|by vm_compute].
  apply (wit_next_runs [Rw 0; Rw 1]); [|exact I|by vm_compute].
  apply (wit_next_runs [Rw 0]); [|apply wit_allowed; [by vm_compute|right; by vm_compute|by right]|by vm_compute].
  apply (wit_next_runs []); [constructor|apply wit_allowed; [done|by left|by left]|by vm_compute].
Qed.

Lemma ide_linearizable_witness :
  idequeue wit_ide0 = NIL ∧ b_data (bufs wit_ide4 1) = replicate 512 5.
Proof.
  split; [done|].
  destruct (ide_linearizable 0 30 ltac:(lia) wit_ide0 [Rw 0; Rw 1; Intr; Intr] wit_ide4 wit_ide_runs eq_refl eq_refl ltac:(vm_compute; lia)) as (_ & H & _).
  rewrite (H 1); [by vm_compute|]. vm_compute. apply not_elem_of_nil.
Defined.

(** ** Errors *)

(** A controller that reports an error for every command. *)
#[local] Instance broken_controller : Controller unit := {
  outb c p v := c; inb c p := (Z.lor IDE_DRDY IDE_ERR, c); outsl c data := c; insl c := ([], c) }.

(** A read that fails leaves the buffer as it was and marks it valid all the same. *)
Example read_error_is_valid :
  let s0 : ide unit := mkIde tt (λ _, wit_buf 0 9) (λ _, NIL) NIL false [] in
  ∃ s1 s2, iderw 30 s0 1 = Ret s1 ∧ ideintr 30 s1 = Ret s2 ∧ pending (bufs s2 1) = false ∧ b_data (bufs s2 1) = replicate 512 9.
Proof. eexists _, _. split; [reflexivity|]. split; [reflexivity|]. by vm_compute. Qed.
