(* ===== verification/Kbd.v ===== *)
(** * The keyboard and the serial port (kbd.c, kbd.h, uart.c)

    The tables of scan codes and the state of the modifier keys; what the
    keyboard and the serial port hand to the console.  The theorems carry a line
    from the keys pressed to the bytes a program reads. *)
From stdpp Require Import base list list_numbers strings.
From Stdlib Require Import ZArith Lia.
From S2P Require Import Prelude Console.

Definition KBS_DIB : Z := 0x01.
Definition NO : Z := 0.
Definition SHIFT : Z := 1.
Definition CTL : Z := 2.
Definition ALT : Z := 4.
Definition CAPSLOCK : Z := 8.
Definition NUMLOCK : Z := 16.
Definition SCROLLLOCK : Z := 32.
Definition E0ESC : Z := 64.
Definition KEY_HOME : Z := 0xE0.
Definition KEY_END : Z := 0xE1.
Definition KEY_UP : Z := 0xE2.
Definition KEY_DN : Z := 0xE3.
Definition KEY_LF : Z := 0xE4.
Definition KEY_RT : Z := 0xE5.
Definition KEY_PGUP : Z := 0xE6.
Definition KEY_PGDN : Z := 0xE7.
Definition KEY_INS : Z := 0xE8.
Definition KEY_DEL : Z := 0xE9.

(** An initialiser of 256 bytes: the first values, and the designated ones. *)
Definition table (l : list Z) (designated : list (Z * Z)) : list Z :=
  foldl (λ t p, <[Z.to_nat p.1 := p.2]> t) (l ++ replicate (256 - length l) NO) designated.

Definition shiftcode : list Z :=
  table [] [(0x1D, CTL); (0x2A, SHIFT); (0x36, SHIFT); (0x38, ALT); (0x9D, CTL); (0xB8, ALT)].
Definition togglecode : list Z := table [] [(0x3A, CAPSLOCK); (0x45, NUMLOCK); (0x46, SCROLLLOCK)].

(** The keys with the same code in every map. *)
Definition cursor_keys : list (Z * Z) :=
  [(0xC8, KEY_UP); (0xD0, KEY_DN); (0xC9, KEY_PGUP); (0xD1, KEY_PGDN); (0xCB, KEY_LF); (0xCD, KEY_RT);
   (0x97, KEY_HOME); (0xCF, KEY_END); (0xD2, KEY_INS); (0xD3, KEY_DEL)].

Definition normalmap : list Z := table
  [NO; 0x1B; 49; 50; 51; 52; 53; 54;
   55; 56; 57; 48; 45; 61; 8; 9;
   113; 119; 101; 114; 116; 121; 117; 105;
   111; 112; 91; 93; 10; NO; 97; 115;
   100; 102; 103; 104; 106; 107; 108; 59;
   39; 96; NO; 92; 122; 120; 99; 118;
   98; 110; 109; 44; 46; 47; NO; 42;
   NO; 32; NO; NO; NO; NO; NO; NO;
   NO; NO; NO; NO; NO; NO; NO; 55;
   56; 57; 45; 52; 53; 54; 43; 49;
   50; 51; 48; 46; NO; NO; NO; NO]
  ([(0x9C, 10); (0xB5, 47)] ++ cursor_keys).

Definition shiftmap : list Z := table
  [NO; 27; 33; 64; 35; 36; 37; 94;
   38; 42; 40; 41; 95; 43; 8; 9;
   81; 87; 69; 82; 84; 89; 85; 73;
   79; 80; 123; 125; 10; NO; 65; 83;
   68; 70; 71; 72; 74; 75; 76; 58;
   34; 126; NO; 124; 90; 88; 67; 86;
   66; 78; 77; 60; 62; 63; NO; 42;
   NO; 32; NO; NO; NO; NO; NO; NO;
   NO; NO; NO; NO; NO; NO; NO; 55;
   56; 57; 45; 52; 53; 54; 43; 49;
   50; 51; 48; 46; NO; NO; NO; NO]
  ([(0x9C, 10); (0xB5, 47)] ++ cursor_keys).

Definition ctlmap : list Z := table
  [NO; NO; NO; NO; NO; NO; NO; NO;
   NO; NO; NO; NO; NO; NO; NO; NO;
   CTRL 81; CTRL 87; CTRL 69; CTRL 82; CTRL 84; CTRL 89; CTRL 85; CTRL 73;
   CTRL 79; CTRL 80; NO; NO; 13; NO; CTRL 65; CTRL 83;
   CTRL 68; CTRL 70; CTRL 71; CTRL 72; CTRL 74; CTRL 75; CTRL 76; NO;
   NO; NO; NO; CTRL 92; CTRL 90; CTRL 88; CTRL 67; CTRL 86;
   CTRL 66; CTRL 78; CTRL 77; NO; NO; u8 (CTRL 47); NO; NO]
  ([(0x9C, 13); (0xB5, u8 (CTRL 47))] ++ cursor_keys).

Definition charcode : list (list Z) := [normalmap; shiftmap; ctlmap; ctlmap].

Definition code (t : list Z) (data : Z) : Z := nth (Z.to_nat data) t 0.

(** The static [shift], the status and the data port read; the result and the new
    [shift]. *)
Definition kbdgetc (shift st data : Z) : Z * Z :=
  if Z.eqb (Z.land st KBS_DIB) 0 then (-1, shift)
  else if Z.eqb data 0xE0 then (0, Z.lor shift E0ESC)
  else if negb (Z.eqb (Z.land data 0x80) 0) then
    let data := if negb (Z.eqb (Z.land shift E0ESC) 0) then data else Z.land data 0x7F in
    (0, Z.land shift (Z.lnot (Z.lor (code shiftcode data) E0ESC)))
  else
    let '(data, shift) :=
      if negb (Z.eqb (Z.land shift E0ESC) 0) then (Z.lor data 0x80, Z.land shift (Z.lnot E0ESC)) else (data, shift) in
    let shift := Z.lor shift (code shiftcode data) in
    let shift := Z.lxor shift (code togglecode data) in
    let c := code (nth (Z.to_nat (Z.land shift (Z.lor CTL SHIFT))) charcode []) data in
    let c :=
      if negb (Z.eqb (Z.land shift CAPSLOCK) 0) then
        if Z.leb 97 c && Z.leb c 122 then c + (65 - 97)
        else if Z.leb 65 c && Z.leb c 90 then c + (97 - 65)
        else c
      else c in
    (c, shift).

(** The results of the calls while the controller holds the codes [codes]. *)
Fixpoint kbd_keys (shift : Z) (codes : list Z) : list Z * Z :=
  match codes with
  | [] => ([(kbdgetc shift 0 0).1], (kbdgetc shift 0 0).2)
  | data :: codes =>
      let '(c, shift) := kbdgetc shift KBS_DIB data in
      let '(keys, shift) := kbd_keys shift codes in
      (c :: keys, shift)
  end.

Definition kbdintr (s : con) (shift : Z) (codes : list Z) : outcome (con * bool * Z) :=
  let '(keys, shift') := kbd_keys shift codes in
  let! (s1, dump) := consoleintr s keys false in
  Ret (s1, dump, shift').

(** ** The serial port *)

(** [uart], the line status and the data register. *)
Definition uartgetc (uart : bool) (status data : Z) : Z :=
  if negb uart then -1 else if Z.eqb (Z.land status 0x01) 0 then -1 else data.

Definition uartintr (s : con) (uart : bool) (received : list Z) : outcome (con * bool) :=
  consoleintr s ((uartgetc uart 0x01 <$> received) ++ [uartgetc uart 0 0]) false.

(** The registers [uartinit] writes before it looks for the port, and whether it finds it. *)
Definition COM1 : Z := 0x3f8.
Definition uart_setup : list (Z * Z) :=
  [(COM1 + 2, 0); (COM1 + 3, 0x80); (COM1 + 0, 115200 / 9600); (COM1 + 1, 0); (COM1 + 3, 0x03); (COM1 + 4, 0); (COM1 + 1, 0x01)].
Definition uartinit (s : con) (status : Z) : bool * con :=
  if Z.eqb status 0xFF then (false, s) else (true, foldl uartputc s [120; 118; 54; 46; 46; 46; 10]).

(** ** Every scan code gives a key *)

Definition in_range (n c : Z) : bool := Z.leb 0 c && Z.ltb c n.

Lemma in_range_spec n c : in_range n c = true ↔ 0 ≤ c < n.
Proof. unfold in_range. rewrite andb_true_iff, Z.leb_le, Z.ltb_lt. tauto. Qed.

(** A property of small numbers, decided by trying them all. *)
Lemma forall_range (f : Z → bool) n x : forallb f (seqZ 0 n) = true → 0 ≤ x < n → f x = true.
Proof. intros H Hx. apply (proj1 (forallb_forall f (seqZ 0 n)) H), list_elem_of_In, elem_of_seqZ. lia. Qed.

Lemma kbdgetc_all :
  forallb (λ shift, forallb (λ data, in_range 256 (kbdgetc shift KBS_DIB data).1 && in_range 128 (kbdgetc shift KBS_DIB data).2)
    (seqZ 0 256)) (seqZ 0 128) = true.
Proof. vm_compute. reflexivity. Qed.

(** The result is a byte, and [shift] has its seven bits: the tables are read in range. *)
Lemma kbdgetc_ok shift data :
  0 ≤ shift < 128 → 0 ≤ data < 256 →
  0 ≤ (kbdgetc shift KBS_DIB data).1 < 256 ∧ 0 ≤ (kbdgetc shift KBS_DIB data).2 < 128.
Proof.
  intros Hs Hd. pose proof (forall_range _ _ shift kbdgetc_all Hs) as H. pose proof (forall_range _ _ data H Hd) as H'.
  simpl in H'. by rewrite andb_true_iff, !in_range_spec in H'.
Qed.

(** The keys of a sequence of codes. *)
Fixpoint kbd_chars (shift : Z) (codes : list Z) : list Z * Z :=
  match codes with
  | [] => ([], shift)
  | data :: codes =>
      let '(c, shift) := kbdgetc shift KBS_DIB data in
      let '(keys, shift) := kbd_chars shift codes in
      (c :: keys, shift)
  end.

Lemma kbd_keys_chars codes shift : kbd_keys shift codes = ((kbd_chars shift codes).1 ++ [-1], (kbd_chars shift codes).2).
Proof.
  revert shift. induction codes as [|data codes IH]; intros shift; cbn [kbd_keys kbd_chars]; [done|].
  destruct (kbdgetc shift KBS_DIB data) as [c sh]. rewrite IH. by destruct (kbd_chars sh codes).
Qed.

Lemma kbd_chars_app codes1 codes2 shift :
  kbd_chars shift (codes1 ++ codes2) =
    ((kbd_chars shift codes1).1 ++ (kbd_chars (kbd_chars shift codes1).2 codes2).1, (kbd_chars (kbd_chars shift codes1).2 codes2).2).
Proof.
  revert shift. induction codes1 as [|d codes IH]; intros shift; cbn [kbd_chars app]; [by destruct (kbd_chars _ codes2)|].
  destruct (kbdgetc shift KBS_DIB d) as [c sh]. rewrite IH. by destruct (kbd_chars sh codes).
Qed.

Lemma kbd_chars_ok codes shift :
  0 ≤ shift < 128 → Forall (λ c, 0 ≤ c < 256) codes →
  Forall (λ c, 0 ≤ c < 256) (kbd_chars shift codes).1 ∧ 0 ≤ (kbd_chars shift codes).2 < 128.
Proof.
  revert shift. induction codes as [|data codes IH]; intros shift Hs Hc; cbn [kbd_chars]; [done|].
  apply Forall_cons in Hc as [Hd Hc]. destruct (kbdgetc_ok shift data Hs Hd) as [Hr Hs']. destruct (kbdgetc shift KBS_DIB data) as [c shift'].
  destruct (IH shift' Hs' Hc) as [Hk Hs'']. destruct (kbd_chars shift' codes) as [ks shift2]. split; [by constructor|done].
Qed.

Lemma consoleintr_stop keys s d : Forall (λ c, 0 ≤ c < 256) keys → consoleintr s (keys ++ [-1]) d = consoleintr s keys d.
Proof.
  intros Hk. revert s d. induction Hk as [|c keys Hc _ IH]; intros s d; cbn [consoleintr app]; [done|].
  destruct (Z.ltb_spec c 0); [done|]. by destruct (key s c); simpl.
Qed.

(** Whatever the keyboard sends, the interrupt edits the line by the keys it stands for. *)
Lemma kbdintr_ok s a shift codes :
  rep s a → 0 ≤ shift < 128 → Forall (λ c, 0 ≤ c < 256) codes →
  ∃ s' d, kbdintr s shift codes = Ret (s', d, (kbd_chars shift codes).2) ∧
    rep s' (foldl a_key a (kbd_chars shift codes).1) ∧ 0 ≤ (kbd_chars shift codes).2 < 128.
Proof.
  intros Hr Hs Hc. destruct (kbd_chars_ok codes shift Hs Hc) as [Hk Hs']. destruct (consoleintr_ok _ s a false Hr Hk) as (s' & d & Ei & Hr').
  exists s', d. split_and!; [|done|lia|lia]. unfold kbdintr. rewrite kbd_keys_chars. by rewrite consoleintr_stop, Ei.
Qed.

(** ** Typing *)

Definition text_of (s : string) : list Z := map (λ a, Z.of_N (Ascii.N_of_ascii a)) (String.list_ascii_of_string s).

(** What a United States keyboard sends, from its documentation and not from the
    tables above: the keys of a row have consecutive codes, each key has a character
    without and one with the shift key, and a key sends its code when it goes down
    and its code plus 0x80 when it comes up. *)
Definition us_row (first : Z) (plain shifted : list Z) : list (Z * (Z * Z)) :=
  zip ((λ i, first + Z.of_nat i) <$> seq 0 (length plain)) (zip plain shifted).

Definition us_layout : list (Z * (Z * Z)) :=
  us_row 0x02 (text_of "1234567890-=") (text_of "!@#$%^&*()_+") ++
  us_row 0x10 (text_of "qwertyuiop[]") (text_of "QWERTYUIOP{}") ++
  us_row 0x1E (text_of "asdfghjkl;'`") (text_of "ASDFGHJKL:" ++ [34] ++ text_of "~") ++
  us_row 0x2B (text_of "\zxcvbnm,./") (text_of "|ZXCVBNM<>?") ++
  [(0x39, (32, 32)); (0x1C, (NL, NL))].

Definition LEFT_SHIFT : Z := 0x2A.
Definition down_up (k : Z) (inner : list Z) : list Z := [k] ++ inner ++ [k + 0x80].

(** The codes of the keys pressed for the character [c]. *)
Definition press (c : Z) : list Z :=
  match List.find (λ k, Z.eqb k.2.1 c) us_layout with
  | Some k => down_up k.1 []
  | None =>
      match List.find (λ k, Z.eqb k.2.2 c) us_layout with
      | Some k => down_up LEFT_SHIFT (down_up k.1 [])
      | None => []
      end
  end.

Definition typable (c : Z) : Prop := 32 ≤ c ≤ 126 ∨ c = NL.

(** No shift or control key is down and no escape has begun; the lock keys and the
    alternate keys may be in any state. *)
Definition at_rest (shift : Z) : Prop := 0 ≤ shift < 128 ∧ Z.land shift (Z.lor (Z.lor SHIFT CTL) E0ESC) = 0.

(** What a character becomes under caps lock: a letter changes case. *)
Definition under_locks (shift c : Z) : Z :=
  if negb (Z.testbit shift 3) then c
  else if Z.leb 97 c && Z.leb c 122 then c - 32
  else if Z.leb 65 c && Z.leb c 90 then c + 32
  else c.

Definition nonzero (keys : list Z) : list Z := filter (λ k, k ≠ 0) keys.

Definition press_check (shift c : Z) : bool :=
  let '(keys, shift') := kbd_chars shift (press c) in
  bool_decide (nonzero keys = [under_locks shift c]) && Z.eqb shift' shift && forallb (in_range 256) (press c).

Lemma press_all :
  forallb (λ shift, negb (Z.eqb (Z.land shift (Z.lor (Z.lor SHIFT CTL) E0ESC)) 0) ||
    forallb (λ c, negb (Z.leb 32 c || Z.eqb c NL) || press_check shift c) (seqZ 0 127)) (seqZ 0 128) = true.
Proof. vm_compute. reflexivity. Qed.

(** The tables of the driver give every key its character. *)
Lemma press_ok shift c : at_rest shift → typable c →
  nonzero (kbd_chars shift (press c)).1 = [under_locks shift c] ∧ (kbd_chars shift (press c)).2 = shift ∧
  Forall (λ d, 0 ≤ d < 256) (press c).
Proof.
  intros [Hs Hz] Hc. assert (Hr : 0 ≤ c < 127) by (unfold typable, NL in Hc; lia).
  pose proof (forall_range _ _ shift press_all Hs) as H. cbv beta in H. rewrite (proj2 (Z.eqb_eq _ _) Hz) in H.
  apply (λ H, forall_range _ _ c H Hr) in H. cbv beta in H.
  assert (Hty : (Z.leb 32 c || Z.eqb c NL) = true).
  { rewrite orb_true_iff, Z.leb_le, Z.eqb_eq. unfold typable in Hc. lia. }
  rewrite Hty in H. cbn [negb orb] in H. unfold press_check in H. destruct (kbd_chars shift (press c)) as [keys shift'].
  rewrite !andb_true_iff, bool_decide_eq_true, Z.eqb_eq in H. destruct H as [[H1 ->] H2]. split_and!; [done|done|].
  apply Forall_forall. intros d Hd. apply in_range_spec, (proj1 (forallb_forall _ _) H2), list_elem_of_In, Hd.
Qed.

(** A text typed at rest gives its characters, and leaves the keyboard at rest. *)
Lemma typed_chars shift text : at_rest shift → Forall typable text →
  nonzero (kbd_chars shift (concat (press <$> text))).1 = under_locks shift <$> text ∧
  (kbd_chars shift (concat (press <$> text))).2 = shift ∧ Forall (λ d, 0 ≤ d < 256) (concat (press <$> text)).
Proof.
  intros Hs. induction 1 as [|c text Hc _ IH]; [done|]. destruct IH as (I1 & I2 & I3). destruct (press_ok shift c Hs Hc) as (P1 & P2 & P3).
  rewrite fmap_cons, concat_cons, kbd_chars_app, P2. cbn [fst snd]. split_and!; [|done|by apply Forall_app].
  unfold nonzero in *. by rewrite filter_app, I1, P1.
Qed.

Lemma a_key_zero a : a_key a 0 = a.
Proof. done. Qed.

Lemma foldl_key_nonzero keys a : foldl a_key a keys = foldl a_key a (nonzero keys).
Proof.
  revert a. unfold nonzero. induction keys as [|k keys IH]; intros a; [done|]. rewrite filter_cons. case_decide as Hk; simpl; [apply IH|].
  assert (k = 0) as -> by (destruct (decide (k = 0)); [done|by destruct Hk]). rewrite a_key_zero. apply IH.
Qed.

(** Printable characters join the line. *)
Lemma a_key_text text rd ed :
  Forall (λ c, 32 ≤ c ≤ 126) text → Z.of_nat (length rd + length ed + length text) < INPUT_BUF →
  foldl a_key (mkDisc rd ed) text = mkDisc rd (ed ++ text).
Proof.
  intros Ht. revert ed. induction Ht as [|c text Hc _ IH]; intros ed Hlen; simpl in *; [by rewrite app_nil_r|].
  assert (E : a_key (mkDisc rd ed) c = mkDisc rd (ed ++ [c])).
  { unfold a_key, a_put, room, CTRL, DEL, CR, NL. simpl.
    rewrite !(proj2 (Z.eqb_neq c _)) by lia. rewrite (proj2 (Z.ltb_lt _ _)) by lia. simpl.
    rewrite length_app. simpl. rewrite (proj2 (Z.ltb_lt _ _)) by lia. simpl. unfold u8. by rewrite Z.mod_small by lia. }
  rewrite E, IH; [by rewrite <-app_assoc|]. rewrite length_app. simpl. lia.
Qed.

Lemma a_key_newline rd ed : Z.of_nat (length rd + length ed) < INPUT_BUF → a_key (mkDisc rd ed) NL = mkDisc (rd ++ ed ++ [NL]) [].
Proof. intros Hl. unfold a_key, a_put, room. simpl. by rewrite (proj2 (Z.ltb_lt _ _)) by done. Qed.

Lemma a_read_line text rest n st k :
  Forall (λ c, 32 ≤ c ≤ 126) text → (length text < n)%nat → a_read (text ++ NL :: rest) n st k = (CDone (text ++ [NL]), rest).
Proof.
  intros Ht. revert n st. induction Ht as [|c text Hc _ IH]; intros n st Hn; (destruct n as [|n]; [simpl in Hn; lia|]); cbn [a_read app]; [done|].
  unfold CTRL, NL in *. rewrite !(proj2 (Z.eqb_neq c _)) by lia. rewrite (IH n true) by (simpl in Hn; lia). done.
Qed.

Lemma under_locks_printable shift c : 32 ≤ c ≤ 126 → 32 ≤ under_locks shift c ≤ 126.
Proof.
  intros Hc. unfold under_locks. destruct (Z.testbit shift 3); simpl; [|done].
  destruct (Z.leb_spec 97 c), (Z.leb_spec c 122); simpl; try lia; destruct (Z.leb_spec 65 c), (Z.leb_spec c 90); simpl; lia.
Qed.

Lemma under_locks_nl shift : under_locks shift NL = NL.
Proof. unfold under_locks. by destruct (Z.testbit shift 3). Qed.

(** ** Interrupts *)

(** Keyboard interrupts, each with the codes that have arrived, and output in between. *)
Inductive kevent := Scan (codes : list Z) | Out (l : list Z).

Fixpoint kbd_run (s : con) (shift : Z) (evs : list kevent) : outcome (con * Z) :=
  match evs with
  | [] => Ret (s, shift)
  | Scan codes :: evs => let! (s1, _, shift1) := kbdintr s shift codes in kbd_run s1 shift1 evs
  | Out l :: evs => let! s1 := consolewrite s l in kbd_run s1 shift evs
  end.

Definition scanned (ev : kevent) : list Z := match ev with Scan codes => codes | Out _ => [] end.

(** However the codes are cut into interrupts, the line is edited by the keys. *)
Lemma kbd_run_ok evs : ∀ s a shift,
  rep s a → 0 ≤ shift < 128 → Forall (λ c, 0 ≤ c < 256) (concat (scanned <$> evs)) →
  ∃ s', kbd_run s shift evs = Ret (s', (kbd_chars shift (concat (scanned <$> evs))).2) ∧
    rep s' (foldl a_key a (kbd_chars shift (concat (scanned <$> evs))).1).
Proof.
  induction evs as [|[codes|l] evs IH]; intros s a shift Hr Hs Hc; [by exists s|..]; cbn [kbd_run]; rewrite fmap_cons, concat_cons in *; cbn [scanned] in *.
  - apply Forall_app in Hc as [Hc1 Hc2]. destruct (kbdintr_ok s a shift codes Hr Hs Hc1) as (s1 & d & -> & Hr1 & Hs1). cbn [obind].
    rewrite kbd_chars_app. cbn [fst snd]. rewrite foldl_app. by apply IH.
  - destruct (consolewrite_ok l s a Hr) as (s1 & -> & Hr1). by apply IH.
Qed.

(** C28: a line typed on the keyboard arrives.  The scan codes a United States keyboard
    sends for a printable text that fits the buffer, and for the return key after it,
    come in any number of interrupts, with output in between.  They join the line that
    was being edited and make it readable after what was readable before; letters
    change case under caps lock, and the keyboard is left in its state.  Where nothing
    was pending, the next read of enough bytes returns the text and a newline. *)
Theorem typed_line_is_read s q e shift text evs n :
  rep s (mkDisc q e) → at_rest shift → Forall (λ c, 32 ≤ c ≤ 126) text →
  Z.of_nat (length q + length e + length text) < INPUT_BUF →
  concat (scanned <$> evs) = concat (press <$> (text ++ [NL])) → (length text < n)%nat →
  ∃ s1, kbd_run s shift evs = Ret (s1, shift) ∧
    rep s1 (mkDisc (q ++ e ++ (under_locks shift <$> text) ++ [NL]) []) ∧
    (q = [] → e = [] → (consoleread s1 n false false).1 = CDone ((under_locks shift <$> text) ++ [NL])).
Proof.
  intros Hrep Hs Ht Hlen Hcodes Hn.
  assert (Hty : Forall typable (text ++ [NL])).
  { apply Forall_app. split; [|apply Forall_singleton; by right]. eapply Forall_impl; [exact Ht|]. intros c Hc. by left. }
  destruct (typed_chars shift _ Hs Hty) as (K1 & K2 & K3). rewrite <-Hcodes in K1, K2, K3.
  destruct (kbd_run_ok evs s _ shift Hrep (proj1 Hs) K3) as (s1 & E & Hr). rewrite K2 in E. exists s1. split; [done|].
  assert (Ht' : Forall (λ c, 32 ≤ c ≤ 126) (under_locks shift <$> text)).
  { apply Forall_fmap. eapply Forall_impl; [exact Ht|]. intros c. apply under_locks_printable. }
  rewrite foldl_key_nonzero, K1, fmap_app, foldl_app, a_key_text in Hr by (done || rewrite length_fmap; lia).
  cbn [foldl fmap list_fmap] in Hr. rewrite under_locks_nl, a_key_newline in Hr by (rewrite length_app, length_fmap; lia).
  rewrite <-app_assoc in Hr. split; [done|]. intros -> ->. pose proof (consoleread_ok n s1 _ false false Hr) as Hc.
  destruct (consoleread s1 n false false) as [r s2]. cbn [ready app] in Hc. rewrite a_read_line in Hc by (done || by rewrite length_fmap).
  by destruct Hc as [-> _].
Qed.

(** The line Hi, in three interrupts that cut a key press in two, with output in between. *)
Lemma typed_line_is_read_witness :
  ∃ s1, kbd_run (con0 (replicate 128 0) (λ _, 0) 80) NUMLOCK [Scan [0x2A; 0x23]; Out [36; 32]; Scan [0xA3; 0xAA; 0x17]; Scan [0x97; 0x1C; 0x9C]] =
      Ret (s1, NUMLOCK) ∧
    rep s1 (mkDisc [72; 105; 10] []) ∧
    ([] = @nil Z → [] = @nil Z → (consoleread s1 100 false false).1 = CDone [72; 105; 10]).
Proof.
  apply (typed_line_is_read (con0 (replicate 128 0) (λ _, 0) 80) [] [] NUMLOCK [72; 105]
    [Scan [0x2A; 0x23]; Out [36; 32]; Scan [0xA3; 0xAA; 0x17]; Scan [0x97; 0x1C; 0x9C]] 100).
  - apply rep_con0; [reflexivity|lia].
  - split; [unfold NUMLOCK; lia|reflexivity].
  - repeat constructor; lia.
  - unfold INPUT_BUF. simpl. lia.
  - reflexivity.
  - simpl. lia.
Defined.

(** Bytes from the serial port edit the line as they are. *)
Lemma uartintr_ok s a received :
  rep s a → Forall (λ c, 0 ≤ c < 256) received → ∃ s' d, uartintr s true received = Ret (s', d) ∧ rep s' (foldl a_key a received).
Proof.
  intros Hr Hb. unfold uartintr. replace (uartgetc true 1 <$> received) with received by (symmetry; apply list_fmap_id).
  change (uartgetc true 0 0) with (-1). rewrite consoleintr_stop by done. by apply consoleintr_ok.
Qed.
