(* ===== verification/Trap.v ===== *)
(** * Traps (trap.c, traps.h)

    The descriptor table and the dispatch of traps: system calls, device
    interrupts, page faults and faults of processes, over the process table of
    Proc.  The handlers are an interface; their models are the other files. *)
From stdpp Require Import base list list_numbers strings.
From Stdlib Require Import ZArith Lia.
From S2P Require Import Prelude Mmu Paging Spinlock Proc ProcInv.

Definition T_PGFLT : Z := 14.
Definition T_SYSCALL : Z := 64.
Definition T_IRQ0 : Z := 32.
Definition IRQ_TIMER : Z := 0.
Definition IRQ_KBD : Z := 1.
Definition IRQ_COM1 : Z := 4.
Definition IRQ_IDE : Z := 14.
Definition IRQ_SPURIOUS : Z := 31.

(** ** The descriptor table *)

Definition STS_IG32 : Z := 0xE.
Definition STS_TG32 : Z := 0xF.
Definition SEG_KCODE : Z := 1.
Definition DPL_USER : Z := 3.

Record gatedesc := mkGate {
  off_15_0 : Z; g_cs : Z; g_args : Z; g_rsv1 : Z; g_type : Z; g_s : Z; g_dpl : Z; g_p : Z; off_31_16 : Z }.

Definition SETGATE (istrap : bool) (sel off d : Z) : gatedesc :=
  mkGate (Z.land off 0xffff) sel 0 0 (if istrap then STS_TG32 else STS_IG32) 0 d 1 (Z.shiftr off 16).

(** The table for the entry points [vectors]. *)
Definition tvinit (vectors : Z → Z) : list gatedesc :=
  <[Z.to_nat T_SYSCALL := SETGATE true (Z.shiftl SEG_KCODE 3) (vectors T_SYSCALL) DPL_USER]>
    ((λ i, SETGATE false (Z.shiftl SEG_KCODE 3) (vectors i) 0) <$> seqZ 0 256).

(** ** The handlers *)

(** The processes, and the counter of ticks. *)
Record tstate (K : Type) := mkTstate { ks : kern K; ticks : Z }.
Arguments mkTstate {K}.
Arguments ks {K}.
Arguments ticks {K}.

(** What [trap] calls.  The handlers of devices and system calls may wake, make and
    change processes; those of paging work on the memory of one process, and give its
    metadata and its count of pages paged out. *)
Class TrapOps (K : Type) := {
  lapiceoi : K → K;
  ideintr : tstate K → outcome (tstate K);
  kbdintr : tstate K → outcome (tstate K);
  uartintr : tstate K → outcome (tstate K);
  syscall : nat → tstate K → outcome (tstate K);
  rcr2 : K → Z;
  isPagedOut : K → proc → Z → outcome bool;
  safe_page_in : K → proc → Z → outcome (p_meta * Z * K);
  age_process_pages : K → proc → outcome (p_meta * K) }.

(** [trap] returns to where it came from, or the process calls [exit], or it has given
    up the CPU and goes on with [after_yield]. *)
Inductive tresult (K : Type) := Returns (s : tstate K) | Exits (s : tstate K) | Yields (s : tstate K).
Arguments Returns {K}.
Arguments Exits {K}.
Arguments Yields {K}.

Section trap.
  (** [paging] is whether a replacement policy is compiled in, [ticks_addr] is [&ticks];
      the trap is on the CPU [c], in the state [cp]. *)
  Context {K : Type} `{KernelOps K, TrapOps K} (paging : bool) (ticks_addr : Z) (c : nat) (cp : cpu).

Definition set_ks (st : kern K) (s : tstate K) : tstate K := mkTstate st (ticks s).
Definition myproc (s : tstate K) : option (nat * proc) :=
  match on_cpu (ks s) c with
  | Some i => match ptable (ks s) !! i with Some p => Some (i, p) | None => None end
  | None => None
  end.
Definition update (i : nat) (g : proc → proc) (s : tstate K) : tstate K := set_ks (upd_proc (ks s) i g) s.
Definition eoi (s : tstate K) : tstate K := set_ks (set_rest (ks s) (lapiceoi (rest (ks s)))) s.

Definition killed (s : tstate K) : bool := match myproc s with Some (_, p) => negb (Z.eqb (p_killed p) 0) | None => false end.
Definition from_user (tf : trapframe) : bool := Z.eqb (Z.land (tf_cs tf) 3) DPL_USER.

Definition timer (s : tstate K) : tstate K :=
  eoi (if Nat.eqb c 0 then mkTstate (wakeup (ks s) ticks_addr) (u32 (ticks s + 1)) else s).

(** The default case; the message is not part of the result. *)
Definition unexpected (s : tstate K) (tf : trapframe) : outcome (tstate K) :=
  match myproc s with
  | None => Panic "trap"
  | Some (i, _) => if Z.eqb (Z.land (tf_cs tf) 3) 0 then Panic "trap" else Ret (update i (with_killed 1) s)
  end.

Definition count_fault (p : proc) : proc := with_counts (u32 (page_faults p + 1)) (num_pageouts p) p.

Definition page_fault (s : tstate K) (tf : trapframe) : outcome (tstate K) :=
  match myproc s with
  | None => unexpected s tf
  | Some (i, p) =>
      let s1 := update i count_fault s in
      let k := rest (ks s1) in
      let! out := if is_user_proc p then isPagedOut k (count_fault p) (rcr2 k) else Ret false in
      if out then
        let! (r, k1) := safe_page_in k (count_fault p) (rcr2 k) in
        let '(m, outs) := r in
        Ret (update i (λ p, with_counts (page_faults p) outs (with_meta m p)) (set_ks (set_rest (ks s1) k1) s1))
      else unexpected s1 tf
  end.

(** The [switch]. *)
Definition dispatch (s : tstate K) (tf : trapframe) : outcome (tstate K) :=
  let t := tf_trapno tf in
  if Z.eqb t (T_IRQ0 + IRQ_TIMER) then Ret (timer s)
  else if Z.eqb t (T_IRQ0 + IRQ_IDE) then let! s1 := ideintr s in Ret (eoi s1)
  else if Z.eqb t (T_IRQ0 + IRQ_IDE + 1) then Ret s
  else if Z.eqb t (T_IRQ0 + IRQ_KBD) then let! s1 := kbdintr s in Ret (eoi s1)
  else if Z.eqb t (T_IRQ0 + IRQ_COM1) then let! s1 := uartintr s in Ret (eoi s1)
  else if Z.eqb t (T_IRQ0 + 7) || Z.eqb t (T_IRQ0 + IRQ_SPURIOUS) then Ret (eoi s)
  else if paging && Z.eqb t T_PGFLT then page_fault s tf
  else unexpected s tf.

(** The clock tick of a running process. *)
Definition yield_on_timer (i : nat) (p : proc) (s : tstate K) : outcome (tresult K) :=
  let! s1 := if paging then
               let! (m, k) := age_process_pages (rest (ks s)) p in
               Ret (update i (with_meta m) (set_ks (set_rest (ks s) k) s))
             else Ret s in
  let! st := yield (ks s1) c cp i in
  Ret (Yields (set_ks st s1)).

(** The last check, also when the process runs again after [yield]. *)
Definition after_yield (s : tstate K) (tf : trapframe) : tresult K :=
  if killed s && from_user tf then Exits s else Returns s.

Definition trap (s : tstate K) (tf : trapframe) : outcome (tresult K) :=
  if Z.eqb (tf_trapno tf) T_SYSCALL then
    match myproc s with
    | None => Undef "myproc()"
    | Some (i, _) =>
        if killed s then Ret (Exits s)
        else
          let! s1 := syscall i (update i (with_tf tf) s) in
          Ret (if killed s1 then Exits s1 else Returns s1)
    end
  else
    let! s1 := dispatch s tf in
    if killed s1 && from_user tf then Ret (Exits s1)
    else
      match myproc s1 with
      | Some (i, p) =>
          if bool_decide (p_state p = RUNNING) && Z.eqb (tf_trapno tf) (T_IRQ0 + IRQ_TIMER) then yield_on_timer i p s1
          else Ret (after_yield s1 tf)
      | None => Ret (after_yield s1 tf)
      end.
End trap.

(** ** The gates *)

(** Every vector leads to its entry point in the kernel's code segment, with interrupts
    off; only the one of system calls may be called from user mode, and leaves
    interrupts on. *)
Lemma tvinit_gates vectors i :
  0 ≤ i < 256 → is_u32 (vectors i) →
  ∃ g, tvinit vectors !! Z.to_nat i = Some g ∧ off_15_0 g + 2 ^ 16 * off_31_16 g = vectors i ∧ off_31_16 g < 2 ^ 16 ∧ g_cs g = 8 ∧ g_p g = 1 ∧
    (g_type g, g_dpl g) = if decide (i = T_SYSCALL) then (STS_TG32, DPL_USER) else (STS_IG32, 0).
Proof.
  intros Hi Hv. unfold tvinit.
  assert (Hoff : Z.land (vectors i) 0xffff + 2 ^ 16 * Z.shiftr (vectors i) 16 = vectors i ∧ Z.shiftr (vectors i) 16 < 2 ^ 16).
  { change 0xffff with (Z.ones 16). rewrite Z.land_ones, Z.shiftr_div_pow2 by lia. unfold is_u32 in Hv.
    pose proof (Z.div_mod (vectors i) (2 ^ 16) ltac:(lia)). split; [lia|apply Z.div_lt_upper_bound; lia]. }
  destruct (decide (i = T_SYSCALL)) as [->|Hne].
  - eexists. split; [apply list_lookup_insert_eq; rewrite length_fmap, length_seqZ; unfold T_SYSCALL; lia|]. simpl. tauto.
  - eexists. split.
    + rewrite list_lookup_insert_ne by (unfold T_SYSCALL in *; lia). rewrite list_lookup_fmap, lookup_seqZ_lt by lia. reflexivity.
    + replace (0 + Z.of_nat (Z.to_nat i)) with i by lia. simpl. tauto.
Qed.

(** ** Killed processes and faults *)

Section proofs.
  Context {K : Type} `{KernelOps K, TrapOps K} (paging : bool) (ticks_addr : Z) (c : nat) (cp : cpu).

Implicit Types (s : tstate K).

Lemma myproc_update (s : tstate K) i p g : myproc c s = Some (i, p) → myproc c (update i g s) = Some (i, g p).
Proof.
  unfold myproc. simpl. destruct (on_cpu (ks s) c) as [j|]; [|done]. destruct (ptable (ks s) !! j) as [q|] eqn:E; [|done].
  intros [= -> ->]. by rewrite list_lookup_alter_eq, E.
Qed.

Lemma myproc_lookup (s : tstate K) i p : myproc c s = Some (i, p) → ptable (ks s) !! i = Some p.
Proof. unfold myproc. destruct (on_cpu (ks s) c) as [j|]; [|done]. destruct (ptable (ks s) !! j) eqn:E; [|done]. by intros [= -> ->]. Qed.

(** The trap numbers of system calls and devices. *)
Definition device (t : Z) : bool :=
  existsb (Z.eqb t) [T_SYSCALL; T_IRQ0 + IRQ_TIMER; T_IRQ0 + IRQ_IDE; T_IRQ0 + IRQ_IDE + 1; T_IRQ0 + IRQ_KBD; T_IRQ0 + IRQ_COM1; T_IRQ0 + 7;
    T_IRQ0 + IRQ_SPURIOUS].

Definition paging_fault (tf : trapframe) : bool := paging && Z.eqb (tf_trapno tf) T_PGFLT.

(** A fault that nothing serves: not from a device or a system call, and, if it is a page
    fault, not of a user process on a page it has in its swap file. *)
Definition unserved (s : tstate K) (tf : trapframe) : Prop :=
  device (tf_trapno tf) = false ∧
  (paging_fault tf = true → ∀ i p, myproc c s = Some (i, p) → is_user_proc p = true →
     isPagedOut (rest (ks s)) (count_fault p) (rcr2 (rest (ks s))) = Ret false).

(** The process with the fault counted. *)
Definition faulted (tf : trapframe) (p : proc) : proc := if paging_fault tf then count_fault p else p.

Lemma dispatch_fault s tf :
  device (tf_trapno tf) = false → dispatch paging ticks_addr c s tf = if paging_fault tf then page_fault c s tf else unexpected c s tf.
Proof.
  unfold device, dispatch, paging_fault. cbn [existsb]. rewrite !orb_false_iff. intros (_ & H1 & H2 & H3 & H4 & H5 & H6 & H7 & _).
  by rewrite H1, H2, H3, H4, H5, H6, H7.
Qed.

(** An unserved fault reaches the default case. *)
Lemma dispatch_unserved s tf : unserved s tf →
  dispatch paging ticks_addr c s tf =
    match myproc c s with Some (i, p) => unexpected c (if paging_fault tf then update i count_fault s else s) tf | None => Panic "trap" end.
Proof.
  intros [Hd Ho]. rewrite dispatch_fault by done. destruct (paging_fault tf); [|unfold unexpected; by destruct (myproc c s) as [[i p]|]].
  unfold page_fault. destruct (myproc c s) as [[i p]|] eqn:E; [|unfold unexpected; by rewrite E]. specialize (Ho eq_refl i p eq_refl).
  destruct (is_user_proc p); [|done]. change (rest (ks (update i count_fault s))) with (rest (ks s)). by rewrite Ho.
Qed.

Lemma not_syscall tf : device (tf_trapno tf) = false → Z.eqb (tf_trapno tf) T_SYSCALL = false.
Proof. unfold device. cbn [existsb]. by intros [? _]%orb_false_iff. Qed.

Lemma alter_twice (l : list proc) i f g p : l !! i = Some p → alter g i (alter f i l) = <[i := g (f p)]> l.
Proof.
  intros Hp. apply list_eq. intros m. destruct (decide (m = i)) as [->|Hm].
  - rewrite !list_lookup_alter_eq, Hp, list_lookup_insert_eq; [done|]. by eapply lookup_lt_Some.
  - by rewrite !list_lookup_alter_ne, list_lookup_insert_ne.
Qed.

Lemma alter_once (l : list proc) i f p : l !! i = Some p → alter f i l = <[i := f p]> l.
Proof.
  intros Hp. apply list_eq. intros m. destruct (decide (m = i)) as [->|Hm].
  - rewrite !list_lookup_alter_eq, Hp, list_lookup_insert_eq; [done|]. by eapply lookup_lt_Some.
  - by rewrite !list_lookup_alter_ne, list_lookup_insert_ne.
Qed.

(** The only change from [s] to [s'] is the process in slot [i], which is now [p']. *)
Definition only_process (s s' : tstate K) (i : nat) (p' : proc) : Prop :=
  s' = mkTstate (mkKern (<[i := p']> (ptable (ks s))) (nextpid (ks s)) (initproc (ks s)) (on_cpu (ks s)) (rest (ks s))) (ticks s).

Lemma trap_kills s tf i p : unserved s tf → myproc c s = Some (i, p) → from_user tf = true →
  ∃ s', trap paging ticks_addr c cp s tf = Ret (Exits s') ∧ only_process s s' i (with_killed 1 (faulted tf p)).
Proof.
  intros Hu Hp Hf. unfold trap. rewrite not_syscall by apply Hu. rewrite (dispatch_unserved s tf Hu), Hp.
  set (s1 := if paging_fault tf then _ else _). assert (Hp1 : myproc c s1 = Some (i, faulted tf p)).
  { unfold s1, faulted. destruct (paging_fault tf); [by apply myproc_update|done]. }
  unfold unexpected. rewrite Hp1. pose proof Hf as Hcs. unfold from_user in Hcs. apply Z.eqb_eq in Hcs. rewrite Hcs.
  change (Z.eqb DPL_USER 0) with false. cbv iota. cbn [obind]. unfold killed.
  rewrite (myproc_update s1 i (faulted tf p) (with_killed 1) Hp1), Hf. cbn [p_killed with_killed Z.eqb negb andb]. eexists. split; [done|].
  pose proof (myproc_lookup s i p Hp) as Hl. unfold only_process, s1, faulted, update, set_ks, upd_proc, set_table.
  destruct (paging_fault tf); cbn [ks ticks ptable nextpid initproc on_cpu rest];
    [by rewrite (alter_twice _ _ _ _ p)|by rewrite (alter_once _ _ _ p)].
Qed.

Lemma trap_kernel_fault s tf : unserved s tf → myproc c s = None ∨ Z.land (tf_cs tf) 3 = 0 → trap paging ticks_addr c cp s tf = Panic "trap".
Proof.
  intros Hu Hk. unfold trap. rewrite not_syscall by apply Hu. rewrite (dispatch_unserved s tf Hu).
  destruct (myproc c s) as [[i p]|]; [|done]. destruct Hk as [?|Hk]; [done|]. unfold unexpected. rewrite Hk. by destruct (myproc c _) as [[]|].
Qed.

Lemma trap_resumes s tf s' :
  trap paging ticks_addr c cp s tf = Ret (Returns s') → tf_trapno tf = T_SYSCALL ∨ from_user tf = true → killed c s' = false.
Proof.
  unfold trap. intros E Hu. destruct (Z.eqb_spec (tf_trapno tf) T_SYSCALL) as [_|Hne].
  - destruct (myproc c s) as [[i p]|]; [|done]. destruct (killed c s); [done|]. apply obind_Ret_inv in E as (s1 & _ & E).
    destruct (killed c s1) eqn:Hk; [done|]. by injection E as <-.
  - destruct Hu as [?|Hu]; [done|]. rewrite Hu in E. apply obind_Ret_inv in E as (s1 & _ & E). rewrite andb_true_r in E.
    destruct (killed c s1) eqn:Hk; [done|]. unfold after_yield in E. rewrite Hk in E. destruct (myproc c s1) as [[i p]|].
    + destruct (_ && _).
      * unfold yield_on_timer in E. apply obind_Ret_inv in E as (s2 & _ & E). by apply obind_Ret_inv in E as (st & _ & E).
      * by injection E as <-.
    + by injection E as <-.
Qed.

(** Something [trap] calls panics. *)
Definition handler_panics (s : tstate K) (tf : trapframe) (m : string) : Prop :=
  ideintr s = Panic m ∨ kbdintr s = Panic m ∨ uartintr s = Panic m ∨
  (∃ i, syscall i (update i (with_tf tf) s) = Panic m) ∨
  (∃ p, isPagedOut (rest (ks s)) (count_fault p) (rcr2 (rest (ks s))) = Panic m) ∨
  (∃ p, safe_page_in (rest (ks s)) (count_fault p) (rcr2 (rest (ks s))) = Panic m) ∨
  (∃ s1 p, age_process_pages (rest (ks s1)) p = Panic m).

Lemma obind_Panic_inv {A B} (o : outcome A) (f : A → outcome B) m :
  obind o f = Panic m → o = Panic m ∨ ∃ x, o = Ret x ∧ f x = Panic m.
Proof. destruct o as [x| | | |]; simpl; try done; [right; by exists x|by left; simplify_eq]. Qed.

Lemma unexpected_user s tf i p : myproc c s = Some (i, p) → from_user tf = true → unexpected c s tf = Ret (update i (with_killed 1) s).
Proof.
  intros Hp Hf. unfold unexpected. rewrite Hp. unfold from_user in Hf. apply Z.eqb_eq in Hf. by rewrite Hf.
Qed.

Lemma dispatch_panics s tf m i p :
  myproc c s = Some (i, p) → from_user tf = true → dispatch paging ticks_addr c s tf = Panic m → handler_panics s tf m.
Proof.
  intros Hp Hf. unfold dispatch, handler_panics.
  repeat (match goal with |- (if ?b then _ else _) = _ → _ => destruct b; [|] end); try done.
  - intros [E|(x & _ & ?)]%obind_Panic_inv; [auto|done].
  - intros [E|(x & _ & ?)]%obind_Panic_inv; [auto|done].
  - intros [E|(x & _ & ?)]%obind_Panic_inv; [auto|done].
  - unfold page_fault. rewrite Hp. change (rest (ks (update i count_fault s))) with (rest (ks s)).
    intros [E|(out & _ & E)]%obind_Panic_inv; [destruct (is_user_proc p); [|done]; do 4 right; left; by exists p|].
    destruct out; [|by rewrite (unexpected_user _ tf i (count_fault p)) in E by (done || by apply myproc_update)].
    apply obind_Panic_inv in E as [E|([[m' o] k] & _ & E)]; [|done]. do 5 right. left. by exists p.
  - by rewrite (unexpected_user s tf i p).
Qed.

Lemma yield_no_panic (st : kern K) i p m : ptable st !! i = Some p → ncli cp = 0 → yield st c cp i ≠ Panic m.
Proof.
  intros Hp Hn. unfold yield, sched, get_proc. simpl. rewrite list_lookup_alter_eq, Hp, Hn. by simpl.
Qed.

(** A trap from user mode panics only when something it calls does. *)
Lemma trap_user_panic s tf i p m :
  myproc c s = Some (i, p) → from_user tf = true → ncli cp = 0 → trap paging ticks_addr c cp s tf = Panic m → handler_panics s tf m.
Proof.
  intros Hp Hf Hn. unfold trap. destruct (Z.eqb (tf_trapno tf) T_SYSCALL).
  - rewrite Hp. destruct (killed c s); [done|]. intros [E|(x & _ & ?)]%obind_Panic_inv; [|done]. do 3 right. left. by exists i.
  - intros [E|(s1 & _ & E)]%obind_Panic_inv; [by eapply dispatch_panics|].
    destruct (_ && _); [done|]. destruct (myproc c s1) as [[j q]|] eqn:Hq; [|done]. destruct (_ && _); [|done].
    unfold yield_on_timer in E. apply obind_Panic_inv in E as [E|(s2 & E2 & E)].
    + destruct paging; [|done]. apply obind_Panic_inv in E as [E|([m' k] & _ & ?)]; [|done]. do 6 right. by exists s1, q.
    + apply obind_Panic_inv in E as [E|(st & _ & ?)]; [|done]. exfalso.
      assert (∃ q2, ptable (ks s2) !! j = Some q2) as [q2 Hq2].
      { apply myproc_lookup in Hq. destruct paging.
        - apply obind_Ret_inv in E2 as ([m' k] & _ & E2). injection E2 as <-. simpl. rewrite list_lookup_alter_eq, Hq. eauto.
        - injection E2 as <-. eauto. }
      by eapply yield_no_panic.
Qed.

(** A page fault of a user process on a page in its swap file brings the page in. *)
Lemma trap_page_in s tf i p m outs k :
  paging_fault tf = true → myproc c s = Some (i, p) → is_user_proc p = true → p_killed p = 0 →
  isPagedOut (rest (ks s)) (count_fault p) (rcr2 (rest (ks s))) = Ret true →
  safe_page_in (rest (ks s)) (count_fault p) (rcr2 (rest (ks s))) = Ret (m, outs, k) →
  trap paging ticks_addr c cp s tf =
    Ret (Returns (mkTstate (mkKern (<[i := with_counts (u32 (page_faults p + 1)) outs (with_meta m p)]> (ptable (ks s)))
      (nextpid (ks s)) (initproc (ks s)) (on_cpu (ks s)) k) (ticks s))).
Proof.
  intros Hpf Hp Hu Hk Ho Hi. pose proof Hpf as [_ Ht]%andb_true_iff. apply Z.eqb_eq in Ht. unfold trap. rewrite Ht.
  change (Z.eqb T_PGFLT T_SYSCALL) with false. cbv iota. rewrite dispatch_fault by (by rewrite Ht). rewrite Hpf. unfold page_fault. rewrite Hp, Hu.
  change (rest (ks (update i count_fault s))) with (rest (ks s)). rewrite Ho. cbn [obind]. rewrite Hi. cbn [obind].
  set (s1 := set_ks (set_rest (ks (update i count_fault s)) k) (update i count_fault s)).
  assert (Hp1 : myproc c s1 = Some (i, count_fault p)).
  { pose proof (myproc_update s i p count_fault Hp) as E. exact E. }
  pose proof (myproc_update s1 i _ (λ p, with_counts (page_faults p) outs (with_meta m p)) Hp1) as Hp2. set (s2 := update i _ s1) in *.
  assert (Hk2 : killed c s2 = false) by (unfold killed; rewrite Hp2; cbn [p_killed with_counts with_meta count_fault]; by rewrite Hk).
  rewrite Hk2. cbn [andb]. rewrite Hp2. change (Z.eqb T_PGFLT (T_IRQ0 + IRQ_TIMER)) with false. rewrite andb_false_r. unfold after_yield. rewrite Hk2.
  cbn [andb]. do 2 f_equal. unfold s2, s1, update, set_ks, upd_proc, set_table, set_rest. cbn [ks ticks ptable nextpid initproc on_cpu rest].
  by rewrite (alter_twice _ _ _ _ p) by (by apply myproc_lookup).
Qed.

(** A clock tick on the first processor counts and wakes the sleepers on it; a running process
    that is not killed gives up the CPU. *)
Lemma trap_timer s tf i p :
  tf_trapno tf = T_IRQ0 + IRQ_TIMER → myproc c (timer ticks_addr c s) = Some (i, p) → p_state p = RUNNING → p_killed p = 0 →
  trap paging ticks_addr c cp s tf = yield_on_timer paging c cp i p (timer ticks_addr c s).
Proof.
  intros Ht Hp Hst Hk. unfold trap, dispatch. rewrite Ht. change (Z.eqb (T_IRQ0 + IRQ_TIMER) T_SYSCALL) with false.
  change (Z.eqb (T_IRQ0 + IRQ_TIMER) (T_IRQ0 + IRQ_TIMER)) with true. cbn [obind]. cbv iota. unfold killed. rewrite Hp, Hk. cbn [Z.eqb negb andb].
  by rewrite Hst.
Qed.
End proofs.

(** C21: traps contain what processes do.  A killed process never returns to user mode
    from a system call, an interrupt or a fault, also when it was killed after it gave
    up the CPU.  A fault of a process in user mode that nothing serves, page faults
    outside its paged-out pages included, makes that process exit, marked killed, and
    changes nothing else of the kernel.  A trap from user mode panics only if a handler it
    calls panics; a fault in the kernel that nothing serves always panics.  A page
    fault of a user process on a page in its swap file counts, brings the page in and
    lets the process go on, with every other process as it was. *)
Theorem trap_contains_faults {K} `{KernelOps K, TrapOps K} paging ticks_addr c cp (s : tstate K) tf :
  (∀ s', trap paging ticks_addr c cp s tf = Ret (Returns s') → tf_trapno tf = T_SYSCALL ∨ from_user tf = true → killed c s' = false) ∧
  (∀ s1 s' : tstate K, after_yield c s1 tf = Returns s' → from_user tf = true → killed c s' = false) ∧
  (∀ i p, unserved paging c s tf → myproc c s = Some (i, p) → from_user tf = true →
     ∃ s', trap paging ticks_addr c cp s tf = Ret (Exits s') ∧ only_process s s' i (with_killed 1 (faulted paging tf p))) ∧
  (∀ i p m, myproc c s = Some (i, p) → from_user tf = true → ncli cp = 0 →
     trap paging ticks_addr c cp s tf = Panic m → handler_panics s tf m) ∧
  (∀ i p m outs k, paging_fault paging tf = true → myproc c s = Some (i, p) → is_user_proc p = true → p_killed p = 0 →
     isPagedOut (rest (ks s)) (count_fault p) (rcr2 (rest (ks s))) = Ret true →
     safe_page_in (rest (ks s)) (count_fault p) (rcr2 (rest (ks s))) = Ret (m, outs, k) →
     trap paging ticks_addr c cp s tf =
       Ret (Returns (mkTstate (mkKern (<[i := with_counts (u32 (page_faults p + 1)) outs (with_meta m p)]> (ptable (ks s)))
         (nextpid (ks s)) (initproc (ks s)) (on_cpu (ks s)) k) (ticks s)))) ∧
  (unserved paging c s tf → myproc c s = None ∨ Z.land (tf_cs tf) 3 = 0 → trap paging ticks_addr c cp s tf = Panic "trap").
Proof.
  split_and!.
  - intros s'. apply trap_resumes.
  - intros s1 s' E Hf. unfold after_yield in E. rewrite Hf, andb_true_r in E. destruct (killed c s1) eqn:Hk; [done|]. by injection E as <-.
  - intros i p. apply trap_kills.
  - intros i p m. apply trap_user_panic.
  - intros i p m outs k. apply trap_page_in.
  - apply trap_kernel_fault.
Qed.

(** ** A kernel *)

(** The devices have nothing to do; the page at 0x5000 is in the swap file. *)
#[global] Instance quiet_ops : TrapOps unit := {
  lapiceoi k := k;
  ideintr := Ret;
  kbdintr := Ret;
  uartintr := Ret;
  syscall _ := Ret;
  rcr2 _ := 0x3000;
  isPagedOut _ _ va := Ret (Z.eqb va 0x5000);
  safe_page_in k p _ := Ret (paging_meta p, num_pageouts p, k);
  age_process_pages k p := Ret (paging_meta p, k) }.

(** The process 3 runs on CPU 0, beside another process, and touches an address it does not have. *)
Definition wit_procs : list proc := [with_state RUNNING (with_pid 3 no_proc); with_state RUNNABLE (with_pid 4 no_proc)].
Definition wit_tstate : tstate unit := mkTstate (mkKern wit_procs 5 None (λ c, if Nat.eqb c 0 then Some O else None) tt) 7.
Definition wit_fault : trapframe := mkTf 0 0 0 0 0 0 0 0 0 0 0x23 0x23 T_PGFLT 4 0x1000 0x1b 0x200 0x4000 0x23.

Lemma trap_contains_faults_witness :
  ∃ s', trap true 0 0 (mkCpu true 0 true) wit_tstate wit_fault = Ret (Exits s') ∧
    ptable (ks s') = [with_killed 1 (with_counts 1 0 (with_state RUNNING (with_pid 3 no_proc))); with_state RUNNABLE (with_pid 4 no_proc)].
Proof.
  destruct (trap_contains_faults true 0 0 (mkCpu true 0 true) wit_tstate wit_fault) as (_ & _ & Hk & _).
  destruct (Hk 0%nat (with_state RUNNING (with_pid 3 no_proc))) as (s' & E & Ho); [|reflexivity|reflexivity|].
  - split; [reflexivity|]. intros _ i p _ _. reflexivity.
  - exists s'. split; [exact E|]. rewrite Ho. reflexivity.
Defined.
