(* ===== verification/Exec.v ===== *)
(** * Program execution (exec.c, elf.h, sys_exec of sysfile.c)

    [exec] reads an ELF file, builds a new address space with a guard page and a
    stack that holds the arguments, and replaces the image of the process.  What
    it needs of the file system and of the page tables is an interface; the
    theorem gives the image of the process and the layout of its stack on success,
    and what is left of it on failure: all of it but, with a replacement policy
    compiled in, the paging metadata and the swap file. *)
From stdpp Require Import base list strings.
From Stdlib Require Import ZArith Lia.
From S2P Require Import Prelude Mmu Memory Paging Proc Syscall Bio.

Definition ELF_MAGIC : Z := 0x464C457F.
Definition ELF_PROG_LOAD : Z := 1.
Definition MAXARG : Z := 32.
Definition NAMELEN : nat := 16.

(** The fields of the headers [exec] reads, at their offsets. *)
Definition ELFHDR : Z := 52.
Definition PROGHDR : Z := 32.
Definition elf_magic (h : list Z) : Z := get32 h 0.
Definition elf_entry (h : list Z) : Z := get32 h 24.
Definition elf_phoff (h : list Z) : Z := get32 h 28.
Definition elf_phnum (h : list Z) : Z := byte_at h 44 + 2 ^ 8 * byte_at h 45.
Definition ph_type (h : list Z) : Z := get32 h 0.
Definition ph_off (h : list Z) : Z := get32 h 4.
Definition ph_vaddr (h : list Z) : Z := get32 h 8.
Definition ph_filesz (h : list Z) : Z := get32 h 16.
Definition ph_memsz (h : list Z) : Z := get32 h 20.

(** ** What [exec] calls *)

(** Files are handles; page directories are addresses, 0 when there is no memory; sizes
    and results are those of the C functions.  [allocuvm] and [createSwapFile] work on
    the running process, and may panic. *)
Class ExecOps (K : Type) := {
  me : K → proc;
  set_me : proc → K → K;
  begin_op : K → K;
  end_op : K → K;
  namei : K → list Z → option Z * K;
  ilock : K → Z → K;
  iunlockput : K → Z → K;
  readi : K → Z → Z → Z → list Z * K;
  setupkvm : K → Z * K;
  createSwapFile : K → outcome (Z * K);
  allocuvm : K → Z → Z → Z → outcome (Z * K);
  loaduvm : K → Z → Z → Z → Z → Z → Z * K;
  clearpteu : K → Z → Z → K;
  copyout : K → Z → Z → list Z → Z * K;
  switchuvm : K → K;
  freevm : K → Z → K }.

(** ** exec *)

Definition bytes32 (w : Z) : list Z := [u8 w; u8 (w / 2 ^ 8); u8 (w / 2 ^ 16); u8 (w / 2 ^ 24)].
Definition words (l : list Z) : list Z := concat (bytes32 <$> l).

(** The last element of the path. *)
Fixpoint last_elem (last s : list Z) : list Z :=
  match s with
  | [] => last
  | c :: s' => last_elem (if Z.eqb c 47 then s' else last) s'
  end.
Fixpoint text_of (l : list Z) : string :=
  match l with
  | [] => EmptyString
  | c :: l => String (Ascii.ascii_of_N (Z.to_N c)) (text_of l)
  end.

Section exec.
  (** [paging] is whether a replacement policy is compiled in. *)
  Context {K : Type} `{ExecOps K} (paging : bool).

(** The program headers from [off]; [None] is [goto bad]. *)
Fixpoint load_segments (n : nat) (s : K) (pgdir ip off sz : Z) : outcome (option Z * K) :=
  match n with
  | O => Ret (Some sz, s)
  | S n =>
      let '(ph, s) := readi s ip off PROGHDR in
      if negb (Z.eqb (Z.of_nat (length ph)) PROGHDR) then Ret (None, s)
      else if negb (Z.eqb (ph_type ph) ELF_PROG_LOAD) then load_segments n s pgdir ip (u32 (off + PROGHDR)) sz
      else if Z.ltb (ph_memsz ph) (ph_filesz ph) then Ret (None, s)
      else if Z.ltb (u32 (ph_vaddr ph + ph_memsz ph)) (ph_vaddr ph) then Ret (None, s)
      else
        let! (sz, s) := allocuvm s pgdir sz (u32 (ph_vaddr ph + ph_memsz ph)) in
        if Z.eqb sz 0 then Ret (None, s)
        else if negb (Z.eqb (ph_vaddr ph mod PGSIZE) 0) then Ret (None, s)
        else
          let '(r, s) := loaduvm s pgdir (ph_vaddr ph) ip (ph_off ph) (ph_filesz ph) in
          if Z.ltb r 0 then Ret (None, s) else load_segments n s pgdir ip (u32 (off + PROGHDR)) sz
  end.

(** The strings of the arguments, from [sp] down; [ptrs] are the addresses so far. *)
Fixpoint push_args (argv : list (list Z)) (s : K) (pgdir sp : Z) (ptrs : list Z) : option (Z * list Z) * K :=
  match argv with
  | [] => (Some (sp, ptrs), s)
  | a :: argv =>
      if Z.geb (Z.of_nat (length ptrs)) MAXARG then (None, s)
      else
        let sp := Z.land (u32 (sp - (Z.of_nat (length a) + 1))) (u32 (Z.lnot 3)) in
        let '(r, s) := copyout s pgdir sp (a ++ [0]) in
        if Z.ltb r 0 then (None, s) else push_args argv s pgdir sp (ptrs ++ [sp])
  end.

(** [ustack] for the arguments at [ptrs]. *)
Definition ustack (sp : Z) (ptrs : list Z) : list Z :=
  let argc := Z.of_nat (length ptrs) in
  [0xffffffff; argc; u32 (sp - (argc + 1) * 4)] ++ ptrs ++ [0].

Definition bad (s : K) (pgdir : Z) (ip : option Z) : Z * K :=
  let s1 := if negb (Z.eqb pgdir 0) then freevm s pgdir else s in
  let s2 := match ip with Some ip => end_op (iunlockput s1 ip) | None => s1 end in
  (-1, s2).

(** The new image, from the argument strings on. *)
Definition new_stack (s : K) (pgdir sz : Z) (argv : list (list Z)) : option Z * K :=
  let '(r, s) := push_args argv s pgdir sz [] in
  match r with
  | None => (None, s)
  | Some (sp, ptrs) =>
      let sp' := u32 (sp - (3 + Z.of_nat (length ptrs) + 1) * 4) in
      let '(r, s) := copyout s pgdir sp' (words (ustack sp ptrs)) in
      if Z.ltb r 0 then (None, s) else (Some sp', s)
  end.

Definition image (p : proc) (path : list Z) (pgdir sz entry sp : Z) : proc :=
  with_name (text_of (take (NAMELEN - 1) (last_elem path path))) (with_tf (tf_set_start entry sp (p_tf p)) (with_mem sz pgdir p)).

Definition replace_image (s : K) (path : list Z) (pgdir sz entry sp : Z) : Z * K :=
  let oldpgdir := p_pgdir (me s) in
  let s1 := switchuvm (set_me (image (me s) path pgdir sz entry sp) s) in
  (0, freevm s1 oldpgdir).

(** The start of the new image's paging: the metadata of the process and its swap file
    are replaced. *)
Definition new_paging (s : K) : outcome K :=
  if paging && is_user_proc (me s) then
    let s := set_me (with_meta reset_paging_meta (me s)) s in
    let! (r, s) := createSwapFile s in
    if Z.eqb r 0 then Ret s else Panic "exec_create swapfile"
  else Ret s.

(** [exec] once it has a page directory. *)
Definition exec_image (s : K) (path : list Z) (argv : list (list Z)) (ip : Z) (elf : list Z) (pgdir : Z) : outcome (Z * K) :=
  let! s := new_paging s in
  let! (r, s) := load_segments (Z.to_nat (elf_phnum elf)) s pgdir ip (elf_phoff elf) 0 in
  match r with
  | None => Ret (bad s pgdir (Some ip))
  | Some sz =>
      let s := end_op (iunlockput s ip) in
      let sz := PGROUNDUP sz in
      let! (sz, s) := allocuvm s pgdir sz (u32 (sz + 2 * PGSIZE)) in
      if Z.eqb sz 0 then Ret (bad s pgdir None)
      else
        let s := clearpteu s pgdir (u32 (sz - 2 * PGSIZE)) in
        let '(r, s) := new_stack s pgdir sz argv in
        match r with
        | None => Ret (bad s pgdir None)
        | Some sp => Ret (replace_image s path pgdir sz (elf_entry elf) sp)
        end
  end.

Definition exec (s : K) (path : list Z) (argv : list (list Z)) : outcome (Z * K) :=
  let s := begin_op s in
  let '(ip, s) := namei s path in
  match ip with
  | None => Ret (-1, end_op s)
  | Some ip =>
      let s := ilock s ip in
      let '(elf, s) := readi s ip 0 ELFHDR in
      if negb (Z.eqb (Z.of_nat (length elf)) ELFHDR) then Ret (bad s 0 (Some ip))
      else if negb (Z.eqb (elf_magic elf) ELF_MAGIC) then Ret (bad s 0 (Some ip))
      else
        let '(pgdir, s) := setupkvm s in
        if Z.eqb pgdir 0 then Ret (bad s 0 (Some ip)) else exec_image s path argv ip elf pgdir
  end.

(** ** sys_exec *)

(** The argument strings from the array at [uargv]; at most [MAXARG] entries with the
    null one. *)
Fixpoint fetch_args (k : nat) (p : proc) (um : mem) (uargv : Z) : option (list (list Z)) :=
  match k with
  | O => None
  | S k =>
      match fetchint p um uargv with
      | None => None
      | Some uarg =>
          if Z.eqb uarg 0 then Some []
          else
            match fetchstr p um (u32 uarg) with
            | None => None
            | Some a => match fetch_args k p um (u32 (uargv + 4)) with Some l => Some (a :: l) | None => None end
            end
      end
  end.

Definition sys_exec (s : K) (um : mem) : outcome (Z * K) :=
  match argstr (me s) um 0, argint (me s) um 1 with
  | Some path, Some uargv =>
      match fetch_args (Z.to_nat MAXARG) (me s) um (u32 uargv) with
      | Some argv => exec s path argv
      | None => Ret (-1, s)
      end
  | _, _ => Ret (-1, s)
  end.
End exec.

(** ** What the calls promise *)

(** The page directories in use, the bytes of an address space, and the addresses the
    user may access in it. *)
Class ExecView (K : Type) := {
  spaces : K → list Z;
  umem : K → Z → Z → Z;
  access : K → Z → Z → Prop }.

Definition shape {K} `{ExecOps K, ExecView K} (s : K) : proc * list Z := (me s, spaces s).

(** A process but for its metadata, its swap file and its count of pages paged out. *)
Definition but_paging (p : proc) : proc :=
  with_counts (page_faults p) 0 (with_swapFile None (with_meta reset_paging_meta p)).

(** Only [set_me] changes the process, but for what [allocuvm] and [createSwapFile] change of
    its paging; only [setupkvm] and [freevm] change the set of address spaces;
    [allocuvm] gives the larger of the two sizes, below the kernel, and without
    paging it always returns; [copyout] writes where the user has access, or fails. *)
Class ExecLaws (paging : bool) (K : Type) `{ExecOps K, ExecView K} := {
  begin_op_shape s : shape (begin_op s) = shape s;
  end_op_shape s : shape (end_op s) = shape s;
  namei_shape s path : shape (namei s path).2 = shape s;
  ilock_shape s ip : shape (ilock s ip) = shape s;
  iunlockput_shape s ip : shape (iunlockput s ip) = shape s;
  readi_shape s ip off n : shape (readi s ip off n).2 = shape s;
  setupkvm_me s : me (setupkvm s).2 = me s;
  setupkvm_new s :
    ((setupkvm s).1 = 0 ∧ spaces (setupkvm s).2 = spaces s) ∨
    ((setupkvm s).1 ≠ 0 ∧ (setupkvm s).1 ∉ spaces s ∧ spaces (setupkvm s).2 = (setupkvm s).1 :: spaces s);
  createSwapFile_me s r s' : createSwapFile s = Ret (r, s') →
    spaces s' = spaces s ∧ me s' = with_swapFile (swapFile (me s')) (me s);
  allocuvm_me s pg old new r s' : allocuvm s pg old new = Ret (r, s') →
    spaces s' = spaces s ∧ but_paging (me s') = but_paging (me s) ∧ (paging = false → me s' = me s);
  allocuvm_size s pg old new r s' : allocuvm s pg old new = Ret (r, s') → r = 0 ∨ (r = Z.max old new ∧ new < KERNBASE);
  allocuvm_returns s pg old new : paging = false → ∃ r, allocuvm s pg old new = Ret r;
  loaduvm_shape s pg va ip off n : shape (loaduvm s pg va ip off n).2 = shape s;
  clearpteu_shape s pg va : shape (clearpteu s pg va) = shape s;
  clearpteu_access s pg va x : va mod PGSIZE = 0 → va ≤ x < va + PGSIZE → ¬ access (clearpteu s pg va) pg x;
  access_user s pg x : access s pg x → 0 ≤ x < KERNBASE;
  copyout_shape s pg va l : shape (copyout s pg va l).2 = shape s;
  copyout_access s pg va l x : access (copyout s pg va l).2 pg x ↔ access s pg x;
  copyout_done s pg va l : 0 ≤ (copyout s pg va l).1 → ∀ i,
    0 ≤ i < Z.of_nat (length l) → access s pg (va + i) ∧ Some (umem (copyout s pg va l).2 pg (va + i)) = l !! Z.to_nat i;
  copyout_frame s pg va l x : ¬ va ≤ x < va + Z.of_nat (length l) → umem (copyout s pg va l).2 pg x = umem s pg x;
  set_me_me p s : me (set_me p s) = p;
  set_me_spaces p s : spaces (set_me p s) = spaces s;
  set_me_umem p s : umem (set_me p s) = umem s;
  switchuvm_shape s : shape (switchuvm s) = shape s;
  switchuvm_umem s : umem (switchuvm s) = umem s;
  freevm_me s pg : me (freevm s pg) = me s;
  freevm_spaces s pg : pg ∈ spaces s → spaces s ≡ₚ pg :: spaces (freevm s pg);
  freevm_umem s pg pg' : pg' ≠ pg → umem (freevm s pg) pg' = umem s pg' }.

Section proofs.
  Context {K : Type} (paging : bool) `{ExecOps K, ExecView K, !ExecLaws paging K}.

Lemma land_lnot3 x : is_u32 x → Z.land x (u32 (Z.lnot 3)) = x - x mod 4.
Proof. intros Hx. change (u32 (Z.lnot 3)) with (Z.ldiff (Z.ones 32) (Z.ones 2)). by apply land_low_mask. Qed.

(** ** Words on the stack *)

Definition uword (m : Z → Z) (a : Z) : Z := m a + 2 ^ 8 * m (a + 1) + 2 ^ 16 * m (a + 2) + 2 ^ 24 * m (a + 3).

Lemma bytes32_value w : is_u32 w → u8 w + 2 ^ 8 * u8 (w / 2 ^ 8) + 2 ^ 16 * u8 (w / 2 ^ 16) + 2 ^ 24 * u8 (w / 2 ^ 24) = w.
Proof.
  intros Hw. unfold u8, is_u32 in *. pose proof (Z.div_mod w (2 ^ 8) ltac:(lia)). pose proof (Z.div_mod (w / 2 ^ 8) (2 ^ 8) ltac:(lia)).
  pose proof (Z.div_mod (w / 2 ^ 16) (2 ^ 8) ltac:(lia)). rewrite Z.div_div in * by lia. change (2 ^ 8 * 2 ^ 8) with (2 ^ 16) in *.
  change (2 ^ 16 * 2 ^ 8) with (2 ^ 24) in *. rewrite (Z.mod_small (w / 2 ^ 24)); [lia|].
  split; [apply Z.div_pos; lia|apply Z.div_lt_upper_bound; lia].
Qed.

Lemma words_length l : Z.of_nat (length (words l)) = 4 * Z.of_nat (length l).
Proof. unfold words. induction l as [|w l IH]; [done|]. rewrite fmap_cons, concat_cons, length_app. cbn [length bytes32]. lia. Qed.

Lemma words_lookup l i w j : l !! i = Some w → (j < 4)%nat → words l !! (4 * i + j)%nat = bytes32 w !! j.
Proof.
  unfold words. revert i. induction l as [|v l IH]; intros i Hi Hj; [done|]. rewrite fmap_cons, concat_cons. destruct i as [|i]; simpl in Hi.
  - injection Hi as ->. rewrite lookup_app_l by (simpl; lia). f_equal.
  - rewrite lookup_app_r by (simpl; lia). rewrite <-(IH i Hi Hj). f_equal. simpl. lia.
Qed.

(** Memory that holds [words l] at [a] holds each word. *)
Lemma uword_of m a l i w :
  (∀ k, 0 ≤ k < Z.of_nat (length (words l)) → Some (m (a + k)) = words l !! Z.to_nat k) →
  l !! i = Some w → is_u32 w → uword m (a + 4 * Z.of_nat i) = w.
Proof.
  intros Hm Hi Hw. pose proof (lookup_lt_Some _ _ _ Hi) as Hlt. rewrite words_length in Hm.
  assert (Hb : ∀ j b, (j < 4)%nat → bytes32 w !! j = Some b → m (a + 4 * Z.of_nat i + Z.of_nat j) = b).
  { intros j b Hj Eb. specialize (Hm (4 * Z.of_nat i + Z.of_nat j) ltac:(lia)). replace (Z.to_nat _) with (4 * i + j)%nat in Hm by lia.
    rewrite (words_lookup l i w j Hi Hj), Eb in Hm. injection Hm as <-. f_equal. lia. }
  unfold uword. pose proof (Hb 0%nat _ ltac:(lia) eq_refl) as B0. rewrite Z.add_0_r in B0.
  pose proof (Hb 1%nat _ ltac:(lia) eq_refl) as B1. pose proof (Hb 2%nat _ ltac:(lia) eq_refl) as B2. pose proof (Hb 3%nat _ ltac:(lia) eq_refl) as B3.
  change (Z.of_nat 1) with 1 in B1. change (Z.of_nat 2) with 2 in B2. change (Z.of_nat 3) with 3 in B3. rewrite B0, B1, B2, B3. by apply bytes32_value.
Qed.

(** ** Copies to the stack *)

(** The bytes [l] at [a]. *)
Definition holds (m : Z → Z) (a : Z) (l : list Z) : Prop := ∀ i, 0 ≤ i < Z.of_nat (length l) → Some (m (a + i)) = l !! Z.to_nat i.

Lemma holds_frame m m' a l : (∀ x, a ≤ x < a + Z.of_nat (length l) → m' x = m x) → holds m a l → holds m' a l.
Proof. intros Hm Hh i Hi. rewrite Hm by lia. by apply Hh. Qed.

(** Below a stack that starts at [lo] lies a page without access: a block that ends
    at most three bytes under [sp], in the stack, and can be written begins in the stack. *)
Lemma above_guard s pg lo sp va n :
  (∀ x, lo - PGSIZE ≤ x < lo → ¬ access s pg x) → lo ≤ sp → sp - 4 < va + n ≤ sp → 0 < n →
  (∀ i, 0 ≤ i < n → access s pg (va + i)) → lo ≤ va.
Proof.
  intros Hg Hsp Hend Hn Hacc. destruct (Z.le_gt_cases lo va) as [|Hlt]; [done|]. exfalso. unfold PGSIZE in Hg.
  destruct (Z.le_gt_cases (va + n) lo).
  - apply (Hg (va + n - 1)); [lia|]. replace (va + n - 1) with (va + (n - 1)) by lia. apply Hacc. lia.
  - apply (Hg (lo - 1)); [lia|]. replace (lo - 1) with (va + (lo - 1 - va)) by lia. apply Hacc. lia.
Qed.

(** The state of the stack between [sp] and [top]: the strings at their addresses. *)
Definition pushed (m : Z → Z) (sp top : Z) (ptrs : list Z) (argv : list (list Z)) : Prop :=
  Forall2 (λ p a, sp ≤ p ∧ p + Z.of_nat (length a) < top ∧ holds m p (a ++ [0])) ptrs argv.

Lemma pushed_frame m m' sp sp' top ptrs argv :
  (∀ x, sp ≤ x < top → m' x = m x) → sp' ≤ sp → pushed m sp top ptrs argv → pushed m' sp' top ptrs argv.
Proof.
  intros Hm Hsp HF. eapply Forall2_impl; [exact HF|]. intros p a (H1 & H2 & H3). split_and!; [lia|done|].
  eapply holds_frame; [|exact H3]. intros x Hx. rewrite length_app in Hx. simpl in Hx. apply Hm. lia.
Qed.

Definition arg_ok (a : list Z) : Prop := Z.of_nat (length a) < KERNBASE - 8.

Lemma push_args_ok argv : ∀ s pg lo sp top ptrs done_ r s',
  push_args argv s pg sp ptrs = (r, s') → Forall arg_ok argv →
  (∀ x, lo - PGSIZE ≤ x < lo → ¬ access s pg x) → PGSIZE ≤ lo → lo ≤ sp ≤ top → top < KERNBASE →
  pushed (umem s pg) sp top ptrs done_ →
  shape s' = shape s ∧ (∀ x, access s' pg x ↔ access s pg x) ∧
  match r with
  | None => True
  | Some (sp', ptrs') => lo ≤ sp' ≤ sp ∧ Z.of_nat (length ptrs') ≤ Z.max MAXARG (Z.of_nat (length ptrs)) ∧
      pushed (umem s' pg) sp' top ptrs' (done_ ++ argv)
  end.
Proof.
  induction argv as [|a argv IH]; intros s pg lo sp top ptrs done_ r s' E Hargs Hg Hlo Hsp Htop Hp; cbn [push_args] in E.
  { injection E as <- <-. rewrite app_nil_r. split_and!; [done|done|lia|lia|lia|done]. }
  apply Forall_cons in Hargs as [Ha Hargs]. unfold arg_ok in Ha.
  destruct (Z.geb_spec (Z.of_nat (length ptrs)) MAXARG) as [_|Hmax]; [by injection E as <- <-|].
  set (sp1 := Z.land _ _) in E. pose proof (copyout_shape s pg sp1 (a ++ [0])) as Hsh. pose proof (copyout_access s pg sp1 (a ++ [0])) as Hac.
  pose proof (copyout_done s pg sp1 (a ++ [0])) as Hd. pose proof (copyout_frame s pg sp1 (a ++ [0])) as Hfr.
  destruct (copyout s pg sp1 (a ++ [0])) as [r1 s1]. cbn [fst snd] in *.
  destruct (Z.ltb_spec r1 0) as [_|Hr1]; [by injection E as <- <-|]. specialize (Hd Hr1).
  rewrite length_app in Hd, Hfr. cbn [length] in Hd, Hfr.
  assert (Hsp1 : lo ≤ sp1 ∧ sp - 4 < sp1 + (Z.of_nat (length a) + 1) ≤ sp).
  { pose proof (access_user s pg _ (proj1 (Hd 0 ltac:(lia)))) as Hu. rewrite Z.add_0_r in Hu.
    assert (Hr : sp1 = u32 (sp - (Z.of_nat (length a) + 1)) - u32 (sp - (Z.of_nat (length a) + 1)) mod 4) by (apply land_lnot3, u32_range).
    destruct (Z.le_gt_cases 0 (sp - (Z.of_nat (length a) + 1))) as [Hge|Hneg].
    - rewrite u32_small in Hr by (unfold is_u32, KERNBASE in *; lia). pose proof (Z.mod_pos_bound (sp - (Z.of_nat (length a) + 1)) 4 ltac:(lia)).
      assert (Hend : sp - 4 < sp1 + (Z.of_nat (length a) + 1) ≤ sp) by lia. split; [|done].
      eapply above_guard; [exact Hg|apply Hsp|exact Hend|lia|]. intros i Hi. apply Hd. lia.
    - exfalso. set (d := sp - (Z.of_nat (length a) + 1)) in *.
      assert (Hw : u32 d = d + 2 ^ 32).
      { unfold u32. rewrite <-(Z.mod_add d 1 (2 ^ 32)) by lia. rewrite Z.mod_small; [lia|]. unfold d, KERNBASE, PGSIZE in *. lia. }
      rewrite Hw in Hr. pose proof (Z.mod_pos_bound (d + 2 ^ 32) 4 ltac:(lia)). unfold d, KERNBASE, PGSIZE in *. lia. }
  destruct (IH s1 pg lo sp1 top (ptrs ++ [sp1]) (done_ ++ [a]) r s' E Hargs) as (I1 & I2 & I3); [by intros x Hx; rewrite Hac; apply Hg|done|lia|done| |].
  - apply Forall2_app.
    + eapply (pushed_frame (umem s pg) _ sp sp1); [|lia|exact Hp]. intros x Hx. apply Hfr. lia.
    + apply Forall2_cons. split; [|by apply Forall2_nil]. split_and!; [lia|lia|]. intros i Hi. rewrite length_app in Hi. cbn [length] in Hi. apply Hd. lia.
  - rewrite I1. split_and!; [done|intros x; by rewrite I2|]. destruct r as [[sp2 ptrs2]|]; [|done].
    destruct I3 as (J1 & J2 & J3). rewrite <-app_assoc in J3. rewrite length_app in J2. cbn [length] in J2. split_and!; [lia|lia|lia|done].
Qed.

(** The stack [exec] leaves at [sp]: a return address, argc, the address of argv,
    argv itself with its null pointer, and the strings. *)
Definition stack_of (m : Z → Z) (lo top sp : Z) (argv : list (list Z)) : Prop :=
  let argc := Z.of_nat (length argv) in
  ∃ ptrs, lo ≤ sp ∧ argc ≤ MAXARG ∧ uword m sp = 0xffffffff ∧ uword m (sp + 4) = argc ∧ uword m (sp + 8) = sp + 12 ∧
    (∀ i p, ptrs !! i = Some p → uword m (sp + 12 + 4 * Z.of_nat i) = p) ∧ uword m (sp + 12 + 4 * argc) = 0 ∧
    pushed m (sp + 16 + 4 * argc) top ptrs argv.

Lemma ustack_words m sp sp' ptrs :
  holds m sp' (words (ustack sp ptrs)) → sp' = sp - (3 + Z.of_nat (length ptrs) + 1) * 4 → 0 ≤ sp' → sp < KERNBASE →
  Forall is_u32 ptrs →
  uword m sp' = 0xffffffff ∧ uword m (sp' + 4) = Z.of_nat (length ptrs) ∧ uword m (sp' + 8) = sp' + 12 ∧
  (∀ i p, ptrs !! i = Some p → uword m (sp' + 12 + 4 * Z.of_nat i) = p) ∧ uword m (sp' + 12 + 4 * Z.of_nat (length ptrs)) = 0.
Proof.
  intros Hh Hsp Hpos Hk Hp. unfold holds in Hh. pose proof (uword_of m sp' (ustack sp ptrs)) as HW.
  assert (HW' : ∀ i w, ustack sp ptrs !! i = Some w → is_u32 w → uword m (sp' + 4 * Z.of_nat i) = w) by (intros i w; by apply HW).
  unfold KERNBASE in Hk. split_and!.
  - pose proof (HW' 0%nat _ eq_refl ltac:(unfold is_u32; lia)) as E. by rewrite Z.add_0_r in E.
  - apply (HW' 1%nat _ eq_refl). unfold is_u32. lia.
  - pose proof (HW' 2%nat _ eq_refl (u32_range _)) as E. change (4 * Z.of_nat 2) with 8 in E. rewrite E, u32_small by (unfold is_u32; lia). lia.
  - intros i p Hi. rewrite <-(HW' (3 + i)%nat p).
    + f_equal. lia.
    + unfold ustack. rewrite lookup_app_r by (simpl; lia). cbn [length]. replace (3 + i - 3)%nat with i by lia. by apply lookup_app_l_Some.
    + by eapply Forall_lookup in Hp.
  - rewrite <-(HW' (3 + length ptrs)%nat 0).
    + f_equal. lia.
    + unfold ustack. rewrite lookup_app_r by (simpl; lia). cbn [length]. replace (3 + length ptrs - 3)%nat with (length ptrs) by lia.
      rewrite lookup_app_r by lia. by rewrite Nat.sub_diag.
    + unfold is_u32. lia.
Qed.

Lemma new_stack_ok s pg top argv r s' :
  new_stack s pg top argv = (r, s') → Forall arg_ok argv →
  (∀ x, top - 2 * PGSIZE ≤ x < top - PGSIZE → ¬ access s pg x) → 2 * PGSIZE ≤ top < KERNBASE →
  shape s' = shape s ∧ match r with None => True | Some sp => stack_of (umem s' pg) (top - PGSIZE) top sp argv end.
Proof.
  intros E Hargs Hg Htop. unfold new_stack in E. destruct (push_args argv s pg top []) as [r1 s1] eqn:Ep.
  destruct (push_args_ok argv s pg (top - PGSIZE) top top [] [] r1 s1 Ep Hargs) as (I1 & I2 & I3);
    [intros x Hx; apply Hg; lia|lia|unfold PGSIZE; lia|lia|by apply Forall2_nil|].
  destruct r1 as [[sp ptrs]|]; [|injection E as <- <-; done]. destruct I3 as (Hsp & Hn & Hp). simpl in Hp, Hn. change (0 `max` 32) with 32 in Hn.
  pose proof (Forall2_length _ _ _ Hp) as Hlen. set (sp' := u32 _) in E.
  assert (Hsp' : sp' = sp - (3 + Z.of_nat (length ptrs) + 1) * 4) by (apply u32_small; unfold is_u32, PGSIZE, KERNBASE, MAXARG in *; lia).
  pose proof (copyout_shape s1 pg sp' (words (ustack sp ptrs))) as Hsh. pose proof (copyout_done s1 pg sp' (words (ustack sp ptrs))) as Hd.
  pose proof (copyout_frame s1 pg sp' (words (ustack sp ptrs))) as Hfr. destruct (copyout s1 pg sp' _) as [r2 s2]. cbn [fst snd] in *.
  rewrite I1 in Hsh. destruct (Z.ltb_spec r2 0) as [_|Hr2]; injection E as <- <-; (split; [done|]); [done|]. specialize (Hd Hr2).
  assert (Hwl : Z.of_nat (length (words (ustack sp ptrs))) = (3 + Z.of_nat (length ptrs) + 1) * 4).
  { rewrite words_length. unfold ustack. rewrite !length_app. simpl. lia. }
  assert (Hlo : top - PGSIZE ≤ sp').
  { eapply (above_guard s1 pg (top - PGSIZE) sp sp' ((3 + Z.of_nat (length ptrs) + 1) * 4)); try lia; [intros x Hx; rewrite I2; apply Hg; lia|].
    intros i Hi. apply Hd. lia. }
  exists ptrs. rewrite <-Hlen.
  destruct (ustack_words (umem s2 pg) sp sp' ptrs) as (W1 & W2 & W3 & W4 & W5); try done; [|unfold PGSIZE in *; lia|lia| |].
  - intros i Hi. apply Hd. lia.
  - apply Forall_forall. intros p Hin. apply list_elem_of_lookup in Hin as [i Hi]. destruct (Forall2_lookup_l _ _ _ _ _ Hp Hi) as (a & _ & P1 & P2 & _).
    unfold is_u32, KERNBASE, PGSIZE in *. lia.
  - split_and!; try done.
    eapply (pushed_frame (umem s1 pg) _ sp); [|lia|exact Hp]. intros x Hx. apply Hfr. lia.
Qed.

(** ** What is kept of the process *)

Lemma shape_inv s s' : shape s' = shape s → me s' = me s ∧ spaces s' = spaces s.
Proof. unfold shape. by intros [= -> ->]. Qed.

(** The process but for its paging, all of it in a build without; and the address spaces. *)
Definition kept (s s' : K) : Prop :=
  spaces s' = spaces s ∧ but_paging (me s') = but_paging (me s) ∧ (paging = false → me s' = me s).

Lemma kept_trans s s1 s2 : kept s s1 → kept s1 s2 → kept s s2.
Proof.
  intros (A1 & A2 & A3) (B1 & B2 & B3). split_and!; [congruence|congruence|]. intros Hp. by rewrite B3, A3.
Qed.

Lemma kept_shape s s1 s2 : kept s s1 → shape s2 = shape s1 → kept s s2.
Proof. intros Hk E. destruct (shape_inv _ _ E) as [E1 E2]. eapply kept_trans; [exact Hk|]. unfold kept. by rewrite E1, E2. Qed.

Lemma kept_refl s : kept s s.
Proof. done. Qed.

Lemma kept_pgdir s s' : kept s s' → p_pgdir (me s') = p_pgdir (me s).
Proof. intros (_ & E & _). by apply (f_equal p_pgdir) in E. Qed.

(** A call that does not return: [allocuvm] or [createSwapFile], which only a build with
    paging can stop in. *)
Definition stuck (s : K) : Prop :=
  paging = true ∧
  ((∃ s1 pg old new, ∀ r, allocuvm s1 pg old new ≠ Ret r) ∨
   is_user_proc (me s) = true ∧ ∃ s1, ∀ s2, createSwapFile s1 ≠ Ret (0, s2)).

Lemma allocuvm_cases s s1 pg old new :
  stuck s ∨ ∃ r s2, allocuvm s1 pg old new = Ret (r, s2) ∧ kept s1 s2 ∧ (r = 0 ∨ (r = Z.max old new ∧ new < KERNBASE)).
Proof.
  destruct (allocuvm s1 pg old new) as [[r s2]| | | |] eqn:E.
  1: right; exists r, s2; split_and!; [done|by eapply allocuvm_me|by eapply allocuvm_size].
  all: left; split; [|left; exists s1, pg, old, new; congruence].
  all: destruct paging eqn:Hp; [done|]; destruct (allocuvm_returns s1 pg old new eq_refl) as [r Hr]; congruence.
Qed.

(** ** Loading *)

Lemma load_segments_ok n : ∀ s0 s pg ip off sz, 0 ≤ sz < KERNBASE →
  stuck s0 ∨ ∃ r s', load_segments n s pg ip off sz = Ret (r, s') ∧ kept s s' ∧
    match r with None => True | Some sz' => 0 ≤ sz' < KERNBASE end.
Proof.
  induction n as [|n IH]; intros s0 s pg ip off sz Hsz; cbn [load_segments]; [right; by exists (Some sz), s|].
  pose proof (readi_shape s ip off PROGHDR) as H1. destruct (readi s ip off PROGHDR) as [ph s1]. cbn [snd] in H1.
  pose proof (kept_shape s s s1 (kept_refl s) H1) as K1.
  assert (Hbad : ∀ s2 : K, kept s1 s2 → stuck s0 ∨ ∃ r s', Ret (@None Z, s2) = Ret (r, s') ∧ kept s s' ∧ match r with None => True | Some sz' => 0 ≤ sz' < KERNBASE end).
  { intros s2 K2. right. exists None, s2. split_and!; [done|by eapply kept_trans|done]. }
  assert (Hnext : ∀ s2 sz2, kept s1 s2 → 0 ≤ sz2 < KERNBASE → stuck s0 ∨ ∃ r s', load_segments n s2 pg ip (u32 (off + PROGHDR)) sz2 = Ret (r, s') ∧
    kept s s' ∧ match r with None => True | Some sz' => 0 ≤ sz' < KERNBASE end).
  { intros s2 sz2 K2 Hsz2. destruct (IH s0 s2 pg ip (u32 (off + PROGHDR)) sz2 Hsz2) as [?|(r & s' & E & K3 & Hr)]; [by left|right].
    exists r, s'. split_and!; [done| |done]. eapply kept_trans; [exact K1|]. by eapply kept_trans. }
  destruct (negb (Z.eqb _ PROGHDR)); [by apply Hbad|]. destruct (negb (Z.eqb _ ELF_PROG_LOAD)); [by apply Hnext|].
  destruct (Z.ltb (ph_memsz ph) _); [by apply Hbad|]. set (new := u32 _). destruct (Z.ltb new _); [by apply Hbad|].
  destruct (allocuvm_cases s0 s1 pg sz new) as [?|(sz1 & s2 & E & K2 & H3)]; [by left|]. rewrite E. cbn [obind].
  destruct (Z.eqb_spec sz1 0) as [_|Hne]; [by apply Hbad|]. destruct (negb _); [by apply Hbad|].
  pose proof (loaduvm_shape s2 pg (ph_vaddr ph) ip (ph_off ph) (ph_filesz ph)) as H4. destruct (loaduvm s2 _ _ _ _ _) as [r1 s3]. cbn [snd] in H4.
  pose proof (kept_shape _ _ _ K2 H4) as K3. destruct (Z.ltb r1 0); [by apply Hbad|]. apply Hnext; [done|].
  destruct H3 as [?|[-> ?]]; [done|]. pose proof (u32_range (ph_vaddr ph + ph_memsz ph)) as Hr. unfold is_u32 in Hr. fold new in Hr. lia.
Qed.

(** Giving up frees the new address space and nothing else. *)
Lemma bad_ok s pg ip L :
  pg ≠ 0 → spaces s ≡ₚ pg :: L → (bad s pg ip).1 = -1 ∧ me (bad s pg ip).2 = me s ∧ spaces (bad s pg ip).2 ≡ₚ L.
Proof.
  intros Hpg HL. unfold bad. rewrite (proj2 (Z.eqb_neq pg 0)) by done. cbn [negb fst snd].
  assert (Hf : spaces (freevm s pg) ≡ₚ L).
  { apply (Permutation.Permutation_cons_inv (a := pg)). rewrite <-HL. symmetry. apply freevm_spaces. rewrite HL. left. }
  assert (Hsh : shape (match ip with Some ip => end_op (iunlockput (freevm s pg) ip) | None => freevm s pg end) = shape (freevm s pg)).
  { destruct ip; [by rewrite end_op_shape, iunlockput_shape|done]. }
  destruct (shape_inv _ _ Hsh) as [-> ->]. by rewrite freevm_me.
Qed.

Lemma bad_early s ip : (bad s 0 (Some ip)).1 = -1 ∧ shape (bad s 0 (Some ip)).2 = shape s.
Proof. unfold bad. simpl. by rewrite end_op_shape, iunlockput_shape. Qed.

(** The file has a header [elf] that [exec] accepts. *)
Definition accepted (s : K) (path elf : list Z) : Prop :=
  ∃ ip s1, namei (begin_op s) path = (Some ip, s1) ∧ (readi (ilock s1 ip) ip 0 ELFHDR).1 = elf ∧
    Z.of_nat (length elf) = ELFHDR ∧ elf_magic elf = ELF_MAGIC.

(** What [exec] returns with.  It fails, and the process is as it was, but for its paging
    where there is paging and the header was accepted; or it succeeds, and the
    process has the image of the file in a new address space. *)
Definition exec_result (s : K) (path : list Z) (argv : list (list Z)) (res : Z * K) : Prop :=
  (res.1 = -1 ∧ spaces res.2 ≡ₚ spaces s ∧ but_paging (me res.2) = but_paging (me s) ∧
     (me res.2 = me s ∨ paging = true ∧ ∃ elf, accepted s path elf)) ∨
  (res.1 = 0 ∧ ∃ elf pg sz sp, accepted s path elf ∧
     but_paging (me res.2) = but_paging (image (me s) path pg sz (elf_entry elf) sp) ∧
     (paging = false → me res.2 = image (me s) path pg sz (elf_entry elf) sp) ∧
     p_pgdir (me s) :: spaces res.2 ≡ₚ pg :: spaces s ∧
     2 * PGSIZE ≤ sz < KERNBASE ∧ stack_of (umem res.2 pg) (sz - PGSIZE) sz sp argv).

Definition exec_outcome (s : K) (path : list Z) (argv : list (list Z)) (o : outcome (Z * K)) : Prop :=
  stuck s ∨ ∃ res, o = Ret res ∧ exec_result s path argv res.

Lemma exec_failed s path argv res : res.1 = -1 → shape res.2 = shape s → exec_outcome s path argv (Ret res).
Proof. intros E Hs. destruct (shape_inv _ _ Hs) as [E1 E2]. right. exists res. split; [done|]. left. rewrite E1, E2. auto. Qed.

(** The state [s1] with the new directory [pg], after the header was accepted. *)
Record building (s s1 : K) (path elf : list Z) (pg : Z) : Prop := mk_building {
  bu_pg : pg ≠ 0 ∧ pg ∉ spaces s;
  bu_header : accepted s path elf;
  bu_spaces : spaces s1 = pg :: spaces s;
  bu_me : but_paging (me s1) = but_paging (me s) ∧ (paging = false → me s1 = me s) }.

Lemma building_kept s s1 s2 path elf pg : building s s1 path elf pg → kept s1 s2 → building s s2 path elf pg.
Proof.
  intros [A1 A2 A3 [A4 A5]] (B1 & B2 & B3). split; [done|done|congruence|]. split; [congruence|]. intros Hp. by rewrite B3, A5.
Qed.

Lemma exec_bad s path argv s1 elf pg ip : building s s1 path elf pg → exec_outcome s path argv (Ret (bad s1 pg ip)).
Proof.
  intros [[Hpg _] Hh Hs [Hm Hm']]. destruct (bad_ok s1 pg ip (spaces s) Hpg) as (E1 & E2 & E3); [by rewrite Hs|].
  right. eexists. split; [done|]. left. rewrite E1, E2. split_and!; [done|done|done|].
  destruct paging; [right; split; [done|by exists elf]|left; by apply Hm'].
Qed.

Lemma replace_image_ok s argv s1 path elf pg sz sp :
  building s s1 path elf pg → p_pgdir (me s) ∈ spaces s → 2 * PGSIZE ≤ sz < KERNBASE →
  stack_of (umem s1 pg) (sz - PGSIZE) sz sp argv → exec_outcome s path argv (Ret (replace_image s1 path pg sz (elf_entry elf) sp)).
Proof.
  intros [[Hpg Hni] Hh Hs [Hm Hm']] Hold Hsz Hst. right. eexists. split; [done|]. right. unfold replace_image. cbn [fst snd].
  split; [done|]. exists elf, pg, sz, sp.
  assert (Hpd : p_pgdir (me s1) = p_pgdir (me s)) by (by apply (f_equal p_pgdir) in Hm). rewrite Hpd.
  set (s2 := switchuvm _). assert (Hsh : shape s2 = shape (set_me (image (me s1) path pg sz (elf_entry elf) sp) s1)) by apply switchuvm_shape.
  destruct (shape_inv _ _ Hsh) as [Em Es]. rewrite set_me_me in Em. rewrite set_me_spaces, Hs in Es. rewrite freevm_me, Em.
  split_and!; try done; try lia.
  - assert (Hi : ∀ p q, but_paging p = but_paging q → but_paging (image p path pg sz (elf_entry elf) sp) = but_paging (image q path pg sz (elf_entry elf) sp)).
    { intros p q E. assert (Hc : ∀ x, but_paging (image x path pg sz (elf_entry elf) sp) = image (but_paging x) path pg sz (elf_entry elf) sp) by done.
      by rewrite !Hc, E. }
    by apply Hi.
  - intros Hp. by rewrite Hm'.
  - rewrite <-Es. symmetry. apply freevm_spaces. rewrite Es. by right.
  - rewrite freevm_umem by (intros ->; done). unfold s2. by rewrite switchuvm_umem, set_me_umem.
Qed.

Lemma new_paging_ok s s1 path elf pg : building s s1 path elf pg →
  stuck s ∨ ∃ s2, new_paging paging s1 = Ret s2 ∧ building s s2 path elf pg.
Proof.
  intros Hb. unfold new_paging. destruct (paging && is_user_proc (me s1)) eqn:E; [|right; by exists s1].
  apply andb_true_iff in E as [Hp Hu].
  assert (Hus : is_user_proc (me s) = true).
  { destruct (bu_me _ _ _ _ _ Hb) as [Hm _]. apply (f_equal is_user_proc) in Hm. unfold is_user_proc in *. simpl in Hm. congruence. }
  destruct (createSwapFile _) as [[r s2]| | | |] eqn:Ec.
  1: destruct (decide (r = 0)) as [->|Hr].
  1: right; exists s2; split; [done|].
  1: { destruct (createSwapFile_me _ _ _ Ec) as [E1 E2]. rewrite set_me_spaces in E1. rewrite set_me_me in E2.
       eapply building_kept; [exact Hb|]. split_and!; [done| |congruence]. rewrite E2. done. }
  all: left; split; [done|]; right; split; [done|]; eexists; intros s3 E3; rewrite Ec in E3; congruence.
Qed.

Lemma exec_image_ok s s1 path argv ip elf pg :
  building s s1 path elf pg → p_pgdir (me s) ∈ spaces s → Forall arg_ok argv →
  exec_outcome s path argv (exec_image paging s1 path argv ip elf pg).
Proof.
  intros Hb Hold Hargs. unfold exec_image. destruct (new_paging_ok _ _ _ _ _ Hb) as [?|(s2 & E2 & B2)]; [by left|]. rewrite E2. cbn [obind].
  destruct (load_segments_ok (Z.to_nat (elf_phnum elf)) s s2 pg ip (elf_phoff elf) 0) as [?|(r & s3 & E3 & K3 & Hsz)];
    [unfold KERNBASE; lia|by left|]. rewrite E3. cbn [obind]. pose proof (building_kept _ _ _ _ _ _ B2 K3) as B3.
  destruct r as [sz|]; [|by eapply exec_bad].
  set (s4 := end_op _). assert (B4 : building s s4 path elf pg).
  { eapply building_kept; [exact B3|]. eapply kept_shape; [apply kept_refl|]. unfold s4. by rewrite end_op_shape, iunlockput_shape. }
  assert (HR : PGROUNDUP sz = 4096 * ((sz + 4095) / 4096)) by (apply PGROUNDUP_eq; unfold KERNBASE in *; lia).
  set (R := PGROUNDUP sz) in *. pose proof (Z.div_mod (sz + 4095) 4096 ltac:(lia)). pose proof (Z.mod_pos_bound (sz + 4095) 4096 ltac:(lia)).
  assert (Hnew : u32 (R + 2 * PGSIZE) = R + 2 * PGSIZE) by (apply u32_small; unfold is_u32, PGSIZE, KERNBASE in *; lia).
  rewrite Hnew. destruct (allocuvm_cases s s4 pg R (R + 2 * PGSIZE)) as [?|(top & s5 & E5 & K5 & Htop)]; [by left|]. rewrite E5. cbn [obind].
  pose proof (building_kept _ _ _ _ _ _ B4 K5) as B5.
  destruct (Z.eqb_spec top 0) as [_|Hne]; [by eapply exec_bad|]. destruct Htop as [?|[Htop Hk0]]; [done|].
  assert (Etop : top = R + 2 * PGSIZE) by (unfold PGSIZE in *; lia). clear Htop.
  assert (Eg : u32 (top - 2 * PGSIZE) = R) by (rewrite Etop, u32_small; [lia|unfold is_u32, PGSIZE, KERNBASE in *; lia]). rewrite Eg.
  destruct (new_stack (clearpteu s5 pg R) pg top argv) as [r s6] eqn:En.
  destruct (new_stack_ok _ _ _ _ _ _ En Hargs) as [Hsh6 Hst].
  - intros x Hx. apply clearpteu_access; [rewrite HR; unfold PGSIZE; rewrite Z.mul_comm; by apply Z.mod_mul|unfold PGSIZE in *; lia].
  - unfold PGSIZE in *. lia.
  - rewrite clearpteu_shape in Hsh6. assert (B6 : building s s6 path elf pg) by (eapply building_kept; [exact B5|]; by eapply kept_shape; [apply kept_refl|]).
    destruct r as [sp|]; [|by eapply exec_bad]. apply replace_image_ok; try done. unfold PGSIZE in *. lia.
Qed.

Lemma exec_ok s path argv :
  p_pgdir (me s) ∈ spaces s → Forall arg_ok argv → exec_outcome s path argv (exec paging s path argv).
Proof.
  intros Hold Hargs. unfold exec. pose proof (begin_op_shape s) as H1. pose proof (namei_shape (begin_op s) path) as H2.
  destruct (namei (begin_op s) path) as [ip s2] eqn:En. cbn [snd] in H2. rewrite H1 in H2.
  destruct ip as [ip|]; [|apply exec_failed; [done|cbn [snd]; by rewrite end_op_shape]].
  pose proof (ilock_shape s2 ip) as H3. pose proof (readi_shape (ilock s2 ip) ip 0 ELFHDR) as H4.
  destruct (readi (ilock s2 ip) ip 0 ELFHDR) as [elf s4] eqn:Er. cbn [snd] in H4. rewrite H3, H2 in H4.
  assert (Hearly : ∀ s', shape s' = shape s → exec_outcome s path argv (Ret (bad s' 0 (Some ip)))).
  { intros s' E. destruct (bad_early s' ip) as [E1 E2]. apply exec_failed; [done|congruence]. }
  destruct (Z.eqb_spec (Z.of_nat (length elf)) ELFHDR) as [Hlen|]; [|by apply Hearly].
  destruct (Z.eqb_spec (elf_magic elf) ELF_MAGIC) as [Hmag|]; [|by apply Hearly]. cbn [negb].
  pose proof (setupkvm_me s4) as Hm. pose proof (setupkvm_new s4) as Hn. destruct (setupkvm s4) as [pg s5]. cbn [fst snd] in Hm, Hn.
  destruct (shape_inv _ _ H4) as [E1 E2]. rewrite E1 in Hm. rewrite E2 in Hn.
  destruct (Z.eqb_spec pg 0) as [->|Hpg].
  - destruct Hn as [[_ Es]|[? _]]; [|done]. apply Hearly. unfold shape. by rewrite Hm, Es.
  - destruct Hn as [[? _]|(_ & Hni & Es)]; [done|]. apply exec_image_ok; [|done|done]. split; [done| |done|by rewrite Hm].
    exists ip, s2. split; [done|]. by rewrite Er.
Qed.

End proofs.

(** ** The system call *)

Lemma fetchstr_loop_length um k a ep l : fetchstr_loop um k a ep = Some l → (length l < k)%nat.
Proof.
  revert a l. induction k as [|k IH]; intros a l; simpl; [done|]. destruct (Z.ltb a ep); [|done]. destruct (Z.eqb _ 0); [intros [= <-]; simpl; lia|].
  destruct (fetchstr_loop um k (a + 1) ep) as [l'|] eqn:E; [|done]. intros [= <-]. apply IH in E. simpl. lia.
Qed.

Lemma fetch_args_ok k p um a l :
  p_sz p < KERNBASE - 8 → fetch_args k p um a = Some l → (length l < k)%nat ∧ Forall arg_ok l.
Proof.
  intros Hsz. revert a l. induction k as [|k IH]; intros a l; simpl; [done|]. destruct (fetchint p um a) as [u|]; [|done].
  destruct (Z.eqb u 0); [intros [= <-]; simpl; split; [lia|done]|]. destruct (fetchstr p um (u32 u)) as [x|] eqn:Ex; [|done].
  destruct (fetch_args k p um (u32 (a + 4))) as [l'|] eqn:El; [|done]. intros [= <-]. destruct (IH _ _ El) as [Hl Hok]. split; [simpl; lia|].
  constructor; [|done]. unfold arg_ok. unfold fetchstr in Ex. destruct (Z.leb_spec (p_sz p) (u32 u)); [done|].
  apply fetchstr_loop_length in Ex. pose proof (u32_range u) as Hr. unfold is_u32 in Hr. lia.
Qed.

(** The call hands [exec] fewer than [MAXARG] strings that lie in the process, or fails. *)
Lemma sys_exec_ok {K} paging `{ExecOps K, ExecView K, !ExecLaws paging K} (s : K) um :
  p_sz (me s) < KERNBASE - 8 → p_pgdir (me s) ∈ spaces s →
  sys_exec paging s um = Ret (-1, s) ∨
  ∃ path argv, argstr (me s) um 0 = Some path ∧ Z.of_nat (length argv) < MAXARG ∧
    exec_outcome paging s path argv (sys_exec paging s um).
Proof.
  intros Hsz Hold. unfold sys_exec. destruct (argstr (me s) um 0) as [path|]; [|by left]. destruct (argint (me s) um 1) as [u|]; [|by left].
  destruct (fetch_args _ _ _ _) as [argv|] eqn:E; [|by left]. destruct (fetch_args_ok _ _ _ _ _ Hsz E) as [Hl Hok]. right. exists path, argv.
  split_and!; [done|unfold MAXARG in *; lia|]. by apply exec_ok.
Qed.

(** ** A kernel *)

(** One file and address spaces without page tables: bytes, and the pages without
    access. *)
Record toy := mkToy { y_me : proc; y_file : list Z; y_spaces : list Z; y_mem : Z → Z → Z; y_guard : list (Z * Z) }.

Definition y_open (s : toy) (pg x : Z) : bool :=
  Z.leb 0 x && Z.ltb x KERNBASE && forallb (λ g, negb (Z.eqb g.1 pg && Z.leb g.2 x && Z.ltb x (g.2 + PGSIZE))) (y_guard s).
Definition y_fresh (l : list Z) : Z := 1 + foldr Z.max 0 l.
Fixpoint y_drop (pg : Z) (l : list Z) : list Z :=
  match l with [] => [] | x :: l => if Z.eqb x pg then l else x :: y_drop pg l end.
Definition y_write (m : Z → Z → Z) (pg va : Z) (l : list Z) : Z → Z → Z := λ pg' x,
  if Z.eqb pg' pg && Z.leb va x && Z.ltb x (va + Z.of_nat (length l)) then nth (Z.to_nat (x - va)) l 0 else m pg' x.

#[global] Instance toy_ops : ExecOps toy := {
  me := y_me;
  set_me p s := mkToy p (y_file s) (y_spaces s) (y_mem s) (y_guard s);
  begin_op s := s;
  end_op s := s;
  namei s _ := (Some 1, s);
  ilock s _ := s;
  iunlockput s _ := s;
  readi s _ off n := (take (Z.to_nat n) (drop (Z.to_nat off) (y_file s)), s);
  setupkvm s := (y_fresh (y_spaces s), mkToy (y_me s) (y_file s) (y_fresh (y_spaces s) :: y_spaces s) (y_mem s) (y_guard s));
  createSwapFile s := Ret (0, mkToy (with_swapFile (Some 5%nat) (y_me s)) (y_file s) (y_spaces s) (y_mem s) (y_guard s));
  allocuvm s _ old new := Ret (if Z.ltb new KERNBASE then (Z.max old new, s) else (0, s));
  loaduvm s _ _ _ _ _ := (0, s);
  clearpteu s pg va := mkToy (y_me s) (y_file s) (y_spaces s) (y_mem s) ((pg, va) :: y_guard s);
  copyout s pg va l :=
    if forallb (λ i, y_open s pg (va + Z.of_nat i)) (seq 0 (length l))
    then (0, mkToy (y_me s) (y_file s) (y_spaces s) (y_write (y_mem s) pg va l) (y_guard s)) else (-1, s);
  switchuvm s := s;
  freevm s pg := mkToy (y_me s) (y_file s) (y_drop pg (y_spaces s)) (y_mem s) (y_guard s) }.

#[global] Instance toy_view : ExecView toy := { spaces := y_spaces; umem := y_mem; access s pg x := y_open s pg x = true }.

Lemma y_fresh_new l x : x ∈ l → x < y_fresh l.
Proof.
  unfold y_fresh. induction l as [|y l IH]; [by intros ?%elem_of_nil|]. intros [->|Hx%IH]%elem_of_cons; simpl; lia.
Qed.
Lemma y_fresh_pos l : 0 < y_fresh l.
Proof. unfold y_fresh. induction l; simpl; lia. Qed.
Lemma y_drop_perm pg l : pg ∈ l → l ≡ₚ pg :: y_drop pg l.
Proof.
  induction l as [|x l IH]; [by intros ?%elem_of_nil|]. simpl. destruct (Z.eqb_spec x pg) as [->|Hne]; [done|].
  intros [->|Hx]%elem_of_cons; [done|]. etransitivity; [apply perm_skip, (IH Hx)|apply perm_swap].
Qed.

Lemma y_copyout s pg va l :
  let '(r, s') := copyout s pg va l in
  shape s' = shape s ∧ y_guard s' = y_guard s ∧ (∀ x, ¬ va ≤ x < va + Z.of_nat (length l) → y_mem s' pg x = y_mem s pg x) ∧
  (0 ≤ r → ∀ i, 0 ≤ i < Z.of_nat (length l) → y_open s pg (va + i) = true ∧ Some (y_mem s' pg (va + i)) = l !! Z.to_nat i).
Proof.
  simpl. destruct (forallb _ _) eqn:E; [|split_and!; [done|done|done|lia]]. split_and!; [done|done| |].
  - intros x Hx. simpl. unfold y_write. rewrite Z.eqb_refl. destruct (Z.leb_spec va x), (Z.ltb_spec x (va + Z.of_nat (length l))); simpl; try done. lia.
  - intros _ i Hi. split.
    + pose proof (proj1 (forallb_forall _ _) E (Z.to_nat i)) as Ho. cbv beta in Ho. rewrite Z2Nat.id in Ho by lia. apply Ho, in_seq. lia.
    + simpl. unfold y_write. rewrite Z.eqb_refl, (proj2 (Z.leb_le _ _)), (proj2 (Z.ltb_lt _ _)) by lia. simpl.
      replace (va + i - va) with i by lia. destruct (lookup_lt_is_Some_2 l (Z.to_nat i) ltac:(lia)) as [y Hy]. by rewrite Hy, (nth_lookup_Some _ _ _ _ Hy).
Qed.

#[global] Instance toy_laws paging : ExecLaws paging toy.
Proof.
  split; try done.
  - intros s. right. pose proof (y_fresh_pos (y_spaces s)). simpl. split_and!; [lia| |done]. intros Hin%y_fresh_new. lia.
  - by intros s r s' [= <- <-].
  - intros s pg old new r s'. simpl. by destruct (Z.ltb new KERNBASE); intros [= <- <-].
  - intros s pg old new r s'. simpl. destruct (Z.ltb_spec new KERNBASE); intros [= <- <-]; [by right|by left].
  - intros s pg old new _. by eexists.
  - intros s pg va x _ Hx. simpl. unfold y_open. simpl. rewrite Z.eqb_refl, (proj2 (Z.leb_le va x)), (proj2 (Z.ltb_lt x (va + PGSIZE))) by lia.
    simpl. rewrite andb_false_r. done.
  - intros s pg x. simpl. unfold y_open. rewrite !andb_true_iff, Z.leb_le, Z.ltb_lt. tauto.
  - intros s pg va l. pose proof (y_copyout s pg va l) as Hc. destruct (copyout s pg va l). tauto.
  - intros s pg va l x. pose proof (y_copyout s pg va l) as Hc. destruct (copyout s pg va l) as [r s']. simpl. unfold y_open.
    destruct Hc as (_ & -> & _). done.
  - intros s pg va l. pose proof (y_copyout s pg va l) as Hc. destruct (copyout s pg va l) as [r s']. simpl. tauto.
  - intros s pg va l x. pose proof (y_copyout s pg va l) as Hc. destruct (copyout s pg va l) as [r s']. destruct Hc as (_ & _ & Hf & _). apply Hf.
  - intros s pg Hin. by apply y_drop_perm.
Qed.

(** A file with its entry at 32 and no program headers, run with two arguments by a
    process with a page in its swap file. *)
Definition wit_elf : list Z := [127; 69; 76; 70] ++ replicate 20 0 ++ [32; 0; 0; 0] ++ replicate 24 0.
Definition wit_meta : p_meta := set_pages reset_paging_meta (<[0%nat := mkPage 1 0x3000 1 0 0 0]> (pages reset_paging_meta)).
Definition wit_toy : toy :=
  mkToy (with_mem 0 7 (with_kstack 1 (with_pid 3 (with_meta wit_meta (with_swapFile (Some 2%nat) no_proc))))) wit_elf [7] (λ _ _, 0) [].


(** When exec fails after the header, the process goes on with its old address space, but the
    record of its page in the swap file is gone. *)
Lemma failed_exec_forgets_pages :
  match exec true wit_toy [108; 115] (replicate 33 [47]) with
  | Ret (r, s) => r = -1 ∧ p_pgdir (me s) = 7 ∧ paging_meta (me s) = reset_paging_meta ∧ swapFile (me s) = Some 5%nat
  | _ => False
  end.
Proof. vm_compute. repeat split. Qed.
