(* ===== verification/ShRun.v ===== *)
(** * Running commands (runcmd, getcmd and main of sh.c)

    The shell runs a parsed command as a tree of processes: each process is the
    list of what it does, with its children in it.  The theorem shows how the
    descriptors are plumbed: every program starts with exactly the three files
    its place in the command gives it, and a process that waits for others holds
    no end of their pipe. *)
From stdpp Require Import base list strings.
From Stdlib Require Import ZArith Lia.
From S2P Require Import Prelude Proc Fs Sysfile Ulib Sh.

(** ** Descriptors *)

(** What a descriptor stands for: a file opened by name, an end of a pipe, or a file
    that was open before. *)
Inductive obj := File (path : list Z) (mode : Z) | RPipe (n : nat) | WPipe (n : nat) | Other (n : nat).

Abbreviation fdtable := (list (option obj)) (only parsing).

Fixpoint lowest (t : fdtable) : option nat :=
  match t with
  | [] => None
  | None :: _ => Some O
  | Some _ :: t => S <$> lowest t
  end.

(** [close] of a descriptor that is not open has no effect. *)
Definition fd_close (t : fdtable) (fd : nat) : fdtable := <[fd := None]> t.
Definition fd_install (t : fdtable) (f : obj) : option (nat * fdtable) :=
  match lowest t with Some fd => Some (fd, <[fd := Some f]> t) | None => None end.
(** A failed [dup] leaves the table. *)
Definition fd_dup (t : fdtable) (fd : nat) : fdtable :=
  match t !! fd with
  | Some (Some f) => match fd_install t f with Some (_, t') => t' | None => t end
  | _ => t
  end.
Definition fd_pipe (t : fdtable) (n : nat) : option (nat * nat * fdtable) :=
  match fd_install t (RPipe n) with
  | Some (r, t1) => match fd_install t1 (WPipe n) with Some (w, t2) => Some (r, w, t2) | None => None end
  | None => None
  end.

(** ** runcmd *)

(** What a process does: become a program, write a message, start a child, wait for
    one, exit; with the descriptors it holds as it does. *)
Inductive act :=
  | AExec (argv : list (list Z)) (t : fdtable)
  | AMessage (what : string) (t : fdtable)
  | AFork (child : list act)
  | AWait (t : fdtable)
  | AExit.

Section runcmd.
  (** Whether a program can be executed, a file opened, and a process or a pipe made at
      a given point of the run: each call is a point of its own, so that a file or a
      program may come and go while the line runs. *)
  Context (can_exec : nat → list Z → bool) (can_open : nat → list Z → Z → bool) (can_fork : nat → bool) (can_pipe : nat → bool).

(** [fork1] at point [n]: the actions of the parent go on with [rest]. *)
Definition fork1 (n : nat) (t : fdtable) (child rest : list act) : list act :=
  if can_fork n then AFork child :: rest else [AMessage "fork" t; AExit].

(** The actions of the process, and the next point. *)
Fixpoint runcmd (c : tcmd) (t : fdtable) (n : nat) : list act * nat :=
  match c with
  | TExec argv =>
      match argv with
      | [] => ([AExit], n)
      | a :: _ => if can_exec n a then ([AExec argv t], S n) else ([AMessage "exec failed" t; AExit], S n)
      end
  | TRedir c f mode fd =>
      let t1 := fd_close t (Z.to_nat fd) in
      match (if can_open n f mode then fd_install t1 (File f mode) else None) with
      | None => ([AMessage "open failed" t1; AExit], S n)
      | Some (_, t2) => runcmd c t2 (S n)
      end
  | TList l r =>
      let '(al, n1) := runcmd l t (S n) in
      let '(ar, n2) := runcmd r t n1 in
      (fork1 n t al (AWait t :: ar), n2)
  | TPipe l r =>
      match (if can_pipe n then fd_pipe t n else None) with
      | None => ([AMessage "pipe" t; AExit], S n)
      | Some (p0, p1, t1) =>
          let '(al, n1) := runcmd l (fd_close (fd_close (fd_dup (fd_close t1 1) p1) p0) p1) (S n) in
          let '(ar, n2) := runcmd r (fd_close (fd_close (fd_dup (fd_close t1 0) p0) p0) p1) (S n1) in
          let t2 := fd_close (fd_close t1 p0) p1 in
          (fork1 n t1 al (fork1 n1 t1 ar [AWait t2; AWait t2; AExit]), n2)
      end
  | TBack c =>
      let '(a, n1) := runcmd c t (S n) in
      (fork1 n t a [AExit], n1)
  end.
End runcmd.

(** ** The shell *)

Definition CONSOLE : list Z := [99; 111; 110; 115; 111; 108; 101].

(** The loop that opens the console until three descriptors are in use. *)
Fixpoint ensure_fds (k : nat) (t : fdtable) : fdtable :=
  match k with
  | O => t
  | S k =>
      match fd_install t (File CONSOLE O_RDWR) with
      | None => t
      | Some (fd, t1) => if Nat.leb 3 fd then fd_close t1 fd else ensure_fds k t1
      end
  end.

(** What the shell does with a line. *)
Inductive shact := Chdir (dir : list Z) | Run (line : list Z).

Definition SHBUF : nat := 100.

(** [getcmd] and the loop of [main] on the input: [gets] takes a line of fewer than
    [SHBUF] bytes; a line with no bytes is the end of the input. *)
Fixpoint sh_loop (k : nat) (input : list Z) : list shact :=
  match k with
  | O => []
  | S k =>
      let line := line_of (SHBUF - 1) input in
      let rest := drop (length line) input in
      match cstring line with
      | [] => []
      | buf =>
          if bool_decide (take 3 buf = [99; 100; 32]) then Chdir (drop 3 (removelast buf)) :: sh_loop k rest
          else Run buf :: sh_loop k rest
      end
  end.

(** ** Plumbing *)

(** What a tree of processes comes to: the programs it becomes and the processes that
    wait, each with the descriptors it then holds. *)
Inductive role := Runs (argv : list (list Z)) | Waits.

Fixpoint roles (a : act) : list (role * fdtable) :=
  match a with
  | AExec argv t => [(Runs argv, t)]
  | AWait t => [(Waits, t)]
  | AFork child => flat_map roles child
  | _ => []
  end.

(** Three open descriptors and no other. *)
Definition std (i o e : obj) : fdtable := [Some i; Some o; Some e] ++ replicate (NOFILE - 3) None.

(** A command says which programs run and which processes wait for others, and with
    which standard files; [n] numbers the calls, and so the pipes. *)
Section plumbing.
  Context (can_exec : nat → list Z → bool) (can_open : nat → list Z → Z → bool).

Fixpoint plumb (c : tcmd) (i o e : obj) (n : nat) : list (role * (obj * obj * obj)) * nat :=
  match c with
  | TExec argv => match argv with a :: _ => (if can_exec n a then [(Runs argv, (i, o, e))] else [], S n) | [] => ([], n) end
  | TRedir c f mode fd =>
      if can_open n f mode then
        if Z.eqb fd 0 then plumb c (File f mode) o e (S n) else plumb c i (File f mode) e (S n)
      else ([], S n)
  | TList l r =>
      let '(pl, n1) := plumb l i o e (S n) in let '(pr, n2) := plumb r i o e n1 in
      (pl ++ (Waits, (i, o, e)) :: pr, n2)
  | TPipe l r =>
      let '(pl, n1) := plumb l i (WPipe n) e (S n) in let '(pr, n2) := plumb r (RPipe n) o e (S n1) in
      (pl ++ pr ++ [(Waits, (i, o, e)); (Waits, (i, o, e))], n2)
  | TBack c => plumb c i o e (S n)
  end.

(** Redirections are of the standard input or output. *)
Fixpoint redirs_ok (c : tcmd) : Prop :=
  match c with
  | TExec _ => True
  | TRedir c _ _ fd => (fd = 0 ∨ fd = 1) ∧ redirs_ok c
  | TList l r | TPipe l r => redirs_ok l ∧ redirs_ok r
  | TBack c => redirs_ok c
  end.

Definition placed (p : role * (obj * obj * obj)) : role * fdtable := (p.1, std p.2.1.1 p.2.1.2 p.2.2).

Lemma runcmd_plumb can_fork can_pipe c : ∀ i o e n,
  (∀ n, can_fork n = true) → (∀ n, can_pipe n = true) → redirs_ok c →
  let '(acts, n') := runcmd can_exec can_open can_fork can_pipe c (std i o e) n in
  flat_map roles acts = placed <$> (plumb c i o e n).1 ∧ n' = (plumb c i o e n).2.
Proof.
  intros i o e n Hf Hp. revert i o e n. induction c as [argv|c IH f mode fd|l IHl r IHr|l IHl r IHr|c IH]; intros i o e n Hok; cbn [runcmd plumb redirs_ok] in *.
  - destruct argv as [|a argv]; [done|]. by destruct (can_exec n a).
  - destruct Hok as [Hfd Hok]. destruct (can_open n f mode); [|done]. destruct Hfd as [-> | ->]; simpl; by apply IH.
  - rewrite Hp. destruct Hok as [Hl Hr].
    change (fd_pipe (std i o e) n) with (Some (3%nat, 4%nat, <[4%nat := Some (WPipe n)]> (<[3%nat := Some (RPipe n)]> (std i o e)))). cbv iota beta.
    set (t1 := <[4%nat := _]> _).
    change (fd_close (fd_close (fd_dup (fd_close t1 1) 4) 3) 4) with (std i (WPipe n) e).
    change (fd_close (fd_close (fd_dup (fd_close t1 0) 3) 3) 4) with (std (RPipe n) o e).
    specialize (IHl i (WPipe n) e (S n) Hl). destruct (runcmd _ _ _ _ l _ _) as [al n1]. destruct IHl as [El ->].
    destruct (plumb l i (WPipe n) e (S n)) as [pl n1]. cbn [fst snd] in *.
    specialize (IHr (RPipe n) o e (S n1) Hr). destruct (runcmd _ _ _ _ r _ _) as [ar n2]. destruct IHr as [Er ->].
    destruct (plumb r (RPipe n) o e (S n1)) as [pr n2]. cbn [fst snd] in *.
    unfold fork1. rewrite !Hf. cbn [flat_map roles]. rewrite El, Er, !fmap_app. done.
  - destruct Hok as [Hl Hr]. specialize (IHl i o e (S n) Hl). destruct (runcmd _ _ _ _ l _ _) as [al n1]. destruct IHl as [El ->].
    destruct (plumb l i o e (S n)) as [pl n1]. cbn [fst snd] in *.
    specialize (IHr i o e n1 Hr). destruct (runcmd _ _ _ _ r _ _) as [ar n2]. destruct IHr as [Er ->].
    destruct (plumb r i o e n1) as [pr n2]. cbn [fst snd] in *.
    unfold fork1. rewrite Hf. cbn [flat_map roles]. rewrite El, Er, fmap_app. done.
  - specialize (IH i o e (S n) Hok). destruct (runcmd _ _ _ _ c _ _) as [a n1]. destruct IH as [E ->].
    unfold fork1. rewrite Hf. cbn [flat_map roles]. by rewrite E, app_nil_r.
Qed.
End plumbing.

Lemma redirs_ok_iter n c : redirs_ok c → redirs_ok (Nat.iter n TBack c).
Proof. intros H. by induction n. Qed.

Lemma redirs_ok_foldl rs c : redirs_ok c → redirs_ok (foldl t_redir c rs).
Proof.
  revert c. induction rs as [|[k f] rs IH]; intros c Hc; [done|]. simpl. apply IH. unfold t_redir. destruct k; simpl; (split; [|done]); [by left|by right|by right].
Qed.

(** The parser only redirects the standard input and output. *)
Lemma redirs_ok_line : (∀ l, redirs_ok (t_line l)) ∧ (∀ p, redirs_ok (t_pipe p)) ∧ (∀ e, redirs_ok (t_elem e)).
Proof.
  apply syntax_ind; intros; cbn [t_line t_pipe t_elem redirs_ok].
  - by apply redirs_ok_iter.
  - split; [by apply redirs_ok_iter|done].
  - done.
  - done.
  - by apply redirs_ok_foldl.
  - by apply redirs_ok_foldl.
Qed.

(** C25: the shell runs what is written.  A command line written from the grammar is
    parsed and run as a tree of processes, as long as processes and pipes can be made.
    The programs executed in it are those of the line whose files can be opened, each
    with its arguments and with exactly three open descriptors: the files its
    redirections and pipes name, or those of the shell.  A process that waits for its
    children holds its own three descriptors and no other, so neither end of a pipe is
    left open in a process that does not use it. *)
Theorem shell_line_plumbing can_exec can_open can_fork can_pipe l i o e n :
  ok_line l → (∀ n, can_fork n = true) → (∀ n, can_pipe n = true) →
  ∃ c m acts n', parsecmd (pr_line l) = Ret (c, m) ∧
    runcmd can_exec can_open can_fork can_pipe (resolve (read_str (length (pr_line l)) m) c) (std i o e) n = (acts, n') ∧
    flat_map roles acts = placed <$> (plumb can_exec can_open (t_line l) i o e n).1.
Proof.
  intros Hok Hf Hp. destruct (parsecmd_written l Hok) as (c & m & Hc & Hr). exists c, m.
  pose proof (runcmd_plumb can_exec can_open can_fork can_pipe (t_line l) i o e n Hf Hp (proj1 redirs_ok_line l)) as H.
  rewrite Hr. destruct (runcmd _ _ _ _ (t_line l) _ _) as [acts n']. exists acts, n'. by destruct H as [H _].
Qed.

(** cat < in | ( wc ; ls ) > out & *)
Lemma shell_line_plumbing_witness :
  ∃ c m acts n', parsecmd (pr_line sample_syntax) = Ret (c, m) ∧
    runcmd (λ _ _, true) (λ _ _ _, true) (λ _, true) (λ _, true) (resolve (read_str (length (pr_line sample_syntax)) m) c)
      (std (Other 0) (Other 1) (Other 2)) 0 = (acts, n') ∧
    flat_map roles acts =
      [(Runs [[99; 97; 116]], std (File [105; 110] 0) (WPipe 1) (Other 2));
       (Runs [[119; 99]], std (RPipe 1) (File [111; 117; 116] 513) (Other 2));
       (Waits, std (RPipe 1) (File [111; 117; 116] 513) (Other 2));
       (Runs [[108; 115]], std (RPipe 1) (File [111; 117; 116] 513) (Other 2));
       (Waits, std (Other 0) (Other 1) (Other 2));
       (Waits, std (Other 0) (Other 1) (Other 2))].
Proof.
  apply (shell_line_plumbing (λ _ _, true) (λ _ _ _, true) (λ _, true) (λ _, true) sample_syntax (Other 0) (Other 1) (Other 2) 0).
  - simpl. repeat match goal with
    | |- _ ∧ _ => split
    | |- Forall _ _ => constructor
    | |- is_word _ => unfold is_word
    end; simpl; unfold MAXARGS, is_word; try lia; try discriminate; try reflexivity; repeat constructor; discriminate.
  - done.
  - done.
Defined.

Lemma lowest_free t fd : lowest t = Some fd → t !! fd = Some None ∧ ∀ j, (j < fd)%nat → ∃ f, t !! j = Some (Some f).
Proof.
  revert fd. induction t as [|[f|] t IH]; intros fd; simpl; [done| |].
  - destruct (lowest t) as [k|]; [|done]. intros [= <-]. destruct (IH k eq_refl) as [H1 H2]. split; [done|].
    intros [|j] Hj; simpl; [by exists f|]. apply H2. lia.
  - intros [= <-]. split; [done|]. intros j Hj. lia.
Qed.

Lemma lowest_full t : lowest t = None → ∀ fd, (fd < length t)%nat → ∃ f, t !! fd = Some (Some f).
Proof.
  induction t as [|[f|] t IH]; simpl; [lia| |done]. intros H fd Hfd. destruct (lowest t); [done|].
  destruct fd as [|fd]; simpl; [by exists f|]. apply IH; [done|lia].
Qed.

(** The shell keeps the descriptors it has, and goes on with the first three open. *)
Lemma ensure_fds_ok k t :
  (3 ≤ length t)%nat → (∀ j, (j < 4 - k)%nat → ∃ f, t !! j = Some (Some f)) → (1 ≤ k)%nat →
  (∀ fd, (fd < 3)%nat → ∃ f, ensure_fds k t !! fd = Some (Some f)) ∧
  (∀ fd f, t !! fd = Some (Some f) → ensure_fds k t !! fd = Some (Some f)).
Proof.
  revert t. induction k as [|k IH]; intros t Hlen Hopen Hk; [lia|]. cbn [ensure_fds]. unfold fd_install.
  destruct (lowest t) as [fd|] eqn:E; [|split; [intros fd Hfd; apply lowest_full; [done|lia]|done]].
  destruct (lowest_free t fd E) as [Hn Hlow]. pose proof (lookup_lt_Some _ _ _ Hn) as Hlt.
  assert (Hkeep : ∀ j f x, t !! j = Some (Some f) → <[fd := x]> t !! j = Some (Some f)).
  { intros j f x Hj. rewrite list_lookup_insert_ne; [done|]. intros ->. congruence. }
  destruct (Nat.leb_spec 3 fd) as [H3|H3].
  - unfold fd_close. rewrite list_insert_insert_eq. split; [|intros j f; apply Hkeep].
    intros j Hj. destruct (Hlow j ltac:(lia)) as [f Hf]. exists f. by apply Hkeep.
  - destruct k as [|k]; [destruct (Hopen fd ltac:(lia)) as [f Hf]; congruence|].
    assert (Hfd : (4 - S (S k) ≤ fd)%nat).
    { destruct (decide (4 - S (S k) ≤ fd)%nat); [done|]. destruct (Hopen fd ltac:(lia)) as [f Hf]. congruence. }
    destruct (IH (<[fd := Some (File CONSOLE O_RDWR)]> t)) as [I1 I2]; [by rewrite length_insert| |lia|].
    + intros j Hj. destruct (decide (j = fd)) as [->|Hne]; [eexists; by apply list_lookup_insert_eq|].
      rewrite list_lookup_insert_ne by done. apply Hlow. lia.
    + split; [done|]. intros j f Hj. by apply I2, Hkeep.
Qed.
