(* ===== verification/Mkfs.v ===== *)
(** * Mkfs (mkfs.c): the image of a new file system

    The tool that makes the disk image: sectors of the image file, inodes and
    blocks taken in order, files appended block by block and the bitmap written
    last.  An [exit(1)] and an [assert] that fails end the run, which is [Panic]
    with the message.  The theorem states the image as the kernel sees it: its
    super block, its bitmap, its inodes and the bytes of its files. *)
From stdpp Require Import base list list_numbers strings.
From Stdlib Require Import ZArith Lia FunctionalExtensionality.
From S2P Require Import Ide.
From S2P Require Import Prelude Bio Log Fs FileData.

Definition NINODES : Z := 200.

(** ** The image file *)

(** [nsect] sectors were written; [sect] gives the bytes of each. *)
Record img := mkImg { sect : Z → list Z; nsect : Z; freeinode : Z; freeblock : Z }.

Definition nbitmap : Z := FSSIZE / (BSIZE * 8) + 1.
Definition ninodeblocks : Z := NINODES / IPB + 1.
Definition nlog : Z := LOGSIZE.
Definition nmeta : Z := 2 + nlog + ninodeblocks + nbitmap.
Definition nblocks : Z := FSSIZE - nmeta.

(** [sb] as [main] fills it. *)
Definition msb : superblock :=
  mkSb FSSIZE nblocks NINODES nlog 2 (2 + nlog) (2 + nlog + ninodeblocks).

(** The bytes in memory of what [xshort] and [xint] return. *)
Definition xshort (x : Z) : list Z := [u8 x; u8 (x / 2 ^ 8)].
Definition xint (x : Z) : list Z := [u8 x; u8 (x / 2 ^ 8); u8 (x / 2 ^ 16); u8 (x / 2 ^ 24)].

(** The sector at the file offset [sec * BSIZE], a [uint]. *)
Definition sector (sec : Z) : Z := u32 (sec * BSIZE) / BSIZE.

Definition wsect (s : img) (sec : Z) (buf : list Z) : img :=
  mkImg (upd (sect s) (sector sec) buf) (Z.max (nsect s) (sector sec + 1)) (freeinode s) (freeblock s).

Definition rsect (s : img) (sec : Z) : outcome (list Z) :=
  if Z.ltb (sector sec) (nsect s) then Ret (sect s (sector sec)) else Panic "read".

(** ** Inodes *)

Record dinode := mkDin { d_type : Z; d_major : Z; d_minor : Z; d_nlink : Z; d_size : Z; d_addrs : list Z }.

Definition load_dinode (d : list Z) (o : Z) : dinode :=
  mkDin (s16 (get16 d o)) (s16 (get16 d (o + 2))) (s16 (get16 d (o + 4))) (s16 (get16 d (o + 6)))
    (get32 d (o + 8)) (read_addrs d o).
Definition store_dinode (d : list Z) (o : Z) (v : dinode) : list Z :=
  let d := put16 d o (d_type v) in
  let d := put16 d (o + 2) (d_major v) in
  let d := put16 d (o + 4) (d_minor v) in
  let d := put16 d (o + 6) (d_nlink v) in
  let d := put32 d (o + 8) (d_size v) in
  write_addrs d (o + 12) (d_addrs v).

Definition winode (s : img) (inum : Z) (ip : dinode) : outcome img :=
  let bn := IBLOCK inum msb in
  let! buf := rsect s bn in
  Ret (wsect s bn (store_dinode buf (dinode_off inum) ip)).

Definition rinode (s : img) (inum : Z) : outcome dinode :=
  let bn := IBLOCK inum msb in
  let! buf := rsect s bn in
  Ret (load_dinode buf (dinode_off inum)).

Definition ialloc (s : img) (type : Z) : outcome (Z * img) :=
  let inum := freeinode s in
  let s1 := mkImg (sect s) (nsect s) (u32 (freeinode s + 1)) (freeblock s) in
  let! s2 := winode s1 inum (mkDin type 0 0 1 0 (replicate 13 0)) in
  Ret (inum, s2).

(** [freeblock++]. *)
Definition next_block (s : img) : img := mkImg (sect s) (nsect s) (freeinode s) (u32 (freeblock s + 1)).

Definition balloc (s : img) (used : Z) : outcome img :=
  if Z.ltb used (BSIZE * 8) then
    Ret (wsect s (sb_bmapstart msb) (foldl set_bit zeros (seqZ 0 used)))
  else Panic "used < BSIZE*8".

(** ** Appending to a file *)

(** [x], the sector of block [fbn] of the file with the addresses [a]. *)
Definition block_for (s : img) (a : list Z) (fbn : Z) : outcome (Z * list Z * img) :=
  if Z.ltb fbn NDIRECT then
    let '(a, s) :=
      if Z.eqb (nth (Z.to_nat fbn) a 0) 0 then (<[Z.to_nat fbn := freeblock s]> a, next_block s) else (a, s) in
    Ret (nth (Z.to_nat fbn) a 0, a, s)
  else
    let '(a, s) := if Z.eqb (indirect a) 0 then (<[12%nat := freeblock s]> a, next_block s) else (a, s) in
    let! blk := rsect s (indirect a) in
    let e := 4 * (fbn - NDIRECT) in
    if Z.eqb (get32 blk e) 0 then
      let blk := put32 blk e (freeblock s) in
      Ret (get32 blk e, a, wsect (next_block s) (indirect a) blk)
    else Ret (get32 blk e, a, s).

(** The body of the loop, before [rest] of the turns. *)
Definition iappend_turn (rest : img → list Z → Z → list Z → outcome (list Z * Z * img))
    (s : img) (a : list Z) (off : Z) (p : list Z) : outcome (list Z * Z * img) :=
  let fbn := off / BSIZE in
  if Z.ltb fbn MAXFILE then
    let! (x, a, s) := block_for s a fbn in
    let n1 := Z.min (Z.of_nat (length p)) ((fbn + 1) * BSIZE - off) in
    let! buf := rsect s x in
    let s := wsect s x (splice buf (off - fbn * BSIZE) (take (Z.to_nat n1) p)) in
    rest s a (u32 (off + n1)) (drop (Z.to_nat n1) p)
  else Panic "fbn < MAXFILE".

(** The loop, with the bytes still to append. *)
Fixpoint iappend_loop (fuel : nat) (s : img) (a : list Z) (off : Z) (p : list Z) : outcome (list Z * Z * img) :=
  match p, fuel with
  | [], _ => Ret (a, off, s)
  | _ :: _, O => NoFuel
  | _ :: _, S fuel => iappend_turn (iappend_loop fuel) s a off p
  end.

Definition iappend (s : img) (inum : Z) (p : list Z) : outcome img :=
  let! din := rinode s inum in
  let! (a, off, s1) := iappend_loop (length p) s (d_addrs din) (d_size din) p in
  winode s1 inum (mkDin (d_type din) (d_major din) (d_minor din) (d_nlink din) off a).

(** ** The program *)

Definition dirent (inum : Z) (name : list Z) : list Z := xshort inum ++ name_strncpy (Z.to_nat DIRSIZ) name.

(** The leading underscore of the names of programs. *)
Definition skip_underscore (name : list Z) : list Z :=
  match name with c :: t => if Z.eqb c 95 then t else name | [] => [] end.

Fixpoint append_all (s : img) (inum : Z) (chunks : list (list Z)) : outcome img :=
  match chunks with
  | [] => Ret s
  | c :: chunks => let! s1 := iappend s inum c in append_all s1 inum chunks
  end.

Section host.
  (** The files of the host: the image can be created, and what the calls of
      [read] on a file give until one gives nothing. *)
  Context (creates : list Z → bool) (host_file : list Z → option (list (list Z))).

Definition add_file (s : img) (name : list Z) : outcome img :=
  if existsb (Z.eqb 47) name then Panic "index(argv[i], '/') == 0"
  else
    match host_file name with
    | None => Panic "open"
    | Some chunks =>
        let! (inum, s1) := ialloc s T_FILE in
        let! s2 := iappend s1 ROOTINO (dirent inum (skip_underscore name)) in
        append_all s2 inum chunks
    end.

Fixpoint add_files (s : img) (names : list (list Z)) : outcome img :=
  match names with
  | [] => Ret s
  | f :: names => let! s1 := add_file s f in add_files s1 names
  end.

(** [fs.img] truncated, then zeroed. *)
Definition zeroed : img := foldl (λ s i, wsect s i zeros) (mkImg (λ _, zeros) 0 1 nmeta) (seqZ 0 FSSIZE).

Definition sb_bytes : list Z :=
  xint (sb_size msb) ++ xint (sb_nblocks msb) ++ xint (sb_ninodes msb) ++ xint (sb_nlog msb) ++
  xint (sb_logstart msb) ++ xint (sb_inodestart msb) ++ xint (sb_bmapstart msb).

(** The end of [main]: the size of the root directory and the bitmap. *)
Definition finish (s : img) (rootino : Z) : outcome img :=
  let! din := rinode s rootino in
  let off := u32 ((d_size din / BSIZE + 1) * BSIZE) in
  let! s := winode s rootino (mkDin (d_type din) (d_major din) (d_minor din) (d_nlink din) off (d_addrs din)) in
  balloc s (freeblock s).

(** From the zeroing of the image on. *)
Definition mkfs (names : list (list Z)) : outcome img :=
  let s := wsect zeroed 1 (splice zeros 0 sb_bytes) in
  let! (rootino, s) := ialloc s T_DIR in
  if negb (Z.eqb rootino ROOTINO) then Panic "rootino == ROOTINO"
  else
    let! s := iappend s rootino (dirent rootino [46]) in
    let! s := iappend s rootino (dirent rootino [46; 46]) in
    let! s := add_files s names in
    finish s rootino.

Definition main (argv : list (list Z)) : outcome img :=
  match argv with
  | _ :: image :: names => if creates image then mkfs names else Panic "open"
  | _ => Panic "Usage: mkfs fs.img files..."
  end.
End host.

Lemma nmeta_eq : nmeta = 59.
Proof. done. Qed.
Lemma FSSIZE_eq : FSSIZE = 1000.
Proof. done. Qed.

(** ** Sectors *)

Lemma sector_small b : 0 ≤ b < FSSIZE → sector b = b.
Proof.
  intros Hb. unfold sector. rewrite u32_small by (unfold is_u32, FSSIZE, BSIZE in *; lia). by apply Z.div_mul.
Qed.

Lemma rsect_ok s b : nsect s = FSSIZE → 0 ≤ b < FSSIZE → rsect s b = Ret (sect s b).
Proof. intros Hn Hb. unfold rsect. rewrite sector_small, Hn by done. by rewrite (proj2 (Z.ltb_lt _ _)) by lia. Qed.

Lemma wsect_ok s b d :
  nsect s = FSSIZE → 0 ≤ b < FSSIZE → wsect s b d = mkImg (upd (sect s) b d) FSSIZE (freeinode s) (freeblock s).
Proof. intros Hn Hb. unfold wsect. rewrite sector_small, Hn by done. by rewrite Z.max_l by lia. Qed.

Lemma seqZ_snoc n : seqZ 0 (Z.of_nat (S n)) = seqZ 0 (Z.of_nat n) ++ [Z.of_nat n].
Proof. by rewrite Nat2Z.inj_succ, <- Z.add_1_r, seqZ_app, Z.add_0_l by lia. Qed.

Lemma zeroed_eq : zeroed = mkImg (λ _, zeros) FSSIZE 1 nmeta.
Proof.
  unfold zeroed. change FSSIZE with (Z.of_nat 1000) at 1. change FSSIZE with (Z.max 0 (Z.of_nat 1000)).
  assert (Hk : (Z.of_nat 1000 ≤ FSSIZE)) by done. revert Hk. generalize 1000%nat. intros n. induction n as [|n IH]; intros Hn; [done|].
  rewrite seqZ_snoc, foldl_app, IH by lia. cbn [foldl]. unfold wsect. cbn [sect nsect freeinode freeblock].
  rewrite sector_small by lia. f_equal; [|lia]. extensionality b. unfold upd. by case_decide.
Qed.

(** ** Words of an inode *)

Lemma get16_put16_eq d o v : 0 ≤ o → o + 2 ≤ Z.of_nat (length d) → 0 ≤ v < 2 ^ 16 → get16 (put16 d o v) o = v.
Proof.
  intros Ho Hl Hv. unfold get16, put16. rewrite !byte_at_insert by (rewrite ?length_insert; lia).
  repeat (case_decide as Hd; [try (exfalso; lia)|try (exfalso; lia)]; clear Hd).
  rewrite !u8_idem. unfold u8. Z.to_euclidean_division_equations. lia.
Qed.

Lemma get16_put16_ne d o o' v :
  0 ≤ o → 0 ≤ o' → o + 2 ≤ o' ∨ o' + 2 ≤ o → get16 (put16 d o v) o' = get16 d o'.
Proof. intros. unfold get16, put16. rewrite !byte_at_insert_ne by lia. done. Qed.

Lemma get16_put32_ne d o o' v :
  0 ≤ o → 0 ≤ o' → o + 4 ≤ o' ∨ o' + 2 ≤ o → get16 (put32 d o v) o' = get16 d o'.
Proof. intros. unfold get16, put32. rewrite !byte_at_insert_ne by lia. done. Qed.

Lemma get32_put16_ne d o o' v :
  0 ≤ o → 0 ≤ o' → o + 2 ≤ o' ∨ o' + 4 ≤ o → get32 (put16 d o v) o' = get32 d o'.
Proof. intros. unfold get32, put16. rewrite !byte_at_insert_ne by lia. done. Qed.

Lemma get16_addrs_ne a d o o' :
  0 ≤ o → 0 ≤ o' → o + 4 * Z.of_nat (length a) ≤ o' ∨ o' + 2 ≤ o → get16 (write_addrs d o a) o' = get16 d o'.
Proof.
  revert d o. induction a as [|x a IH]; intros d o Ho Ho' Hs; [done|]. cbn [write_addrs]. cbn [length] in Hs.
  rewrite IH by lia. apply get16_put32_ne; lia.
Qed.

Lemma get32_addrs_ne a d o o' :
  0 ≤ o → 0 ≤ o' → o + 4 * Z.of_nat (length a) ≤ o' ∨ o' + 4 ≤ o → get32 (write_addrs d o a) o' = get32 d o'.
Proof.
  revert d o. induction a as [|x a IH]; intros d o Ho Ho' Hs; [done|]. cbn [write_addrs]. cbn [length] in Hs.
  rewrite IH by lia. apply get32_put32_ne; lia.
Qed.

Lemma get32_addrs_eq a d o k :
  0 ≤ o → o + 4 * Z.of_nat (length a) ≤ Z.of_nat (length d) → Forall (λ x, 0 ≤ x < 2 ^ 32) a →
  0 ≤ k < Z.of_nat (length a) → get32 (write_addrs d o a) (o + 4 * k) = nth (Z.to_nat k) a 0.
Proof.
  revert d o k. induction a as [|x a IH]; intros d o k Ho Hl Ha Hk; [simpl in Hk; lia|]. cbn [write_addrs]. cbn [length] in *.
  apply Forall_cons in Ha as [Hx Ha]. cbn beta in Hx. destruct (decide (k = 0)) as [->|].
  - rewrite Z.mul_0_r, Z.add_0_r, get32_addrs_ne by lia. by apply get32_put32_eq; [lia|lia|].
  - replace (o + 4 * k) with (o + 4 + 4 * (k - 1)) by lia. rewrite IH by (rewrite ?length_put32; first [done|lia]).
    by replace (Z.to_nat k) with (S (Z.to_nat (k - 1))) by lia.
Qed.

(** An inode that fits its fields. *)
Definition fits (v : dinode) : Prop :=
  0 ≤ d_type v < 2 ^ 15 ∧ 0 ≤ d_major v < 2 ^ 15 ∧ 0 ≤ d_minor v < 2 ^ 15 ∧ 0 ≤ d_nlink v < 2 ^ 15 ∧
  0 ≤ d_size v < 2 ^ 32 ∧ length (d_addrs v) = 13%nat ∧ Forall (λ x, 0 ≤ x < 2 ^ 32) (d_addrs v).

Lemma length_store d o v : length (store_dinode d o v) = length d.
Proof. unfold store_dinode. by rewrite length_write_addrs, length_put32, !length_put16. Qed.

Lemma s16_small x : 0 ≤ x < 2 ^ 15 → s16 x = x.
Proof. intros Hx. unfold s16, u16. rewrite Z.mod_small by lia. by rewrite (proj2 (Z.ltb_lt _ _)) by lia. Qed.

Lemma load_store d o v : 0 ≤ o → o + 64 ≤ Z.of_nat (length d) → fits v → load_dinode (store_dinode d o v) o = v.
Proof.
  intros Ho Hl (H1 & H2 & H3 & H4 & H5 & H6 & H7). destruct v as [t mj mn nl sz a]. cbn [d_type d_major d_minor d_nlink d_size d_addrs] in *.
  unfold load_dinode, store_dinode. cbn [d_type d_major d_minor d_nlink d_size d_addrs].
  rewrite !(get16_addrs_ne a), (get32_addrs_ne a), !get16_put32_ne by lia.
  rewrite get32_put32_eq by (rewrite ?length_put16; lia).
  f_equal; try (rewrite ?get16_put16_ne by lia; rewrite get16_put16_eq by (rewrite ?length_put16; lia); by apply s16_small).
  unfold read_addrs. apply (list_eq_same_length _ _ 13); [done|by rewrite length_fmap|]. intros i x y Hi Hx Hy.
  apply list_lookup_fmap_Some in Hx as (k & -> & Hk). apply lookup_seqZ in Hk as [-> Hk].
  rewrite get32_addrs_eq by (rewrite ?length_put32, ?length_put16; first [done|lia]).
  rewrite Z.add_0_l, Nat2Z.id. by apply nth_lookup_Some.
Qed.

Lemma load_store_ne d o o' v :
  0 ≤ o → 0 ≤ o' → o + 64 ≤ o' ∨ o' + 64 ≤ o → length (d_addrs v) = 13%nat →
  load_dinode (store_dinode d o v) o' = load_dinode d o'.
Proof.
  intros Ho Ho' Hs Ha. unfold load_dinode, store_dinode.
  rewrite !get16_addrs_ne, get32_addrs_ne, !get16_put32_ne, get32_put32_ne, !get16_put16_ne, !get32_put16_ne by lia.
  f_equal. unfold read_addrs. apply map_ext_in. intros k Hk. apply list_elem_of_In, elem_of_seqZ in Hk. unfold NDIRECT in Hk.
  by rewrite get32_addrs_ne, get32_put32_ne, !get32_put16_ne by lia.
Qed.

(** ** The inode table *)

(** Inode [n] as it is on the disk [M]. *)
Definition slot (M : Z → list Z) (n : Z) : dinode := load_dinode (M (IBLOCK n msb)) (dinode_off n).

Lemma IBLOCK_msb n : 0 ≤ n < NINODES → IBLOCK n msb = 32 + n / 8 ∧ 32 ≤ IBLOCK n msb < 58.
Proof.
  intros Hn. unfold IBLOCK, IPB, BSIZE. change (512 / 64) with 8. change (sb_inodestart msb) with 32.
  unfold NINODES in Hn. rewrite u32_small; unfold is_u32; Z.to_euclidean_division_equations; lia.
Qed.

Lemma dinode_off_range n : 0 ≤ dinode_off n ≤ 448.
Proof. unfold dinode_off. change IPB with 8. pose proof (Z.mod_pos_bound n 8). lia. Qed.

Lemma slot_store M n m v :
  0 ≤ n < NINODES → 0 ≤ m < NINODES → length (M (IBLOCK n msb)) = Z.to_nat BSIZE → fits v →
  slot (upd M (IBLOCK n msb) (store_dinode (M (IBLOCK n msb)) (dinode_off n) v)) m = if decide (m = n) then v else slot M m.
Proof.
  intros Hn Hm Hl Hv. unfold slot. pose proof (dinode_off_range n). pose proof (dinode_off_range m). case_decide as Hd.
  - subst m. rewrite upd_eq. apply load_store; [lia|rewrite Hl; unfold BSIZE; lia|done].
  - unfold upd. case_decide as Hb; [|done]. rewrite Hb. apply load_store_ne; [lia|lia| |apply Hv].
    destruct (IBLOCK_msb n Hn) as [E1 _], (IBLOCK_msb m Hm) as [E2 _]. unfold dinode_off. change IPB with 8.
    Z.to_euclidean_division_equations. lia.
Qed.

(** ** The blocks of a file *)

(** Each block belongs to one file, as block [k] of it or, with -1, as its
    indirect block. *)
Abbreviation owner := (Z → option (Z * Z)) (only parsing).

(** Inode [n] with the addresses [a] has [nb] blocks, all below [hi], and an
    indirect block when [ind] holds. *)
Record blocks_ok (M : Z → list Z) (O : owner) (hi n : Z) (a : list Z) (nb : Z) (ind : bool) : Prop := {
  bo_length : length a = 13%nat;
  bo_data k : 0 ≤ k < nb → nmeta ≤ addr M a k < hi ∧ O (addr M a k) = Some (n, k);
  bo_none k : nb ≤ k < MAXFILE → addr M a k = 0;
  bo_ind : if ind then nmeta ≤ indirect a < hi ∧ O (indirect a) = Some (n, -1) else indirect a = 0 }.

(** The number of blocks of a file of [len] bytes, and with the indirect block. *)
Definition data_blocks (len : Z) : Z := (len + 511) / 512.
Definition all_blocks (nb : Z) : Z := nb + (if Z.ltb NDIRECT nb then 1 else 0).

Lemma addr_direct M a k : k < NDIRECT → addr M a k = nth (Z.to_nat k) a 0.
Proof. intros Hk. unfold addr. by rewrite (proj2 (Z.ltb_lt _ _)) by lia. Qed.

Lemma addr_indirect M a k : NDIRECT ≤ k → indirect a ≠ 0 → addr M a k = get32 (M (indirect a)) (4 * (k - NDIRECT)).
Proof. intros Hk Hi. unfold addr. by rewrite (proj2 (Z.ltb_ge _ _)), (proj2 (Z.eqb_neq _ _)) by lia. Qed.

Lemma content_same M M' a a' o :
  addr M' a' (o / BSIZE) = addr M a (o / BSIZE) → (addr M a (o / BSIZE) ≠ 0 → M' (addr M a (o / BSIZE)) = M (addr M a (o / BSIZE))) →
  content M' a' o = content M a o.
Proof. intros E1 E2. unfold content. rewrite E1. destruct (Z.eqb_spec (addr M a (o / BSIZE)) 0); [done|]. by rewrite E2. Qed.

(** A block of zeros in the place of a missing block does not change the bytes. *)
Lemma content_fresh M M' a a' o :
  addr M a (o / BSIZE) = 0 → M' (addr M' a' (o / BSIZE)) = zeros → content M' a' o = content M a o.
Proof.
  intros E1 E2. unfold content. rewrite E1. cbn [Z.eqb]. destruct (Z.eqb _ 0); [done|]. by rewrite E2, nth_zeros.
Qed.

Lemma addr_insert M a i x k :
  length a = 13%nat → 0 ≤ i < 12 → 0 ≤ k → addr M (<[Z.to_nat i := x]> a) k = if decide (k = i) then x else addr M a k.
Proof.
  intros Hl Hi Hk. assert (Hd : indirect (<[Z.to_nat i := x]> a) = indirect a).
  { unfold indirect. rewrite nth_insert, decide_False; [done|lia]. }
  unfold addr. rewrite Hd. unfold NDIRECT. destruct (Z.ltb_spec k 12).
  - rewrite nth_insert. repeat case_decide; try lia; done.
  - by rewrite decide_False by lia.
Qed.

Section grow.
  Context (M : Z → list Z) (O : owner) (hi n : Z) (a : list Z).
  Context (Hhi : nmeta ≤ hi < FSSIZE) (Hz : M hi = zeros).

Lemma add_direct nb ind :
  blocks_ok M O hi n a nb ind → 0 ≤ nb < NDIRECT →
  let a' := <[Z.to_nat nb := hi]> a in
  blocks_ok M (upd O hi (Some (n, nb))) (hi + 1) n a' (nb + 1) ind ∧ ∀ o, 0 ≤ o → content M a' o = content M a o.
Proof.
  intros [Hl Hd Hn Hi] Hnb. unfold NDIRECT in Hnb. cbv zeta. split; [split|].
  - by rewrite length_insert.
  - intros k Hk. rewrite addr_insert by first [done|lia]. case_decide as E; [subst k; rewrite upd_eq; split; [lia|done]|].
    destruct (Hd k) as [? ?]; [lia|]. rewrite upd_ne by lia. split; [lia|done].
  - intros k Hk. rewrite addr_insert by first [done|lia]. rewrite decide_False by lia. apply Hn. lia.
  - unfold indirect in *. rewrite nth_insert, decide_False by lia. destruct ind; [|done]. destruct Hi. rewrite upd_ne by lia. split; [lia|done].
  - intros o Ho. assert (0 ≤ o / BSIZE) by (apply Z.div_pos; [lia|done]). destruct (decide (o / BSIZE = nb)) as [E|E].
    + apply content_fresh; rewrite ?addr_insert, ?E by first [done|lia]; [|by rewrite decide_True].
      apply Hn. rewrite ?E. unfold MAXFILE, NDIRECT, NINDIRECT, BSIZE. Z.to_euclidean_division_equations. lia.
    + apply content_same; [|done]. rewrite addr_insert, decide_False by first [done|lia]. done.
Qed.

Lemma add_indirect nb :
  blocks_ok M O hi n a nb false → 0 ≤ nb ≤ NDIRECT →
  let a' := <[12%nat := hi]> a in
  blocks_ok M (upd O hi (Some (n, -1))) (hi + 1) n a' nb true ∧ ∀ o, 0 ≤ o → content M a' o = content M a o.
Proof.
  intros [Hl Hd Hn Hi] Hnb. unfold NDIRECT in Hnb. cbv zeta.
  assert (Hi' : indirect (<[12%nat := hi]> a) = hi) by (unfold indirect; rewrite nth_insert, decide_True by lia; done).
  assert (Ha : ∀ k, 0 ≤ k → addr M (<[12%nat := hi]> a) k = addr M a k).
  { intros k Hk. unfold addr at 1. rewrite Hi'. destruct (Z.ltb_spec k NDIRECT) as [Hlt|Hge]; unfold NDIRECT in *.
    - rewrite nth_insert, decide_False by lia. by rewrite addr_direct.
    - rewrite (proj2 (Z.eqb_neq _ _)) by (pose proof nmeta_eq; lia).
      rewrite Hz, get32_zeros. unfold addr. by rewrite (proj2 (Z.ltb_ge _ _)), Hi by (unfold NDIRECT; lia). }
  split; [split|].
  - by rewrite length_insert.
  - intros k Hk. rewrite Ha by lia. destruct (Hd k) as [? ?]; [done|]. rewrite upd_ne by lia. split; [lia|done].
  - intros k Hk. rewrite Ha by lia. by apply Hn.
  - rewrite Hi', upd_eq. split; [lia|done].
  - intros o Ho. apply content_same; [|done]. apply Ha, Z.div_pos; [lia|done].
Qed.

Lemma add_entry nb :
  blocks_ok M O hi n a nb true → NDIRECT ≤ nb < MAXFILE → length (M (indirect a)) = Z.to_nat BSIZE →
  let M' := upd M (indirect a) (put32 (M (indirect a)) (4 * (nb - NDIRECT)) hi) in
  blocks_ok M' (upd O hi (Some (n, nb))) (hi + 1) n a (nb + 1) true ∧ ∀ o, 0 ≤ o < MAXFILE * BSIZE → content M' a o = content M a o.
Proof.
  intros [Hl Hd Hn [Hi Ho]] Hnb Hlen. cbv zeta. set (M' := upd _ _ _). pose proof nmeta_eq. pose proof FSSIZE_eq.
  unfold MAXFILE, NINDIRECT in *. unfold NDIRECT, BSIZE in *. change (512 / 4) with 128 in *.
  assert (Ha : ∀ k, 0 ≤ k < 140 → addr M' a k = if decide (k = nb) then hi else addr M a k).
  { intros k Hk. destruct (decide (k < 12)); [rewrite !addr_direct, decide_False by (unfold NDIRECT; lia); done|].
    rewrite !addr_indirect by (unfold NDIRECT; lia). unfold M'. rewrite upd_eq. unfold NDIRECT. case_decide as E.
    - subst k. apply get32_put32_eq; lia.
    - apply get32_put32_ne; lia. }
  assert (Hm : ∀ k, 0 ≤ k < nb → M' (addr M a k) = M (addr M a k)).
  { intros k Hk. unfold M'. rewrite upd_ne; [done|]. intros E. destruct (Hd k Hk) as [_ E2]. rewrite E, Ho in E2. injection E2. lia. }
  split; [split|].
  - done.
  - intros k Hk. rewrite Ha by lia. case_decide as E; [subst k; rewrite upd_eq; split; [lia|done]|].
    destruct (Hd k) as [? ?]; [lia|]. rewrite upd_ne by lia. split; [lia|done].
  - unfold MAXFILE, NDIRECT, NINDIRECT, BSIZE. change (12 + 512 / 4) with 140. intros k Hk. rewrite Ha, decide_False by lia. apply Hn. lia.
  - rewrite upd_ne by lia. split; [lia|done].
  - intros o Hof. assert (0 ≤ o / 512 < 140) by (Z.to_euclidean_division_equations; lia).
    destruct (decide (o / 512 = nb)) as [E|E].
    + apply content_fresh; unfold BSIZE; rewrite E; [apply Hn; lia|]. rewrite Ha, decide_True by lia. unfold M'. rewrite upd_ne by lia. done.
    + apply content_same; unfold BSIZE; [rewrite Ha, decide_False by lia; done|]. intros Hz0. apply Hm.
      destruct (decide (o / 512 < nb)); [lia|]. rewrite Hn in Hz0 by lia. done.
Qed.
End grow.

(** A store to block [k] of the file. *)
Lemma store_block M O hi n a nb ind k d :
  blocks_ok M O hi n a nb ind → 0 ≤ k < nb →
  let M' := upd M (addr M a k) d in
  blocks_ok M' O hi n a nb ind ∧ (∀ j, addr M' a j = addr M a j) ∧
  ∀ o, 0 ≤ o < MAXFILE * BSIZE → content M' a o = if decide (o / BSIZE = k) then nth (Z.to_nat (o mod BSIZE)) d 0 else content M a o.
Proof.
  intros [Hl Hd Hn Hi] Hk. cbv zeta. set (M' := upd _ _ _). destruct (Hd k Hk) as [Hr Hok]. pose proof nmeta_eq.
  assert (Hind : indirect a ≠ 0 → M' (indirect a) = M (indirect a)).
  { intros Hne. unfold M'. rewrite upd_ne; [done|]. destruct ind; [|done]. destruct Hi as [_ Ho]. intros E. rewrite E, Hok in Ho. injection Ho. lia. }
  assert (Ha : ∀ j, addr M' a j = addr M a j).
  { intros j. unfold addr. destruct (Z.ltb j NDIRECT); [done|]. destruct (Z.eqb_spec (indirect a) 0); [done|]. by rewrite Hind. }
  split; [split; try done; intros j Hj; rewrite Ha; auto|]. split; [done|].
  intros o Ho. unfold content. rewrite Ha. case_decide as E.
  - rewrite E, (proj2 (Z.eqb_neq _ _)) by lia. unfold M'. by rewrite upd_eq.
  - destruct (Z.eqb_spec (addr M a (o / BSIZE)) 0); [done|]. unfold M'. rewrite upd_ne; [done|]. intros Eq.
    destruct (decide (0 ≤ o / BSIZE < nb)) as [Hb|Hb].
    + destruct (Hd _ Hb) as [_ Ho2]. rewrite Eq, Hok in Ho2. by injection Ho2.
    + destruct (off_block o Ho) as (? & _). rewrite Hn in n0 by lia. done.
Qed.

(** ** The image while files grow *)

Record data_ok (s : img) (O : owner) : Prop := {
  do_length b : length (sect s b) = Z.to_nat BSIZE;
  do_nsect : nsect s = FSSIZE;
  do_free : nmeta ≤ freeblock s ≤ FSSIZE;
  do_zero b : freeblock s ≤ b → sect s b = zeros;
  do_meta b : b < nmeta → O b = None }.

(** File [n] grew: every other block keeps its bytes and its owner. *)
Record grown (n : Z) (s : img) (O : owner) (s' : img) (O' : owner) : Prop := {
  gr_free : freeblock s ≤ freeblock s';
  gr_owner b : b < freeblock s → O' b = O b;
  gr_keep b : b < freeblock s → (∀ r, O b ≠ Some (n, r)) → sect s' b = sect s b;
  gr_inode : freeinode s' = freeinode s }.

Lemma grown_refl n s O : grown n s O s O.
Proof. by split. Qed.

Lemma grown_trans n s1 O1 s2 O2 s3 O3 : grown n s1 O1 s2 O2 → grown n s2 O2 s3 O3 → grown n s1 O1 s3 O3.
Proof.
  intros [A1 A2 A3 A4] [B1 B2 B3 B4]. split; [lia| | |congruence].
  - intros b Hb. rewrite B2, A2 by lia. done.
  - intros b Hb Hn. rewrite B3, A3; [done|done|done|lia|]. intros r. rewrite A2 by done. done.
Qed.

(** A file stays when its blocks keep their bytes and their owner. *)
Lemma blocks_stay M O hi M' O' hi' m a nb ind :
  blocks_ok M O hi m a nb ind → hi ≤ hi' →
  (∀ b r, nmeta ≤ b < hi → O b = Some (m, r) → M' b = M b ∧ O' b = O b) →
  blocks_ok M' O' hi' m a nb ind ∧ ∀ o, 0 ≤ o < MAXFILE * BSIZE → content M' a o = content M a o.
Proof.
  intros [Hl Hd Hn Hi] Hh Hk.
  assert (Ha : ∀ k, addr M' a k = addr M a k).
  { intros k. unfold addr. destruct (Z.ltb k NDIRECT); [done|]. destruct (Z.eqb_spec (indirect a) 0); [done|].
    destruct ind; [|done]. destruct Hi as [Hi Ho]. by rewrite (proj1 (Hk _ _ Hi Ho)). }
  split; [split; try done|].
  - intros k Hk'. rewrite Ha. destruct (Hd k Hk') as [Hr Ho]. rewrite (proj2 (Hk _ _ Hr Ho)). split; [lia|done].
  - intros k Hk'. rewrite Ha. by apply Hn.
  - destruct ind; [|done]. destruct Hi as [Hi Ho]. rewrite (proj2 (Hk _ _ Hi Ho)). split; [lia|done].
  - intros o Ho. destruct (off_block o Ho) as (Hb & _). apply content_same; [done|]. intros Hnz.
    destruct (decide (o / BSIZE < nb)) as [Hlt|]; [|rewrite Hn in Hnz by lia; done].
    destruct (Hd (o / BSIZE)) as [Hr Ho']; [lia|]. apply (Hk _ _ Hr Ho').
Qed.

Lemma next_block_ok s O n r :
  data_ok s O → freeblock s < FSSIZE →
  data_ok (next_block s) (upd O (freeblock s) (Some (n, r))) ∧ freeblock (next_block s) = freeblock s + 1 ∧
  grown n s O (next_block s) (upd O (freeblock s) (Some (n, r))).
Proof.
  intros [D1 D2 D3 D4 D5] Hf. pose proof nmeta_eq. pose proof FSSIZE_eq.
  assert (E : freeblock (next_block s) = freeblock s + 1) by (cbn; apply u32_small; unfold is_u32; lia).
  split_and!; [split|done|split]; rewrite ?E; try done; try lia.
  - intros b Hb. apply D4. lia.
  - intros b Hb. rewrite upd_ne by lia. by apply D5.
  - intros b Hb. by rewrite upd_ne by lia.
Qed.

(** A store to a block of the file. *)
Lemma wsect_own s O n r b d :
  data_ok s O → nmeta ≤ b < freeblock s → O b = Some (n, r) → length d = Z.to_nat BSIZE →
  wsect s b d = mkImg (upd (sect s) b d) FSSIZE (freeinode s) (freeblock s) ∧
  data_ok (wsect s b d) O ∧ grown n s O (wsect s b d) O.
Proof.
  intros [D1 D2 D3 D4 D5] Hb Ho Hd. pose proof nmeta_eq. rewrite wsect_ok by (done || lia). split; [done|]. split; split; cbn [sect nsect freeblock freeinode]; try done; try lia.
  - intros c. unfold upd. by case_decide.
  - intros c Hc. rewrite upd_ne by lia. by apply D4.
  - intros c Hc Hn. rewrite upd_ne; [done|]. intros ->. by destruct (Hn r).
Qed.

Lemma all_blocks_S nb : all_blocks (nb + 1) = all_blocks nb + 1 + (if decide (nb = NDIRECT) then 1 else 0).
Proof. unfold all_blocks. destruct (Z.ltb_spec NDIRECT (nb + 1)), (Z.ltb_spec NDIRECT nb); case_decide; lia. Qed.

(** What [block_for] does to the file. *)
Record got_block (n : Z) (s : img) (O : owner) (a : list Z) (nb : Z) (s' : img) (O' : owner) (a' : list Z) (nb' : Z) (ind' : bool) : Prop := {
  gb_data : data_ok s' O';
  gb_grown : grown n s O s' O';
  gb_blocks : blocks_ok (sect s') O' (freeblock s') n a' nb' ind';
  gb_content o : 0 ≤ o < MAXFILE * BSIZE → content (sect s') a' o = content (sect s) a o }.

(** The indirect block is there after the first part of the indirect case. *)
Lemma get_indirect s O n a nb :
  data_ok s O → blocks_ok (sect s) O (freeblock s) n a nb (Z.ltb NDIRECT nb) → NDIRECT ≤ nb →
  freeblock s + (if decide (nb = NDIRECT) then 1 else 0) ≤ FSSIZE →
  ∃ s1 O1 a1, (if Z.eqb (indirect a) 0 then (<[12%nat := freeblock s]> a, next_block s) else (a, s)) = (a1, s1) ∧
    got_block n s O a nb s1 O1 a1 nb true ∧ freeblock s1 = freeblock s + (if decide (nb = NDIRECT) then 1 else 0).
Proof.
  intros Hd Hb Hn Hf. pose proof nmeta_eq. case_decide as E.
  - rewrite (proj2 (Z.ltb_ge _ _)) in Hb by lia. rewrite (bo_ind _ _ _ _ _ _ _ Hb). cbn [Z.eqb].
    destruct (next_block_ok s O n (-1) Hd) as (N1 & N2 & N3); [lia|]. do 3 eexists. split; [done|]. split; [|done].
    destruct (add_indirect (sect s) O (freeblock s) n a) with (nb := nb) as [A1 A2]; [pose proof (do_free _ _ Hd); lia|apply (do_zero _ _ Hd); lia|done|unfold NDIRECT in *; lia|].
    rewrite <- N2 in A1. split; try done. intros o Ho. apply A2. lia.
  - rewrite (proj2 (Z.ltb_lt _ _)) in Hb by lia. pose proof (bo_ind _ _ _ _ _ _ _ Hb) as [Hi _].
    rewrite (proj2 (Z.eqb_neq _ _)) by lia. exists s, O, a. split; [done|]. split; [by split|lia].
Qed.

(** The entry of the indirect block is filled in. *)
Lemma new_entry s O n a fbn s1 O1 a1 :
  NDIRECT ≤ fbn < MAXFILE → got_block n s O a fbn s1 O1 a1 fbn true → freeblock s1 < FSSIZE →
  ∃ s' O' a', (let! blk := rsect s1 (indirect a1) in
    let e := 4 * (fbn - NDIRECT) in
    if Z.eqb (get32 blk e) 0 then
      let blk := put32 blk e (freeblock s1) in
      Ret (get32 blk e, a1, wsect (next_block s1) (indirect a1) blk)
    else Ret (get32 blk e, a1, s1)) = Ret (addr (sect s') a' fbn, a', s') ∧
    got_block n s O a fbn s' O' a' (fbn + 1) (Z.ltb NDIRECT (fbn + 1)) ∧ freeblock s' = freeblock s1 + 1.
Proof.
  intros Hf [G1 G2 G3 G4] Hfree. pose proof nmeta_eq. pose proof (bo_ind _ _ _ _ _ _ _ G3) as [Hi Hio]. pose proof (do_free _ _ G1).
  rewrite rsect_ok by (try apply (do_nsect _ _ G1); lia). cbn [obind]. rewrite <- (addr_indirect (sect s1)) by lia.
  rewrite (bo_none _ _ _ _ _ _ _ G3) by lia. cbn [Z.eqb].
  destruct (next_block_ok s1 O1 n fbn G1 Hfree) as (N1 & N2 & N3).
  destruct (add_entry (sect s1) O1 (freeblock s1) n a1) with (nb := fbn) as [A1 A2];
    [lia|apply (do_zero _ _ G1); lia|done|done|apply (do_length _ _ G1)|].
  destruct (wsect_own (next_block s1) (upd O1 (freeblock s1) (Some (n, fbn))) n (-1) (indirect a1)
    (put32 (sect s1 (indirect a1)) (4 * (fbn - NDIRECT)) (freeblock s1))) as (W1 & W2 & W3);
    [done|lia|rewrite upd_ne by lia; done|rewrite length_put32; apply (do_length _ _ G1)|].
  exists (wsect (next_block s1) (indirect a1) (put32 (sect s1 (indirect a1)) (4 * (fbn - NDIRECT)) (freeblock s1))),
    (upd O1 (freeblock s1) (Some (n, fbn))), a1.
  split; [rewrite addr_indirect by lia; rewrite W1; cbn [sect]; by rewrite upd_eq|].
  split; [|by rewrite W1, <- N2]. rewrite (proj2 (Z.ltb_lt _ _)) by lia. split; [done| | |].
  - by eapply grown_trans, grown_trans.
  - rewrite W1. cbn [sect freeblock]. by rewrite N2.
  - intros o Ho. rewrite <- G4, <- A2 by done. by rewrite W1.
Qed.

Lemma block_for_ok s O n a nb fbn :
  data_ok s O → blocks_ok (sect s) O (freeblock s) n a nb (Z.ltb NDIRECT nb) → 0 ≤ fbn < MAXFILE → fbn ≤ nb →
  (nb ≤ fbn + 1) →
  freeblock s + (all_blocks (fbn + 1) - all_blocks nb) ≤ FSSIZE →
  ∃ s' O' a', block_for s a fbn = Ret (addr (sect s') a' fbn, a', s') ∧
    got_block n s O a nb s' O' a' (fbn + 1) (Z.ltb NDIRECT (fbn + 1)) ∧ freeblock s' = freeblock s + (all_blocks (fbn + 1) - all_blocks nb).
Proof.
  intros Hd Hb Hf Hle Hge Hfree. unfold block_for. pose proof nmeta_eq. pose proof (do_free _ _ Hd).
  destruct (decide (nb = fbn)) as [->|Hne]; [rewrite all_blocks_S in *|replace (fbn + 1) with nb in * by lia];
    destruct (Z.ltb_spec fbn NDIRECT) as [Hdir|Hdir].
  - rewrite decide_False in * by lia. rewrite <- (addr_direct (sect s)) by done. rewrite (bo_none _ _ _ _ _ _ _ Hb) by lia. cbn [Z.eqb].
    destruct (next_block_ok s O n fbn Hd) as (N1 & N2 & N3); [lia|].
    destruct (add_direct (sect s) O (freeblock s) n a) with (nb := fbn) (ind := Z.ltb NDIRECT fbn) as [A1 A2]; [lia|apply (do_zero _ _ Hd); lia|done|lia|].
    rewrite <- N2 in A1. do 3 eexists. split; [by rewrite addr_direct|]. split; [|lia].
    rewrite (proj2 (Z.ltb_ge _ fbn)) in A1 by lia. rewrite (proj2 (Z.ltb_ge _ (fbn + 1))) by lia. split; try done. intros o Ho. apply A2. lia.
  - destruct (get_indirect s O n a fbn) as (s1 & O1 & a1 & -> & [G1 G2 G3 G4] & G5); [done|done|done|lia|].
    destruct (new_entry s O n a fbn s1 O1 a1) as (s' & O' & a' & E & Hg & Hs); [lia|by split|lia|].
    exists s', O', a'. split; [done|]. split; [done|lia].
  - pose proof (bo_data _ _ _ _ _ _ _ Hb fbn) as [Hr _]; [lia|]. rewrite <- (addr_direct (sect s)) by done.
    rewrite (proj2 (Z.eqb_neq _ _)) by lia. exists s, O, a. split; [by rewrite addr_direct|]. split; [by split|lia].
  - destruct (get_indirect s O n a nb) as (s1 & O1 & a1 & -> & [G1 G2 G3 G4] & G5); [done|done|lia|rewrite decide_False by lia; lia|].
    rewrite decide_False in G5 by lia. pose proof (bo_data _ _ _ _ _ _ _ G3 fbn) as [Hr _]; [lia|]. pose proof (bo_ind _ _ _ _ _ _ _ G3) as [Hi _].
    rewrite rsect_ok by (try apply (do_nsect _ _ G1); pose proof (do_free _ _ G1); lia). cbn [obind]. rewrite addr_indirect in Hr by lia.
    rewrite (proj2 (Z.eqb_neq _ _)) by lia. exists s1, O1, a1. rewrite addr_indirect by lia. split; [done|]. split; [|lia].
    rewrite (proj2 (Z.ltb_lt _ _)) by lia. by split.
Qed.

(** File [n] holds the bytes [L] and zeros up to the end of its last block. *)
Record file_ok (s : img) (O : owner) (n : Z) (a L : list Z) : Prop := {
  fo_blocks : blocks_ok (sect s) O (freeblock s) n a (data_blocks (Z.of_nat (length L))) (Z.ltb NDIRECT (data_blocks (Z.of_nat (length L))));
  fo_bytes o : 0 ≤ o < MAXFILE * BSIZE → content (sect s) a o = nth (Z.to_nat o) L 0 }.

(** The blocks a file of [len] bytes takes. *)
Definition cost (len : Z) : Z := all_blocks (data_blocks len).

Lemma cost_mono x y : 0 ≤ x ≤ y → cost x ≤ cost y.
Proof.
  intros Hxy. unfold cost, all_blocks. assert (data_blocks x ≤ data_blocks y) by (apply Z.div_le_mono; lia).
  destruct (Z.ltb_spec NDIRECT (data_blocks x)), (Z.ltb_spec NDIRECT (data_blocks y)); lia.
Qed.

Lemma file_stay s O s' O' m a L :
  file_ok s O m a L → freeblock s ≤ freeblock s' →
  (∀ b r, nmeta ≤ b < freeblock s → O b = Some (m, r) → sect s' b = sect s b ∧ O' b = O b) → file_ok s' O' m a L.
Proof.
  intros [F1 F2] Hf Hk. destruct (blocks_stay _ _ _ (sect s') O' (freeblock s') _ _ _ _ F1 Hf Hk) as [H1 H2].
  split; [done|]. intros o Ho. rewrite H2 by done. by apply F2.
Qed.

Lemma file_other n m s O s' O' a L : grown n s O s' O' → m ≠ n → file_ok s O m a L → file_ok s' O' m a L.
Proof.
  intros [G1 G2 G3 G4] Hne Hf. apply (file_stay s O); [done|done|]. intros b r Hb Ho. split; [|apply G2; lia].
  apply G3; [lia|]. intros r' E. rewrite Ho in E. by injection E.
Qed.

Lemma nth_app_bytes (L p : list Z) o :
  nth o (L ++ p) 0 = if decide (length L ≤ o < length L + length p)%nat then nth (o - length L) p 0 else nth o L 0.
Proof.
  case_decide as Hd; [by apply app_nth2; lia|]. destruct (decide (o < length L)%nat); [by apply app_nth1|].
  rewrite !nth_overflow; [done|lia|rewrite length_app; lia].
Qed.

(** The bytes of one turn, put in the block that holds the end of the file. *)
Lemma fill_block s O n a L p x :
  data_ok s O → p ≠ [] → (Z.of_nat (length L) + Z.of_nat (length p) ≤ (Z.of_nat (length L) / BSIZE + 1) * BSIZE) →
  Z.of_nat (length L) / BSIZE < MAXFILE →
  blocks_ok (sect s) O (freeblock s) n a (Z.of_nat (length L) / BSIZE + 1) (Z.ltb NDIRECT (Z.of_nat (length L) / BSIZE + 1)) →
  (∀ o, 0 ≤ o < MAXFILE * BSIZE → content (sect s) a o = nth (Z.to_nat o) L 0) →
  x = addr (sect s) a (Z.of_nat (length L) / BSIZE) →
  rsect s x = Ret (sect s x) ∧
  let s' := wsect s x (splice (sect s x) (Z.of_nat (length L) - Z.of_nat (length L) / BSIZE * BSIZE) p) in
  data_ok s' O ∧ grown n s O s' O ∧ file_ok s' O n a (L ++ p) ∧ freeblock s' = freeblock s.
Proof.
  intros Hd Hp Hfit Hmax Hb Hc ->. set (off := Z.of_nat (length L)) in *. set (fbn := off / BSIZE) in *. cbv zeta.
  pose proof nmeta_eq. pose proof (do_free _ _ Hd). assert (0 ≤ fbn) by (apply Z.div_pos; [lia|done]).
  assert (0 < Z.of_nat (length p)) by (destruct p; [done|simpl; lia]).
  assert (Hmod : fbn * 512 ≤ off < fbn * 512 + 512) by (unfold fbn, BSIZE; Z.to_euclidean_division_equations; lia). unfold BSIZE in Hfit.
  destruct (bo_data _ _ _ _ _ _ _ Hb fbn) as [Hr Ho]; [lia|]. split; [apply rsect_ok; [apply (do_nsect _ _ Hd)|lia]|].
  set (x := addr (sect s) a fbn) in *. set (d := splice _ _ _).
  assert (Hroom : (Z.to_nat (off - fbn * BSIZE) + length p ≤ length (sect s x))%nat) by (rewrite (do_length _ _ Hd); unfold BSIZE; lia).
  destruct (wsect_own s O n fbn x d) as (W1 & W2 & W3); [done|done|done| |].
  { unfold d. rewrite length_splice; [apply (do_length _ _ Hd)|unfold BSIZE; lia|done]. }
  split; [done|]. split; [done|]. split; [|by rewrite W1].
  destruct (store_block (sect s) O (freeblock s) n a _ _ fbn d Hb) as (B1 & _ & B3); [lia|]. fold x in B1, B3. rewrite W1. split.
  - rewrite length_app, Nat2Z.inj_add. fold off.
    replace (data_blocks (off + Z.of_nat (length p))) with (fbn + 1); [done|]. unfold data_blocks. Z.to_euclidean_division_equations. lia.
  - intros o Ho'. cbn [sect]. rewrite B3 by done. destruct (off_block o Ho') as (_ & Hom & Hoe). rewrite nth_app_bytes. case_decide as E.
    + rewrite E in Hoe. unfold BSIZE in *. unfold d. rewrite nth_splice by lia. repeat case_decide; try lia; [f_equal; lia|].
      rewrite <- Hc by done. unfold content, BSIZE. rewrite E. fold x. by rewrite (proj2 (Z.eqb_neq _ _)) by lia.
    + rewrite Hc by done. rewrite decide_False; [done|]. intros Hin. apply E. unfold BSIZE in *. Z.to_euclidean_division_equations. lia.
Qed.

(** One turn appends [q], the part of the bytes that fits in the block. *)
Lemma iappend_turn_ok rest s O n a L p :
  let off := Z.of_nat (length L) in
  let q := take (Z.to_nat (Z.min (Z.of_nat (length p)) ((off / BSIZE + 1) * BSIZE - off))) p in
  p ≠ [] → data_ok s O → file_ok s O n a L → off + Z.of_nat (length p) ≤ MAXFILE * BSIZE →
  freeblock s + (cost (off + Z.of_nat (length p)) - cost off) ≤ FSSIZE →
  ∃ s' O' a', iappend_turn rest s a off p = rest s' a' (off + Z.of_nat (length q)) (drop (length q) p) ∧
    data_ok s' O' ∧ grown n s O s' O' ∧ file_ok s' O' n a' (L ++ q) ∧
    freeblock s' = freeblock s + (cost (off + Z.of_nat (length q)) - cost off) ∧ q ≠ [].
Proof.
  intros off q Hp Hd [F1 F2] Hmax Hfree. assert (0 < Z.of_nat (length p)) by (destruct p; [done|simpl; lia]).
  fold off in F1. unfold iappend_turn. set (fbn := off / BSIZE) in *. set (n1 := Z.min _ _) in *.
  assert (Hmod : fbn * 512 ≤ off < fbn * 512 + 512) by (unfold fbn, BSIZE; Z.to_euclidean_division_equations; lia).
  assert (Hn1 : 0 < n1 ≤ Z.of_nat (length p) ∧ off + n1 ≤ (fbn + 1) * BSIZE) by (unfold n1, BSIZE; lia).
  assert (Hq : Z.of_nat (length q) = n1) by (unfold q; rewrite length_take; lia).
  assert (Hfbn : 0 ≤ fbn < MAXFILE) by (change (MAXFILE * BSIZE) with 71680 in Hmax; change MAXFILE with 140; lia).
  assert (Hnb : fbn ≤ data_blocks off ≤ fbn + 1 ∧ data_blocks (off + n1) = fbn + 1)
    by (unfold data_blocks, BSIZE in *; Z.to_euclidean_division_equations; lia).
  assert (Hcost : all_blocks (fbn + 1) = cost (off + n1)) by (unfold cost; by rewrite (proj2 Hnb)).
  pose proof (cost_mono (off + n1) (off + Z.of_nat (length p))) as Hmono.
  rewrite (proj2 (Z.ltb_lt _ _)) by lia. destruct (block_for_ok s O n a (data_blocks off) fbn) as (s1 & O1 & a1 & -> & [G1 G2 G3 G4] & G5);
    [done|done|done|lia|lia|rewrite Hcost; fold (cost off); lia|]. cbn [obind].
  destruct (fill_block s1 O1 n a1 L q (addr (sect s1) a1 fbn)) as (R & X1 & X2 & X3 & X4);
    [done|intros E; rewrite E in Hq; simpl in Hq; lia|fold off; fold fbn; lia|fold off; fold fbn; lia|done|intros o Ho; rewrite G4 by done; by apply F2|done|].
  fold off in X1, X2, X3, X4. fold fbn in X1, X2, X3, X4. rewrite R. cbn [obind]. fold q. rewrite Hq.
  rewrite u32_small by (unfold is_u32; change (MAXFILE * BSIZE) with 71680 in Hmax; lia). replace (Z.to_nat n1) with (length q) by lia.
  do 3 eexists. split; [done|]. split; [done|]. split; [by eapply grown_trans|]. split; [done|].
  split; [rewrite X4, G5, Hcost; done|]. intros E. rewrite E in Hq. simpl in Hq. lia.
Qed.

Lemma split_take {A} k (p : list A) : p = take k p ++ drop (length (take k p)) p.
Proof.
  rewrite length_take. destruct (decide (k ≤ length p)%nat); [by rewrite Nat.min_l, take_drop by lia|].
  by rewrite take_ge, Nat.min_r, drop_all, app_nil_r by lia.
Qed.

Lemma iappend_loop_ok fuel : ∀ s O n a L p,
  (length p ≤ fuel)%nat → data_ok s O → file_ok s O n a L →
  Z.of_nat (length L) + Z.of_nat (length p) ≤ MAXFILE * BSIZE →
  freeblock s + (cost (Z.of_nat (length L) + Z.of_nat (length p)) - cost (Z.of_nat (length L))) ≤ FSSIZE →
  ∃ s' O' a', iappend_loop fuel s a (Z.of_nat (length L)) p = Ret (a', Z.of_nat (length (L ++ p)), s') ∧
    data_ok s' O' ∧ grown n s O s' O' ∧ file_ok s' O' n a' (L ++ p) ∧
    freeblock s' = freeblock s + (cost (Z.of_nat (length (L ++ p))) - cost (Z.of_nat (length L))).
Proof.
  induction fuel as [|fuel IH]; intros s O n a L p Hfuel Hd Hf Hmax Hfree; (destruct (decide (p = [])) as [->|Hp];
    [exists s, O, a; rewrite app_nil_r; split; [done|]; split; [done|]; split; [apply grown_refl|]; split; [done|lia]|]).
  { by destruct p; [|simpl in Hfuel; lia]. }
  assert (Ec : iappend_loop (S fuel) s a (Z.of_nat (length L)) p = iappend_turn (iappend_loop fuel) s a (Z.of_nat (length L)) p) by (by destruct p).
  destruct (iappend_turn_ok (iappend_loop fuel) s O n a L p) as (s1 & O1 & a1 & E & H1 & H2 & H3 & H4 & H5); [done..|].
  rewrite Ec, E. clear Ec E. set (q := take _ p) in *. set (r := drop (length q) p).
  assert (Epr : p = q ++ r) by apply split_take.
  assert (Hlen : length p = (length q + length r)%nat) by (rewrite Epr at 1; apply length_app).
  assert (0 < length q)%nat by (destruct q; [done|simpl; lia]).
  destruct (IH s1 O1 n a1 (L ++ q) r) as (s2 & O2 & a2 & E2 & K1 & K2 & K3 & K4); [lia|done|done|rewrite length_app; lia| |].
  { rewrite length_app, Nat2Z.inj_add. replace (Z.of_nat (length L) + Z.of_nat (length q) + Z.of_nat (length r)) with (Z.of_nat (length L) + Z.of_nat (length p)) by lia. lia. }
  rewrite length_app, Nat2Z.inj_add in E2. rewrite E2. exists s2, O2, a2. rewrite Epr, app_assoc. split; [done|]. split; [done|].
  split; [by eapply grown_trans|]. split; [done|]. rewrite K4, (length_app L q), Nat2Z.inj_add. lia.
Qed.

(** ** The image between the calls of [main] *)

(** The blocks of all the files. *)
Fixpoint total (F : list (Z * list Z)) : Z :=
  match F with [] => 0 | f :: F => cost (Z.of_nat (length f.2)) + total F end.

(** Inode [j + 1] of the disk has type [t] and the file holds [L], for each
    [(t, L)] of [F]; all of them take the blocks below [freeblock]. *)
Record inv (s : img) (O : owner) (F : list (Z * list Z)) : Prop := {
  iv_data : data_ok s O;
  iv_sb : decode_sb (sect s 1) = msb;
  iv_inode : freeinode s = 1 + Z.of_nat (length F) ∧ freeinode s ≤ NINODES;
  iv_file j t L : F !! j = Some (t, L) → 0 ≤ t < 2 ^ 15 ∧ Z.of_nat (length L) ≤ MAXFILE * BSIZE ∧
    ∃ a, slot (sect s) (Z.of_nat j + 1) = mkDin t 0 0 1 (Z.of_nat (length L)) a ∧ file_ok s O (Z.of_nat j + 1) a L;
  iv_free : freeblock s = nmeta + total F }.

Lemma cost_nonneg n : 0 ≤ n → 0 ≤ cost n.
Proof.
  intros Hn. unfold cost, all_blocks. assert (0 ≤ data_blocks n) by (apply Z.div_pos; lia). destruct (Z.ltb _ _); lia.
Qed.

Lemma total_app F G : total (F ++ G) = total F + total G.
Proof. induction F as [|f F IH]; [done|]. cbn [app total]. lia. Qed.

Lemma total_insert F j x y : F !! j = Some x → total (<[j := y]> F) = total F - cost (Z.of_nat (length x.2)) + cost (Z.of_nat (length y.2)).
Proof.
  revert j. induction F as [|f F IH]; intros [|j] Hj; [done..|by injection Hj as ->; cbn; lia|]. cbn [list_insert insert total lookup] in *.
  rewrite IH by done. lia.
Qed.

Lemma total_nonneg F : 0 ≤ total F.
Proof. induction F as [|f F IH]; cbn [total]; [lia|]. pose proof (cost_nonneg (Z.of_nat (length f.2))). lia. Qed.

(** The addresses of a file of the image fit in an inode. *)
Lemma file_addrs s O n a L : data_ok s O → file_ok s O n a L → length a = 13%nat ∧ Forall (λ x, 0 ≤ x < 2 ^ 32) a.
Proof.
  intros Hd [[Hl Hda Hn Hi] _]. split; [done|]. pose proof nmeta_eq. pose proof FSSIZE_eq. pose proof (do_free _ _ Hd).
  apply Forall_lookup. intros i x Hx. pose proof (lookup_lt_Some _ _ _ Hx). assert (Ex : nth i a 0 = x) by (by apply nth_lookup_Some).
  destruct (decide (i = 12%nat)) as [->|].
  - unfold indirect in Hi. rewrite Ex in Hi. destruct (Z.ltb _ _); lia.
  - destruct (decide (Z.of_nat i < data_blocks (Z.of_nat (length L)))) as [Hlt|].
    + destruct (Hda (Z.of_nat i)) as [Hr _]; [lia|]. rewrite addr_direct, Nat2Z.id, Ex in Hr by (unfold NDIRECT; lia). lia.
    + pose proof (Hn (Z.of_nat i)) as E. rewrite addr_direct, Nat2Z.id, Ex in E by (unfold NDIRECT; lia). rewrite E; [lia|]. change MAXFILE with 140. lia.
Qed.

(** A store to the inode table. *)
Lemma winode_ok s O n v :
  data_ok s O → 0 ≤ n < NINODES → fits v →
  ∃ s', winode s n v = Ret s' ∧ data_ok s' O ∧ freeinode s' = freeinode s ∧ freeblock s' = freeblock s ∧ sect s' 1 = sect s 1 ∧
    (∀ m, 0 ≤ m < NINODES → slot (sect s') m = if decide (m = n) then v else slot (sect s) m) ∧
    (∀ b, nmeta ≤ b → sect s' b = sect s b).
Proof.
  intros Hd Hn Hv. pose proof nmeta_eq. pose proof FSSIZE_eq. destruct (IBLOCK_msb n Hn) as [_ Hb]. pose proof Hd as [D1 D2 D3 D4 D5].
  unfold winode. rewrite rsect_ok by (done || lia). cbn [obind]. rewrite wsect_ok by (done || lia). eexists. split; [done|]. cbn [sect nsect freeinode freeblock].
  split_and!; try done.
  - split; cbn [sect nsect freeblock]; try done; [|intros c Hc; rewrite upd_ne by lia; by apply D4].
    intros c. unfold upd. case_decide; [|done]. by rewrite length_store.
  - rewrite upd_ne by lia. done.
  - intros m Hm. by apply slot_store.
  - intros b Hb'. by rewrite upd_ne by lia.
Qed.

Lemma empty_file_ok s O n : file_ok s O n (replicate 13 0) [].
Proof.
  assert (Ha : ∀ k, addr (sect s) (replicate 13 0) k = 0) by (intros k; apply no_blocks).
  split; [split; try done|].
  - change (data_blocks _) with 0. lia.
  - intros o _. unfold content. rewrite Ha. by destruct (Z.to_nat o).
Qed.

Lemma ialloc_ok s O F t :
  inv s O F → 1 + Z.of_nat (length F) < NINODES → 0 ≤ t < 2 ^ 15 →
  ∃ s', ialloc s t = Ret (1 + Z.of_nat (length F), s') ∧ inv s' O (F ++ [(t, [])]).
Proof.
  intros [Hd Hsb [Hi _] Hf Hfree] Hlen Ht. unfold ialloc. rewrite Hi. set (s1 := mkImg _ _ _ _). unfold NINODES in *.
  assert (Hd1 : data_ok s1 O) by (destruct Hd; by split).
  destruct (winode_ok s1 O (1 + Z.of_nat (length F)) (mkDin t 0 0 1 0 (replicate 13 0))) as (s2 & -> & H1 & H2 & H3 & H4 & H5 & H6);
    [done|unfold NINODES; lia|unfold fits; cbn [d_type d_major d_minor d_nlink d_size d_addrs]; split_and!; try lia; [done|by apply Forall_replicate]|]. cbn [obind].
  eexists. split; [done|]. split; [done|by rewrite H4| | |].
  - rewrite H2, length_app. cbn. rewrite u32_small by (unfold is_u32; lia). unfold NINODES. lia.
  - intros j t' L Hj. apply lookup_app_Some in Hj as [Hj|[Hge Hj]].
    + pose proof (lookup_lt_Some _ _ _ Hj). destruct (Hf j t' L Hj) as (? & ? & a & E & Ha). split_and!; try lia. exists a.
      rewrite H5, decide_False by (unfold NINODES; lia). split; [done|]. apply (file_stay s O); [done|by rewrite H3|].
      intros b r Hb _. split; [|done]. apply H6. lia.
    + apply list_lookup_singleton_Some in Hj as [Hj Eq]. injection Eq as <- <-. split; [done|]. split; [done|].
      exists (replicate 13 0). rewrite H5, decide_True by (unfold NINODES; lia). split; [done|apply empty_file_ok].
  - rewrite H3, total_app. change (total [(t, [])]) with 0. change (freeblock s1) with (freeblock s). lia.
Qed.

Lemma iappend_ok s O F j t L p :
  inv s O F → F !! j = Some (t, L) → Z.of_nat (length L) + Z.of_nat (length p) ≤ MAXFILE * BSIZE →
  nmeta + total (<[j := (t, L ++ p)]> F) ≤ FSSIZE →
  ∃ s' O', iappend s (Z.of_nat j + 1) p = Ret s' ∧ inv s' O' (<[j := (t, L ++ p)]> F).
Proof.
  intros [Hd Hsb [Hi Hi2] Hf Hfree] Hj Hmax Hfit. pose proof (lookup_lt_Some _ _ _ Hj) as Hlt. unfold NINODES in Hi2.
  destruct (Hf j t L Hj) as (Ht & HL & a & Es & Ha). destruct (IBLOCK_msb (Z.of_nat j + 1)) as [_ Hb]; [unfold NINODES; lia|].
  pose proof nmeta_eq. pose proof FSSIZE_eq. rewrite (total_insert _ _ _ _ Hj) in Hfit. cbn [snd] in Hfit.
  unfold iappend, rinode. rewrite rsect_ok by (try apply (do_nsect _ _ Hd); lia). cbn [obind]. fold (slot (sect s) (Z.of_nat j + 1)).
  rewrite Es. cbn [d_type d_major d_minor d_nlink d_size d_addrs]. rewrite length_app, Nat2Z.inj_add in Hfit.
  destruct (iappend_loop_ok (length p) s O (Z.of_nat j + 1) a L p) as (s1 & O1 & a1 & -> & L1 & L2 & L3 & L4); [done|done|done|done|lia|].
  cbn [obind]. destruct (file_addrs _ _ _ _ _ L1 L3) as [Hal Hau]. change (MAXFILE * BSIZE) with 71680 in *. pose proof (do_free _ _ Hd).
  assert (Hmeta : ∀ b, b < nmeta → sect s1 b = sect s b).
  { intros b Hb'. apply (gr_keep _ _ _ _ _ L2); [lia|]. by rewrite (do_meta _ _ Hd). }
  destruct (winode_ok s1 O1 (Z.of_nat j + 1) (mkDin t 0 0 1 (Z.of_nat (length (L ++ p))) a1)) as (s2 & -> & W1 & W2 & W3 & W4 & W5 & W6);
    [done|unfold NINODES; lia|unfold fits; cbn [d_type d_major d_minor d_nlink d_size d_addrs]; rewrite length_app; split_and!; done || lia|].
  exists s2, O1. split; [done|]. split; [done|by rewrite W4, Hmeta by lia| | |].
  - rewrite W2, (gr_inode _ _ _ _ _ L2), length_insert. unfold NINODES. lia.
  - intros k t' L' Hk. destruct (decide (k = j)) as [->|Hne].
    + rewrite list_lookup_insert_eq in Hk by done. injection Hk as <- <-. split; [done|]. split; [rewrite length_app; change (MAXFILE * BSIZE) with 71680; lia|].
      exists a1. rewrite W5, decide_True by (unfold NINODES; lia). split; [done|]. apply (file_stay s1 O1); [done|by rewrite W3|].
      intros b r Hb' _. split; [|done]. apply W6. lia.
    + rewrite list_lookup_insert_ne in Hk by done. pose proof (lookup_lt_Some _ _ _ Hk). destruct (Hf k t' L' Hk) as (? & ? & a' & E & Ha').
      split; [done|]. split; [done|]. exists a'. rewrite W5, decide_False by (unfold NINODES; lia). destruct (IBLOCK_msb (Z.of_nat k + 1)) as [_ Hb2]; [unfold NINODES; lia|].
      split; [unfold slot in *; by rewrite Hmeta by lia|]. apply (file_stay s1 O1); [|by rewrite W3|intros b r Hb' _; split; [|done]; apply W6; lia].
      apply (file_other (Z.of_nat j + 1) _ s O); [done|lia|done].
  - rewrite W3, L4, (total_insert _ _ _ _ Hj), length_app, Nat2Z.inj_add. cbn [snd]. rewrite length_app, Nat2Z.inj_add. lia.
Qed.

Lemma append_all_ok chunks : ∀ s O F j t L,
  inv s O F → F !! j = Some (t, L) → Z.of_nat (length L) + Z.of_nat (length (concat chunks)) ≤ MAXFILE * BSIZE →
  nmeta + total (<[j := (t, L ++ concat chunks)]> F) ≤ FSSIZE →
  ∃ s' O', append_all s (Z.of_nat j + 1) chunks = Ret s' ∧ inv s' O' (<[j := (t, L ++ concat chunks)]> F).
Proof.
  induction chunks as [|c chunks IH]; intros s O F j t L Hv Hj Hmax Hfit; cbn [append_all concat] in *.
  { exists s, O. by rewrite app_nil_r, list_insert_id. }
  pose proof (lookup_lt_Some _ _ _ Hj). rewrite length_app in Hmax.
  destruct (iappend_ok s O F j t L c) as (s1 & O1 & -> & Hv1); [done|done|lia| |].
  { rewrite (total_insert _ _ _ _ Hj) in Hfit. rewrite (total_insert _ _ _ _ Hj). cbn [snd] in *. rewrite !length_app in *.
    pose proof (cost_mono (Z.of_nat (length L + length c)) (Z.of_nat (length L + (length c + length (concat chunks))))). lia. }
  cbn [obind]. rewrite app_assoc in Hfit |- *.
  destruct (IH s1 O1 (<[j := (t, L ++ c)]> F) j t (L ++ c)) as (s2 & O2 & -> & Hv2);
    [done|by apply list_lookup_insert_eq|rewrite length_app; lia|by rewrite list_insert_insert_eq|].
  exists s2, O2. by rewrite list_insert_insert_eq in Hv2.
Qed.

Lemma length_strncpy n t : length (name_strncpy n t) = n.
Proof.
  revert t. induction n as [|n IH]; intros [|c t]; [done|done|cbn; by rewrite length_replicate|].
  cbn [name_strncpy]. destruct (Z.eqb c 0); [by rewrite length_replicate|]. cbn. by rewrite IH.
Qed.

Lemma length_dirent n t : length (dirent n t) = 16%nat.
Proof. unfold dirent. by rewrite length_app, length_strncpy. Qed.

Section files.
  Context (host_file : list Z → option (list (list Z))).

(** The bytes of a file of the host, and a name that [main] takes. *)
Definition bytes_of (name : list Z) : list Z := concat (default [] (host_file name)).
Definition good (name : list Z) : Prop :=
  existsb (Z.eqb 47) name = false ∧ host_file name ≠ None ∧ Z.of_nat (length (bytes_of name)) ≤ MAXFILE * BSIZE.

(** The entries of the root directory for files from inode [n] on. *)
Fixpoint entries (n : Z) (names : list (list Z)) : list Z :=
  match names with [] => [] | f :: names => dirent n (skip_underscore f) ++ entries (n + 1) names end.
Definition files_of (names : list (list Z)) : list (Z * list Z) := map (λ f, (T_FILE, bytes_of f)) names.

Lemma add_file_ok s O R G f :
  inv s O ((T_DIR, R) :: G) → good f → 2 + Z.of_nat (length G) < NINODES →
  Z.of_nat (length R) + 16 ≤ MAXFILE * BSIZE →
  let d := dirent (2 + Z.of_nat (length G)) (skip_underscore f) in
  nmeta + total ((T_DIR, R ++ d) :: G ++ [(T_FILE, bytes_of f)]) ≤ FSSIZE →
  ∃ s' O', add_file host_file s f = Ret s' ∧ inv s' O' ((T_DIR, R ++ d) :: G ++ [(T_FILE, bytes_of f)]).
Proof.
  intros Hv (Hs & Hopen & Hmax) Hn HR d Hfit. unfold add_file. rewrite Hs. unfold bytes_of in *. destruct (host_file f) as [chunks|]; [|done]. change (default [] (Some chunks)) with chunks in *.
  destruct (ialloc_ok s O ((T_DIR, R) :: G) T_FILE Hv) as (s1 & -> & Hv1); [cbn [length]; lia|done|]. cbn [obind].
  replace (1 + Z.of_nat (length ((T_DIR, R) :: G))) with (2 + Z.of_nat (length G)) by (cbn [length]; lia). fold d.
  cbn [app] in Hv1. cbn [total] in Hfit. rewrite total_app in Hfit. cbn [total snd] in Hfit.
  pose proof (cost_nonneg (Z.of_nat (length (concat chunks)))).
  destruct (iappend_ok s1 O _ 0 T_DIR R d Hv1) as (s2 & O2 & E2 & Hv2); [done|unfold d; rewrite length_dirent; lia| |].
  { change (<[0%nat := ?x]> (?y :: ?l)) with (x :: l). cbn [total]. rewrite total_app. change (total [(T_FILE, [])]) with 0. cbn [snd]. lia. }
  change (Z.of_nat 0 + 1) with ROOTINO in E2. rewrite E2. cbn [obind]. change (<[0%nat := ?x]> (?y :: ?l)) with (x :: l) in Hv2.
  assert (Hlast : ((T_DIR, R ++ d) :: G ++ [(T_FILE, [])]) !! S (length G) = Some (T_FILE, [])).
  { change ((?x :: ?l) !! S ?k) with (l !! k). by rewrite lookup_app_r, Nat.sub_diag by done. }
  assert (Hins : <[S (length G) := (T_FILE, [] ++ concat chunks)]> ((T_DIR, R ++ d) :: G ++ [(T_FILE, [])]) =
    (T_DIR, R ++ d) :: G ++ [(T_FILE, concat chunks)]).
  { change (<[S ?k := ?y]> (?x :: ?l)) with (x :: <[k := y]> l). by rewrite insert_app_r_alt, Nat.sub_diag by done. }
  destruct (append_all_ok chunks s2 O2 _ _ _ _ Hv2 Hlast) as (s3 & O3 & E3 & Hv3); [cbn [length]; lia| |].
  { rewrite Hins. cbn [total]. rewrite total_app. cbn [total snd]. lia. }
  replace (Z.of_nat (S (length G)) + 1) with (2 + Z.of_nat (length G)) in E3 by lia. rewrite Hins in Hv3. by exists s3, O3.
Qed.

Lemma add_files_ok names : ∀ s O R G,
  inv s O ((T_DIR, R) :: G) → Forall good names → 1 + Z.of_nat (length G) + Z.of_nat (length names) < NINODES →
  Z.of_nat (length R) + 16 * Z.of_nat (length names) ≤ MAXFILE * BSIZE →
  let F := (T_DIR, R ++ entries (2 + Z.of_nat (length G)) names) :: G ++ files_of names in
  nmeta + total F ≤ FSSIZE → ∃ s' O', add_files host_file s names = Ret s' ∧ inv s' O' F.
Proof.
  induction names as [|f names IH]; intros s O R G Hv Hg Hn HR F Hfit; unfold F in *; cbn [add_files entries files_of map length] in *.
  { exists s, O. by rewrite !app_nil_r. }
  apply Forall_cons in Hg as [Hf Hg]. rewrite app_assoc in Hfit |- *. set (d := dirent _ _) in *.
  assert (Hd : length d = 16%nat) by apply length_dirent. fold (files_of names) in *.
  destruct (add_file_ok s O R G f Hv Hf) as (s1 & O1 & -> & Hv1); [lia|lia| |].
  { fold d. cbn [total] in *. rewrite !total_app in *. cbn [total snd] in *. pose proof (total_nonneg (files_of names)).
    pose proof (cost_mono (Z.of_nat (length (R ++ d))) (Z.of_nat (length ((R ++ d) ++ entries (2 + Z.of_nat (length G) + 1) names)))) as Hm.
    rewrite (length_app (R ++ d)) in Hm. rewrite (length_app (R ++ d)) in Hfit. lia. }
  cbn [obind]. fold d in Hv1.
  replace (2 + Z.of_nat (length G) + 1) with (2 + Z.of_nat (length (G ++ [(T_FILE, bytes_of f)]))) in Hfit |- * by (rewrite length_app; cbn [length]; lia).
  change (?x :: files_of names) with ([x] ++ files_of names) in Hfit |- *. rewrite app_assoc in Hfit |- *.
  apply (IH s1 O1); [done|done|rewrite length_app; cbn [length]; lia|rewrite length_app; lia|done].
Qed.
End files.

(** ** The finished image *)

(** The size of the root directory, in whole blocks. *)
Definition dir_size (len : Z) : Z := (len / BSIZE + 1) * BSIZE.
Definition final_size (j : nat) (len : Z) : Z := if decide (j = 0%nat) then dir_size len else len.

(** The image as the kernel reads it: super block, bitmap, inodes with the bytes
    of their files, and no block in two files. *)
Record image_ok (s : img) (F : list (Z * list Z)) : Prop := {
  im_sb : decode_sb (sect s 1) = msb;
  im_layout : layout msb FSSIZE;
  im_used b : 0 ≤ b < FSSIZE → used msb (sect s) b = Z.ltb b (nmeta + total F);
  im_file j t L : F !! j = Some (t, L) →
    ∃ a, slot (sect s) (Z.of_nat j + 1) = mkDin t 0 0 1 (final_size j (Z.of_nat (length L))) a ∧ inode_ok msb (sect s) a ∧
      ∀ o, 0 ≤ o < MAXFILE * BSIZE → content (sect s) a o = nth (Z.to_nat o) L 0;
  im_apart i j y : (i < length F)%nat → (j < length F)%nat →
    owns (sect s) (d_addrs (slot (sect s) (Z.of_nat i + 1))) y → owns (sect s) (d_addrs (slot (sect s) (Z.of_nat j + 1))) y → i = j }.

Lemma first_ok : inv (wsect zeroed 1 (splice zeros 0 sb_bytes)) (λ _, None) [].
Proof.
  rewrite zeroed_eq, wsect_ok by done. split; cbn [sect nsect freeinode freeblock].
  - split; cbn [sect nsect freeinode freeblock]; try done.
    + intros b. unfold upd. by case_decide.
    + intros b Hb. by rewrite upd_ne by (pose proof nmeta_eq; lia).
  - rewrite upd_eq. by vm_compute.
  - done.
  - by intros j t L Hj.
  - done.
Qed.

Lemma bits_set u b : (u ≤ 4096)%nat → 0 ≤ b → bit_set (foldl set_bit zeros (seqZ 0 (Z.of_nat u))) b = Z.ltb b (Z.of_nat u).
Proof.
  intros Hu Hb. assert (Hl : ∀ l d, length (foldl set_bit d l) = length d).
  { intros l. induction l as [|x l IH]; intros d; [done|]. cbn [foldl]. by rewrite IH, length_set_bit. }
  induction u as [|u IH].
  - cbn [foldl seqZ]. change (seqZ 0 (Z.of_nat 0)) with (@nil Z). cbn [foldl]. rewrite bit_set_testbit by done. unfold byte_at. rewrite nth_zeros.
    change (u8 0) with 0. rewrite Z.testbit_0_l. symmetry. apply Z.ltb_ge. lia.
  - rewrite seqZ_snoc, foldl_app. cbn [foldl]. rewrite bit_set_set by (rewrite ?Hl; change (length zeros) with 512%nat; lia). rewrite IH by lia.
    case_bool_decide; destruct (Z.ltb_spec b (Z.of_nat u)), (Z.ltb_spec b (Z.of_nat (S u))); done || lia.
Qed.

(** What a file of the image owns. *)
Lemma owns_owner M O hi n a nb ind y :
  blocks_ok M O hi n a nb ind → owns M a y → ∃ r, nmeta ≤ y < hi ∧ O y = Some (n, r).
Proof.
  intros [Hl Hd Hn Hi] [Hy [->|(k & Hk & <-)]].
  - destruct ind; [|done]. destruct Hi. by exists (-1).
  - exists k. apply Hd. destruct (decide (k < nb)); [lia|]. rewrite Hn in Hy by lia. done.
Qed.

Lemma blocks_inode_ok M O hi n a nb ind :
  blocks_ok M O hi n a nb ind → hi ≤ FSSIZE → (∀ b, nmeta ≤ b < hi → used msb M b = true) → inode_ok msb M a.
Proof.
  intros Hb Hhi Hu. pose proof Hb as [Hl Hd Hn Hi]. split.
  - done.
  - intros y Ho. destruct (owns_owner _ _ _ _ _ _ _ _ Hb Ho) as (r & Hr & _). split; [|by apply Hu]. change (data_start msb) with nmeta. change (sb_size msb) with FSSIZE. lia.
  - intros k k' Hk Hk' Hnz E. destruct (decide (k < nb)); [|rewrite Hn in Hnz by lia; done].
    destruct (decide (k' < nb)); [|rewrite E, Hn in Hnz by lia; done]. destruct (Hd k) as [_ O1]; [lia|]. destruct (Hd k') as [_ O2]; [lia|].
    rewrite E, O2 in O1. by injection O1.
  - intros k Hk Hnz E. destruct (decide (k < nb)); [|rewrite Hn in Hnz by lia; done]. destruct (Hd k) as [_ O1]; [lia|].
    destruct ind; [|rewrite E in Hnz; done]. destruct Hi as [_ O2]. rewrite E, O2 in O1. injection O1. lia.
Qed.

Lemma balloc_ok s O F :
  data_ok s O → freeblock s = nmeta + total F →
  ∃ s', balloc s (freeblock s) = Ret s' ∧ (∀ b, b ≠ 58 → sect s' b = sect s b) ∧ freeblock s' = freeblock s ∧
    ∀ b, 0 ≤ b < FSSIZE → used msb (sect s') b = Z.ltb b (nmeta + total F).
Proof.
  intros Hd Hf. pose proof (do_free _ _ Hd). pose proof FSSIZE_eq. pose proof nmeta_eq. unfold balloc. change (BSIZE * 8) with 4096.
  rewrite (proj2 (Z.ltb_lt _ _)) by lia. rewrite wsect_ok by first [apply (do_nsect _ _ Hd)|done]. eexists. split; [done|].
  cbn [sect freeblock]. change (sb_bmapstart msb) with 58. split_and!; [intros b Hb; by rewrite upd_ne|done|].
  intros b Hb. unfold used, BBLOCK, BPB. change (BSIZE * 8) with 4096. change (sb_bmapstart msb) with 58.
  rewrite Z.div_small, Z.mod_small by lia. change (u32 (0 + 58)) with 58. rewrite upd_eq.
  replace (freeblock s) with (Z.of_nat (Z.to_nat (freeblock s))) by lia. rewrite bits_set by lia. f_equal. lia.
Qed.

Lemma finish_ok s O R G :
  inv s O ((T_DIR, R) :: G) → ∃ s', finish s ROOTINO = Ret s' ∧ image_ok s' ((T_DIR, R) :: G).
Proof.
  intros [Hd Hsb [Hi Hi2] Hf Hfree]. destruct (Hf 0%nat T_DIR R eq_refl) as (_ & HR & a & Es & Ha). change (Z.of_nat 0 + 1) with ROOTINO in *.
  unfold finish, rinode. pose proof nmeta_eq. pose proof FSSIZE_eq. pose proof (do_free _ _ Hd).
  rewrite rsect_ok by first [apply (do_nsect _ _ Hd)|done]. cbn [obind]. fold (slot (sect s) ROOTINO). rewrite Es. cbn [d_type d_major d_minor d_nlink d_size d_addrs].
  fold (dir_size (Z.of_nat (length R))). change (MAXFILE * BSIZE) with 71680 in HR.
  assert (Hds : 0 ≤ dir_size (Z.of_nat (length R)) < 2 ^ 32) by (unfold dir_size, BSIZE; Z.to_euclidean_division_equations; lia).
  rewrite u32_small by done. destruct (file_addrs _ _ _ _ _ Hd Ha) as [Hal Hau].
  destruct (winode_ok s O ROOTINO (mkDin T_DIR 0 0 1 (dir_size (Z.of_nat (length R))) a)) as (s2 & -> & W1 & W2 & W3 & W4 & W5 & W6); [done|done|done|]. cbn [obind].
  destruct (balloc_ok s2 O ((T_DIR, R) :: G)) as (s3 & -> & B1 & B2 & B3); [done|by rewrite W3|]. exists s3. split; [done|].
  unfold NINODES in Hi2. set (F := (T_DIR, R) :: G) in *.
  assert (Hkeep : ∀ b, nmeta ≤ b → sect s3 b = sect s b) by (intros b Hb; rewrite B1 by lia; by apply W6).
  assert (Hslot : ∀ j t L, F !! j = Some (t, L) → ∃ a, slot (sect s3) (Z.of_nat j + 1) = mkDin t 0 0 1 (final_size j (Z.of_nat (length L))) a ∧
    file_ok s3 O (Z.of_nat j + 1) a L).
  { intros j t L Hj. pose proof (lookup_lt_Some _ _ _ Hj). destruct (Hf j t L Hj) as (_ & _ & a' & E & Ha').
    destruct (IBLOCK_msb (Z.of_nat j + 1)) as [_ Hb]; [unfold NINODES; lia|].
    assert (E3 : slot (sect s3) (Z.of_nat j + 1) = slot (sect s2) (Z.of_nat j + 1)) by (unfold slot; by rewrite B1 by lia).
    exists a'. split.
    - rewrite E3, W5 by (unfold NINODES; lia). unfold final_size, ROOTINO. repeat case_decide; try lia; [|done]. subst j. injection Hj as <- <-.
      change (Z.of_nat 0 + 1) with ROOTINO in E. rewrite Es in E. by injection E as ->.
    - apply (file_stay s O); [done|lia|]. intros b r Hb' _. split; [apply Hkeep; lia|done]. }
  split; [by rewrite B1, W4|by apply sample_layout|done| |].
  - intros j t L Hj. destruct (Hslot j t L Hj) as (a' & E & [Fb Fc]). exists a'. split; [done|]. split; [|done].
    apply (blocks_inode_ok _ _ _ _ _ _ _ Fb); [lia|]. intros b Hb. rewrite B3 by lia. apply Z.ltb_lt. lia.
  - intros i j y Hli Hlj Hoi Hoj. destruct (lookup_lt_is_Some_2 _ _ Hli) as [[ti Li] Ei]. destruct (lookup_lt_is_Some_2 _ _ Hlj) as [[tj Lj] Ej].
    destruct (Hslot i ti Li Ei) as (ai & Si & [Fi _]), (Hslot j tj Lj Ej) as (aj & Sj & [Fj _]). rewrite Si in Hoi. rewrite Sj in Hoj.
    destruct (owns_owner _ _ _ _ _ _ _ _ Fi Hoi) as (r & _ & E1), (owns_owner _ _ _ _ _ _ _ _ Fj Hoj) as (r' & _ & E2).
    rewrite E1 in E2. injection E2. lia.
Qed.

(** The files of the image: the root directory, then those named. *)
Definition tree (host_file : list Z → option (list (list Z))) (names : list (list Z)) : list (Z * list Z) :=
  (T_DIR, dirent ROOTINO [46] ++ dirent ROOTINO [46; 46] ++ entries 2 names) :: files_of host_file names.

Lemma mkfs_ok host_file names :
  Forall (good host_file) names → Z.of_nat (length names) ≤ 198 → nmeta + total (tree host_file names) ≤ FSSIZE →
  ∃ s, mkfs host_file names = Ret s ∧ image_ok s (tree host_file names).
Proof.
  intros Hg Hn Hfit. unfold mkfs. set (R1 := dirent ROOTINO [46]). set (R2 := dirent ROOTINO [46; 46]).
  assert (Hc : cost 16 = 1 ∧ cost 32 = 1) by done. pose proof nmeta_eq. pose proof FSSIZE_eq. 
  destruct (ialloc_ok _ _ [] T_DIR first_ok) as (s1 & -> & Hv1); [done|done|]. cbn [obind app length] in *.
  change (1 + Z.of_nat 0) with ROOTINO. change (Z.eqb ROOTINO ROOTINO) with true. cbn [negb].
  destruct (iappend_ok s1 _ _ 0 T_DIR [] R1 Hv1) as (s2 & O2 & E2 & Hv2); [done|done|done|]. change (Z.of_nat 0 + 1) with ROOTINO in E2.
  fold R1. rewrite E2. cbn [obind].
  destruct (iappend_ok s2 _ _ 0 T_DIR R1 R2 Hv2) as (s3 & O3 & E3 & Hv3); [done|done|done|]. change (Z.of_nat 0 + 1) with ROOTINO in E3.
  fold R2. rewrite E3. cbn [obind].
  destruct (add_files_ok host_file names s3 O3 (R1 ++ R2) []) as (s4 & O4 & -> & Hv4);
    [done|done|unfold NINODES; cbn [length]; lia|change (MAXFILE * BSIZE) with 71680; rewrite length_app; unfold R1, R2; rewrite !length_dirent; lia| |].
  { rewrite <- app_assoc. exact Hfit. }
  cbn [obind]. destruct (finish_ok s4 O4 _ _ Hv4) as (s5 & -> & Hok). exists s5. split; [done|]. rewrite <- app_assoc in Hok. exact Hok.
Qed.

(** C16: the image mkfs makes is a file system for the kernel.  When the files named on
    the command line can be read, are at most 198 and fit on the disk, the run ends with
    an image whose super block is the layout, whose bitmap marks exactly the blocks in
    use, and whose inodes hold the root directory with an entry for each file and each
    file with its type, size and bytes; no block is in two files. *)
Theorem mkfs_image creates host_file prog image names :
  creates image = true → Forall (good host_file) names → Z.of_nat (length names) ≤ 198 →
  nmeta + total (tree host_file names) ≤ FSSIZE →
  ∃ s, main creates host_file (prog :: image :: names) = Ret s ∧ image_ok s (tree host_file names).
Proof. intros Hc Hg Hn Hfit. unfold main. rewrite Hc. by apply mkfs_ok. Qed.

(** The files README, in two reads, and _cat. *)
Definition wit_file (name : list Z) : option (list (list Z)) :=
  if decide (name = [95; 99; 97; 116]) then Some [replicate 512 7; replicate 100 8]
  else if decide (name = [82; 69; 65; 68; 77; 69]) then Some [[120; 118; 54]; [10]] else None.

Lemma mkfs_image_witness :
  ∃ s, main (λ _, true) wit_file [[]; []; [82; 69; 65; 68; 77; 69]; [95; 99; 97; 116]] = Ret s ∧
    image_ok s (tree wit_file [[82; 69; 65; 68; 77; 69]; [95; 99; 97; 116]]).
Proof.
  apply (mkfs_image (λ _, true) wit_file [] []); [done| |done|by vm_compute].
  repeat constructor; by vm_compute.
Defined.
