(* ===== verification/Boot.v ===== *)
(** * The boot loader (bootmain.c)

    The loader reads the kernel's ELF file from the disk, sector by sector, and
    puts each segment at its physical address.  The disk controller is the
    interface of the driver.  The theorem states what is in memory when the loader
    enters the kernel. *)
From stdpp Require Import base list strings.
From Stdlib Require Import ZArith Lia.
From S2P Require Import Prelude Memory Swap Demand.
From S2P Require Import Ide.
From S2P Require Import Exec.

Definition SECTSIZE : Z := 512.
(** The scratch space for the ELF header. *)
Definition SCRATCH : Z := 0x10000.

Section boot.
  Context {C : Type} `{Controller C} (fuel : nat).

Fixpoint waitdisk (k : nat) (c : C) : outcome C :=
  match k with
  | O => NoFuel
  | S k =>
      let '(r, c) := inb c 0x1F7 in
      if negb (Z.eqb (Z.land r 0xC0) 0x40) then waitdisk k c else Ret c
  end.

Definition readsect (m : mem) (c : C) (dst offset : Z) : outcome (mem * C) :=
  let! c := waitdisk fuel c in
  let c := outb c 0x1F2 1 in
  let c := outb c 0x1F3 (u8 offset) in
  let c := outb c 0x1F4 (u8 (Z.shiftr offset 8)) in
  let c := outb c 0x1F5 (u8 (Z.shiftr offset 16)) in
  let c := outb c 0x1F6 (u8 (Z.lor (Z.shiftr offset 24) 0xE0)) in
  let c := outb c 0x1F7 0x20 in
  let! c := waitdisk fuel c in
  let '(data, c) := insl c in
  Ret (write_bytes m dst data, c).

Fixpoint readseg_loop (k : nat) (m : mem) (c : C) (pa epa offset : Z) : outcome (mem * C) :=
  if Z.ltb pa epa then
    match k with
    | O => NoFuel
    | S k =>
        let! (m, c) := readsect m c pa offset in
        readseg_loop k m c (u32 (pa + SECTSIZE)) epa (u32 (offset + 1))
    end
  else Ret (m, c).

Definition readseg (m : mem) (c : C) (pa count offset : Z) : outcome (mem * C) :=
  let epa := u32 (pa + count) in
  let pa := u32 (pa - offset mod SECTSIZE) in
  let offset := offset / SECTSIZE + 1 in
  readseg_loop (Z.to_nat (count / SECTSIZE + 2)) m c pa epa offset.

(** The loop over the program headers from [ph]; the fields are at their offsets
    in [struct proghdr]. *)
Fixpoint load_kernel (k : nat) (m : mem) (c : C) (ph eph : Z) : outcome (mem * C) :=
  if Z.ltb ph eph then
    match k with
    | O => NoFuel
    | S k =>
        let off := load32 m (ph + 4) in
        let pa := load32 m (ph + 12) in
        let filesz := load32 m (ph + 16) in
        let memsz := load32 m (ph + 20) in
        let! (m1, c) := readseg m c pa filesz off in
        let m2 := if Z.gtb memsz filesz then stosb m1 (u32 (pa + filesz)) 0 (Z.to_nat (memsz - filesz)) else m1 in
        load_kernel k m2 c (u32 (ph + PROGHDR)) eph
    end
  else Ret (m, c).

(** The entry point the loader calls, or [None] where it returns. *)
Definition bootmain (m : mem) (c : C) : outcome (option Z * mem * C) :=
  let! (m, c) := readseg m c SCRATCH 4096 0 in
  if negb (Z.eqb (load32 m SCRATCH) ELF_MAGIC) then Ret (None, m, c)
  else
    let phnum := load8 m (SCRATCH + 44) + 2 ^ 8 * load8 m (SCRATCH + 45) in
    let ph := u32 (SCRATCH + load32 m (SCRATCH + 28)) in
    let! (m, c) := load_kernel (Z.to_nat phnum) m c ph (u32 (ph + PROGHDR * phnum)) in
    Ret (Some (load32 m (SCRATCH + 24)), m, c).
End boot.

(** ** The file on the disk *)

(** Byte [o] of the kernel file on the sectors [D] from sector 1. *)
Definition kbyte (D : Z → list Z) (o : Z) : Z := u8 (nth (Z.to_nat (o mod SECTSIZE)) (D (o / SECTSIZE + 1)) 0).
Definition kword (D : Z → list Z) (o : Z) : Z :=
  kbyte D o + 2 ^ 8 * kbyte D (o + 1) + 2 ^ 16 * kbyte D (o + 2) + 2 ^ 24 * kbyte D (o + 3).

(** The sectors that hold [count] bytes from [offset]. *)
Definition nsectors (count offset : Z) : Z := (count + offset mod SECTSIZE + 511) / SECTSIZE.

(** A program header, and the bytes of memory its segment takes. *)
Record seg := mkSeg { s_off : Z; s_paddr : Z; s_filesz : Z; s_memsz : Z }.
Definition s_size (s : seg) : Z := Z.max (s_filesz s) (s_memsz s).

(** A segment in memory: from the start of its first sector to the end of its last. *)
Definition seg_lo (pa offset : Z) : Z := pa - offset mod SECTSIZE.
Definition seg_hi (pa count offset : Z) : Z := seg_lo pa offset + SECTSIZE * nsectors count offset.
Definition s_lo (s : seg) : Z := seg_lo (s_paddr s) (s_off s).
Definition s_hi (s : seg) : Z := Z.max (seg_hi (s_paddr s) (s_filesz s) (s_off s)) (s_paddr s + s_memsz s).

(** The segment fits in memory and stays off the headers. *)
Definition placed (s : seg) : Prop :=
  is_u32 (s_off s) ∧ is_u32 (s_filesz s) ∧ is_u32 (s_memsz s) ∧ 0 ≤ s_lo s ∧ s_hi s < 2 ^ 32 ∧
  (s_hi s ≤ SCRATCH ∨ SCRATCH + 4096 ≤ s_lo s).

(** Loading a later segment does not touch an earlier one. *)
Fixpoint ordered (l : list seg) : Prop :=
  match l with
  | [] => True
  | s :: l => Forall (λ t, s_hi t ≤ s_paddr s ∨ s_paddr s + s_size s ≤ s_lo t) l ∧ ordered l
  end.

(** The file [D] is an ELF file with these segments and this entry point. *)
Record bootable (D : Z → list Z) (entry : Z) (segs : list seg) : Prop := {
  bt_length l : length (D l) = 512%nat;
  bt_magic : kword D 0 = ELF_MAGIC;
  bt_entry : kword D 24 = entry;
  bt_phnum : kbyte D 44 + 2 ^ 8 * kbyte D 45 = Z.of_nat (length segs);
  bt_phoff : kword D 28 + PROGHDR * Z.of_nat (length segs) ≤ 4096;
  bt_segs k s : segs !! k = Some s → let ph := kword D 28 + PROGHDR * Z.of_nat k in
    kword D (ph + 4) = s_off s ∧ kword D (ph + 12) = s_paddr s ∧ kword D (ph + 16) = s_filesz s ∧ kword D (ph + 20) = s_memsz s;
  bt_placed : Forall placed segs;
  bt_ordered : ordered segs }.

(** The segment is in memory: its bytes of the file, then zeros. *)
Definition loaded (D : Z → list Z) (m : mem) (s : seg) : Prop :=
  ∀ i, 0 ≤ i < s_size s → load8 m (s_paddr s + i) = if decide (i < s_filesz s) then kbyte D (s_off s + i) else 0.

(** The first page of the file in the scratch space. *)
Lemma kword_load D m o : 0 ≤ o → (∀ i, 0 ≤ i < 4096 → load8 m (SCRATCH + i) = kbyte D i) → o + 4 ≤ 4096 → load32 m (SCRATCH + o) = kword D o.
Proof. intros Ho Hm Hl. unfold load32, kword. rewrite <- !Z.add_assoc, !Hm by lia. done. Qed.

Lemma kword_range D o : is_u32 (kword D o).
Proof.
  unfold is_u32, kword, kbyte. match goal with |- context [u8 ?a + _ * u8 ?b + _ * u8 ?c + _ * u8 ?d] => pose proof (u8_range a); pose proof (u8_range b); pose proof (u8_range c); pose proof (u8_range d) end. lia.
Qed.

(** The header of a segment, at [ph] in memory. *)
Definition header_at (m : mem) (ph : Z) (s : seg) : Prop :=
  load32 m (ph + 4) = s_off s ∧ load32 m (ph + 12) = s_paddr s ∧ load32 m (ph + 16) = s_filesz s ∧ load32 m (ph + 20) = s_memsz s.

Lemma header_ext m m' ph s : (∀ x, ph ≤ x < ph + 32 → load8 m' x = load8 m x) → header_at m ph s → header_at m' ph s.
Proof. intros Hx (? & ? & ? & ?). unfold header_at. by rewrite !(load32_ext m' m) by (intros x Hr; apply Hx; lia). Qed.

Section proofs.
  Context {C : Type} `{Controller C} (patience : nat) `{!ControllerLaws C patience} (fuel : nat) (Hfuel : (patience < fuel)%nat).

Lemma waitdisk_idewait k c : waitdisk k c = (let! (_, c') := idewait k c false in Ret c').
Proof.
  revert c. induction k as [|k IH]; intros c; [done|]. cbn [waitdisk idewait]. destruct (inb c 0x1F7) as [r c'].
  change (Z.lor IDE_BSY IDE_DRDY) with 0xC0. change IDE_DRDY with 0x40. destruct (negb _); [apply IH|done].
Qed.

Lemma lba_bytes n r :
  0 ≤ n < 2 ^ 28 → r 0x1f3 = u8 n → r 0x1f4 = u8 (Z.shiftr n 8) → r 0x1f5 = u8 (Z.shiftr n 16) →
  r 0x1f6 = u8 (Z.lor (Z.shiftr n 24) 0xE0) → drive_of r = 0 ∧ lba_of r = n.
Proof.
  intros Hn H3 H4 H5 H6. unfold drive_of, lba_of. rewrite H3, H4, H5, H6, !Z.shiftr_div_pow2 by lia. clear H3 H4 H5 H6.
  assert (Hh : 0 ≤ n / 2 ^ 24 < 16) by (Z.to_euclidean_division_equations; lia).
  assert (E : Z.land (u8 (Z.lor (n / 2 ^ 24) 0xE0) / 2 ^ 4) 1 = 0 ∧ Z.land (u8 (Z.lor (n / 2 ^ 24) 0xE0)) 0x0f = n / 2 ^ 24).
  { revert Hh. generalize (n / 2 ^ 24). intros h Hh. assert (Hin : h ∈ seqZ 0 16) by (apply elem_of_seqZ; lia). clear Hh.
    revert h Hin. apply Forall_forall. by repeat constructor. }
  destruct E as [-> ->]. split; [done|]. unfold u8. Z.to_euclidean_division_equations. lia.
Qed.

Lemma readsect_ok m c dst n :
  0 ≤ n < 2 ^ 28 → ∃ c', readsect fuel m c dst n = Ret (write_bytes m dst (sectors c 0 n), c') ∧ sectors c' = sectors c.
Proof.
  intros Hn. unfold readsect. rewrite !waitdisk_idewait. destruct (idewait_ok patience fuel Hfuel c false) as (c0 & -> & R0 & S0 & _). cbn [obind].
  match goal with |- context [outb (outb (outb (outb (outb c0 ?a1 ?v1) ?a2 ?v2) ?a3 ?v3) ?a4 ?v4) ?a5 ?v5] =>
    set (c1 := outb (outb (outb (outb (outb c0 a1 v1) a2 v2) a3 v3) a4 v4) a5 v5) end.
  assert (Hr : regs c1 0x1f2 = 1 ∧ drive_of (regs c1) = 0 ∧ lba_of (regs c1) = n).
  { unfold c1. rewrite !regs_outb by lia. split; [done|]. by apply lba_bytes. }
  destruct Hr as (Hc & Hd & Hl). rewrite waitdisk_idewait.
  destruct (idewait_ok patience fuel Hfuel (outb c1 0x1F7 0x20) false) as (c2 & -> & _ & S2 & Hrd). cbn [obind].
  change 0x20 with IDE_CMD_READ in Hrd. rewrite reading_cmd, Hd, Hl in Hrd by done. destruct (insl_read c2 _ _ Hrd) as [I1 I2].
  destruct (insl c2) as [data c3]. cbn [fst snd] in *. exists c3. rewrite I1, I2, S2, sectors_outb. unfold c1. by rewrite !sectors_outb, S0.
Qed.

(** The sectors from [offset] on go to memory from [pa] on, up to the end of the
    last one that starts below [epa]. *)
Lemma readseg_loop_ok k : ∀ m c pa epa offset,
  let n := (epa - pa + 511) / 512 in
  epa ≤ pa + 512 * Z.of_nat k → pa ≤ epa → 0 ≤ pa → pa + 512 * n < 2 ^ 32 → 0 ≤ offset → offset + n < 2 ^ 28 →
  (∀ l, length (sectors c 0 l) = 512%nat) →
  ∃ m' c', readseg_loop fuel k m c pa epa offset = Ret (m', c') ∧ sectors c' = sectors c ∧
    ∀ x, load8 m' x = if decide (pa ≤ x < pa + 512 * n) then u8 (nth (Z.to_nat ((x - pa) mod 512)) (sectors c 0 (offset + (x - pa) / 512)) 0) else load8 m x.
Proof.
  induction k as [|k IH]; intros m c pa epa offset n Hk Hle Hpa Hmem Hoff Hlba Hlen.
  { assert (pa = epa) as -> by lia. exists m, c. cbn [readseg_loop]. rewrite Z.ltb_irrefl. split_and!; [done|done|].
    intros x. rewrite decide_False; [done|]. unfold n. rewrite Z.sub_diag. change ((0 + 511) / 512) with 0. lia. }
  cbn [readseg_loop]. destruct (Z.ltb_spec pa epa) as [Hlt|Hge].
  - assert (Hn : 1 ≤ n) by (unfold n; Z.to_euclidean_division_equations; lia).
    destruct (readsect_ok m c pa offset) as (c1 & -> & S1); [lia|]. cbn [obind]. unfold SECTSIZE.
    destruct (decide (epa ≤ pa + 512)) as [Hlast|Hmore].
    + assert (n = 1) as -> by (unfold n; Z.to_euclidean_division_equations; lia). rewrite !u32_small by (unfold is_u32; lia).
      exists (write_bytes m pa (sectors c 0 offset)), c1. split; [|split; [done|]].
      { destruct k; cbn [readseg_loop]; by rewrite (proj2 (Z.ltb_ge _ _)) by lia. }
      intros x. rewrite write_bytes_spec, Hlen. change (Z.of_nat 512) with 512. rewrite Z.mul_1_r. case_decide; [|done].
      rewrite Z.mod_small, Z.div_small, Z.add_0_r by lia. done.
    + assert (En : (epa - (pa + 512) + 511) / 512 = n - 1) by (unfold n; Z.to_euclidean_division_equations; lia).
      rewrite !u32_small by (unfold is_u32; lia).
      destruct (IH (write_bytes m pa (sectors c 0 offset)) c1 (pa + 512) epa (offset + 1)) as (m2 & c2 & -> & S2 & Hx);
        [lia|lia|lia|rewrite En; lia|lia|rewrite En; lia|by rewrite S1|].
      exists m2, c2. split; [done|]. split; [congruence|]. intros x. rewrite Hx, write_bytes_spec, Hlen, En, S1. change (Z.of_nat 512) with 512.
      repeat case_decide; try lia; try done.
      * f_equal. f_equal; [f_equal|f_equal]; Z.to_euclidean_division_equations; lia.
      * rewrite Z.mod_small, Z.div_small, Z.add_0_r by lia. done.
  - exists m, c. split_and!; [done|done|]. intros x. rewrite decide_False; [done|]. unfold n.
    assert ((epa - pa + 511) / 512 = 0) by (apply Z.div_small; lia). lia.
Qed.

Lemma readseg_ok m c pa count offset :
  0 ≤ seg_lo pa offset → 0 ≤ count → seg_hi pa count offset < 2 ^ 32 → 0 ≤ offset < 2 ^ 32 → (∀ l, length (sectors c 0 l) = 512%nat) →
  ∃ m' c', readseg fuel m c pa count offset = Ret (m', c') ∧ sectors c' = sectors c ∧
    ∀ x, load8 m' x = if decide (seg_lo pa offset ≤ x < seg_hi pa count offset) then kbyte (sectors c 0) (offset + (x - pa)) else load8 m x.
Proof.
  unfold seg_hi, seg_lo, nsectors, readseg, SECTSIZE. intros Hlo Hc Hhi Ho Hlen.
  pose proof (Z.mod_pos_bound offset 512 ltac:(lia)) as Hm. set (r := offset mod 512) in *.
  assert (Hcount : count + r ≤ 512 * ((count + r + 511) / 512)) by (Z.to_euclidean_division_equations; lia).
  assert (Hoe : offset = 512 * (offset / 512) + r) by (apply Z.div_mod; lia). assert (0 ≤ offset / 512 < 2 ^ 23) by (Z.to_euclidean_division_equations; lia).
  assert ((count + r + 511) / 512 < 2 ^ 23) by lia. rewrite !u32_small by (unfold is_u32; lia).
  replace (count + r + 511) with (pa + count - (pa - r) + 511) in * by lia.
  destruct (readseg_loop_ok (Z.to_nat (count / 512 + 2)) m c (pa - r) (pa + count) (offset / 512 + 1)) as (m' & c' & -> & S1 & Hx);
    [Z.to_euclidean_division_equations; lia|lia|lia|lia|lia|lia|done|].
  exists m', c'. split; [done|]. split; [done|]. intros x. rewrite Hx. case_decide as Hin; [|done]. unfold kbyte, SECTSIZE.
  f_equal. f_equal; [f_equal|f_equal]; Z.to_euclidean_division_equations; lia.
Qed.

(** One segment. *)
Lemma load_segment m c s :
  placed s → (∀ l, length (sectors c 0 l) = 512%nat) →
  ∃ m1 c1, readseg fuel m c (s_paddr s) (s_filesz s) (s_off s) = Ret (m1, c1) ∧ sectors c1 = sectors c ∧
    let m2 := if Z.gtb (s_memsz s) (s_filesz s) then stosb m1 (u32 (s_paddr s + s_filesz s)) 0 (Z.to_nat (s_memsz s - s_filesz s)) else m1 in
    loaded (sectors c 0) m2 s ∧ ∀ x, ¬ s_lo s ≤ x < s_hi s → load8 m2 x = load8 m x.
Proof.
  intros (Ho & Hf & Hm & Hlo & Hhi & _) Hlen. unfold is_u32, s_lo, s_hi in *.
  assert (Hcov : s_paddr s + s_filesz s ≤ seg_hi (s_paddr s) (s_filesz s) (s_off s) ∧ seg_lo (s_paddr s) (s_off s) ≤ s_paddr s)
    by (unfold seg_hi, seg_lo, nsectors, SECTSIZE; Z.to_euclidean_division_equations; lia).
  destruct (readseg_ok m c (s_paddr s) (s_filesz s) (s_off s)) as (m1 & c1 & -> & S1 & Hx); [lia|lia|lia|lia|done|].
  exists m1, c1. split; [done|]. split; [done|]. cbv zeta.
  set (m2 := if Z.gtb _ _ then _ else _).
  assert (H2 : ∀ x, load8 m2 x = if decide (s_paddr s + s_filesz s ≤ x < s_paddr s + s_memsz s) then 0 else load8 m1 x).
  { intros x. unfold m2. rewrite Z.gtb_ltb. destruct (Z.ltb_spec (s_filesz s) (s_memsz s)); [|by rewrite decide_False by lia].
    rewrite stosb_spec, u32_small by (unfold is_u32; lia). repeat case_decide; try lia; done. }
  split.
  - intros i Hi. unfold s_size in Hi. rewrite H2, Hx. repeat case_decide; try lia; first [done|f_equal; lia].
  - intros x Hout. rewrite H2, Hx. rewrite !decide_False by lia. done.
Qed.

Lemma load_kernel_ok segs : ∀ m c ph,
  (∀ l, length (sectors c 0 l) = 512%nat) → SCRATCH ≤ ph → ph + 32 * Z.of_nat (length segs) ≤ SCRATCH + 4096 →
  (∀ k s, segs !! k = Some s → header_at m (ph + 32 * Z.of_nat k) s) → Forall placed segs → ordered segs →
  ∃ m' c', load_kernel fuel (length segs) m c ph (ph + 32 * Z.of_nat (length segs)) = Ret (m', c') ∧
    Forall (loaded (sectors c 0) m') segs ∧ ∀ x, Forall (λ s, ¬ s_lo s ≤ x < s_hi s) segs → load8 m' x = load8 m x.
Proof.
  induction segs as [|s segs IH]; intros m c ph Hlen Hlo Hhi Hhdr Hpl Hord.
  { exists m, c. cbn [length load_kernel]. rewrite Z.mul_0_r, Z.add_0_r, Z.ltb_irrefl. split_and!; [done|constructor|done]. }
  cbn [length] in *. apply Forall_cons in Hpl as [Hs Hpl]. destruct Hord as [Hap Hord]. cbn [load_kernel].
  rewrite (proj2 (Z.ltb_lt _ _)) by lia. destruct (Hhdr 0%nat s eq_refl) as (E1 & E2 & E3 & E4). rewrite Z.mul_0_r, Z.add_0_r in *.
  rewrite E1, E2, E3, E4. destruct (load_segment m c s Hs Hlen) as (m1 & c1 & -> & S1 & L & Fr). cbn [obind]. set (m2 := if Z.gtb _ _ then _ else _) in *.
  unfold PROGHDR. unfold SCRATCH in *. rewrite u32_small by (unfold is_u32; lia).
  assert (Hh : ∀ x, 0x10000 ≤ x < 0x10000 + 4096 → load8 m2 x = load8 m x).
  { intros x Hx. apply Fr. destruct Hs as (_ & _ & _ & _ & _ & Hs). unfold SCRATCH in Hs. lia. }
  destruct (IH m2 c1 (ph + 32)) as (m' & c' & E & HL & HF); [by rewrite S1|lia|lia| |done|done|].
  { intros k t Hk. replace (ph + 32 + 32 * Z.of_nat k) with (ph + 32 * Z.of_nat (S k)) by lia. pose proof (lookup_lt_Some _ _ _ Hk).
    apply (header_ext m); [intros x Hx; apply Hh; lia|]. by apply Hhdr. }
  replace (ph + 32 + 32 * Z.of_nat (length segs)) with (ph + 32 * Z.of_nat (S (length segs))) in E by lia. rewrite E. exists m', c'. split; [done|].
  rewrite S1 in HL. split.
  - constructor; [|done]. intros i Hi. rewrite HF; [by apply L|]. eapply Forall_impl; [exact Hap|]. cbn. intros t Ht. lia.
  - intros x Hx. apply Forall_cons in Hx as [Hx1 Hx2]. rewrite HF by done. by apply Fr.
Qed.

Lemma first_page m c :
  (∀ l, length (sectors c 0 l) = 512%nat) →
  ∃ m1 c1, readseg fuel m c SCRATCH 4096 0 = Ret (m1, c1) ∧ sectors c1 = sectors c ∧
    ∀ i, 0 ≤ i < 4096 → load8 m1 (SCRATCH + i) = kbyte (sectors c 0) i.
Proof.
  intros Hl. destruct (readseg_ok m c SCRATCH 4096 0) as (m1 & c1 & -> & S1 & Hx); [done|lia|done|lia|done|].
  exists m1, c1. split_and!; [done|done|]. intros i Hi. rewrite Hx, decide_True; [f_equal; lia|].
  unfold seg_hi, seg_lo, nsectors, SECTSIZE. change (0 mod 512) with 0. change ((4096 + 0 + 511) / 512) with 8. lia.
Qed.

Lemma bootmain_ok m c entry segs :
  bootable (sectors c 0) entry segs →
  ∃ m' c', bootmain fuel m c = Ret (Some entry, m', c') ∧ Forall (loaded (sectors c 0) m') segs.
Proof.
  intros [Bl Bm Be Bn Bo Bs Bp Bd]. unfold bootmain. destruct (first_page m c Bl) as (m1 & c1 & -> & S1 & Hpage).
  cbn [obind]. pose proof (kword_load (sectors c 0) m1 0 ltac:(lia) Hpage ltac:(lia)) as Hmag. rewrite Z.add_0_r in Hmag. rewrite Hmag, Bm.
  change (Z.eqb ELF_MAGIC ELF_MAGIC) with true. cbn [negb]. rewrite !Hpage, Bn by lia. rewrite (kword_load (sectors c 0)) by first [done|lia].
  pose proof (kword_range (sectors c 0) 28) as Hr. unfold is_u32 in Hr. unfold PROGHDR in *. change SCRATCH with 65536 in *.
  rewrite !u32_small by (unfold is_u32; try rewrite u32_small by (unfold is_u32; lia); lia). rewrite Nat2Z.id.
  destruct (load_kernel_ok segs m1 c1 (65536 + kword (sectors c 0) 28)) as (m2 & c2 & -> & HL & HF); [by rewrite S1|unfold SCRATCH; lia|unfold SCRATCH; lia| |done|done|].
  { intros k s Hk. destruct (Bs k s Hk) as (E1 & E2 & E3 & E4). pose proof (lookup_lt_Some _ _ _ Hk). unfold PROGHDR in *.
    unfold header_at. change 65536 with SCRATCH. rewrite <- !Z.add_assoc. rewrite !(kword_load (sectors c 0)) by first [done|lia]. rewrite !Z.add_assoc. done. }
  cbn [obind]. rewrite S1 in HL. exists m2, c2. split; [|done]. repeat f_equal. rewrite <- Be, <- (kword_load (sectors c 0) m1 24) by first [done|lia].
  apply load32_ext. intros x Hxr. change SCRATCH with 65536 in Hxr. apply HF. eapply Forall_impl; [exact Bp|]. cbn. intros s Hs.
  destruct Hs as (_ & _ & _ & _ & _ & Hs). unfold SCRATCH in Hs. lia.
Qed.
End proofs.

(** C26: the boot loader loads the kernel.  When the disk holds an ELF file whose segments
    stay off the headers and off the segments before them, sectors included, the loader
    enters the file's entry point with each segment at its physical address: its bytes
    of the file, and zeros up to its size in memory. *)
Theorem bootmain_loads {C} `{Controller C} (patience : nat) `{!ControllerLaws C patience} fuel (m : mem) (c : C) entry segs :
  (patience < fuel)%nat → bootable (sectors c 0) entry segs →
  ∃ m' c', bootmain fuel m c = Ret (Some entry, m', c') ∧ Forall (loaded (sectors c 0) m') segs.
Proof. intros Hf. by apply (bootmain_ok patience). Qed.

(** A file that is not an ELF file is left alone. *)
Lemma bootmain_no_elf {C} `{Controller C} (patience : nat) `{!ControllerLaws C patience} fuel (m : mem) (c : C) :
  (patience < fuel)%nat → (∀ l, length (sectors c 0 l) = 512%nat) → kword (sectors c 0) 0 ≠ ELF_MAGIC →
  ∃ m' c', bootmain fuel m c = Ret (None, m', c').
Proof.
  intros Hf Hl Hne. unfold bootmain. destruct (first_page patience fuel Hf m c Hl) as (m1 & c1 & -> & _ & Hpage). cbn [obind].
  pose proof (kword_load (sectors c 0) m1 0 ltac:(lia) Hpage ltac:(lia)) as Hmag. rewrite Z.add_0_r in Hmag. rewrite Hmag.
  rewrite (proj2 (Z.eqb_neq _ _)) by done. by eexists _, _.
Qed.

(** A kernel of three bytes and two bytes of zeros. *)
Definition wit_header : list Z :=
  [127; 69; 76; 70] ++ replicate 20 0 ++ [12; 0; 16; 0; 52; 0; 0; 0] ++ replicate 12 0 ++ [1; 0] ++ replicate 6 0 ++
  [1; 0; 0; 0; 0; 2; 0; 0; 0; 0; 0; 0; 0; 0; 16; 0; 3; 0; 0; 0; 5; 0; 0; 0] ++ replicate 436 0.
Definition wit_disk : sim :=
  mkSim (λ _, 0) (λ _ l, if Z.eqb l 1 then wit_header else if Z.eqb l 2 then [7; 8; 9] ++ replicate 509 255 else replicate 512 0) None.
Definition wit_seg : seg := mkSeg 512 0x100000 3 5.

Lemma wit_bootable : bootable (sectors wit_disk 0) 0x10000c [wit_seg].
Proof.
  split.
  - intros l. cbn. by destruct (Z.eqb l 1), (Z.eqb l 2).
  - by vm_compute.
  - by vm_compute.
  - by vm_compute.
  - by vm_compute.
  - intros [|k] s Hk; [|done]. injection Hk as <-. split_and!; by vm_compute.
  - constructor; [|constructor]. split_and!; [by vm_compute..|]. right. by vm_compute.
  - by split.
Qed.

Lemma bootmain_loads_witness :
  ∃ m' c', bootmain 1 (λ _, 77) wit_disk = Ret (Some 0x10000c, m', c') ∧ load8 m' 0x100001 = 8 ∧ load8 m' 0x100004 = 0.
Proof.
  destruct (bootmain_loads 0 1 (λ _, 77) wit_disk 0x10000c [wit_seg] ltac:(lia) wit_bootable) as (m' & c' & E & HL).
  exists m', c'. split; [exact E|]. clear E. apply Forall_cons in HL as [HL _]. split.
  - by apply (HL 1).
  - by apply (HL 4).
Defined.
