(* ===== verification/Mp.v ===== *)
(** * Multiprocessor tables (mp.c, mp.h)

    The search of the BIOS memory for the floating pointer structure, the check of
    the configuration table and the walk over its entries, which gives the
    processors and the I/O APIC.  The fields of the structures are bytes at their
    offsets. *)
From stdpp Require Import base list list_numbers strings.
From Stdlib Require Import ZArith Lia.
From S2P Require Import Prelude Mmu Memory.

Definition MPPROC : Z := 0x00.
Definition MPBUS : Z := 0x01.
Definition MPIOAPIC : Z := 0x02.
Definition MPIOINTR : Z := 0x03.
Definition MPLINTR : Z := 0x04.
Definition NCPU : nat := 8.

(** [sizeof(struct mp)], [struct mpconf], [struct mpproc], [struct mpioapic]. *)
Definition MP_SIZE : Z := 16.
Definition MPCONF_SIZE : Z := 44.
Definition MPPROC_SIZE : Z := 20.
Definition MPIOAPIC_SIZE : Z := 8.

(** The fields the code reads. *)
Definition load16 (m : mem) (a : Z) : Z := load8 m a + 2 ^ 8 * load8 m (a + 1).

Definition mp_physaddr (m : mem) (mp : Z) : Z := load32 m (mp + 4).
Definition mp_imcrp (m : mem) (mp : Z) : Z := load8 m (mp + 12).
Definition conf_length (m : mem) (conf : Z) : Z := load16 m (conf + 4).
Definition conf_version (m : mem) (conf : Z) : Z := load8 m (conf + 6).
Definition conf_lapicaddr (m : mem) (conf : Z) : Z := load32 m (conf + 36).
Definition proc_apicid (m : mem) (p : Z) : Z := load8 m (p + 1).
Definition ioapic_apicno (m : mem) (p : Z) : Z := load8 m (p + 1).

(** What [mpinit] fills: [lapic], the [apicid] of the [ncpu] processors found,
    [ioapicid], and the bytes written to ports. *)
Record mps := mkMps { lapic : Z; apicids : list Z; ioapicid : Z; ports : list (Z * Z) }.

Fixpoint sum_loop (m : mem) (addr : Z) (n : nat) : Z :=
  match n with O => 0 | S n => load8 m addr + sum_loop m (addr + 1) n end.
Definition sum (m : mem) (addr len : Z) : Z := u8 (sum_loop m addr (Z.to_nat len)).

(** [memcmp(p, s, 4) == 0]. *)
Definition is_sign (m : mem) (p : Z) (s : list Z) : bool :=
  forallb (λ k, Z.eqb (load8 m (p + Z.of_nat k)) (nth k s 0)) (seq 0 4).
Definition MP_SIGN : list Z := [95; 77; 80; 95].
Definition PCMP_SIGN : list Z := [80; 67; 77; 80].

Fixpoint mpsearch1_loop (k : nat) (m : mem) (p e : Z) : option Z :=
  match k with
  | O => None
  | S k =>
      if Z.ltb p e then
        if is_sign m p MP_SIGN && Z.eqb (sum m p MP_SIZE) 0 then Some p
        else mpsearch1_loop k m (u32 (p + MP_SIZE)) e
      else None
  end.
Definition mpsearch1 (m : mem) (a len : Z) : option Z :=
  let addr := P2V a in
  let e := u32 (addr + len) in
  mpsearch1_loop (Z.to_nat (len / MP_SIZE + 1)) m addr e.

Definition mpsearch (m : mem) : option Z :=
  let bda := P2V 0x400 in
  let p := Z.shiftl (Z.lor (Z.shiftl (load8 m (bda + 0x0F)) 8) (load8 m (bda + 0x0E))) 4 in
  let first :=
    if negb (Z.eqb p 0) then mpsearch1 m p 1024
    else
      let p := Z.lor (Z.shiftl (load8 m (bda + 0x14)) 8) (load8 m (bda + 0x13)) * 1024 in
      mpsearch1 m (u32 (p - 1024)) 1024 in
  match first with Some mp => Some mp | None => mpsearch1 m 0xF0000 0x10000 end.

(** The table and the structure that points to it. *)
Definition mpconfig (m : mem) : option (Z * Z) :=
  match mpsearch m with
  | None => None
  | Some mp =>
      if Z.eqb (mp_physaddr m mp) 0 then None
      else
        let conf := P2V (mp_physaddr m mp) in
        if negb (is_sign m conf PCMP_SIGN) then None
        else if negb (Z.eqb (conf_version m conf) 1) && negb (Z.eqb (conf_version m conf) 4) then None
        else if negb (Z.eqb (sum m conf (conf_length m conf)) 0) then None
        else Some (conf, mp)
  end.

(** The walk over the entries from [p]; the default case of the [switch] leaves
    the [switch], not the loop. *)
Fixpoint mpinit_loop (k : nat) (m : mem) (p e : Z) (ismp : bool) (s : mps) : outcome (bool * mps) :=
  if Z.ltb p e then
    match k with
    | O => NoFuel
    | S k =>
        let t := load8 m p in
        if Z.eqb t MPPROC then
          let s1 := if Nat.ltb (length (apicids s)) NCPU
                    then mkMps (lapic s) (apicids s ++ [proc_apicid m p]) (ioapicid s) (ports s) else s in
          mpinit_loop k m (u32 (p + MPPROC_SIZE)) e ismp s1
        else if Z.eqb t MPIOAPIC then
          mpinit_loop k m (u32 (p + MPIOAPIC_SIZE)) e ismp (mkMps (lapic s) (apicids s) (ioapic_apicno m p) (ports s))
        else if Z.eqb t MPBUS || Z.eqb t MPIOINTR || Z.eqb t MPLINTR then
          mpinit_loop k m (u32 (p + 8)) e ismp s
        else mpinit_loop k m p e false s
    end
  else Ret (ismp, s).

(** [imcr] is what a read of port 0x23 gives. *)
Definition mpinit (fuel : nat) (imcr : Z) (m : mem) (s : mps) : outcome mps :=
  match mpconfig m with
  | None => Panic "Expect to run on an SMP"
  | Some (conf, mp) =>
      let s1 := mkMps (conf_lapicaddr m conf) (apicids s) (ioapicid s) (ports s) in
      let! (ismp, s2) := mpinit_loop fuel m (u32 (conf + MPCONF_SIZE)) (u32 (conf + conf_length m conf)) true s1 in
      if negb ismp then Panic "Didn't find a suitable machine"
      else if negb (Z.eqb (mp_imcrp m mp) 0) then
        Ret (mkMps (lapic s2) (apicids s2) (ioapicid s2) (ports s2 ++ [(0x22, 0x70); (0x23, Z.lor imcr 1)]))
      else Ret s2
  end.

(** ** The search *)

(** A floating pointer structure at [p]. *)
Definition is_mp (m : mem) (p : Z) : bool := is_sign m p MP_SIGN && Z.eqb (sum m p MP_SIZE) 0.

Lemma mpsearch1_loop_spec k : ∀ m p e,
  0 ≤ p → e + 16 < 2 ^ 32 → e ≤ p + 16 * Z.of_nat k →
  match mpsearch1_loop k m p e with
  | Some q => ∃ j, 0 ≤ j ∧ q = p + 16 * j ∧ q < e ∧ is_mp m q = true ∧ ∀ i, 0 ≤ i < j → is_mp m (p + 16 * i) = false
  | None => ∀ i, 0 ≤ i → p + 16 * i < e → is_mp m (p + 16 * i) = false
  end.
Proof.
  induction k as [|k IH]; intros m p e Hp He Hk; cbn [mpsearch1_loop]; [intros i Hi Hlt; lia|].
  destruct (Z.ltb_spec p e) as [Hlt|Hge]; [|intros i Hi Hlt; lia]. fold (is_mp m p). destruct (is_mp m p) eqn:E.
  { exists 0. rewrite Z.mul_0_r, Z.add_0_r. split_and!; [lia|done|done|done|lia]. }
  unfold MP_SIZE. rewrite u32_small by (unfold is_u32; lia). specialize (IH m (p + 16) e ltac:(lia) He ltac:(lia)).
  assert (Hstep : ∀ i, 0 < i → p + 16 + 16 * (i - 1) = p + 16 * i) by lia. destruct (mpsearch1_loop k m (p + 16) e) as [q|].
  - destruct IH as (j & Hj & Eq & Hq & Hv & Hno). exists (j + 1). split_and!; [lia|lia|done|done|].
    intros i Hi. destruct (decide (i = 0)) as [->|]; [by rewrite Z.mul_0_r, Z.add_0_r|]. rewrite <- Hstep by lia. apply Hno. lia.
  - intros i Hi Hlt'. destruct (decide (i = 0)) as [->|]; [by rewrite Z.mul_0_r, Z.add_0_r|]. rewrite <- Hstep in * by lia. apply IH; lia.
Qed.

(** [mpsearch1] gives the first structure of the area, or there is none. *)
Lemma mpsearch1_spec m a len :
  0 ≤ a → 0 ≤ len → a + KERNBASE + len + 16 < 2 ^ 32 →
  match mpsearch1 m a len with
  | Some q => ∃ j, 0 ≤ j ∧ q = P2V a + 16 * j ∧ q < P2V a + len ∧ is_mp m q = true ∧ ∀ i, 0 ≤ i < j → is_mp m (P2V a + 16 * i) = false
  | None => ∀ i, 0 ≤ i → P2V a + 16 * i < P2V a + len → is_mp m (P2V a + 16 * i) = false
  end.
Proof.
  intros Ha Hl Hw. unfold mpsearch1. assert (E : P2V a = a + KERNBASE) by (unfold P2V; apply u32_small; unfold is_u32, KERNBASE in *; lia).
  rewrite E. rewrite u32_small by (unfold is_u32, KERNBASE in *; lia). apply mpsearch1_loop_spec; [unfold KERNBASE; lia|lia|].
  unfold MP_SIZE. Z.to_euclidean_division_equations. lia.
Qed.

(** The table [mpconfig] accepts. *)
Lemma mpconfig_valid m conf mp :
  mpconfig m = Some (conf, mp) →
  mpsearch m = Some mp ∧ conf = P2V (mp_physaddr m mp) ∧ is_sign m conf PCMP_SIGN = true ∧
  (conf_version m conf = 1 ∨ conf_version m conf = 4) ∧ sum m conf (conf_length m conf) = 0.
Proof.
  unfold mpconfig. destruct (mpsearch m) as [q|]; [|done]. destruct (Z.eqb _ 0); [done|].
  destruct (is_sign m (P2V (mp_physaddr m q)) PCMP_SIGN) eqn:E; cbn [negb]; [|done].
  destruct (Z.eqb_spec (conf_version m (P2V (mp_physaddr m q))) 1), (Z.eqb_spec (conf_version m (P2V (mp_physaddr m q))) 4); cbn [negb andb]; try done;
    destruct (Z.eqb_spec (sum m (P2V (mp_physaddr m q)) (conf_length m (P2V (mp_physaddr m q)))) 0); cbn [negb]; try done; intros Eq; injection Eq as <- <-; tauto.
Qed.

(** ** The entries *)

Inductive entry := EProc (apicid : Z) | EIoapic (apicno : Z) | EOther (type : Z).

Definition entry_size (x : entry) : Z := match x with EProc _ => MPPROC_SIZE | EIoapic _ => MPIOAPIC_SIZE | EOther _ => 8 end.
Definition entry_at (m : mem) (p : Z) (x : entry) : Prop :=
  match x with
  | EProc id => load8 m p = MPPROC ∧ proc_apicid m p = id
  | EIoapic id => load8 m p = MPIOAPIC ∧ ioapic_apicno m p = id
  | EOther t => load8 m p = t ∧ (t = MPBUS ∨ t = MPIOINTR ∨ t = MPLINTR)
  end.

(** The entries [es] from [p] to [q]. *)
Fixpoint table (m : mem) (p : Z) (es : list entry) (q : Z) : Prop :=
  match es with
  | [] => p = q
  | x :: es => entry_at m p x ∧ table m (p + entry_size x) es q
  end.

Definition procs (es : list entry) : list Z := omap (λ x, match x with EProc id => Some id | _ => None end) es.
Definition last_ioapic (id : Z) (es : list entry) : Z := foldl (λ i x, match x with EIoapic j => j | _ => i end) id es.
Definition found (s : mps) (es : list entry) : mps :=
  mkMps (lapic s) (take NCPU (apicids s ++ procs es)) (last_ioapic (ioapicid s) es) (ports s).

Lemma table_le m es : ∀ p q, table m p es q → p + 8 * Z.of_nat (length es) ≤ q.
Proof.
  induction es as [|x es IH]; intros p q; cbn [table length]; [lia|]. intros [_ Ht]. apply IH in Ht.
  destruct x; cbn [entry_size] in Ht; unfold MPPROC_SIZE, MPIOAPIC_SIZE in Ht; lia.
Qed.

(** The state after one entry. *)
Lemma mpinit_entry k m p e ismp s x :
  0 ≤ p → p + entry_size x ≤ e → e < 2 ^ 32 → entry_at m p x → (length (apicids s) ≤ NCPU)%nat →
  mpinit_loop (S k) m p e ismp s = mpinit_loop k m (p + entry_size x) e ismp (found s [x]).
Proof.
  intros Hp Hx He Hat Hn. cbn [mpinit_loop]. rewrite (proj2 (Z.ltb_lt _ _)) by (destruct x; cbn in Hx; unfold MPPROC_SIZE, MPIOAPIC_SIZE in Hx; lia).
  assert (Hu : ∀ z, z = entry_size x → u32 (p + z) = p + z) by (intros z ->; apply u32_small; unfold is_u32; destruct x; cbn in *; unfold MPPROC_SIZE, MPIOAPIC_SIZE in *; lia).
  destruct s as [la ap io po]. cbn [apicids] in Hn. unfold found. cbn [lapic apicids ioapicid ports].
  destruct x as [id|id|t]; cbn [entry_at entry_size procs omap list_omap last_ioapic foldl] in *.
  - destruct Hat as [-> ->]. cbn [Z.eqb MPPROC]. rewrite Hu by done. f_equal. destruct (Nat.ltb_spec (length ap) NCPU) as [Hlt|Hge].
    + rewrite take_ge; [done|]. rewrite length_app. cbn. lia.
    + rewrite take_app_le, take_ge by lia. done.
  - destruct Hat as [-> ->]. cbn [Z.eqb MPIOAPIC MPPROC]. rewrite Hu, app_nil_r, take_ge by (done || lia). done.
  - destruct Hat as [-> Ht]. rewrite app_nil_r, take_ge by lia. rewrite (Hu 8) by done. by destruct Ht as [->|[->| ->]].
Qed.

Lemma found_app s es fs : (length (apicids s) ≤ NCPU)%nat → found (found s es) fs = found s (es ++ fs).
Proof.
  intros Hn. unfold found. cbn [lapic apicids ioapicid ports]. f_equal.
  - unfold procs. rewrite omap_app, app_assoc. generalize (apicids s ++ omap (λ x, match x with EProc id => Some id | _ => None end) es). intros l.
    generalize (omap (λ x, match x with EProc id => Some id | _ => None end) fs). intros l'.
    destruct (decide (length l ≤ NCPU)%nat); [by rewrite (take_ge l)|]. rewrite !take_app_le by (rewrite ?length_take; lia). by rewrite take_take.
  - unfold last_ioapic. by rewrite foldl_app.
Qed.

Lemma found_bound s es : (length (apicids (found s es)) ≤ NCPU)%nat.
Proof. cbn [found apicids]. rewrite length_take. lia. Qed.

Lemma found_nil s : (length (apicids s) ≤ NCPU)%nat → found s [] = s.
Proof. intros Hn. destruct s. unfold found. cbn. by rewrite app_nil_r, take_ge. Qed.

(** The walk passes over the entries. *)
Lemma mpinit_loop_entries es : ∀ k m p q e ismp s,
  0 ≤ p → q ≤ e → e < 2 ^ 32 → table m p es q → (length (apicids s) ≤ NCPU)%nat →
  mpinit_loop (length es + k) m p e ismp s = mpinit_loop k m q e ismp (found s es).
Proof.
  induction es as [|x es IH]; intros k m p q e ismp s Hp Hq He Ht Hn; cbn [table length] in *.
  - subst q. by rewrite found_nil.
  - destruct Ht as [Hx Ht]. pose proof (table_le _ _ _ _ Ht) as Hle. cbn [Nat.add]. rewrite (mpinit_entry _ _ _ _ _ _ x) by (done || lia).
    rewrite (IH k m _ q) by (done || apply found_bound || (destruct x; cbn; unfold MPPROC_SIZE, MPIOAPIC_SIZE; lia)).
    by rewrite found_app.
Qed.

(** At an entry of an unknown type the loop does not advance. *)
Lemma mpinit_loop_stuck es : ∀ k m p q e ismp s,
  0 ≤ p → q < e → e < 2 ^ 32 → table m p es q → 4 < load8 m q → (length (apicids s) ≤ NCPU)%nat →
  mpinit_loop k m p e ismp s = NoFuel.
Proof.
  induction es as [|x es IH]; intros k m p q e ismp s Hp Hq He Ht Hbad Hn; cbn [table] in Ht.
  - subst q. revert ismp. induction k as [|k IHk]; intros ismp; cbn [mpinit_loop]; rewrite (proj2 (Z.ltb_lt _ _)) by lia; [done|].
    unfold MPPROC, MPIOAPIC, MPBUS, MPIOINTR, MPLINTR. rewrite !(proj2 (Z.eqb_neq _ _)) by lia. apply IHk.
  - destruct Ht as [Hx Ht]. pose proof (table_le _ _ _ _ Ht) as Hle. assert (0 < entry_size x) by (by destruct x).
    destruct k as [|k]; [cbn [mpinit_loop]; by rewrite (proj2 (Z.ltb_lt _ _)) by lia|].
    rewrite (mpinit_entry _ _ _ _ _ _ x) by (done || lia). apply (IH k m _ q); (done || lia || apply found_bound).
Qed.

Lemma mpinit_found fuel imcr m s conf mp es :
  mpconfig m = Some (conf, mp) → conf + conf_length m conf < 2 ^ 32 → (length (apicids s) ≤ NCPU)%nat →
  table m (conf + MPCONF_SIZE) es (conf + conf_length m conf) → (length es ≤ fuel)%nat →
  ∃ s', mpinit fuel imcr m s = Ret s' ∧ lapic s' = conf_lapicaddr m conf ∧
    apicids s' = take NCPU (apicids s ++ procs es) ∧ ioapicid s' = last_ioapic (ioapicid s) es.
Proof.
  intros Hc Hw Hn Ht Hf. pose proof (table_le _ _ _ _ Ht). destruct (mpconfig_valid m conf mp Hc) as (_ & Ec & _).
  assert (Hc0 : 0 ≤ conf) by (rewrite Ec; apply u32_range). unfold mpinit. rewrite Hc. rewrite !u32_small by (unfold is_u32, MPCONF_SIZE in *; lia).
  replace fuel with (length es + (fuel - length es))%nat by lia.
  rewrite (mpinit_loop_entries es _ m _ (conf + conf_length m conf)) by (done || (unfold MPCONF_SIZE; lia)).
  assert (Hend : ∀ k p b s, mpinit_loop k m p p b s = Ret (b, s)) by (intros [|k] p b s0; cbn [mpinit_loop]; by rewrite Z.ltb_irrefl).
  rewrite Hend. cbn [obind negb]. by destruct (negb _); eexists.
Qed.

(** C31: the walk over the configuration table.  When the table the search accepts is a
    sequence of known entries, [mpinit] returns with the local APIC's address, the APIC
    ids of the first [NCPU] processor entries in their order and the id of the last I/O
    APIC entry; when an entry of another type stands in the table, it never returns, as
    the branch that should report it leaves only the switch. *)
Theorem mpinit_spec fuel imcr m s conf mp :
  mpconfig m = Some (conf, mp) → conf + conf_length m conf < 2 ^ 32 → (length (apicids s) ≤ NCPU)%nat →
  (∀ es, table m (conf + MPCONF_SIZE) es (conf + conf_length m conf) → (length es ≤ fuel)%nat →
    ∃ s', mpinit fuel imcr m s = Ret s' ∧ lapic s' = conf_lapicaddr m conf ∧
      apicids s' = take NCPU (apicids s ++ procs es) ∧ ioapicid s' = last_ioapic (ioapicid s) es) ∧
  (∀ es q, table m (conf + MPCONF_SIZE) es q → q < conf + conf_length m conf → 4 < load8 m q → mpinit fuel imcr m s = NoFuel).
Proof.
  intros Hc Hw Hn. split; [intros es Ht Hf; by apply (mpinit_found _ _ _ _ _ mp)|].
  intros es q Ht Hq Hbad. pose proof (table_le _ _ _ _ Ht). destruct (mpconfig_valid m conf mp Hc) as (_ & Ec & _).
  assert (Hc0 : 0 ≤ conf) by (rewrite Ec; apply u32_range). unfold mpinit. rewrite Hc. rewrite !u32_small by (unfold is_u32, MPCONF_SIZE in *; lia).
  by rewrite (mpinit_loop_stuck es fuel m _ q) by (done || (unfold MPCONF_SIZE; lia)).
Qed.

(** A table of two processors, a bus and an I/O APIC at physical address 0x9000, found
    through the last kilobyte of base memory. *)
Definition wit_area (a : Z) : Z :=
  let at_ (base : Z) (l : list Z) := nth (Z.to_nat (a - base)) l 0 in
  if Z.leb (P2V 0x413) a && Z.leb a (P2V 0x414) then at_ (P2V 0x413) [128; 2]
  else if Z.leb (P2V 0x9FC00) a && Z.ltb a (P2V 0x9FC10) then at_ (P2V 0x9FC00) [95; 77; 80; 95; 0; 144; 0; 0; 1; 4; 0x10; 0; 0; 0; 0; 0]
  else if Z.leb (P2V 0x9000) a && Z.ltb a (P2V 0x9064) then
    at_ (P2V 0x9000) ([80; 67; 77; 80; 100; 0; 4; 0x73] ++ replicate 28 0 ++ [0; 0; 0xE0; 0xFE] ++ replicate 4 0 ++
      [0; 5] ++ replicate 18 0 ++ [0; 6] ++ replicate 18 0 ++ [1; 0; 0; 0; 0; 0; 0; 0] ++ [2; 9; 0; 0; 0; 0; 0; 0])
  else 0.

Lemma mpinit_spec_witness :
  ∃ s', mpinit 4 0 wit_area (mkMps 0 [] 0 []) = Ret s' ∧ lapic s' = 0xFEE00000 ∧ apicids s' = [5; 6] ∧ ioapicid s' = 9.
Proof.
  destruct (mpinit_spec 4 0 wit_area (mkMps 0 [] 0 []) (P2V 0x9000) (P2V 0x9FC00)) as [H _]; [by vm_compute|by vm_compute|cbn; lia|].
  apply (H [EProc 5; EProc 6; EOther 1; EIoapic 9]); [|cbn; lia]. cbn [table entry_at entry_size]. split_and!; try by vm_compute. by left.
Defined.
