(* ===== verification/Apic.v ===== *)
(** * Interrupt controllers and the clock (lapic.c, ioapic.c, picirq.c)

    The registers of the local APIC, the redirection table of the I/O APIC and the
    CMOS clock are interfaces with the laws of the devices.  The theorems give the
    state the kernel leaves the controllers in and the time [cmostime] reports. *)
From stdpp Require Import base list list_numbers strings.
From Stdlib Require Import ZArith Lia.
From S2P Require Import Prelude Mmu Memory.
From S2P Require Import Trap.

(** ** The local APIC *)

Definition ID : Z := 0x0020 / 4.
Definition VER : Z := 0x0030 / 4.
Definition TPR : Z := 0x0080 / 4.
Definition EOI : Z := 0x00B0 / 4.
Definition SVR : Z := 0x00F0 / 4.
Definition ENABLE : Z := 0x00000100.
Definition ESR : Z := 0x0280 / 4.
Definition ICRLO : Z := 0x0300 / 4.
Definition INIT : Z := 0x00000500.
Definition STARTUP : Z := 0x00000600.
Definition DELIVS : Z := 0x00001000.
Definition ASSERT : Z := 0x00004000.
Definition LEVEL : Z := 0x00008000.
Definition BCAST : Z := 0x00080000.
Definition ICRHI : Z := 0x0310 / 4.
Definition TIMER : Z := 0x0320 / 4.
Definition X1 : Z := 0x0000000B.
Definition PERIODIC : Z := 0x00020000.
Definition PCINT : Z := 0x0340 / 4.
Definition LINT0 : Z := 0x0350 / 4.
Definition LINT1 : Z := 0x0360 / 4.
Definition ERROR : Z := 0x0370 / 4.
Definition MASKED : Z := 0x00010000.
Definition TICR : Z := 0x0380 / 4.
Definition TDCR : Z := 0x03E0 / 4.
Definition IRQ_ERROR : Z := 19.

(** Loads and stores of its registers, by index. *)
Class Lapic (L : Type) := {
  lread : L → Z → Z * L;
  lwrite : L → Z → Z → L }.

(** Byte ports. *)
Class Ports (P : Type) := {
  pout : P → Z → Z → P;
  pin : P → Z → Z * P }.

Section lapic.
  Context {L : Type} `{Lapic L}.

Definition lapicw (l : L) (index value : Z) : L :=
  let l := lwrite l index value in
  (lread l ID).2.

(** [while(lapic[ICRLO] & DELIVS)]. *)
Fixpoint delivered (k : nat) (l : L) : outcome L :=
  match k with
  | O => NoFuel
  | S k => let '(v, l) := lread l ICRLO in if negb (Z.eqb (Z.land v DELIVS) 0) then delivered k l else Ret l
  end.

(** [None] is the null [lapic]. *)
Definition lapicinit (fuel : nat) (lapic : option L) : outcome (option L) :=
  match lapic with
  | None => Ret None
  | Some l =>
      let l := lapicw l SVR (Z.lor ENABLE (T_IRQ0 + IRQ_SPURIOUS)) in
      let l := lapicw l TDCR X1 in
      let l := lapicw l TIMER (Z.lor PERIODIC (T_IRQ0 + IRQ_TIMER)) in
      let l := lapicw l TICR 10000000 in
      let l := lapicw l LINT0 MASKED in
      let l := lapicw l LINT1 MASKED in
      let '(v, l) := lread l VER in
      let l := if Z.geb (Z.land (Z.shiftr v 16) 0xFF) 4 then lapicw l PCINT MASKED else l in
      let l := lapicw l ERROR (T_IRQ0 + IRQ_ERROR) in
      let l := lapicw l ESR 0 in
      let l := lapicw l ESR 0 in
      let l := lapicw l EOI 0 in
      let l := lapicw l ICRHI 0 in
      let l := lapicw l ICRLO (Z.lor (Z.lor BCAST INIT) LEVEL) in
      let! l := delivered fuel l in
      Ret (Some (lapicw l TPR 0))
  end.

Definition lapicid (lapic : option L) : Z * option L :=
  match lapic with
  | None => (0, None)
  | Some l => let '(v, l) := lread l ID in (Z.shiftr v 24, Some l)
  end.

Definition lapiceoi (lapic : option L) : option L :=
  match lapic with None => None | Some l => Some (lapicw l EOI 0) end.

Definition CMOS_PORT : Z := 0x70.
Definition CMOS_RETURN : Z := 0x71.

(** A [ushort] in memory. *)
Definition store16 (m : mem) (a v : Z) : mem := store8 (store8 m a v) (a + 1) (v / 2 ^ 8).

(** The two startup messages. *)
Fixpoint startups (k : nat) (l : L) (apicid addr : Z) : L :=
  match k with
  | O => l
  | S k =>
      let l := lapicw l ICRHI (u32 (Z.shiftl apicid 24)) in
      let l := lapicw l ICRLO (Z.lor STARTUP (Z.shiftr addr 12)) in
      startups k l apicid addr
  end.

Definition lapicstartap {P} `{Ports P} (l : L) (p : P) (m : mem) (apicid addr : Z) : L * P * mem :=
  let p := pout p CMOS_PORT 0xF in
  let p := pout p (CMOS_PORT + 1) 0x0A in
  let wrv := P2V (Z.lor (Z.shiftl 0x40 4) 0x67) in
  let m := store16 m wrv 0 in
  let m := store16 m (wrv + 2) (Z.shiftr addr 4) in
  let l := lapicw l ICRHI (u32 (Z.shiftl apicid 24)) in
  let l := lapicw l ICRLO (Z.lor (Z.lor INIT LEVEL) ASSERT) in
  let l := lapicw l ICRLO (Z.lor INIT LEVEL) in
  (startups 2 l apicid addr, p, m).
End lapic.

(** ** The clock *)

Definition CMOS_STATA : Z := 0x0a.
Definition CMOS_STATB : Z := 0x0b.
Definition CMOS_UIP : Z := Z.shiftl 1 7.
Definition SECS : Z := 0x00.
Definition MINS : Z := 0x02.
Definition HOURS : Z := 0x04.
Definition DAY : Z := 0x07.
Definition MONTH : Z := 0x08.
Definition YEAR : Z := 0x09.

Record rtcdate := mkDate { second : Z; minute : Z; hour : Z; day : Z; month : Z; year : Z }.
#[global] Instance rtcdate_eq : EqDecision rtcdate.
Proof. solve_decision. Defined.

Section clock.
  Context {P : Type} `{Ports P}.

Definition cmos_read (p : P) (reg : Z) : Z * P :=
  let p := pout p CMOS_PORT reg in
  pin p CMOS_RETURN.

Definition fill_rtcdate (p : P) : rtcdate * P :=
  let '(s, p) := cmos_read p SECS in
  let '(mi, p) := cmos_read p MINS in
  let '(h, p) := cmos_read p HOURS in
  let '(d, p) := cmos_read p DAY in
  let '(mo, p) := cmos_read p MONTH in
  let '(y, p) := cmos_read p YEAR in
  (mkDate s mi h d mo y, p).

(** Two equal readings with no update between them. *)
Fixpoint steady (k : nat) (p : P) : outcome (rtcdate * P) :=
  match k with
  | O => NoFuel
  | S k =>
      let '(t1, p) := fill_rtcdate p in
      let '(a, p) := cmos_read p CMOS_STATA in
      if negb (Z.eqb (Z.land a CMOS_UIP) 0) then steady k p
      else
        let '(t2, p) := fill_rtcdate p in
        if decide (t1 = t2) then Ret (t1, p) else steady k p
  end.

Definition CONV (x : Z) : Z := Z.shiftr x 4 * 10 + Z.land x 0xf.

Definition cmostime (fuel : nat) (p : P) : outcome (rtcdate * P) :=
  let '(sb, p) := cmos_read p CMOS_STATB in
  let bcd := Z.eqb (Z.land sb (Z.shiftl 1 2)) 0 in
  let! (t1, p) := steady fuel p in
  let t1 := if bcd then mkDate (CONV (second t1)) (CONV (minute t1)) (CONV (hour t1)) (CONV (day t1)) (CONV (month t1)) (CONV (year t1)) else t1 in
  Ret (mkDate (second t1) (minute t1) (hour t1) (day t1) (month t1) (year t1 + 2000), p).
End clock.

(** ** The I/O APIC and the old controllers *)

Definition REG_ID : Z := 0x00.
Definition REG_VER : Z := 0x01.
Definition REG_TABLE : Z := 0x10.
Definition INT_DISABLED : Z := 0x00010000.

(** The two registers of the controller: the index and the data. *)
Class Ioapic (I : Type) := {
  io_reg : I → Z → I;
  io_get : I → Z * I;
  io_put : I → Z → I }.

Section ioapic.
  Context {I : Type} `{Ioapic I}.

Definition ioapicread (c : I) (reg : Z) : Z * I := io_get (io_reg c reg).
Definition ioapicwrite (c : I) (reg data : Z) : I := io_put (io_reg c reg) data.

Fixpoint ioapic_clear (n : nat) (i : Z) (c : I) : I :=
  match n with
  | O => c
  | S n =>
      let c := ioapicwrite c (REG_TABLE + 2 * i) (Z.lor INT_DISABLED (T_IRQ0 + i)) in
      let c := ioapicwrite c (REG_TABLE + 2 * i + 1) 0 in
      ioapic_clear n (i + 1) c
  end.

(** It also gives whether the warning about [ioapicid] is printed. *)
Definition ioapicinit (c : I) (ioapicid : Z) : bool * I :=
  let '(v, c) := ioapicread c REG_VER in
  let maxintr := Z.land (Z.shiftr v 16) 0xFF in
  let '(w, c) := ioapicread c REG_ID in
  let id := Z.shiftr w 24 in
  (negb (Z.eqb id ioapicid), ioapic_clear (Z.to_nat (maxintr + 1)) 0 c).

Definition ioapicenable (c : I) (irq cpunum : Z) : I :=
  let c := ioapicwrite c (REG_TABLE + 2 * irq) (T_IRQ0 + irq) in
  ioapicwrite c (REG_TABLE + 2 * irq + 1) (u32 (Z.shiftl cpunum 24)).
End ioapic.

Definition IO_PIC1 : Z := 0x20.
Definition IO_PIC2 : Z := 0xA0.

Definition picinit {P} `{Ports P} (p : P) : P := pout (pout p (IO_PIC1 + 1) 0xFF) (IO_PIC2 + 1) 0xFF.

(** ** The local APIC after [lapicinit] *)

(** The registers that keep what is written to them. *)
Definition settings : list Z := [SVR; TDCR; TIMER; TICR; LINT0; LINT1; PCINT; ERROR; TPR].

(** The settings hold what was stored, loads change none, and a message is
    delivered within [patience] loads. *)
Class LapicLaws (L : Type) `{Lapic L} (patience : nat) := {
  lreg : L → Z → Z;
  lreg_write l i v j : j ∈ settings → lreg (lwrite l i v) j = if decide (i = j) then v else lreg l j;
  lreg_read l i j : lreg (lread l i).2 j = lreg l j;
  delivery l : ∃ n, (n ≤ patience)%nat ∧
    Z.land (lread (Nat.iter n (λ l, (lread l ICRLO).2) l) ICRLO).1 DELIVS = 0 }.

Ltac in_settings := apply (bool_decide_unpack _); vm_compute; exact I.

Section lapic_proofs.
  Context {L : Type} `{Lapic L} (patience : nat) `{!LapicLaws L patience}.

Lemma lapicw_reg l i v j : j ∈ settings → lreg (lapicw l i v) j = if decide (i = j) then v else lreg l j.
Proof. intros Hj. unfold lapicw. by rewrite lreg_read, lreg_write. Qed.

Lemma delivered_ok n : ∀ k l,
  (n < k)%nat → Z.land (lread (Nat.iter n (λ l, (lread l ICRLO).2) l) ICRLO).1 DELIVS = 0 →
  ∃ l', delivered k l = Ret l' ∧ ∀ j, lreg l' j = lreg l j.
Proof.
  induction n as [|n IH]; intros k l Hk Hd; (destruct k as [|k]; [lia|]); cbn [delivered]; pose proof (lreg_read l ICRLO) as Hr;
    destruct (lread l ICRLO) as [v l1] eqn:E; cbn [snd] in Hr.
  - cbn [Nat.iter nat_rect fst] in Hd. rewrite E in Hd. cbn [fst] in Hd. rewrite Hd. by exists l1.
  - destruct (negb _); [|by exists l1]. rewrite Nat.iter_succ_r, E in Hd. cbn [snd] in Hd.
    destruct (IH k l1 ltac:(lia) Hd) as (l' & E' & Hl'). exists l'. split; [done|]. intros j. by rewrite Hl', Hr.
Qed.

(** The timer runs, spurious and error interrupts have their vectors, and no other
    source of the local APIC is open. *)
Lemma lapicinit_ok fuel l :
  (patience < fuel)%nat →
  ∃ l', lapicinit fuel (Some l) = Ret (Some l') ∧ lreg l' SVR = Z.lor ENABLE (T_IRQ0 + IRQ_SPURIOUS) ∧
    lreg l' TIMER = Z.lor PERIODIC (T_IRQ0 + IRQ_TIMER) ∧ lreg l' TICR = 10000000 ∧ lreg l' TDCR = X1 ∧
    lreg l' LINT0 = MASKED ∧ lreg l' LINT1 = MASKED ∧ lreg l' ERROR = T_IRQ0 + IRQ_ERROR ∧ lreg l' TPR = 0.
Proof.
  intros Hf. unfold lapicinit. destruct (lread _ VER) as [v l1] eqn:E1. match goal with |- context [delivered fuel ?x] => set (l2 := x) end.
  destruct (delivery l2) as (n & Hn & Hd). destruct (delivered_ok n fuel l2 ltac:(lia) Hd) as (l3 & -> & H3). cbn [obind]. eexists. split; [done|].
  assert (H1 : ∀ j, lreg l1 j = lreg (lread (lapicw (lapicw (lapicw (lapicw (lapicw (lapicw l SVR (Z.lor ENABLE (T_IRQ0 + IRQ_SPURIOUS))) TDCR X1)
    TIMER (Z.lor PERIODIC (T_IRQ0 + IRQ_TIMER))) TICR 10000000) LINT0 MASKED) LINT1 MASKED) VER).2 j) by (intros j; by rewrite E1).
  split_and!; rewrite lapicw_reg by in_settings; try done; rewrite ?decide_False by done; rewrite H3; unfold l2; rewrite !lapicw_reg by in_settings; try done;
    destruct (Z.geb _ 4); rewrite ?lapicw_reg by in_settings; rewrite H1, lreg_read, !lapicw_reg by in_settings; done.
Qed.
End lapic_proofs.

(** ** Starting a processor *)

(** The warm reset vector, an offset and a segment, points at the start-up code. *)
Lemma startap_vector {L P} `{Lapic L, Ports P} (l : L) (p : P) m apicid addr :
  0 ≤ addr < 2 ^ 20 → addr mod 16 = 0 →
  let m' := (lapicstartap l p m apicid addr).2 in
  let word a := load8 m' a + 2 ^ 8 * load8 m' (a + 1) in
  word (P2V 0x467 + 2) * 16 + word (P2V 0x467) = addr.
Proof.
  intros Ha Hm. unfold lapicstartap, store16. cbn [snd]. change (P2V (Z.lor (Z.shiftl 0x40 4) 0x67)) with (P2V 0x467).
  generalize (P2V 0x467). intros w. rewrite !load8_store8. rewrite Z.shiftr_div_pow2 by lia.
  repeat match goal with |- context [Z.eqb ?x ?y] => destruct (Z.eqb_spec x y); try lia end.
  unfold u8. Z.to_euclidean_division_equations. lia.
Qed.

(** ** The time *)

(** A number below 100 in binary-coded decimal. *)
Definition to_bcd (n : Z) : Z := n / 10 * 16 + n mod 10.

Lemma CONV_bcd n : 0 ≤ n < 100 → CONV (to_bcd n) = n.
Proof.
  intros Hn. unfold CONV. change 0xf with (Z.ones 4). rewrite Z.land_ones, Z.shiftr_div_pow2 by lia. unfold to_bcd.
  Z.to_euclidean_division_equations. lia.
Qed.

Section clock_proofs.
  Context {P : Type} `{Ports P} (cmos : P → Z → Z).
  (** Reading a register of the clock gives its value; [still] clocks do not advance
      while they are read. *)
  Context (still : P → Prop).
  Context (read_value : ∀ p r, (cmos_read p r).1 = cmos p r).
  Context (read_still : ∀ p r, still p → still (cmos_read p r).2 ∧ cmos (cmos_read p r).2 = cmos p).

Definition reading_of (f : Z → Z) : rtcdate := mkDate (f SECS) (f MINS) (f HOURS) (f DAY) (f MONTH) (f YEAR).

Lemma read_step p r : still p → ∃ p', cmos_read p r = (cmos p r, p') ∧ still p' ∧ cmos p' = cmos p.
Proof.
  intros Hs. pose proof (read_value p r) as Hv. pose proof (read_still p r Hs) as [H1 H2]. destruct (cmos_read p r) as [v p']. cbn in *. subst v. by exists p'.
Qed.

Lemma fill_rtcdate_still p : still p → ∃ p', fill_rtcdate p = (reading_of (cmos p), p') ∧ still p' ∧ cmos p' = cmos p.
Proof.
  intros Hs. unfold fill_rtcdate, reading_of.
  destruct (read_step p SECS Hs) as (p1 & -> & Hs1 & E1). destruct (read_step p1 MINS Hs1) as (p2 & -> & Hs2 & E2).
  destruct (read_step p2 HOURS Hs2) as (p3 & -> & Hs3 & E3). destruct (read_step p3 DAY Hs3) as (p4 & -> & Hs4 & E4).
  destruct (read_step p4 MONTH Hs4) as (p5 & -> & Hs5 & E5). destruct (read_step p5 YEAR Hs5) as (p6 & -> & Hs6 & E6).
  exists p6. rewrite E6, E5, E4, E3, E2, E1. by split_and!.
Qed.

(** A clock in BCD mode that is still for one round of readings. *)
Lemma cmostime_ok fuel p d :
  still p → Z.land (cmos p CMOS_STATA) CMOS_UIP = 0 → Z.land (cmos p CMOS_STATB) (Z.shiftl 1 2) = 0 →
  reading_of (cmos p) = mkDate (to_bcd (second d)) (to_bcd (minute d)) (to_bcd (hour d)) (to_bcd (day d)) (to_bcd (month d)) (to_bcd (year d)) →
  0 ≤ second d < 60 → 0 ≤ minute d < 60 → 0 ≤ hour d < 24 → 1 ≤ day d ≤ 31 → 1 ≤ month d ≤ 12 → 0 ≤ year d < 100 →
  ∃ p', cmostime (S fuel) p = Ret (mkDate (second d) (minute d) (hour d) (day d) (month d) (year d + 2000), p').
Proof.
  intros Hs Ha Hb Hr H1 H2 H3 H4 H5 H6. unfold cmostime. destruct (read_step p CMOS_STATB Hs) as (p1 & -> & Hs1 & E1). rewrite Hb. change (Z.eqb 0 0) with true.
  cbn [steady]. destruct (fill_rtcdate_still p1 Hs1) as (p2 & -> & Hs2 & E2). destruct (read_step p2 CMOS_STATA Hs2) as (p3 & -> & Hs3 & E3).
  rewrite E2, E1, Ha. change (negb (Z.eqb 0 0)) with false. cbv iota. destruct (fill_rtcdate_still p3 Hs3) as (p4 & -> & Hs4 & E4).
  rewrite decide_True by congruence. cbn [obind]. rewrite Hr. cbn [second minute hour day month year]. exists p4. by rewrite !CONV_bcd by lia.
Qed.
End clock_proofs.

(** ** Routing of interrupts *)

(** The controller's table: the index register selects, the data register stores. *)
Class IoapicLaws (I : Type) `{Ioapic I} := {
  redir : I → Z → Z;
  selected : I → Z;
  reg_redir c r : redir (io_reg c r) = redir c;
  reg_selected c r : selected (io_reg c r) = r;
  get_redir c : redir (io_get c).2 = redir c;
  put_redir c v : REG_TABLE ≤ selected c → redir (io_put c v) = upd (redir c) (selected c) v }.

Section ioapic_proofs.
  Context {I : Type} `{Ioapic I, !IoapicLaws I}.

(** The configuration and the destination of interrupt [i]. *)
Definition route (c : I) (i : Z) : Z * Z := (redir c (REG_TABLE + 2 * i), redir c (REG_TABLE + 2 * i + 1)).

Lemma write_redir c r v : REG_TABLE ≤ r → redir (ioapicwrite c r v) = upd (redir c) r v.
Proof. intros Hr. unfold ioapicwrite. rewrite put_redir; rewrite reg_selected; [by rewrite reg_redir|done]. Qed.

Lemma write_pair c i v w j :
  0 ≤ i → 0 ≤ j →
  route (ioapicwrite (ioapicwrite c (REG_TABLE + 2 * i) v) (REG_TABLE + 2 * i + 1) w) j = if decide (j = i) then (v, w) else route c j.
Proof. intros Hi Hj. unfold route. rewrite !write_redir by lia. unfold upd. repeat case_decide; try lia; done. Qed.

Lemma ioapic_clear_route n : ∀ i c j,
  0 ≤ i → 0 ≤ j →
  route (ioapic_clear n i c) j = if decide (i ≤ j < i + Z.of_nat n) then (Z.lor INT_DISABLED (T_IRQ0 + j), 0) else route c j.
Proof.
  induction n as [|n IH]; intros i c j Hi Hj; cbn [ioapic_clear]; [by rewrite decide_False by lia|].
  rewrite IH, write_pair by lia. repeat case_decide; try lia; subst; done.
Qed.

(** The number of entries the controller reports. *)
Definition maxintr (c : I) : Z := Z.land (Z.shiftr (ioapicread c REG_VER).1 16) 0xFF.

(** After the initialisation and any calls of [ioapicenable], every interrupt of the
    controller is disabled, or has its vector and the processor of the last call. *)
Definition enable_all (c : I) (l : list (Z * Z)) : I := foldl (λ c x, ioapicenable c x.1 x.2) c l.
Fixpoint last_cpu (i : Z) (l : list (Z * Z)) (o : option Z) : option Z :=
  match l with [] => o | x :: l => last_cpu i l (if decide (x.1 = i) then Some x.2 else o) end.

Lemma enable_all_route l : ∀ c i o,
  0 ≤ i → Forall (λ x, 0 ≤ x.1) l →
  route c i = match o with Some cpu => (T_IRQ0 + i, u32 (Z.shiftl cpu 24)) | None => (Z.lor INT_DISABLED (T_IRQ0 + i), 0) end →
  route (enable_all c l) i = match last_cpu i l o with Some cpu => (T_IRQ0 + i, u32 (Z.shiftl cpu 24)) | None => (Z.lor INT_DISABLED (T_IRQ0 + i), 0) end.
Proof.
  induction l as [|x l IH]; intros c i o Hi Hl Hc; [done|]. apply Forall_cons in Hl as [Hx Hl]. cbn [last_cpu]. apply IH; [done|done|].
  unfold ioapicenable. rewrite write_pair by done. repeat case_decide; try lia; subst; done.
Qed.

Lemma ioapicinit_routes c ioapicid l i :
  0 ≤ i ≤ maxintr c → Forall (λ x, 0 ≤ x.1) l →
  route (enable_all (ioapicinit c ioapicid).2 l) i =
    match last_cpu i l None with Some cpu => (T_IRQ0 + i, u32 (Z.shiftl cpu 24)) | None => (Z.lor INT_DISABLED (T_IRQ0 + i), 0) end.
Proof.
  intros Hi Hl. apply enable_all_route; [lia|done|]. unfold ioapicinit, maxintr in *. destruct (ioapicread c REG_VER) as [v c1]. cbn [fst] in Hi.
  destruct (ioapicread c1 REG_ID) as [w c2]. cbn [snd]. by rewrite ioapic_clear_route, decide_True by lia.
Qed.
End ioapic_proofs.

(** Interrupts go where the drivers ask.  After [ioapicinit] and any sequence of calls
    of [ioapicenable], an interrupt of the controller that no driver enabled is disabled
    and has no destination, and one that was enabled has the vector [T_IRQ0] plus its
    number and goes to the processor of the last call for it. *)
Theorem ioapic_routing {I} `{Ioapic I, !IoapicLaws I} (c : I) ioapicid l i :
  0 ≤ i ≤ maxintr c → Forall (λ x, 0 ≤ x.1) l →
  route (enable_all (ioapicinit c ioapicid).2 l) i =
    match last_cpu i l None with Some cpu => (T_IRQ0 + i, u32 (Z.shiftl cpu 24)) | None => (Z.lor INT_DISABLED (T_IRQ0 + i), 0) end.
Proof. apply ioapicinit_routes. Qed.

(** A controller of 24 interrupts. *)
Record chip := mkChip { chip_sel : Z; chip_table : Z → Z }.
#[global] Instance chip_ioapic : Ioapic chip := {
  io_reg c r := mkChip r (chip_table c);
  io_get c := (if Z.eqb (chip_sel c) REG_VER then Z.shiftl 23 16 else chip_table c (chip_sel c), c);
  io_put c v := mkChip (chip_sel c) (upd (chip_table c) (chip_sel c) v) }.
#[global] Instance chip_laws : IoapicLaws chip.
Proof. by refine {| redir := chip_table; selected := chip_sel |}. Defined.

(** The console and the disk, as their initialisers enable them. *)
Lemma ioapic_routing_witness :
  let c := enable_all (ioapicinit (mkChip 0 (λ _, 7)) 0).2 [(IRQ_KBD, 0); (IRQ_IDE, 1)] in
  route c IRQ_IDE = (46, 2 ^ 24) ∧ route c 5 = (0x10025, 0).
Proof.
  split.
  - apply (ioapic_routing (mkChip 0 (λ _, 7)) 0 [(IRQ_KBD, 0); (IRQ_IDE, 1)] IRQ_IDE); [by vm_compute|by repeat constructor].
  - apply (ioapic_routing (mkChip 0 (λ _, 7)) 0 [(IRQ_KBD, 0); (IRQ_IDE, 1)] 5); [by vm_compute|by repeat constructor].
Defined.
