(* ===== verification/Uprogs.v ===== *)
(** * User programs (cat.c, wc.c, echo.c, ls.c, rm.c, mkdir.c, ln.c, kill.c)

    The programs as functions of a kernel's state, over the system calls they make.
    The theorems on cat and wc hold for any sizes of the pieces in which reads
    deliver a file. *)
From stdpp Require Import base list list_numbers strings.
From Stdlib Require Import ZArith Lia FunctionalExtensionality.
From S2P Require Import Prelude Fs.
From S2P Require Import Ulib.

(** The system calls, with their results; [read] gives the bytes it stored. *)
Class User (K : Type) := {
  u_open : K → list Z → Z → Z * K;
  u_read : K → Z → Z → Z * list Z * K;
  u_write : K → Z → list Z → Z * K;
  u_close : K → Z → K;
  u_fstat : K → Z → Z * Fs.stat * K;
  u_unlink : K → list Z → Z * K;
  u_mkdir : K → list Z → Z * K;
  u_link : K → list Z → list Z → Z * K;
  u_kill : K → Z → Z * K }.

(** The parts of a format: text, [%d] and [%s]. *)
Inductive part := T (l : list Z) | D (x : Z) | S_ (l : list Z).

Definition NL : Z := 10.
Definition SP : Z := 32.

(** The bytes of a message. *)
Definition txt (s : string) : list Z := map (λ a, Z.of_N (Ascii.N_of_ascii a)) (String.list_ascii_of_string s).

Section programs.
  Context {K : Type} `{User K} (junk : list Z) (fuel : nat).

Fixpoint format (ps : list part) : outcome (list Z) :=
  match ps with
  | [] => Ret []
  | T l :: ps => let! r := format ps in Ret (l ++ r)
  | D x :: ps => let! t := printint junk (s32 x) 10 true in let! r := format ps in Ret (t ++ r)
  | S_ l :: ps => let! r := format ps in Ret (l ++ r)
  end.

(** [printf(fd, ...)], a byte at a time. *)
Definition print (k : K) (fd : Z) (ps : list part) : outcome K :=
  let! l := format ps in
  Ret (foldl (λ k c, (u_write k fd [c]).2) k l).

(** ** cat *)

(** [true] when [cat] returns, [false] when it exits. *)
Fixpoint cat_loop (n : nat) (k : K) (fd : Z) : outcome (bool * K) :=
  match n with
  | O => NoFuel
  | S n =>
      let '(r, buf, k) := u_read k fd 512 in
      if Z.gtb r 0 then
        let '(w, k) := u_write k 1 buf in
        if negb (Z.eqb w r) then let! k := print k 1 [T (txt "cat: write error" ++ [NL])] in Ret (false, k)
        else cat_loop n k fd
      else if Z.ltb r 0 then let! k := print k 1 [T (txt "cat: read error" ++ [NL])] in Ret (false, k)
      else Ret (true, k)
  end.

Fixpoint cat_files (k : K) (names : list (list Z)) : outcome K :=
  match names with
  | [] => Ret k
  | f :: names =>
      let '(fd, k) := u_open k f 0 in
      if Z.ltb fd 0 then print k 1 [T (txt "cat: cannot open "); S_ f; T [NL]]
      else
        let! (go, k) := cat_loop fuel k fd in
        if go then cat_files (u_close k fd) names else Ret k
  end.

Definition cat_main (k : K) (argv : list (list Z)) : outcome K :=
  match argv with
  | [] | [_] => let! (_, k) := cat_loop fuel k 0 in Ret k
  | _ :: names => cat_files k names
  end.

(** ** wc *)

(** [" \r\t\n\v"]. *)
Definition BLANKS : list Z := [32; 13; 9; 10; 11].
Definition is_blank (c : Z) : bool := bool_decide (c ∈ BLANKS).

(** [l], [w], [c] and [inword]. *)
Record counts := mkCounts { c_lines : Z; c_words : Z; c_bytes : Z; inword : bool }.

Definition count (s : counts) (b : Z) : counts :=
  let c := s32 (c_bytes s + 1) in
  let l := if Z.eqb b NL then s32 (c_lines s + 1) else c_lines s in
  if is_blank b then mkCounts l (c_words s) c false
  else if negb (inword s) then mkCounts l (s32 (c_words s + 1)) c true
  else mkCounts l (c_words s) c (inword s).

Fixpoint wc_loop (n : nat) (k : K) (fd : Z) (s : counts) : outcome (Z * counts * K) :=
  match n with
  | O => NoFuel
  | S n =>
      let '(r, buf, k) := u_read k fd 512 in
      if Z.gtb r 0 then wc_loop n k fd (foldl count s buf) else Ret (r, s, k)
  end.

Definition wc (k : K) (fd : Z) (name : list Z) : outcome (bool * K) :=
  let! (r, s, k) := wc_loop fuel k fd (mkCounts 0 0 0 false) in
  if Z.ltb r 0 then let! k := print k 1 [T (txt "wc: read error" ++ [NL])] in Ret (false, k)
  else
    let! k := print k 1 [D (c_lines s); T [SP]; D (c_words s); T [SP]; D (c_bytes s); T [SP]; S_ name; T [NL]] in
    Ret (true, k).

Fixpoint wc_files (k : K) (names : list (list Z)) : outcome K :=
  match names with
  | [] => Ret k
  | f :: names =>
      let '(fd, k) := u_open k f 0 in
      if Z.ltb fd 0 then print k 1 [T (txt "wc: cannot open "); S_ f; T [NL]]
      else
        let! (go, k) := wc k fd f in
        if go then wc_files (u_close k fd) names else Ret k
  end.

Definition wc_main (k : K) (argv : list (list Z)) : outcome K :=
  match argv with
  | [] | [_] => let! (_, k) := wc k 0 [] in Ret k
  | _ :: names => wc_files k names
  end.

(** ** echo *)

Fixpoint echo_args (k : K) (args : list (list Z)) : outcome K :=
  match args with
  | [] => Ret k
  | a :: args => let! k := print k 1 [S_ a; S_ (match args with [] => [NL] | _ => [SP] end)] in echo_args k args
  end.
Definition echo_main (k : K) (argv : list (list Z)) : outcome K := echo_args k (tail argv).

(** ** rm, mkdir, ln and kill *)

Fixpoint each_until (call : K → list Z → Z * K) (before after : list Z) (k : K) (names : list (list Z)) : outcome K :=
  match names with
  | [] => Ret k
  | f :: names =>
      let '(r, k) := call k f in
      if Z.ltb r 0 then print k 2 [T before; S_ f; T after] else each_until call before after k names
  end.

Definition rm_main (k : K) (argv : list (list Z)) : outcome K :=
  match argv with
  | [] | [_] => print k 2 [T (txt "Usage: rm files..." ++ [NL])]
  | _ :: names => each_until u_unlink (txt "rm: ") (txt " failed to delete" ++ [NL]) k names
  end.

Definition mkdir_main (k : K) (argv : list (list Z)) : outcome K :=
  match argv with
  | [] | [_] => print k 2 [T (txt "Usage: mkdir files..." ++ [NL])]
  | _ :: names => each_until u_mkdir (txt "mkdir: ") (txt " failed to create" ++ [NL]) k names
  end.

Definition ln_main (k : K) (argv : list (list Z)) : outcome K :=
  match argv with
  | [_; old; new] =>
      let '(r, k) := u_link k old new in
      if Z.ltb r 0 then print k 2 [T (txt "link "); S_ old; T [SP]; S_ new; T (txt ": failed" ++ [NL])] else Ret k
  | _ => print k 2 [T (txt "Usage: ln old new" ++ [NL])]
  end.

(** [atoi] of a string. *)
Fixpoint atoi_text (l : list Z) (n : Z) : Z :=
  match l with
  | c :: l => if Z.leb 48 c && Z.leb c 57 then atoi_text l (s32 (n * 10 + c - 48)) else n
  | [] => n
  end.

Definition kill_main (k : K) (argv : list (list Z)) : outcome K :=
  match argv with
  | [] | [_] => print k 2 [T (txt "usage: kill pid..." ++ [NL])]
  | _ :: names => Ret (foldl (λ k a, (u_kill k (atoi_text a 0)).2) k names)
  end.

(** ** ls *)

(** The text after the last slash. *)
Fixpoint after_slash (last path : list Z) : list Z :=
  match path with
  | [] => last
  | c :: path => after_slash (if Z.eqb c 47 then path else last) path
  end.

Definition fmtname (path : list Z) : list Z :=
  let p := after_slash path path in
  if Z.geb (Z.of_nat (length p)) DIRSIZ then p else p ++ replicate (Z.to_nat DIRSIZ - length p) SP.

(** The line of a file. *)
Definition ls_line (path : list Z) (st : Fs.stat) : list part :=
  [S_ (fmtname path); T [SP]; D (st_type st); T [SP]; D (st_ino st); T [SP]; D (st_size st); T [NL]].

Fixpoint ls_entries (n : nat) (k : K) (fd : Z) (path : list Z) : outcome K :=
  match n with
  | O => NoFuel
  | S n =>
      let '(r, de, k) := u_read k fd DIRENT in
      if Z.eqb r DIRENT then
        if Z.eqb (de_inum de) 0 then ls_entries n k fd path
        else
          let buf := path ++ [47] ++ cstring (take (Z.to_nat DIRSIZ) (de_name de)) in
          let '(r, st, k) := Ulib.stat u_open u_fstat u_close k buf (mkStat 0 0 0 0 0) in
          let! k := if Z.ltb r 0 then print k 1 [T (txt "ls: cannot stat "); S_ buf; T [NL]]
                    else print k 1 (ls_line buf st) in
          ls_entries n k fd path
      else Ret k
  end.

Definition ls (k : K) (path : list Z) : outcome K :=
  let '(fd, k) := u_open k path 0 in
  if Z.ltb fd 0 then print k 2 [T (txt "ls: cannot open "); S_ path; T [NL]]
  else
    let '(r, st, k) := u_fstat k fd in
    if Z.ltb r 0 then
      let! k := print k 2 [T (txt "ls: cannot stat "); S_ path; T [NL]] in
      Ret (u_close k fd)
    else
      let! k :=
        if Z.eqb (st_type st) T_FILE then print k 1 (ls_line path st)
        else if Z.eqb (st_type st) T_DIR then
          if Z.gtb (Z.of_nat (length path) + 1 + DIRSIZ + 1) 512 then print k 1 [T (txt "ls: path too long" ++ [NL])]
          else ls_entries fuel k fd path
        else Ret k in
      Ret (u_close k fd).

Fixpoint ls_each (k : K) (names : list (list Z)) : outcome K :=
  match names with
  | [] => Ret k
  | f :: names => let! k := ls k f in ls_each k names
  end.
Definition ls_main (k : K) (argv : list (list Z)) : outcome K :=
  match argv with
  | [] | [_] => ls k [46]
  | _ :: names => ls_each k names
  end.
End programs.

(** ** What the programs rely on *)

(** The files by name, what is left to read on a descriptor, and what was written to
    one.  A read delivers a piece of what is left, of any size up to the one asked for,
    and nothing only at the end; a write takes all its bytes; standard output is not
    one of the files. *)
Class UserLaws (K : Type) `{User K} := {
  file : K → list Z → option (list Z);
  rest : K → Z → list Z;
  out : K → Z → list Z;
  open_some k f d : file k f = Some d →
    0 ≤ (u_open k f 0).1 ∧ rest (u_open k f 0).2 (u_open k f 0).1 = d ∧ out (u_open k f 0).2 = out k ∧ file (u_open k f 0).2 = file k;
  open_none k f : file k f = None → (u_open k f 0).1 = -1 ∧ out (u_open k f 0).2 = out k;
  read_piece k fd n : 0 < n → ∃ buf k', u_read k fd n = (Z.of_nat (length buf), buf, k') ∧ Z.of_nat (length buf) ≤ n ∧
    rest k fd = buf ++ rest k' fd ∧ (buf = [] → rest k fd = []) ∧ out k' = out k ∧ file k' = file k;
  write_all k fd l : ∃ k', u_write k fd l = (Z.of_nat (length l), k') ∧ out k' = upd (out k) fd (out k fd ++ l) ∧ rest k' = rest k ∧ file k' = file k;
  close_keeps k fd : out (u_close k fd) = out k ∧ file (u_close k fd) = file k }.

Section proofs.
  Context {K : Type} `{User K, !UserLaws K} (junk : list Z) (fuel : nat).

Lemma print_ok k fd ps l :
  format junk ps = Ret l → ∃ k', print junk k fd ps = Ret k' ∧ out k' = upd (out k) fd (out k fd ++ l) ∧ rest k' = rest k ∧ file k' = file k.
Proof.
  intros E. unfold print. rewrite E. cbn [obind]. eexists. split; [done|]. clear E. revert k. induction l as [|c l IH]; intros k; cbn [foldl].
  - rewrite app_nil_r. split_and!; try done. extensionality x. unfold upd. case_decide; [by subst|done].
  - destruct (write_all k fd [c]) as (k1 & E1 & O1 & R1 & F1). rewrite E1. cbn [snd]. destruct (IH k1) as (O2 & R2 & F2).
    rewrite O2, R2, F2, O1, R1, F1. split_and!; try done. rewrite upd_eq, <- app_assoc. extensionality x. unfold upd. by case_decide.
Qed.

(** ** cat *)

Lemma cat_loop_ok n : ∀ k fd,
  (length (rest k fd) < n)%nat →
  ∃ k', cat_loop junk n k fd = Ret (true, k') ∧ out k' 1 = out k 1 ++ rest k fd ∧ file k' = file k.
Proof.
  induction n as [|n IH]; intros k fd Hn; [lia|]. cbn [cat_loop].
  destruct (read_piece k fd 512 ltac:(lia)) as (buf & k1 & -> & Hl & Hr & Hend & O1 & F1). rewrite Z.gtb_ltb.
  destruct (Z.ltb_spec 0 (Z.of_nat (length buf))) as [Hpos|Hz].
  - destruct (write_all k1 1 buf) as (k2 & -> & O2 & R2 & F2). rewrite Z.eqb_refl. cbn [negb].
    destruct (IH k2 fd) as (k3 & -> & O3 & F3); [rewrite R2; rewrite Hr, length_app in Hn; lia|].
    exists k3. rewrite O3, O2, upd_eq, R2, O1, F3, F2, F1, Hr, app_assoc. done.
  - destruct buf; [|cbn in Hz; lia]. exists k1. rewrite Hend, O1, F1, app_nil_r by done. done.
Qed.

Lemma cat_files_ok names ds : ∀ k,
  Forall2 (λ f d, file k f = Some d ∧ (length d < fuel)%nat) names ds →
  ∃ k', cat_files junk fuel k names = Ret k' ∧ out k' 1 = out k 1 ++ concat ds.
Proof.
  revert ds. induction names as [|f names IH]; intros ds k Hf; inversion Hf as [|? d ? ds' [Hd Hlen] Hrest]; subst; cbn [cat_files concat].
  { exists k. by rewrite app_nil_r. }
  destruct (open_some k f d Hd) as (H0 & R0 & O0 & F0). destruct (u_open k f 0) as [fd k1]. cbn [fst snd] in *.
  rewrite (proj2 (Z.ltb_ge _ _)) by lia. destruct (cat_loop_ok fuel k1 fd) as (k2 & -> & O2 & F2); [by rewrite R0|]. cbn [obind].
  destruct (close_keeps k2 fd) as [O3 F3]. destruct (IH ds' (u_close k2 fd)) as (k4 & E4 & O4).
  { eapply Forall2_impl; [exact Hrest|]. cbn. by rewrite F3, F2, F0. }
  exists k4. split; [done|]. by rewrite O4, O3, O2, R0, O0, app_assoc.
Qed.

(** ** wc *)

Lemma s32_small x : 0 ≤ x < 2 ^ 31 → s32 x = x.
Proof. intros Hx. unfold s32. rewrite u32_small by (unfold is_u32; lia). by rewrite (proj2 (Z.ltb_lt _ _)) by lia. Qed.

(** The words: the fields between blanks that are not empty; [cur] is the start of one. *)
Fixpoint fields (cur d : list Z) : list (list Z) :=
  match d with
  | [] => if decide (cur = []) then [] else [cur]
  | c :: d => if is_blank c then (if decide (cur = []) then [] else [cur]) ++ fields [] d else fields (cur ++ [c]) d
  end.
Definition lines (d : list Z) : Z := Z.of_nat (length (filter (λ c, c = NL) d)).
Definition nwords (d : list Z) : Z := Z.of_nat (length (fields [] d)).

Lemma count_all d : ∀ l w c cur,
  0 ≤ l ≤ c → 0 ≤ w ≤ c → c + Z.of_nat (length d) < 2 ^ 31 →
  ∃ i, foldl count (mkCounts l w c (bool_decide (cur ≠ []))) d =
    mkCounts (l + lines d) (w + Z.of_nat (length (fields cur d)) - (if decide (cur = []) then 0 else 1)) (c + Z.of_nat (length d)) i.
Proof.
  induction d as [|b d IH]; intros l w c cur Hl Hw Hc; cbn [foldl length] in *.
  { eexists. change (lines []) with 0. cbn [fields length]. destruct (decide (cur = [])); cbn [length]; f_equal; lia. }
  assert (Hs : ∀ x, 0 ≤ x ≤ c → s32 (x + 1) = x + 1) by (intros x Hx; apply s32_small; lia).
  unfold count at 2. cbn [c_lines c_words c_bytes inword]. rewrite !Hs by lia. unfold lines. rewrite filter_cons. cbn [fields].
  assert (HL : (if Z.eqb b NL then l + 1 else l) + lines d = l + Z.of_nat (length (if decide (b = NL) then b :: filter (λ c0, c0 = NL) d else filter (λ c0, c0 = NL) d))).
  { unfold lines. destruct (Z.eqb_spec b NL); [rewrite decide_True by done; cbn [length]; lia|rewrite decide_False by done; done]. }
  assert (0 ≤ (if Z.eqb b NL then l + 1 else l) ≤ c + 1) by (destruct (Z.eqb b NL); lia).
  destruct (is_blank b) eqn:Eb.
  - destruct (IH (if Z.eqb b NL then l + 1 else l) w (c + 1) []) as [i Hi]; [lia|lia|lia|]. rewrite bool_decide_false in Hi by tauto. rewrite Hi. exists i. rewrite <- HL, length_app.
    rewrite decide_True by done. destruct (decide (cur = [])); cbn [length]; f_equal; lia.
  - destruct (decide (cur = [])) as [->|Hne].
    + rewrite bool_decide_false by tauto. cbn [negb]. destruct (IH (if Z.eqb b NL then l + 1 else l) (w + 1) (c + 1) [b]) as [i Hi]; [lia|lia|lia|].
      rewrite bool_decide_true in Hi by done. rewrite Hi. exists i. rewrite <- HL. cbn [app]. rewrite decide_False by done. f_equal; lia.
    + rewrite bool_decide_true by done. cbn [negb]. destruct (IH (if Z.eqb b NL then l + 1 else l) w (c + 1) (cur ++ [b])) as [i Hi]; [lia|lia|lia|].
      assert (cur ++ [b] ≠ []) by (by destruct cur). rewrite bool_decide_true in Hi by done. rewrite Hi. exists i. rewrite <- HL. rewrite decide_False by done. f_equal; lia.
Qed.

Lemma wc_loop_ok n : ∀ k fd s,
  (length (rest k fd) < n)%nat →
  ∃ k', wc_loop n k fd s = Ret (0, foldl count s (rest k fd), k') ∧ out k' = out k ∧ file k' = file k.
Proof.
  induction n as [|n IH]; intros k fd s Hn; [lia|]. cbn [wc_loop].
  destruct (read_piece k fd 512 ltac:(lia)) as (buf & k1 & -> & Hl & Hr & Hend & O1 & F1). rewrite Z.gtb_ltb.
  destruct (Z.ltb_spec 0 (Z.of_nat (length buf))) as [Hpos|Hz].
  - destruct (IH k1 fd (foldl count s buf)) as (k2 & -> & O2 & F2); [rewrite Hr, length_app in Hn; lia|].
    exists k2. rewrite Hr, foldl_app, O2, F2, O1, F1. done.
  - destruct buf; [|cbn in Hz; lia]. exists k1. rewrite Hend by done. by rewrite O1, F1.
Qed.

(** The line for a file with the bytes [d]. *)
Definition wc_line (f d line : list Z) : Prop :=
  ∃ tl tw tc, number_text DIGITS_UPPER 10 (lines d) true tl ∧ number_text DIGITS_UPPER 10 (nwords d) true tw ∧
    number_text DIGITS_UPPER 10 (Z.of_nat (length d)) true tc ∧ line = tl ++ [SP] ++ tw ++ [SP] ++ tc ++ [SP] ++ f ++ [NL].

Lemma number_ok_dec x : length junk = 16%nat → 0 ≤ x < 2 ^ 31 → ∃ t, printint junk (s32 x) 10 true = Ret t ∧ number_text DIGITS_UPPER 10 x true t.
Proof. intros Hj Hx. destruct (printint_ok junk x 10 true Hj ltac:(by left)) as (t & E & Ht). rewrite s32_small in Ht by done. by exists t. Qed.

Lemma fields_le d : ∀ cur, (length (fields cur d) ≤ length d + (if decide (cur = []) then 0 else 1))%nat.
Proof.
  induction d as [|b d IH]; intros cur; cbn [fields length]; [by destruct (decide (cur = []))|]. destruct (is_blank b).
  - specialize (IH []). rewrite decide_True in IH by done. rewrite length_app. destruct (decide (cur = [])); cbn [length]; lia.
  - specialize (IH (cur ++ [b])). rewrite decide_False in IH by (by destruct cur). destruct (decide (cur = [])); lia.
Qed.

Lemma wc_ok k fd f :
  length junk = 16%nat → (length (rest k fd) < fuel)%nat → Z.of_nat (length (rest k fd)) < 2 ^ 31 →
  ∃ k' line, wc junk fuel k fd f = Ret (true, k') ∧ wc_line f (rest k fd) line ∧ out k' 1 = out k 1 ++ line ∧ file k' = file k.
Proof.
  intros Hj Hf Hb. set (d := rest k fd) in *. unfold wc.
  destruct (wc_loop_ok fuel k fd (mkCounts 0 0 0 false) Hf) as (k1 & -> & O1 & F1). cbn [obind]. change (Z.ltb 0 0) with false. cbv iota.
  destruct (count_all d 0 0 0 []) as [i E]; [lia|lia|lia|]. rewrite bool_decide_false in E by tauto. fold d. rewrite E. cbn [c_lines c_words c_bytes].
  rewrite decide_True by done. rewrite !Z.add_0_l, Z.sub_0_r. fold (nwords d).
  assert (Hl : 0 ≤ lines d < 2 ^ 31) by (unfold lines; pose proof (length_filter (λ c, c = NL) d); lia).
  assert (Hw : 0 ≤ nwords d < 2 ^ 31) by (unfold nwords; pose proof (fields_le d []) as Hle; rewrite decide_True in Hle by done; lia).
  destruct (number_ok_dec (lines d) Hj Hl) as (tl & El & Tl). destruct (number_ok_dec (nwords d) Hj Hw) as (tw & Ew & Tw).
  destruct (number_ok_dec (Z.of_nat (length d)) Hj) as (tc & Ec & Tc); [lia|].
  destruct (print_ok k1 1 [D (lines d); T [SP]; D (nwords d); T [SP]; D (Z.of_nat (length d)); T [SP]; S_ f; T [NL]] (tl ++ [SP] ++ tw ++ [SP] ++ tc ++ [SP] ++ f ++ [NL])) as (k2 & -> & O2 & _ & F2).
  { cbn [format]. rewrite El, Ew, Ec. cbn [obind]. by rewrite app_nil_r. }
  cbn [obind]. exists k2, (tl ++ [SP] ++ tw ++ [SP] ++ tc ++ [SP] ++ f ++ [NL]). split_and!; [done|by exists tl, tw, tc|by rewrite O2, upd_eq, O1|congruence].
Qed.

Lemma wc_files_ok names ds : ∀ k,
  length junk = 16%nat → Forall2 (λ f d, file k f = Some d ∧ (length d < fuel)%nat ∧ Z.of_nat (length d) < 2 ^ 31) names ds →
  ∃ k' ls, wc_files junk fuel k names = Ret k' ∧ Forall2 (λ fd l, wc_line fd.1 fd.2 l) (zip names ds) ls ∧ out k' 1 = out k 1 ++ concat ls.
Proof.
  revert ds. induction names as [|f names IH]; intros ds k Hj Hf; inversion Hf as [|? d ? ds' (Hd & Hlen & Hsz) Hrest]; subst; cbn [wc_files zip zip_with].
  { exists k, []. rewrite app_nil_r. split_and!; [done|constructor|done]. }
  destruct (open_some k f d Hd) as (H0 & R0 & O0 & F0). destruct (u_open k f 0) as [fd k1]. cbn [fst snd] in *.
  rewrite (proj2 (Z.ltb_ge _ _)) by lia. destruct (wc_ok k1 fd f Hj) as (k2 & line & -> & HL & O2 & F2); [by rewrite R0|by rewrite R0|]. cbn [obind].
  destruct (close_keeps k2 fd) as [O3 F3]. destruct (IH ds' (u_close k2 fd) Hj) as (k4 & ls & E4 & HLs & O4).
  { eapply Forall2_impl; [exact Hrest|]. cbn. by rewrite F3, F2, F0. }
  exists k4, (line :: ls). split; [done|]. rewrite R0 in HL. split; [by constructor|]. cbn [concat]. by rewrite O4, O3, O2, O0, app_assoc.
Qed.
End proofs.

(** The arguments of echo, with blanks between them and a newline. *)
Fixpoint echo_text (args : list (list Z)) : list Z :=
  match args with
  | [] => []
  | a :: args => a ++ match args with [] => [NL] | _ => [SP] end ++ echo_text args
  end.

Lemma echo_ok {K} `{User K, !UserLaws K} junk args : ∀ (k : K), ∃ k', echo_args junk k args = Ret k' ∧ out k' 1 = out k 1 ++ echo_text args.
Proof.
  induction args as [|a args IH]; intros k; cbn [echo_args echo_text]; [exists k; by rewrite app_nil_r|].
  destruct (print_ok junk k 1 [S_ a; S_ (match args with [] => [NL] | _ => [SP] end)] (a ++ (match args with [] => [NL] | _ => [SP] end))) as (k1 & -> & O1 & _).
  { cbn [format obind]. by rewrite app_nil_r. }
  cbn [obind]. destruct (IH k1) as (k2 & -> & O2). exists k2. rewrite O2, O1, upd_eq, <- !app_assoc. done.
Qed.

(** A name without slashes, after a directory, is shown padded to [DIRSIZ] bytes. *)
Lemma after_slash_name dir name last : 47 ∉ name → after_slash last (dir ++ 47 :: name) = name.
Proof.
  intros Hn. assert (Hl : ∀ l x, 47 ∉ l → after_slash x l = x).
  { induction l as [|c l IH]; intros x Hc; [done|]. cbn [after_slash]. apply not_elem_of_cons in Hc as [Hc1 Hc2].
    rewrite (proj2 (Z.eqb_neq _ _)) by done. by apply IH. }
  revert last. induction dir as [|c dir IH]; intros last; cbn [app after_slash]; [change (Z.eqb 47 47) with true; by apply Hl|apply IH].
Qed.

Lemma fmtname_spec dir name :
  47 ∉ name → Z.of_nat (length name) ≤ DIRSIZ →
  fmtname (dir ++ 47 :: name) = name ++ replicate (Z.to_nat DIRSIZ - length name) SP.
Proof.
  intros Hn Hl. unfold fmtname. rewrite after_slash_name by done. rewrite Z.geb_leb. destruct (Z.leb_spec DIRSIZ (Z.of_nat (length name))); [|done].
  replace (Z.to_nat DIRSIZ - length name)%nat with 0%nat by lia. by rewrite app_nil_r.
Qed.

(** Cat copies its files.  When the files named on the command line can be opened, cat
    ends and has written their bytes to standard output, one file after the other, in
    whatever pieces the reads delivered them. *)
Theorem cat_copies {K} `{User K, !UserLaws K} junk fuel (k : K) prog names ds :
  names ≠ [] → Forall2 (λ f d, file k f = Some d ∧ (length d < fuel)%nat) names ds →
  ∃ k', cat_main junk fuel k (prog :: names) = Ret k' ∧ out k' 1 = out k 1 ++ concat ds.
Proof. intros Hne Hf. destruct names as [|f names]; [done|]. by apply cat_files_ok. Qed.

(** C32: wc counts its files.  For each file wc prints, in decimal, the newlines, the words
    (the non-empty fields between blanks) and the bytes of the whole file, and its name;
    a word that lies in two reads is counted once. *)
Theorem wc_counts {K} `{User K, !UserLaws K} junk fuel (k : K) prog names ds :
  names ≠ [] → length junk = 16%nat →
  Forall2 (λ f d, file k f = Some d ∧ (length d < fuel)%nat ∧ Z.of_nat (length d) < 2 ^ 31) names ds →
  ∃ k' ls, wc_main junk fuel k (prog :: names) = Ret k' ∧ Forall2 (λ fd l, wc_line fd.1 fd.2 l) (zip names ds) ls ∧
    out k' 1 = out k 1 ++ concat ls.
Proof. intros Hne Hj Hf. destruct names as [|f names]; [done|]. by apply wc_files_ok. Qed.

(** A kernel whose reads deliver three bytes at most. *)
Record toyk := mkToyk { t_files : list Z → option (list Z); t_rest : Z → list Z; t_out : Z → list Z }.

#[global] Instance toy_user : User toyk := {
  u_open k f _ := match t_files k f with Some d => (3, mkToyk (t_files k) (upd (t_rest k) 3 d) (t_out k)) | None => (-1, k) end;
  u_read k fd n :=
    let b := take (Z.to_nat (Z.min n 3)) (t_rest k fd) in
    (Z.of_nat (length b), b, mkToyk (t_files k) (upd (t_rest k) fd (drop (Z.to_nat (Z.min n 3)) (t_rest k fd))) (t_out k));
  u_write k fd l := (Z.of_nat (length l), mkToyk (t_files k) (t_rest k) (upd (t_out k) fd (t_out k fd ++ l)));
  u_close k _ := k;
  u_fstat k _ := (-1, mkStat 0 0 0 0 0, k);
  u_unlink k _ := (-1, k);
  u_mkdir k _ := (-1, k);
  u_link k _ _ := (-1, k);
  u_kill k _ := (-1, k) }.

#[global] Instance toy_user_laws : UserLaws toyk.
Proof.
  refine {| file := t_files; rest := t_rest; out := t_out |}.
  - intros k f d E. cbn. rewrite E. cbn. rewrite upd_eq. split_and!; done || lia.
  - intros k f E. cbn. by rewrite E.
  - intros k fd n Hn. cbn. eexists _, _. split; [reflexivity|]. cbn. rewrite length_take, upd_eq, take_drop. split_and!; [lia|done| |done|done].
    intros E. destruct (t_rest k fd) as [|c l]; [done|]. by replace (Z.to_nat (Z.min n 3)) with (S (Z.to_nat (Z.min n 3) - 1)) in E by lia.
  - intros k fd l. eexists. split; [reflexivity|]. done.
  - done.
Defined.

Definition wit_user : toyk := mkToyk (λ f, if decide (f = [97]) then Some [104; 105; 32; 120; 118; 54; 10] else None) (λ _, []) (λ _, []).

Lemma cat_copies_witness :
  ∃ k', cat_main [] 8 wit_user [[]; [97]; [97]] = Ret k' ∧ out k' 1 = [104; 105; 32; 120; 118; 54; 10; 104; 105; 32; 120; 118; 54; 10].
Proof.
  destruct (cat_copies [] 8 wit_user [] [[97]; [97]] [[104; 105; 32; 120; 118; 54; 10]; [104; 105; 32; 120; 118; 54; 10]]) as (k' & E & O); [done|repeat constructor|].
  exists k'. split; [exact E|]. rewrite O. by vm_compute.
Defined.

Lemma wc_counts_witness :
  ∃ k' ls, wc_main (replicate 16 0) 8 wit_user [[]; [97]] = Ret k' ∧
    Forall2 (λ fd l, wc_line fd.1 fd.2 l) [([97], [104; 105; 32; 120; 118; 54; 10])] ls ∧ out k' 1 = concat ls.
Proof.
  destruct (wc_counts (replicate 16 0) 8 wit_user [] [[97]] [[104; 105; 32; 120; 118; 54; 10]]) as (k' & ls & E & L & O); [done|done|repeat constructor|].
  exists k', ls. split; [exact E|]. split; [exact L|]. rewrite O. done.
Defined.
